(** * Tagged file browser: disk/database reconciliation, job queue, path mapping

    A shallow embedding of the server of the tagged file browser.  Two builds
    of [server.js] are in the repository: the older one (kept in module
    [Legacy] below) scans one directory level and never schedules cleanup
    from its discovery pass; the current one adds the recursive sync
    [discoverAndSyncFolderRecursive], the folder rename and the zip download.
    Both share the job queue, the path helper and the listing handlers.

    Modelling conventions.
    - JavaScript strings are [string]s of 8-bit characters; the operations
      used by the server ([split], [join], [lastIndexOf], [slice], [replace]
      of a single character) act character by character, so the code unit
      width plays no role.
    - [path] is Node's POSIX implementation ([path.posix]): [/] is the only
      separator and a backslash is an ordinary character of a name.
    - The SQL text is interpreted on tables that are lists of rows; [LIKE],
      [LEN] and [SUBSTRING] follow Transact-SQL ([%], [_] and bracket
      wildcards, [LEN] without trailing blanks), string comparison is exact
      (binary collation).  Constraints of the schema other than the foreign
      keys created by [ensureFolderTagsTable] are not part of the sources and
      are not enforced, so an INSERT always succeeds and takes the next
      IDENTITY value.
    - A request handler or a background job runs without another handler
      touching the store or the disk between its own steps. *)

From Stdlib Require Import List Bool Arith ZArith Lia Ascii String Setoid Sorted.
Import ListNotations.

Local Open Scope string_scope.
Local Open Scope list_scope.

Infix "+++" := String.append (right associativity, at level 60).

(** ** Strings as JavaScript uses them *)

Module Str.

Definition nonempty (s : string) : bool := negb (s =? "").

(** [s.split(c)]: never empty, [("").split(c) = [""]]. *)
Fixpoint split_on (c : ascii) (s : string) : list string :=
  match s with
  | EmptyString => [""]
  | String a s' =>
      if Ascii.eqb a c then "" :: split_on c s'
      else match split_on c s' with
           | [] => [String a ""]
           | h :: t => String a h :: t
           end
  end.

(** [l.join(sep)] *)
Fixpoint join_with (sep : string) (l : list string) : string :=
  match l with
  | [] => ""
  | [x] => x
  | x :: rest => x +++ sep +++ join_with sep rest
  end.

Fixpoint has_char (c : ascii) (s : string) : bool :=
  match s with
  | EmptyString => false
  | String a s' => Ascii.eqb a c || has_char c s'
  end.

(** [s.replace(/a/g, b)] for a single character [a]. *)
Fixpoint replace_char (a b : ascii) (s : string) : string :=
  match s with
  | EmptyString => ""
  | String x s' => String (if Ascii.eqb x a then b else x) (replace_char a b s')
  end.

(** [s.replace(/[...]/g, "")]: drop every character of a class. *)
Fixpoint remove_chars (p : ascii -> bool) (s : string) : string :=
  match s with
  | EmptyString => ""
  | String x s' => if p x then remove_chars p s' else String x (remove_chars p s')
  end.

Fixpoint ends_with_char (c : ascii) (s : string) : bool :=
  match s with
  | EmptyString => false
  | String a EmptyString => Ascii.eqb a c
  | String _ s' => ends_with_char c s'
  end.

Definition starts_with_char (c : ascii) (s : string) : bool :=
  match s with
  | String a _ => Ascii.eqb a c
  | EmptyString => false
  end.

(** [s.lastIndexOf(c)], [None] for -1. *)
Fixpoint last_index_of (c : ascii) (s : string) : option nat :=
  match s with
  | EmptyString => None
  | String a s' =>
      match last_index_of c s' with
      | Some i => Some (S i)
      | None => if Ascii.eqb a c then Some 0 else None
      end
  end.

(** [s.slice(0, n)] *)
Definition slice_to (n : nat) (s : string) : string := substring 0 n s.

(** [s.slice(n)] *)
Fixpoint slice_from (n : nat) (s : string) : string :=
  match n, s with
  | O, _ => s
  | S n', String _ s' => slice_from n' s'
  | S _, EmptyString => ""
  end.

(** The blanks of [trim] and [\s] among the 8-bit characters: space, tab,
    line feed, vertical tab, form feed, carriage return and the no-break
    space (code 160). *)
Definition is_space (a : ascii) : bool :=
  let n := nat_of_ascii a in
  Nat.eqb n 32 || (Nat.leb 9 n && Nat.leb n 13) || Nat.eqb n 160.

Fixpoint trim_left (s : string) : string :=
  match s with
  | String a s' => if is_space a then trim_left s' else s
  | EmptyString => ""
  end.

(** [!s.trim()]: the string is empty or blank. *)
Definition blank (s : string) : bool := trim_left s =? "".

(** [a.pop()] on the result of a split: the last element. *)
Definition last_seg (l : list string) : string := List.last l "".

End Str.

(** ** Node's [path] module, POSIX flavour *)

Module Path.

(** One segment of [normalizeString]: empty and [.] segments are dropped,
    [..] removes the last kept segment (or is kept when the path may climb
    above its start); the stack is kept in reverse. *)
Definition seg_step (allowAboveRoot : bool) (stack : list string) (s : string)
  : list string :=
  if (s =? "") || (s =? ".") then stack
  else if s =? ".." then
    match stack with
    | top :: below =>
        if top =? ".." then (if allowAboveRoot then ".." :: stack else stack)
        else below
    | [] => if allowAboveRoot then [".."] else []
    end
  else s :: stack.

Definition normalizeString (allowAboveRoot : bool) (p : string) : list string :=
  rev (fold_left (seg_step allowAboveRoot) (Str.split_on "/" p) []).

Definition isAbsolute (p : string) : bool := Str.starts_with_char "/" p.

(** [path.normalize] *)
Definition normalize (p : string) : string :=
  if p =? "" then "."
  else
    let abs := isAbsolute p in
    let trailing := Str.ends_with_char "/" p in
    let body := Str.join_with "/" (normalizeString (negb abs) p) in
    if body =? "" then (if abs then "/" else if trailing then "./" else ".")
    else
      let body' := if trailing then body +++ "/" else body in
      if abs then "/" +++ body' else body'.

(** [path.join(...args)] *)
Definition join (args : list string) : string :=
  let joined := Str.join_with "/" (filter Str.nonempty args) in
  if joined =? "" then "." else normalize joined.

(** The absolute path made of the given segments. *)
Definition abs_path (segs : list string) : string :=
  "/" +++ Str.join_with "/" segs.

(** [path.resolve(p)] with the working directory [cwd], as segments. *)
Definition resolve_segs (cwd p : string) : list string :=
  normalizeString false (if isAbsolute p then p else cwd +++ "/" +++ p).

Definition resolve (cwd p : string) : string := abs_path (resolve_segs cwd p).

Fixpoint strip_common (a b : list string) : list string * list string :=
  match a, b with
  | x :: a', y :: b' => if x =? y then strip_common a' b' else (a, b)
  | _, _ => (a, b)
  end.

(** [path.relative(from, to)]: both paths are resolved, the common
    directories are dropped, every remaining directory of [from] gives a
    [..], then the rest of [to] follows.  (The two early returns of Node for
    equal paths give the same empty result.) *)
Definition relative (cwd from to : string) : string :=
  let '(up, down) := strip_common (resolve_segs cwd from) (resolve_segs cwd to) in
  Str.join_with "/" (map (fun _ => "..") up ++ down).

Definition is_slash (a : ascii) : bool := Ascii.eqb a "/".

Fixpoint drop_while (p : ascii -> bool) (l : list ascii) : list ascii :=
  match l with
  | a :: l' => if p a then drop_while p l' else l
  | [] => []
  end.

Fixpoint take_while (p : ascii -> bool) (l : list ascii) : list ascii :=
  match l with
  | a :: l' => if p a then a :: take_while p l' else []
  | [] => []
  end.

(** [path.dirname]: scanning from the end (index 0 is never examined), skip
    trailing slashes, skip the last name, stop at the slash before it. *)
Definition dirname (p : string) : string :=
  match p with
  | EmptyString => "."
  | String c0 rest =>
      let hasRoot := is_slash c0 in
      let t := rev (list_ascii_of_string rest) in
      let t2 := drop_while (fun a => negb (is_slash a)) (drop_while is_slash t) in
      match t2 with
      | [] => if hasRoot then "/" else "."
      | _ :: before =>
          if hasRoot && Nat.eqb (List.length t2) 1 then "//"
          else String c0 (string_of_list_ascii (rev before))
      end
  end.

(** [path.basename] without extension argument. *)
Definition basename (p : string) : string :=
  let t := rev (list_ascii_of_string p) in
  string_of_list_ascii
    (rev (take_while (fun a => negb (is_slash a)) (drop_while is_slash t))).

End Path.

(** ** The server's environment and its path helper *)

(** What the process is started with: the directory of [server.js]
    ([__dirname], always absolute, given by its segments) and the working
    directory. *)
Record Env := {
  server_dir : list string;
  cwd : string
}.

Section PathMapper.
Context (env : Env).

Definition __dirname : string := Path.abs_path (server_dir env).

(** [const UPLOAD_ROOT = path.join(__dirname, "uploads")] *)
Definition UPLOAD_ROOT : string := Path.join [__dirname; "uploads"].

(** The segments of [UPLOAD_ROOT]. *)
Definition upload_root_segs : list string :=
  Path.normalizeString false (__dirname +++ "/uploads").

(** [fullPathToPhysical(fullPath)] *)
Definition fullPathToPhysical (fullPath : string) : string :=
  let parts := filter Str.nonempty (Str.split_on "/" fullPath) in
  Path.join (UPLOAD_ROOT :: parts).

(** The logical path of a physical one, as [walkDir] and the file insertion
    loop compute it:
    ["/" + path.relative(UPLOAD_ROOT, p).replace(/\\/g, "/")]. *)
Definition toLogical (physical : string) : string :=
  "/" +++ Str.replace_char "\" "/" (Path.relative (cwd env) UPLOAD_ROOT physical).

End PathMapper.

(** A logical path written from its segments: ["/" + segs.join("/")]. *)
Definition logical_path (segs : list string) : string :=
  "/" +++ Str.join_with "/" segs.

(** A name that survives a split on [/] and normalisation. *)
Definition plain_name (s : string) : bool :=
  Str.nonempty s && negb (s =? ".") && negb (s =? "..")
  && negb (Str.has_char "/" s).

(** A plain name without a backslash. *)
Definition clean_name (s : string) : bool :=
  plain_name s && negb (Str.has_char "\" s).

(** ** Transact-SQL string functions used by the queries *)

Module Sql.

(** A [LIKE] pattern, read left to right. *)
Inductive tok :=
| TChar (c : ascii)                               (* an ordinary character *)
| TOne                                            (* [_] *)
| TMany                                           (* [%] *)
| TSet (neg : bool) (items : list (ascii * ascii)) (* [[a-cx]], [[^...]] *)
| TNever.                                         (* a bracket never closed *)

(** [st = None]: outside brackets; [Some (neg, items)]: inside a bracket
    expression whose items so far are [items], last first.  A pattern that
    ends inside a bracket is taken to match nothing. *)
Fixpoint tokenize (p : list ascii) (st : option (bool * list (ascii * ascii)))
  : list tok :=
  match st with
  | None =>
      match p with
      | [] => []
      | c :: r =>
          if Ascii.eqb c "%" then TMany :: tokenize r None
          else if Ascii.eqb c "_" then TOne :: tokenize r None
          else if Ascii.eqb c "[" then
            match r with
            | c2 :: r2 =>
                if Ascii.eqb c2 "^" then tokenize r2 (Some (true, []))
                else tokenize r (Some (false, []))
            | [] => [TNever]
            end
          else TChar c :: tokenize r None
      end
  | Some (neg, items) =>
      match p with
      | [] => [TNever]
      | c :: r =>
          if Ascii.eqb c "]" then TSet neg (rev items) :: tokenize r None
          else
            match r with
            | d :: hi :: r3 =>
                if Ascii.eqb d "-" && negb (Ascii.eqb hi "]")
                then tokenize r3 (Some (neg, (c, hi) :: items))
                else tokenize r (Some (neg, (c, c) :: items))
            | _ => tokenize r (Some (neg, (c, c) :: items))
            end
      end
  end.

Definition in_range (c : ascii) (r : ascii * ascii) : bool :=
  Nat.leb (nat_of_ascii (fst r)) (nat_of_ascii c)
  && Nat.leb (nat_of_ascii c) (nat_of_ascii (snd r)).

Fixpoint like_toks (ts : list tok) : list ascii -> bool :=
  match ts with
  | [] => fun s => match s with [] => true | _ => false end
  | TChar c :: ts' =>
      fun s => match s with x :: s' => Ascii.eqb x c && like_toks ts' s' | [] => false end
  | TOne :: ts' =>
      fun s => match s with _ :: s' => like_toks ts' s' | [] => false end
  | TMany :: ts' =>
      fix many (s : list ascii) : bool :=
        like_toks ts' s || match s with _ :: s' => many s' | [] => false end
  | TSet neg items :: ts' =>
      fun s => match s with
               | x :: s' => xorb neg (existsb (in_range x) items) && like_toks ts' s'
               | [] => false
               end
  | TNever :: _ => fun _ => false
  end.

(** [s LIKE pattern] *)
Definition like (s pattern : string) : bool :=
  like_toks (tokenize (list_ascii_of_string pattern) None) (list_ascii_of_string s).

Fixpoint drop_spaces (l : list ascii) : list ascii :=
  match l with
  | a :: l' => if Ascii.eqb a " " then drop_spaces l' else l
  | [] => []
  end.

Definition rtrim (s : string) : string :=
  string_of_list_ascii (rev (drop_spaces (rev (list_ascii_of_string s)))).

(** [LEN(s)]: trailing blanks are not counted. *)
Definition LEN (s : string) : nat := String.length (rtrim s).

(** [SUBSTRING(s, start, len)], [start] counted from 1. *)
Definition SUBSTRING (s : string) (start len : nat) : string :=
  substring (start - 1) (len - (1 - start)) s.

(** [a = b] on character data: trailing blanks are ignored. *)
Definition str_eq (a b : string) : bool := rtrim a =? rtrim b.

(** The characters with a special meaning in a [LIKE] pattern. *)
Definition is_like_meta (c : ascii) : bool :=
  Ascii.eqb c "%" || Ascii.eqb c "_" || Ascii.eqb c "[".

Fixpoint has_like_meta (s : string) : bool :=
  match s with
  | EmptyString => false
  | String c s' => is_like_meta c || has_like_meta s'
  end.

(** The token of a pattern character outside brackets. *)
Definition tok_of (c : ascii) : tok :=
  if Ascii.eqb c "%" then TMany else if Ascii.eqb c "_" then TOne else TChar c.

End Sql.

(** ** The store: tables as lists of rows *)

Module Folders.
Record row := {
  Id : Z;
  Name : string;
  ParentId : option Z;
  FullPath : string
}.
End Folders.

Module Files.
Record row := {
  Id : Z;
  FolderId : option Z;
  Name : string;
  StoragePath : string;
  SizeBytes : Z;
  MimeType : option string
}.
End Files.

Record Store := {
  Folders : list Folders.row;
  Files : list Files.row;
  FileTags : list (Z * Z);      (* FileId, TagId *)
  FolderTags : list (Z * Z);    (* FolderId, TagId *)
  nextFolderId : Z;             (* IDENTITY of Folders *)
  nextFileId : Z                (* IDENTITY of Files *)
}.

Module Db.

Definition opt_Z_eqb (a b : option Z) : bool :=
  match a, b with
  | Some x, Some y => Z.eqb x y
  | None, None => true
  | _, _ => false
  end.

Definition mem_Z (x : Z) (l : list Z) : bool := existsb (Z.eqb x) l.

(** [a = b] on nullable integers: never true when one side is NULL. *)
Definition sql_eq (a b : option Z) : bool :=
  match a, b with
  | Some x, Some y => Z.eqb x y
  | _, _ => false
  end.

(** [a IN (ids)] *)
Definition in_ids (a : option Z) (ids : list Z) : bool :=
  match a with
  | Some x => mem_Z x ids
  | None => false
  end.

(** [SELECT * FROM Folders WHERE Id=@Id] *)
Definition folderById (st : Store) (id : Z) : list Folders.row :=
  filter (fun r => Z.eqb (Folders.Id r) id) (Folders st).

(** [SELECT ... FROM Folders WHERE FullPath LIKE @Prefix] *)
Definition foldersLike (st : Store) (pattern : string) : list Folders.row :=
  filter (fun r => Sql.like (Folders.FullPath r) pattern) (Folders st).

(** [SELECT ... FROM Files WHERE FolderId IN (ids)] *)
Definition filesInFolders (st : Store) (ids : list Z) : list Files.row :=
  filter (fun f => in_ids (Files.FolderId f) ids) (Files st).

(** [SELECT StoragePath FROM Files WHERE FolderId=@FolderId] *)
Definition filesOfFolder (st : Store) (folderId : option Z) : list Files.row :=
  filter (fun f => sql_eq (Files.FolderId f) folderId) (Files st).

(** [SELECT f.Id, f.StoragePath FROM Files f INNER JOIN Folders fo
     ON fo.Id = f.FolderId WHERE fo.FullPath LIKE @FolderPrefix] *)
Definition filesUnderLike (st : Store) (pattern : string) : list Files.row :=
  flat_map (fun f =>
              map (fun _ => f)
                  (filter (fun fo => sql_eq (Some (Folders.Id fo)) (Files.FolderId f)
                                     && Sql.like (Folders.FullPath fo) pattern)
                          (Folders st)))
           (Files st).

(** [INSERT INTO Folders (Name, ParentId, FullPath) OUTPUT INSERTED.*] *)
Definition insertFolder (st : Store) (name : string) (parentId : option Z)
           (fullPath : string) : Folders.row * Store :=
  let r := {| Folders.Id := nextFolderId st; Folders.Name := name;
              Folders.ParentId := parentId; Folders.FullPath := fullPath |} in
  (r, {| Folders := Folders st ++ [r]; Files := Files st;
         FileTags := FileTags st; FolderTags := FolderTags st;
         nextFolderId := nextFolderId st + 1; nextFileId := nextFileId st |}).

(** [INSERT INTO Files (FolderId, Name, StoragePath, SizeBytes, MimeType)] *)
Definition insertFile (st : Store) (folderId : option Z) (name storagePath : string)
           (size : Z) (mime : option string) : Files.row * Store :=
  let r := {| Files.Id := nextFileId st; Files.FolderId := folderId;
              Files.Name := name; Files.StoragePath := storagePath;
              Files.SizeBytes := size; Files.MimeType := mime |} in
  (r, {| Folders := Folders st; Files := Files st ++ [r];
         FileTags := FileTags st; FolderTags := FolderTags st;
         nextFolderId := nextFolderId st; nextFileId := nextFileId st + 1 |}).

(** The statements of the file cleanup job, with the number of rows each
    one deletes:
    [DELETE FROM FileTags WHERE FileId=@FileId;
     DELETE FROM Files WHERE Id=@FileId;] *)
Definition deleteFileRows (st : Store) (fileId : Z) : (nat * nat) * Store :=
  let tags' := filter (fun ft => negb (Z.eqb (fst ft) fileId)) (FileTags st) in
  let files' := filter (fun f => negb (Z.eqb (Files.Id f) fileId)) (Files st) in
  ((List.length (FileTags st) - List.length tags',
    List.length (Files st) - List.length files'),
   {| Folders := Folders st; Files := files'; FileTags := tags';
      FolderTags := FolderTags st;
      nextFolderId := nextFolderId st; nextFileId := nextFileId st |}).

(** The statements of the folder cleanup job:
    [DELETE FROM FileTags WHERE FileId IN (SELECT Id FROM Files WHERE FolderId=@FolderId);
     DELETE FROM Files WHERE FolderId=@FolderId;
     DELETE FROM Folders WHERE Id=@FolderId;]
    The last statement also removes the folder's [FolderTags] rows through the
    [ON DELETE CASCADE] key declared by [ensureFolderTagsTable]. *)
Definition deleteFolderRows (st : Store) (folderId : Z) : (nat * nat * nat) * Store :=
  let fileIds := map Files.Id (filesOfFolder st (Some folderId)) in
  let tags' := filter (fun ft => negb (mem_Z (fst ft) fileIds)) (FileTags st) in
  let files' := filter (fun f => negb (sql_eq (Files.FolderId f) (Some folderId))) (Files st) in
  let folders' := filter (fun r => negb (Z.eqb (Folders.Id r) folderId)) (Folders st) in
  let cascade :=
    if existsb (fun r => Z.eqb (Folders.Id r) folderId) (Folders st)
    then filter (fun ft => negb (Z.eqb (fst ft) folderId)) (FolderTags st)
    else FolderTags st in
  ((List.length (FileTags st) - List.length tags',
    List.length (Files st) - List.length files',
    List.length (Folders st) - List.length folders'),
   {| Folders := folders'; Files := files'; FileTags := tags';
      FolderTags := cascade;
      nextFolderId := nextFolderId st; nextFileId := nextFileId st |}).

End Db.

(** ** The disk: a directory tree *)

Module Disk.

Inductive node :=
| File (size : Z)
| Dir (readable : bool) (content : entries)
| Other    (* symbolic link, socket, device: neither [isFile] nor [isDirectory] *)
with entries :=
| Nil
| Cons (name : string) (n : node) (rest : entries).

Scheme entries_mut := Induction for entries Sort Prop
  with node_mut := Induction for node Sort Prop.

Fixpoint find_entry (name : string) (es : entries) : option node :=
  match es with
  | Nil => None
  | Cons n c rest => if n =? name then Some c else find_entry name rest
  end.

(** The node reached from [n] by the names [segs]. *)
Fixpoint lookup (n : node) (segs : list string) : option node :=
  match segs with
  | [] => Some n
  | s :: rest =>
      match n with
      | Dir _ es =>
          match find_entry s es with
          | Some c => lookup c rest
          | None => None
          end
      | _ => None
      end
  end.

(** The entry at the names [rs] below a listing, when every directory on the
    way down to it can be listed. *)
Fixpoint reach (es : entries) (rs : list string) : option node :=
  match rs with
  | [] => None
  | s :: rest =>
      match find_entry s es with
      | None => None
      | Some c =>
          match rest with
          | [] => Some c
          | _ :: _ =>
              match c with
              | Dir true sub => reach sub rest
              | _ => None
              end
          end
      end
  end.

Section Calls.
Context (cwd : string) (disk : node).

Definition at_path (p : string) : option node :=
  lookup disk (Path.resolve_segs cwd p).

(** [fsPromises.access(p)] resolves. *)
Definition access (p : string) : bool :=
  match at_path p with Some _ => true | None => false end.

(** [fsPromises.readdir(p, { withFileTypes: true })] *)
Definition readdir (p : string) : option entries :=
  match at_path p with
  | Some (Dir true es) => Some es
  | _ => None
  end.

(** [(await fsPromises.stat(p)).size]; only the size of a regular file is
    used by the server, other entries are given the size 0. *)
Definition stat_size (p : string) : option Z :=
  match at_path p with
  | Some (File size) => Some size
  | Some _ => Some 0%Z
  | None => None
  end.

End Calls.

Fixpoint fresh_chain (segs : list string) : node :=
  match segs with
  | [] => Dir true Nil
  | s :: rest => Dir true (Cons s (fresh_chain rest) Nil)
  end.

(** Replace (or add) the entry [name] of a directory listing. *)
Fixpoint set_entry (name : string) (c : node) (es : entries) : entries :=
  match es with
  | Nil => Cons name c Nil
  | Cons n x rest =>
      if n =? name then Cons n c rest else Cons n x (set_entry name c rest)
  end.

Fixpoint del_entry (name : string) (es : entries) : entries :=
  match es with
  | Nil => Nil
  | Cons n x rest => if n =? name then rest else Cons n x (del_entry name rest)
  end.

(** [mkdir(p, { recursive: true })] along [segs] below [n]: fails when a name
    on the way exists and is not a directory, in which case nothing has been
    created.  The failures of a file system that this tree does not describe
    (a name too long, a missing permission), which can leave the first
    directories of the chain behind, are not modelled: the theorems speak of
    the calls that succeed. *)
Fixpoint mkdir_p (n : node) (segs : list string) : option node :=
  match segs with
  | [] => match n with Dir _ _ => Some n | _ => None end
  | s :: rest =>
      match n with
      | Dir r es =>
          match find_entry s es with
          | Some c =>
              match mkdir_p c rest with
              | Some c' => Some (Dir r (set_entry s c' es))
              | None => None
              end
          | None => Some (Dir r (set_entry s (fresh_chain rest) es))
          end
      | _ => None
      end
  end.

(** Apply [f] to the node at [segs]; [None] when the path does not exist. *)
Fixpoint update_at (f : node -> option node) (n : node) (segs : list string)
  : option node :=
  match segs with
  | [] => f n
  | s :: rest =>
      match n with
      | Dir r es =>
          match find_entry s es with
          | Some c =>
              match update_at f c rest with
              | Some c' => Some (Dir r (set_entry s c' es))
              | None => None
              end
          | None => None
          end
      | _ => None
      end
  end.

(** [rename(old, new)] of a directory: [old] must exist, the parent of [new]
    must be a directory, and [new] must be absent or an empty directory. *)
Definition rename (n : node) (old new : list string) : option node :=
  match lookup n old, rev old, rev new with
  | Some sub, oname :: oparent, nname :: nparent =>
      match lookup n new with
      | Some (Dir _ (Cons _ _ _)) | Some (File _) | Some Other => None
      | _ =>
          match update_at (fun d => match d with
                                    | Dir r es => Some (Dir r (del_entry oname es))
                                    | _ => None
                                    end) n (rev oparent) with
          | Some n1 =>
              update_at (fun d => match d with
                                  | Dir r es => Some (Dir r (set_entry nname sub es))
                                  | _ => None
                                  end) n1 (rev nparent)
          | None => None
          end
      end
  | _, _, _ => None
  end.

(** The names below a listing, through the directories that can be listed:
    every directory, and every regular file with its size. *)
Fixpoint dir_paths (es : entries) : list (list string) :=
  match es with
  | Nil => []
  | Cons name c rest =>
      match c with
      | Dir readable sub =>
          [name] :: (if readable then map (cons name) (dir_paths sub) else [])
      | _ => []
      end ++ dir_paths rest
  end.

Fixpoint file_paths (es : entries) : list (list string * Z) :=
  match es with
  | Nil => []
  | Cons name c rest =>
      match c with
      | Dir readable sub =>
          if readable
          then map (fun pz => (name :: fst pz, snd pz)) (file_paths sub)
          else []
      | File size => [([name], size)]
      | Other => []
      end ++ file_paths rest
  end.

(** A listing, and everything below it, has clean names that are unique
    within their directory ([seen]: the names before this point). *)
Fixpoint tidy (seen : list string) (es : entries) : bool :=
  match es with
  | Nil => true
  | Cons name c rest =>
      clean_name name && negb (existsb (String.eqb name) seen)
      && match c with Dir _ sub => tidy [] sub | _ => true end
      && tidy (name :: seen) rest
  end.

End Disk.

(** ** The background job queue ([class JobQueue]) *)

Module JobQueue.

Definition err := string.

(** What calling a job does: a function that is not [async] may throw before
    it returns; otherwise a promise comes back and settles later. *)
Inductive called := ThrowsSync (e : err) | ReturnsPromise.
Inductive settled := Fulfilled | Rejected (e : err).
Record behaviour := { on_call : called; on_settle : settled }.

(** How a statement ends: normally, or with an exception on its way up. *)
Inductive completion := Normal | Abrupt (e : err).

Section Queue.
Context {J : Type} (behave : J -> behaviour).

(** Observations: job bodies entered and left, and [console.error] lines. *)
Inductive event :=
| Started (j : J)
| Finished (j : J)
| ConsoleError (e : err).

(** [jobs] and [processing] are the fields of the class.  [awaiting] holds
    the calls of [process()] suspended at [await job()], each with the job it
    waits for; [history] records the observations. *)
Record t := {
  jobs : list J;
  processing : bool;
  awaiting : list J;
  history : list event
}.

Definition empty : t :=
  {| jobs := []; processing := false; awaiting := []; history := [] |}.

(** [try { body } catch (err) { handler(err) }] *)
Definition try_catch {S : Type} (body : completion * S)
           (handler : err -> S -> completion * S) : completion * S :=
  match body with
  | (Abrupt e, s) => handler e s
  | (Normal, s) => (Normal, s)
  end.

(** [console.error("Background job error:", err)] *)
Definition console_error (e : err) (h : list event) : completion * list event :=
  (Normal, h ++ [ConsoleError e]).

(** [job()] *)
Definition call_job (j : J) (h : list event) : completion * list event :=
  (match on_call (behave j) with ThrowsSync e => Abrupt e | ReturnsPromise => Normal end,
   h ++ [Started j]).

(** The [while] loop of [process()], run until it suspends at an [await],
    leaves at the bottom, or is left by an exception.  [proc] is the current
    value of [this.processing]. *)
Fixpoint drain (pending : list J) (proc : bool) (aw : list J) (h : list event)
  : completion * t :=
  match pending with
  | [] =>
      (* this.processing = false *)
      (Normal, {| jobs := []; processing := false; awaiting := aw; history := h |})
  | job :: rest =>
      (* const job = this.jobs.shift(); *)
      let '(c, h1) := try_catch (call_job job h) console_error in
      match c with
      | Abrupt e =>
          (Abrupt e, {| jobs := rest; processing := proc; awaiting := aw; history := h1 |})
      | Normal =>
          match on_call (behave job) with
          | ReturnsPromise =>
              (Normal, {| jobs := rest; processing := proc;
                          awaiting := aw ++ [job]; history := h1 |})
          | ThrowsSync _ => drain rest proc aw (h1 ++ [Finished job])
          end
      end
  end.

(** [async process()]: the state of the promise it returns (up to the first
    suspension) and the queue. *)
Definition process (q : t) : completion * t :=
  if processing q || match jobs q with [] => true | _ => false end
  then (Normal, q)
  else drain (jobs q) true (awaiting q) (history q).

(** [enqueue(fn)]: the promise of [process()] is dropped, so nothing that
    happens inside can reach the caller as an exception. *)
Definition enqueue (q : t) (fn : J) : completion * t :=
  let q1 := {| jobs := jobs q ++ [fn]; processing := processing q;
               awaiting := awaiting q; history := history q |} in
  let '(_, q2) := process q1 in
  (Normal, q2).

Fixpoint remove_nth {A : Type} (i : nat) (l : list A) : list A :=
  match i, l with
  | _, [] => []
  | O, _ :: l' => l'
  | S i', x :: l' => x :: remove_nth i' l'
  end.

(** The promise awaited by the [i]-th suspended call settles: the call
    resumes inside its [try], and goes on with the loop. *)
Definition resume (q : t) (i : nat) : completion * t :=
  match nth_error (awaiting q) i with
  | None => (Normal, q)
  | Some job =>
      let aw := remove_nth i (awaiting q) in
      let awaited :=
        (match on_settle (behave job) with Rejected e => Abrupt e | Fulfilled => Normal end,
         history q) in
      let '(c, h1) := try_catch awaited console_error in
      match c with
      | Abrupt e =>
          (Abrupt e, {| jobs := jobs q; processing := processing q;
                        awaiting := aw; history := h1 |})
      | Normal => drain (jobs q) (processing q) aw (h1 ++ [Finished job])
      end
  end.

(** What can happen to a queue, and what a sequence of these does. *)
Inductive input := Enqueue (j : J) | Settle (i : nat).

Definition step (q : t) (a : input) : t :=
  match a with
  | Enqueue j => snd (enqueue q j)
  | Settle i => snd (resume q i)
  end.

Definition run (q : t) (l : list input) : t := fold_left step l q.

Definition enqueued (l : list input) : list J :=
  flat_map (fun a => match a with Enqueue j => [j] | Settle _ => [] end) l.

Definition started (h : list event) : list J :=
  flat_map (fun e => match e with Started j => [j] | _ => [] end) h.

Definition finished (h : list event) : list J :=
  flat_map (fun e => match e with Finished j => [j] | _ => [] end) h.

Definition logged (h : list event) : list err :=
  flat_map (fun e => match e with ConsoleError x => [x] | _ => [] end) h.

(** The jobs taken so far, in order: those started, then those pending. *)
Definition backlog (q : t) : list J := started (history q) ++ jobs q.

(** The error a job ends with, if any. *)
Definition raises (b : behaviour) : list err :=
  match on_call b with
  | ThrowsSync e => [e]
  | ReturnsPromise =>
      match on_settle b with
      | Rejected e => [e]
      | Fulfilled => []
      end
  end.

(** Let the awaited promise settle [n] times. *)
Definition settle_all (q : t) (n : nat) : t := run q (repeat (Settle 0) n).

(** Let every job that is running or pending finish. *)
Definition drained (q : t) : t := settle_all q (S (List.length (jobs q))).

(** A history in which job bodies never overlap: [serial h cur] when [cur]
    is the job entered and not yet left at the end of [h]. *)
Inductive serial : list event -> option J -> Prop :=
| serial_nil : serial [] None
| serial_start h j : serial h None -> serial (h ++ [Started j]) (Some j)
| serial_error h j e : serial h (Some j) -> serial (h ++ [ConsoleError e]) (Some j)
| serial_finish h j : serial h (Some j) -> serial (h ++ [Finished j]) None.

(** The state invariant: either nothing runs and nothing waits, or exactly
    one call of [process()] is suspended, on the job that is running. *)
Definition inv (q : t) : Prop :=
  (processing q = false /\ jobs q = [] /\ awaiting q = []
   /\ serial (history q) None)
  \/ (processing q = true
      /\ exists j, awaiting q = [j] /\ on_call (behave j) = ReturnsPromise
                   /\ serial (history q) (Some j)).

(** What the history owes to the jobs: a started job is finished or awaited,
    and every finished job left its error, if it had one, on the console. *)
Definition accounted (q : t) : Prop :=
  started (history q) = finished (history q) ++ awaiting q
  /\ logged (history q) = flat_map (fun j => raises (behave j)) (finished (history q)).

End Queue.

Arguments t : clear implicits.
Arguments event : clear implicits.
Arguments input : clear implicits.
Arguments empty {J}.

End JobQueue.

(** ** The server: jobs, world, helpers *)

(** The closures handed to [jobQueue.enqueue], by what they capture. *)
Inductive job :=
| JobSync (folderId : option Z) (folderPath : string)
    (* await discoverAndSyncFolderRecursive(folderId, folderPath) *)
| JobDiscover (folderId : option Z) (folderPath : string)
    (* await discoverAndAddNewFiles(folderId, folderPath) *)
| JobCleanFile (fileId : Z)
    (* DELETE FROM FileTags WHERE FileId=..; DELETE FROM Files WHERE Id=.. *)
| JobCleanFolder (folderId : Z)
    (* DELETE the FileTags of the folder's files, its Files, the Folder *)
| JobRemoveDir (physical : string)
    (* fsPromises.rm(phys, { recursive: true, force: true }) *)
| JobUnlink (storagePath : string)
| JobUnlinkTemps (paths : list string).

(** Every job is an [async] arrow function: calling it returns a promise. *)
Definition job_behaviour (j : job) : JobQueue.behaviour :=
  {| JobQueue.on_call := JobQueue.ReturnsPromise;
     JobQueue.on_settle := JobQueue.Fulfilled |}.

Record World := {
  store : Store;
  disk : Disk.node;
  queue : JobQueue.t job
}.

Definition with_store (w : World) (st : Store) : World :=
  {| store := st; disk := disk w; queue := queue w |}.

Definition with_disk (w : World) (d : Disk.node) : World :=
  {| store := store w; disk := d; queue := queue w |}.

(** [jobQueue.enqueue(fn)] *)
Definition enqueue_job (w : World) (fn : job) : World :=
  {| store := store w; disk := disk w;
     queue := snd (JobQueue.enqueue job_behaviour (queue w) fn) |}.

(** What a handler answers. *)
Inductive response (A : Type) :=
| Ok200 (body : A)
| Created201 (body : A)
| BadRequest400 (msg : string)
| NotFound404 (msg : string)
| Failed500.
Arguments Ok200 {A}.
Arguments Created201 {A}.
Arguments BadRequest400 {A}.
Arguments NotFound404 {A}.
Arguments Failed500 {A}.

(** An insertion-ordered [Set] of strings. *)
Definition set_has (x : string) (l : list string) : bool := existsb (String.eqb x) l.
Definition set_add (x : string) (l : list string) : list string :=
  if set_has x l then l else l ++ [x].

(** A [Map] from strings, of which only [get], [has] and [set] are used. *)
Fixpoint map_get {V : Type} (k : string) (m : list (string * V)) : option V :=
  match m with
  | [] => None
  | (k', v) :: rest => if k' =? k then Some v else map_get k rest
  end.

Definition map_set {V : Type} (k : string) (v : V) (m : list (string * V))
  : list (string * V) := (k, v) :: m.

(** [Array.prototype.sort] with the comparator [le]: stable. *)
Fixpoint insert_sorted {A : Type} (le : A -> A -> bool) (x : A) (l : list A) : list A :=
  match l with
  | [] => [x]
  | y :: l' => if le x y then x :: l else y :: insert_sorted le x l'
  end.

Fixpoint sort_stable {A : Type} (le : A -> A -> bool) (l : list A) : list A :=
  match l with
  | [] => []
  | x :: l' => insert_sorted le x (sort_stable le l')
  end.

(** [x || null] on an id: 0 and [null] are falsy. *)
Definition truthy_id (x : option Z) : option Z :=
  match x with
  | Some z => if Z.eqb z 0 then None else Some z
  | None => None
  end.

(** [fFull.split("/").length] *)
Definition depth (p : string) : nat := List.length (Str.split_on "/" p).

(** [idx > 0 ? fFull.slice(0, idx) : null] with [idx = fFull.lastIndexOf("/")] *)
Definition parent_of (fFull : string) : option string :=
  match Str.last_index_of "/" fFull with
  | Some (S i) => Some (Str.slice_to (S i) fFull)
  | _ => None
  end.

(** [fFull.split("/").pop() || fFull] *)
Definition leaf_of (fFull : string) : string :=
  let last := Str.last_seg (Str.split_on "/" fFull) in
  if Str.nonempty last then last else fFull.

Section Server.
Context (env : Env).

(** [ensureDiskFolder(fullPath)]: the new disk, or the exception of [mkdir]. *)
Definition ensureDiskFolder (d : Disk.node) (fullPath : string) : option Disk.node :=
  Disk.mkdir_p d (Path.resolve_segs (cwd env) (fullPathToPhysical env fullPath)).

(** *** Cleanup jobs *)

Definition cleanFile (st : Store) (fileId : Z) : Store := snd (Db.deleteFileRows st fileId).
Definition cleanFolder (st : Store) (folderId : Z) : Store :=
  snd (Db.deleteFolderRows st folderId).

(** *** The listing handlers *)

(** The loop over the candidate rows: probe each one, keep it or prepare its
    cleanup job. *)
Definition probe_rows {R : Type} (d : Disk.node) (physical : R -> string)
           (cleanup : R -> job) (rows : list R) : list R * list job :=
  fold_left
    (fun acc row =>
       if Disk.access (cwd env) d (physical row)
       then (fst acc ++ [row], snd acc)
       else (fst acc, snd acc ++ [cleanup row]))
    rows ([], []).

(** A row of the folder listing; the tag summary column is left out. *)
Record FolderListing := {
  folder : Folders.row;
  HasChildren : bool
}.

(** The [SELECT] of [GET /api/folders], ordered by name. *)
Definition selectChildFolders (st : Store) (parentId : option Z) : list FolderListing :=
  let matches (f : Folders.row) :=
    match parentId with
    | None => match Folders.ParentId f with None => true | Some _ => false end
    | Some _ => Db.sql_eq (Folders.ParentId f) parentId
    end in
  sort_stable (fun a b => String.leb (Folders.Name (folder a)) (Folders.Name (folder b)))
    (map (fun f => {| folder := f;
                      HasChildren :=
                        existsb (fun c => Db.sql_eq (Folders.ParentId c) (Some (Folders.Id f)))
                                (Folders st) |})
         (filter matches (Folders st))).

(** [GET /api/folders] (the handler that Express reaches). *)
Definition listFolders (w : World) (parentId : option Z)
  : World * response (list FolderListing) :=
  let rows := selectChildFolders (store w) parentId in
  let '(existing, cleanupJobs) :=
    probe_rows (disk w) (fun r => fullPathToPhysical env (Folders.FullPath (folder r)))
               (fun r => JobCleanFolder (Folders.Id (folder r))) rows in
  (fold_left enqueue_job cleanupJobs w, Ok200 existing).

(** The folder path looked up by [GET /api/files] for its background pass. *)
Definition listingFolderPath (st : Store) (folderId : option Z) : string :=
  match truthy_id folderId with
  | Some id =>
      match Db.folderById st id with
      | r :: _ => Folders.FullPath r
      | [] => "/root"
      end
  | None => "/root"
  end.

(** [GET /api/files]; [recordset] is what the stored procedure [GetFiles]
    returns, [background] the job enqueued first. *)
Definition listFilesWith (background : option Z -> string -> job)
           (w : World) (folderId : option Z) (recordset : list Files.row)
  : World * response (list Files.row) :=
  let folderPath := listingFolderPath (store w) folderId in
  let w1 := enqueue_job w (background folderId folderPath) in
  let '(keep, cleanupJobs) :=
    probe_rows (disk w1) Files.StoragePath (fun r => JobCleanFile (Files.Id r)) recordset in
  (fold_left enqueue_job cleanupJobs w1, Ok200 keep).

Definition listFiles := listFilesWith JobSync.

(** *** Creating folders *)

(** [POST /api/folders].  The INSERT is taken to succeed (see the
    conventions above), so [Failed500] stands for one way into the [catch]
    only: [mkdir] refusing a name that exists and is not a directory, before
    anything has been changed.  A failure after the directory has been made
    (a failing INSERT, [mkdir] giving up on a later component) also answers
    500 in the source and is not modelled; the theorems on this handler speak
    of the answers 201, 400 and 404 only. *)
Definition createFolder (w : World) (name : string) (parentId : option Z)
  : World * response Folders.row :=
  if Str.blank name then (w, BadRequest400 "Folder name required")
  else
    let parent :=
      match truthy_id parentId with
      | Some pid =>
          match Db.folderById (store w) pid with
          | p :: _ => Some (Some (Folders.Id p), Folders.FullPath p)
          | [] => None
          end
      | None => Some (None, "/root")
      end in
    match parent with
    | None => (w, BadRequest400 "Parent not found")
    | Some (parentDbId, parentPath) =>
        let fullPath := parentPath +++ "/" +++ name in
        match ensureDiskFolder (disk w) fullPath with
        | None => (w, Failed500)
        | Some d' =>
            let '(r, st') := Db.insertFolder (store w) name parentDbId fullPath in
            ({| store := st'; disk := d'; queue := queue w |}, Created201 r)
        end
    end.

Definition is_slash_or_backslash (a : ascii) : bool :=
  Ascii.eqb a "/" || Ascii.eqb a "\".

(** One round of the loop of [ensureFolderChain]; [None] when [mkdir]
    throws. *)
Definition ensureFolderStep (acc : option (World * (Z * string))) (segment : string)
  : option (World * (Z * string)) :=
  match acc with
  | None => None
  | Some (w, (currentId, currentPath)) =>
      if negb (Str.nonempty segment) then acc
      else
        let name := Str.remove_chars is_slash_or_backslash segment in
        let exist :=
          filter (fun f => Db.sql_eq (Folders.ParentId f) (Some currentId)
                           && Sql.str_eq (Folders.Name f) name)
                 (Folders (store w)) in
        match exist with
        | r :: _ => Some (w, (Folders.Id r, Folders.FullPath r))
        | [] =>
            let newPath := currentPath +++ "/" +++ name in
            match ensureDiskFolder (disk w) newPath with
            | None => None
            | Some d' =>
                let '(r, st') := Db.insertFolder (store w) name (Some currentId) newPath in
                Some ({| store := st'; disk := d'; queue := queue w |},
                      (Folders.Id r, Folders.FullPath r))
            end
        end
  end.

(** [ensureFolderChain(baseId, basePath, subDirs)] *)
Definition ensureFolderChain (w : World) (baseId : Z) (basePath : string)
           (subDirs : list string) : option (World * (Z * string)) :=
  fold_left ensureFolderStep subDirs (Some (w, (baseId, basePath))).

(** *** Deleting and renaming folders *)

(** The three [DELETE] statements of [DELETE /api/folder/:id]. *)
Definition deleteFoldersLike (st : Store) (pattern : string) : Store :=
  let folderIds := map Folders.Id (Db.foldersLike st pattern) in
  let fileIds := map Files.Id (Db.filesInFolders st folderIds) in
  {| Folders := filter (fun r => negb (Sql.like (Folders.FullPath r) pattern)) (Folders st);
     Files := filter (fun f => negb (Db.in_ids (Files.FolderId f) folderIds)) (Files st);
     FileTags := filter (fun ft => negb (Db.mem_Z (fst ft) fileIds)) (FileTags st);
     FolderTags := filter (fun ft => negb (Db.mem_Z (fst ft) folderIds)) (FolderTags st);
     nextFolderId := nextFolderId st; nextFileId := nextFileId st |}.

(** [DELETE /api/folder/:id] *)
Definition deleteFolder (w : World) (id : Z) : World * response unit :=
  if Z.eqb id 0 then (w, BadRequest400 "Invalid id")
  else
    match Db.folderById (store w) id with
    | [] => (w, NotFound404 "Folder not found")
    | folder :: _ =>
        let phys := fullPathToPhysical env (Folders.FullPath folder) in
        let st' := deleteFoldersLike (store w) (Folders.FullPath folder +++ "%") in
        (enqueue_job (with_store w st') (JobRemoveDir phys), Ok200 tt)
    end.

(** The two [UPDATE] statements of [PATCH /api/folder/:id]. *)
Definition renameFolderRows (st : Store) (id : Z) (name oldPrefix newPrefix : string)
  : Store :=
  let moved (r : Folders.row) :=
    if Sql.like (Folders.FullPath r) (oldPrefix +++ "%")
    then {| Folders.Id := Folders.Id r; Folders.Name := Folders.Name r;
            Folders.ParentId := Folders.ParentId r;
            Folders.FullPath :=
              newPrefix +++ Sql.SUBSTRING (Folders.FullPath r) (Sql.LEN oldPrefix + 1) 2000 |}
    else r in
  let named (r : Folders.row) :=
    if Z.eqb (Folders.Id r) id
    then {| Folders.Id := Folders.Id r; Folders.Name := name;
            Folders.ParentId := Folders.ParentId r; Folders.FullPath := Folders.FullPath r |}
    else r in
  {| Folders := map named (map moved (Folders st)); Files := Files st;
     FileTags := FileTags st; FolderTags := FolderTags st;
     nextFolderId := nextFolderId st; nextFileId := nextFileId st |}.

(** The attempt to rename on disk; a failure is logged and ignored. *)
Definition renameOnDisk (d : Disk.node) (oldFull newFull : string) : Disk.node :=
  let oldPhys := fullPathToPhysical env oldFull in
  let newPhys := fullPathToPhysical env newFull in
  match Disk.mkdir_p d (Path.resolve_segs (cwd env) (Path.dirname newPhys)) with
  | None => d
  | Some d1 =>
      match Disk.rename d1 (Path.resolve_segs (cwd env) oldPhys)
                        (Path.resolve_segs (cwd env) newPhys) with
      | Some d2 => d2
      | None => d1
      end
  end.

(** [PATCH /api/folder/:id] *)
Definition renameFolder (w : World) (id : Z) (name : string)
  : World * response (option Folders.row) :=
  if Z.eqb id 0 then (w, BadRequest400 "Invalid id")
  else if Str.blank name then (w, BadRequest400 "Name required")
  else
    match Db.folderById (store w) id with
    | [] => (w, NotFound404 "Folder not found")
    | folder :: _ =>
        let oldFull := Folders.FullPath folder in
        let parentFull :=
          match Folders.ParentId folder with
          | Some pid =>
              match Db.folderById (store w) pid with
              | p :: _ => Folders.FullPath p
              | [] => "/root"
              end
          | None => "/root"
          end in
        let newFull := parentFull +++ "/" +++ name in
        let st' := renameFolderRows (store w) id name oldFull newFull in
        let d' := renameOnDisk (disk w) oldFull newFull in
        ({| store := st'; disk := d'; queue := queue w |},
         Ok200 (hd_error (Db.folderById st' id)))
    end.

(** *** Discovery on disk *)

(** [walkDir(dir)] over the listing [es] of [dir]: the logical paths of the
    directories met go to the first set, the storage paths of the regular
    files to the second.  The listing of a subdirectory is what [readdir]
    returns for it; a subdirectory that cannot be listed is recorded and not
    entered. *)
Fixpoint walkDir (dir : string) (es : Disk.entries) (seen : list string * list string)
  : list string * list string :=
  match es with
  | Disk.Nil => seen
  | Disk.Cons name ent rest =>
      let fullPath := Path.join [dir; name] in
      let seen1 :=
        match ent with
        | Disk.Dir readable sub =>
            let seen' := (set_add (toLogical env fullPath) (fst seen), snd seen) in
            if readable then walkDir fullPath sub seen' else seen'
        | Disk.File _ =>
            (fst seen, set_add (Str.replace_char "\" "/" fullPath) (snd seen))
        | Disk.Other => seen
        end in
      walkDir dir rest seen1
  end.

(** One round of the loop that inserts the missing folders. *)
Definition insertFolderStep (folderId : option Z)
           (acc : Store * list (string * (Z * option Z)) * list Z) (fFull : string)
  : Store * list (string * (Z * option Z)) * list Z :=
  let '(st, existingFolderMap, folderIds) := acc in
  match map_get fFull existingFolderMap with
  | Some _ => acc
  | None =>
      let parentEntry :=
        match parent_of fFull with
        | Some parentFull => map_get parentFull existingFolderMap
        | None => None
        end in
      let parentIdForInsert :=
        match parentEntry with
        | Some (pid, _) => Some pid
        | None => truthy_id folderId
        end in
      let '(newRow, st') := Db.insertFolder st (leaf_of fFull) parentIdForInsert fFull in
      (st',
       map_set fFull (Folders.Id newRow, Folders.ParentId newRow) existingFolderMap,
       folderIds ++ [Folders.Id newRow])
  end.

(** One round of the loop that inserts the missing files. *)
Definition insertFileStep (d : Disk.node)
           (existingFolderMap : list (string * (Z * option Z)))
           (existingFilesMap : list string) (st : Store) (filePath : string) : Store :=
  if set_has filePath existingFilesMap then st
  else
    let folderFull := toLogical env (Path.dirname filePath) in
    match map_get folderFull existingFolderMap with
    | None => st
    | Some (fid, _) =>
        match Disk.stat_size (cwd env) d filePath with
        | None => st
        | Some size =>
            snd (Db.insertFile st (Some fid) (Path.basename filePath)
                               (Str.replace_char "\" "/" filePath) size
                               (Some "application/octet-stream"))
        end
    end.

(** [discoverAndSyncFolderRecursive(folderId, folderFullPath)] *)
Definition discoverAndSyncFolderRecursive (w : World) (folderId : option Z)
           (folderFullPath : string) : World :=
  let physBase := fullPathToPhysical env folderFullPath in
  if negb (Disk.access (cwd env) (disk w) physBase) then w
  else
    let folderPrefix := folderFullPath +++ "%" in
    let folderRows := Db.foldersLike (store w) folderPrefix in
    let existingFolderMap :=
      fold_left (fun m r => map_set (Folders.FullPath r)
                                    (Folders.Id r, Folders.ParentId r) m)
                folderRows [] in
    let folderIds := map Folders.Id folderRows in
    let seen :=
      match Disk.readdir (cwd env) (disk w) physBase with
      | Some es => walkDir physBase es ([], [])
      | None => ([], [])
      end in
    let seenFolders := set_add folderFullPath (fst seen) in
    let seenFiles := snd seen in
    let seenArr := sort_stable (fun a b => Nat.leb (depth a) (depth b)) seenFolders in
    let '(st1, folderMap1, folderIds1) :=
      fold_left (insertFolderStep folderId) seenArr
                (store w, existingFolderMap, folderIds) in
    let existingFilesMap :=
      match folderIds1 with
      | [] => []
      | _ => map Files.StoragePath (Db.filesInFolders st1 folderIds1)
      end in
    let st2 := fold_left (insertFileStep (disk w) folderMap1 existingFilesMap) seenFiles st1 in
    let w3 :=
      fold_left (fun w' rf => if set_has (Files.StoragePath rf) seenFiles then w'
                              else enqueue_job w' (JobCleanFile (Files.Id rf)))
                (Db.filesUnderLike st2 folderPrefix) (with_store w st2) in
    fold_left (fun w' rf => if set_has (Folders.FullPath rf) seenFolders then w'
                            else enqueue_job w' (JobCleanFolder (Folders.Id rf)))
              (Db.foldersLike st2 folderPrefix) w3.

End Server.

(** ** The older build: one level, files only *)

Module Legacy.
Section Server.
Context (env : Env).

(** The names of the regular files of a listing. *)
Fixpoint file_names (es : Disk.entries) : list string :=
  match es with
  | Disk.Nil => []
  | Disk.Cons name (Disk.File _) rest => name :: file_names rest
  | Disk.Cons _ _ rest => file_names rest
  end.

(** [discoverAndAddNewFiles(folderId, folderPath)] *)
Definition discoverAndAddNewFiles (w : World) (folderId : option Z) (folderPath : string)
  : World :=
  let phys := fullPathToPhysical env folderPath in
  if negb (Disk.access (cwd env) (disk w) phys) then w
  else
    let dbPaths := map Files.StoragePath (Db.filesOfFolder (store w) folderId) in
    match Disk.readdir (cwd env) (disk w) phys with
    | None => w
    | Some entries =>
        let diskFiles :=
          map (fun name => (name, Str.replace_char "\" "/" (Path.join [phys; name])))
              (file_names entries) in
        let newFiles := filter (fun df => negb (set_has (snd df) dbPaths)) diskFiles in
        with_store w
          (fold_left
             (fun st nf =>
                match Disk.stat_size (cwd env) (disk w) (snd nf) with
                | None => st
                | Some size =>
                    snd (Db.insertFile st folderId (fst nf) (snd nf) size
                                       (Some "application/octet-stream"))
                end)
             newFiles (store w))
    end.

(** [GET /api/files] of this build. *)
Definition listFiles := listFilesWith env JobDiscover.

End Server.
End Legacy.

(** [rm] or [unlink] of one path; a missing path changes nothing. *)
Definition remove_path (env : Env) (w : World) (p : string) : World :=
  match rev (Path.resolve_segs (cwd env) p) with
  | name :: parent =>
      match Disk.update_at
              (fun d => match d with
                        | Disk.Dir r es => Some (Disk.Dir r (Disk.del_entry name es))
                        | _ => None
                        end) (disk w) (rev parent) with
      | Some d' => with_disk w d'
      | None => w
      end
  | [] => w
  end.

(** What running a job does to the store and the disk. *)
Definition run_job (env : Env) (w : World) (j : job) : World :=
  match j with
  | JobSync folderId folderPath => discoverAndSyncFolderRecursive env w folderId folderPath
  | JobDiscover folderId folderPath => Legacy.discoverAndAddNewFiles env w folderId folderPath
  | JobCleanFile fileId => with_store w (cleanFile (store w) fileId)
  | JobCleanFolder folderId => with_store w (cleanFolder (store w) folderId)
  | JobRemoveDir p | JobUnlink p => remove_path env w p
  | JobUnlinkTemps paths => fold_left (remove_path env) paths w
  end.

(** ** Properties of the folder table *)

(** Every path, cut before its last slash, is the path of a folder. *)
Definition ancestor_closed (st : Store) : bool :=
  forallb (fun r =>
             match parent_of (Folders.FullPath r) with
             | Some p => existsb (fun a => Folders.FullPath a =? p) (Folders st)
             | None => true
             end)
          (Folders st).

(** The path of a folder with a parent is the parent's path, a slash, and
    the folder's name. *)
Definition paths_follow_parents (st : Store) : bool :=
  forallb (fun r =>
             match Folders.ParentId r with
             | Some pid =>
                 existsb (fun a => Z.eqb (Folders.Id a) pid
                                   && (Folders.FullPath r
                                       =? Folders.FullPath a +++ "/" +++ Folders.Name r))
                         (Folders st)
             | None => true
             end)
          (Folders st).

(** The keys of the two main tables are what an IDENTITY primary key makes
    them: different from row to row and below the next value. *)
Fixpoint distinct (l : list Z) : bool :=
  match l with
  | [] => true
  | x :: rest => negb (Db.mem_Z x rest) && distinct rest
  end.

Definition keys_ok (st : Store) : bool :=
  distinct (map Folders.Id (Folders st))
  && distinct (map Files.Id (Files st))
  && forallb (fun r => Z.ltb (Folders.Id r) (nextFolderId st)) (Folders st)
  && forallb (fun f => Z.ltb (Files.Id f) (nextFileId st)) (Files st).

(** The cleanup job of a given file, of a given folder. *)
Definition is_clean_file (id : Z) (j : job) : bool :=
  match j with
  | JobCleanFile i => Z.eqb i id
  | _ => false
  end.

Definition is_clean_folder (id : Z) (j : job) : bool :=
  match j with
  | JobCleanFolder i => Z.eqb i id
  | _ => false
  end.

(** A job that only deletes rows of the store. *)
Definition is_cleanup (j : job) : bool :=
  match j with
  | JobCleanFile _ | JobCleanFolder _ => true
  | _ => false
  end.

(** Segments that are not empty (and, being segments, hold no slash). *)
Definition nonempty_segments (segs : list string) : bool :=
  forallb (fun s => Str.nonempty s && negb (Str.has_char "/" s)) segs.

(** Every entry of the folder map names a row of the folder table. *)
Definition map_ok (st : Store) (m : list (string * (Z * option Z))) : Prop :=
  forall k id pid, map_get k m = Some (id, pid) ->
    exists r, In r (Folders st) /\ Folders.FullPath r = k /\ Folders.Id r = id.

(** The map built from the rows of a query. *)
Definition map_of_rows (rows : list Folders.row) (m : list (string * (Z * option Z)))
  : list (string * (Z * option Z)) :=
  fold_left (fun m r => map_set (Folders.FullPath r) (Folders.Id r, Folders.ParentId r) m)
            rows m.

(** ** Concrete inputs for the closed examples *)

Module Fixtures.

Definition env0 : Env := {| server_dir := ["srv"; "tagger"]; cwd := "/srv/tagger" |}.

(** A disk that holds [/srv/tagger/uploads] with the given content. *)
Definition disk_with (uploads : Disk.entries) : Disk.node :=
  Disk.Dir true
    (Disk.Cons "srv"
       (Disk.Dir true
          (Disk.Cons "tagger"
             (Disk.Dir true (Disk.Cons "uploads" (Disk.Dir true uploads) Disk.Nil))
             Disk.Nil))
       Disk.Nil).

Definition folder_row (id : Z) (name : string) (parent : option Z) (path : string)
  : Folders.row :=
  {| Folders.Id := id; Folders.Name := name; Folders.ParentId := parent;
     Folders.FullPath := path |}.

Definition file_row (id : Z) (folderId : Z) (name path : string) (size : Z) : Files.row :=
  {| Files.Id := id; Files.FolderId := Some folderId; Files.Name := name;
     Files.StoragePath := path; Files.SizeBytes := size;
     Files.MimeType := Some "application/octet-stream" |}.

Definition store_of (folders : list Folders.row) (files : list Files.row)
           (fileTags folderTags : list (Z * Z)) : Store :=
  {| Folders := folders; Files := files; FileTags := fileTags; FolderTags := folderTags;
     nextFolderId := 100; nextFileId := 500 |}.

Definition root_row : Folders.row := folder_row 1 "root" None "/root".

(** Only the root folder is recorded. *)
Definition store_root : Store := store_of [root_row] [] [] [].

(** [uploads/root/photos/2023/img1.jpg] *)
Definition disk_photos : Disk.node :=
  disk_with
    (Disk.Cons "root"
       (Disk.Dir true
          (Disk.Cons "photos"
             (Disk.Dir true
                (Disk.Cons "2023"
                   (Disk.Dir true (Disk.Cons "img1.jpg" (Disk.File 2048) Disk.Nil))
                   Disk.Nil))
             Disk.Nil))
       Disk.Nil).

(** [uploads/root] is empty. *)
Definition disk_empty_root : Disk.node :=
  disk_with (Disk.Cons "root" (Disk.Dir true Disk.Nil) Disk.Nil).

Definition world_of (st : Store) (d : Disk.node) : World :=
  {| store := st; disk := d; queue := JobQueue.empty |}.

(** The queue as a job sees it: [process()] is running. *)
Definition world_in_job (st : Store) (d : Disk.node) : World :=
  {| store := st; disk := d;
     queue := {| JobQueue.jobs := []; JobQueue.processing := true;
                 JobQueue.awaiting := [JobSync None "/root"];
                 JobQueue.history := [JobQueue.Started (JobSync None "/root")] |} |}.

(** [/root/a_b] and [/root/axb], each with a file and a tag on it. *)
Definition store_wildcard : Store :=
  store_of [root_row; folder_row 2 "a_b" (Some 1%Z) "/root/a_b";
            folder_row 3 "axb" (Some 1%Z) "/root/axb"]
           [file_row 10 2 "m" "/srv/tagger/uploads/root/a_b/m" 1;
            file_row 11 3 "n" "/srv/tagger/uploads/root/axb/n" 1]
           [(10, 1); (11, 1)]%Z [].

(** [/root/A] and its sibling [/root/AB], which holds a file. *)
Definition store_siblings : Store :=
  store_of [root_row; folder_row 2 "A" (Some 1%Z) "/root/A";
            folder_row 3 "AB" (Some 1%Z) "/root/AB"]
           [file_row 11 3 "n" "/srv/tagger/uploads/root/AB/n" 1]
           [(11, 1)]%Z [].

(** [/root/A] with its child [/root/A/B]. *)
Definition store_A_B : Store :=
  store_of [root_row; folder_row 2 "A" (Some 1%Z) "/root/A";
            folder_row 3 "B" (Some 2%Z) "/root/A/B"] [] [] [].

(** The same with the folder named [a[1]]. *)
Definition store_bracket : Store :=
  store_of [root_row; folder_row 2 "a[1]" (Some 1%Z) "/root/a[1]";
            folder_row 3 "B" (Some 2%Z) "/root/a[1]/B"] [] [] [].

(** [uploads/root/<name>/B], two directories. *)
Definition disk_named (name : string) : Disk.node :=
  disk_with
    (Disk.Cons "root"
       (Disk.Dir true
          (Disk.Cons name
             (Disk.Dir true (Disk.Cons "B" (Disk.Dir true Disk.Nil) Disk.Nil))
             Disk.Nil))
       Disk.Nil).

(** [uploads/root] holds a file and a directory with a backslash in their
    names. *)
Definition root_backslash : Disk.entries :=
  Disk.Cons "a\b" (Disk.File 5) (Disk.Cons "c\d" (Disk.Dir true Disk.Nil) Disk.Nil).

Definition disk_backslash : Disk.node :=
  disk_with (Disk.Cons "root" (Disk.Dir true root_backslash) Disk.Nil).

(** [uploads/root] holds a file with a backslash in its name beside [ok.txt]
    and [sub/deep.txt]. *)
Definition root_mixed : Disk.entries :=
  Disk.Cons "a\b" (Disk.File 5)
    (Disk.Cons "ok.txt" (Disk.File 7)
       (Disk.Cons "sub" (Disk.Dir true (Disk.Cons "deep.txt" (Disk.File 9) Disk.Nil))
          Disk.Nil)).

Definition disk_mixed : Disk.node :=
  disk_with (Disk.Cons "root" (Disk.Dir true root_mixed) Disk.Nil).

(** The content of [uploads/root] in [disk_photos]. *)
Definition root_photos : Disk.entries :=
  Disk.Cons "photos"
    (Disk.Dir true
       (Disk.Cons "2023"
          (Disk.Dir true (Disk.Cons "img1.jpg" (Disk.File 2048) Disk.Nil))
          Disk.Nil))
    Disk.Nil.

(** The folder [/root/drafts] and a file in it are recorded. *)
Definition store_drafts : Store :=
  store_of [root_row; folder_row 2 "drafts" (Some 1%Z) "/root/drafts"]
           [file_row 7 2 "x" "/srv/tagger/uploads/root/drafts/x" 1] [(7, 1)]%Z [].

(** Jobs named by numbers: job 0 throws when called, the promise of job 1 is
    rejected, the others succeed. *)
Definition three_jobs (n : nat) : JobQueue.behaviour :=
  match n with
  | 0 => {| JobQueue.on_call := JobQueue.ThrowsSync "boom";
            JobQueue.on_settle := JobQueue.Fulfilled |}
  | 1 => {| JobQueue.on_call := JobQueue.ReturnsPromise;
            JobQueue.on_settle := JobQueue.Rejected "late" |}
  | _ => {| JobQueue.on_call := JobQueue.ReturnsPromise;
            JobQueue.on_settle := JobQueue.Fulfilled |}
  end.

End Fixtures.

(** ** More of JavaScript's strings

    The functions below classify single characters.  The classes of the
    regular expressions ([\w], [[a-z0-9\-]], [[0-9a-fA-F]]) are those of
    JavaScript on every character; [toLowerCase] follows JavaScript on ASCII
    text, and [trim] and [\s] on the 8-bit characters.  The theorems on tag
    names and on the new names of files and folders are stated for ASCII
    text, where all of them agree with JavaScript. *)

Module Text.

Definition code (a : ascii) : nat := nat_of_ascii a.

Definition between (lo hi : nat) (a : ascii) : bool :=
  Nat.leb lo (code a) && Nat.leb (code a) hi.

Definition is_digit : ascii -> bool := between 48 57.
Definition is_lower : ascii -> bool := between 97 122.
Definition is_upper : ascii -> bool := between 65 90.

(** [\w] *)
Definition is_word (a : ascii) : bool :=
  is_digit a || is_lower a || is_upper a || Ascii.eqb a "_".

(** [[0-9a-fA-F]] *)
Definition is_hex (a : ascii) : bool :=
  is_digit a || between 97 102 a || between 65 70 a.

(** Every character of the string is in the class. *)
Fixpoint chars_all (p : ascii -> bool) (s : string) : bool :=
  match s with
  | EmptyString => true
  | String a s' => p a && chars_all p s'
  end.

Definition is_ascii_text : string -> bool := chars_all (fun a => Nat.ltb (code a) 128).

Definition lower (a : ascii) : ascii :=
  if is_upper a then ascii_of_nat (code a + 32) else a.

(** [s.toLowerCase()] *)
Fixpoint toLowerCase (s : string) : string :=
  match s with
  | EmptyString => ""
  | String a s' => String (lower a) (toLowerCase s')
  end.

(** [s.trim()] *)
Definition trim (s : string) : string :=
  string_of_list_ascii
    (rev (Path.drop_while Str.is_space
            (rev (list_ascii_of_string (Str.trim_left s))))).

(** [s.replace(/[class]+/g, r)]: every maximal run of characters of the
    class gives one [r]; [in_run] tells that the character before was of the
    class. *)
Fixpoint replace_runs (p : ascii -> bool) (r : string) (in_run : bool) (s : string)
  : string :=
  match s with
  | EmptyString => ""
  | String a s' =>
      if p a
      then (if in_run then replace_runs p r true s' else r +++ replace_runs p r true s')
      else String a (replace_runs p r false s')
  end.

(** [s.split(/[class]/)] *)
Fixpoint split_where (p : ascii -> bool) (s : string) : list string :=
  match s with
  | EmptyString => [""]
  | String a s' =>
      if p a then "" :: split_where p s'
      else match split_where p s' with
           | [] => [String a ""]
           | h :: t => String a h :: t
           end
  end.

(** [s.padStart(n, c)] for a single character [c]. *)
Definition padStart (n : nat) (c : ascii) (s : string) : string :=
  string_of_list_ascii (repeat c (n - String.length s)) +++ s.

Definition hex_digit (d : nat) : ascii :=
  nth d (list_ascii_of_string "0123456789abcdef") "0"%char.

(** The digits of [n] in base 16, most significant first, before [acc]. *)
Fixpoint hex_digits (fuel : nat) (n : N) (acc : string) : string :=
  match fuel with
  | O => acc
  | S fuel' =>
      let acc' := String (hex_digit (N.to_nat (n mod 16))) acc in
      if N.eqb (n / 16) 0 then acc' else hex_digits fuel' (n / 16) acc'
  end.

(** [n.toString(16)] for a non-negative integer. *)
Definition toString16 (n : N) : string :=
  hex_digits (S (N.to_nat (N.log2 n))) n "".

End Text.

(** ** The names of an upload

    The [file] event of [POST /api/upload] splits the client's file name on
    both separators, keeps the last part as the file's name and the others,
    when not empty, as the folders to create; the name is stored with every
    run of characters outside [[A-Za-z0-9_.-]] replaced by one underscore. *)

Module Upload.

(** [String(filename).split(/[\\/]/)] *)
Definition parts (filename : string) : list string :=
  Text.split_where is_slash_or_backslash filename.

(** [parts.pop()] *)
Definition baseName (filename : string) : string := Str.last_seg (parts filename).

(** [parts.filter(Boolean)], after the [pop]. *)
Definition subDirs (filename : string) : list string :=
  filter Str.nonempty (removelast (parts filename)).

Definition safe_char (a : ascii) : bool :=
  Text.is_word a || Ascii.eqb a "." || Ascii.eqb a "-".

(** [baseName.replace(/[^\w.\-]+/g, "_")] *)
Definition safeName (baseName : string) : string :=
  Text.replace_runs (fun a => negb (safe_char a)) "_" false baseName.

End Upload.

(** ** Tags

    The table [Tags (Id, Name, Slug, ColorHex)] beside the tables of the
    store.  [FolderTags] is declared by [ensureFolderTagsTable] with the
    primary key [(FolderId, TagId)] and foreign keys to [Folders] and [Tags];
    an INSERT into it that breaks one of them throws. *)

Module Tags.
Record row := {
  Id : Z;
  Name : string;
  Slug : string;
  ColorHex : string
}.
End Tags.

Record TagStore := {
  rows : Store;
  Tags : list Tags.row;
  nextTagId : Z
}.

(** [/^#[0-9a-fA-F]{6}$/.test(s)] *)
Definition is_color (s : string) : bool :=
  match s with
  | String c rest =>
      Ascii.eqb c "#" && Nat.eqb (String.length rest) 6 && Text.chars_all Text.is_hex rest
  | EmptyString => false
  end.

(** ["#" + n.toString(16).padStart(6, "0")], where [n] stands for
    [Math.floor(Math.random() * 16777215)]. *)
Definition randomColor (n : N) : string :=
  "#" +++ Text.padStart 6 "0" (Text.toString16 n).

(** [String(name).trim().toLowerCase().replace(/\s+/g, "-")
      .replace(/[^a-z0-9\-]/g, "")] *)
Definition slug_char (a : ascii) : bool :=
  Text.is_lower a || Text.is_digit a || Ascii.eqb a "-".

Definition slugOf (name : string) : string :=
  Str.remove_chars (fun a => negb (slug_char a))
    (Text.replace_runs Str.is_space "-" false (Text.toLowerCase (Text.trim name))).

(** [colorHex != null && colorHex !== "" && !re.test(colorHex)] does not hold. *)
Definition color_acceptable (colorHex : option string) : bool :=
  match colorHex with
  | Some c => negb (Str.nonempty c) || is_color c
  | None => true
  end.

(** [SELECT * FROM Tags WHERE Slug=@Slug] *)
Definition tagsBySlug (ts : TagStore) (slug : string) : list Tags.row :=
  filter (fun t => Sql.str_eq (Tags.Slug t) slug) (Tags ts).

(** [SELECT * FROM Tags WHERE Id=@Id] *)
Definition tagById (ts : TagStore) (id : Z) : list Tags.row :=
  filter (fun t => Z.eqb (Tags.Id t) id) (Tags ts).

(** [POST /api/tags]; [random] is the number drawn for the colour. *)
Definition createTag (ts : TagStore) (random : N) (name : string)
           (colorHex : option string) : TagStore * response Tags.row :=
  if Str.blank name then (ts, BadRequest400 "Name required")
  else if negb (color_acceptable colorHex) then (ts, BadRequest400 "Invalid color")
  else
    let slug := slugOf name in
    match tagsBySlug ts slug with
    | t :: _ => (ts, Ok200 t)
    | [] =>
        let color :=
          match colorHex with
          | Some c => if Str.nonempty c then c else randomColor random
          | None => randomColor random
          end in
        let t := {| Tags.Id := nextTagId ts; Tags.Name := name; Tags.Slug := slug;
                    Tags.ColorHex := color |} in
        ({| rows := rows ts; Tags := Tags ts ++ [t]; nextTagId := nextTagId ts + 1 |},
         Created201 t)
    end.

(** [POST /api/tags/:id/color] *)
Definition setTagColor (ts : TagStore) (id : Z) (colorHex : option string)
  : TagStore * response unit :=
  match colorHex with
  | Some c =>
      if is_color c
      then ({| rows := rows ts;
               Tags := map (fun t => if Z.eqb (Tags.Id t) id
                                     then {| Tags.Id := Tags.Id t; Tags.Name := Tags.Name t;
                                             Tags.Slug := Tags.Slug t; Tags.ColorHex := c |}
                                     else t) (Tags ts);
               nextTagId := nextTagId ts |}, Ok200 tt)
      else (ts, BadRequest400 "Invalid color")
  | None => (ts, BadRequest400 "Invalid color")
  end.

(** [PATCH /api/tags/:id] *)
Definition patchTag (ts : TagStore) (id : Z) (name colorHex : option string)
  : TagStore * response Tags.row :=
  if Z.eqb id 0 then (ts, BadRequest400 "Invalid id")
  else if negb (color_acceptable colorHex) then (ts, BadRequest400 "Invalid color")
  else
    let ts' :=
      match name, colorHex with
      | None, None => ts
      | _, _ =>
          {| rows := rows ts;
             Tags := map (fun t =>
                            if Z.eqb (Tags.Id t) id
                            then {| Tags.Id := Tags.Id t;
                                    Tags.Name := match name with
                                                 | Some n => n
                                                 | None => Tags.Name t
                                                 end;
                                    Tags.Slug := Tags.Slug t;
                                    Tags.ColorHex := match colorHex with
                                                     | Some c => c
                                                     | None => Tags.ColorHex t
                                                     end |}
                            else t) (Tags ts);
             nextTagId := nextTagId ts |}
      end in
    match tagById ts' id with
    | t :: _ => (ts', Ok200 t)
    | [] => (ts', NotFound404 "Tag not found")
    end.

(** [DELETE /api/tags/:id] *)
Definition deleteTag (ts : TagStore) (id : Z) : TagStore * response unit :=
  if Z.eqb id 0 then (ts, BadRequest400 "Invalid id")
  else
    ({| rows :=
          {| Folders := Folders (rows ts); Files := Files (rows ts);
             FileTags := filter (fun ft => negb (Z.eqb (snd ft) id)) (FileTags (rows ts));
             FolderTags := filter (fun ft => negb (Z.eqb (snd ft) id)) (FolderTags (rows ts));
             nextFolderId := nextFolderId (rows ts); nextFileId := nextFileId (rows ts) |};
        Tags := filter (fun t => negb (Z.eqb (Tags.Id t) id)) (Tags ts);
        nextTagId := nextTagId ts |}, Ok200 tt).

Definition pair_eqb (a b : Z * Z) : bool := Z.eqb (fst a) (fst b) && Z.eqb (snd a) (snd b).

(** [INSERT INTO FolderTags (FolderId, TagId) VALUES (@FolderId, @TagId)]:
    [None] when a key is violated. *)
Definition insertFolderTag (ts : TagStore) (folderId tagId : Z) : option TagStore :=
  if existsb (fun r => Z.eqb (Folders.Id r) folderId) (Folders (rows ts))
     && existsb (fun t => Z.eqb (Tags.Id t) tagId) (Tags ts)
     && negb (existsb (pair_eqb (folderId, tagId)) (FolderTags (rows ts)))
  then Some {| rows :=
                 {| Folders := Folders (rows ts); Files := Files (rows ts);
                    FileTags := FileTags (rows ts);
                    FolderTags := FolderTags (rows ts) ++ [(folderId, tagId)];
                    nextFolderId := nextFolderId (rows ts);
                    nextFileId := nextFileId (rows ts) |};
               Tags := Tags ts; nextTagId := nextTagId ts |}
  else None.

(** The loop over [tagIds]: the store reached, and whether every INSERT
    went through. *)
Fixpoint insertFolderTags (ts : TagStore) (folderId : Z) (tagIds : list Z)
  : TagStore * bool :=
  match tagIds with
  | [] => (ts, true)
  | tid :: rest =>
      match insertFolderTag ts folderId tid with
      | Some ts' => insertFolderTags ts' folderId rest
      | None => (ts, false)
      end
  end.

(** [POST /api/folder/:id/tags]; [tagIds] is the parsed array, of which the
    entries that are 0 are dropped ([filter(Boolean)]). *)
Definition setFolderTags (ts : TagStore) (id : Z) (tagIds : list Z)
  : TagStore * response unit :=
  if Z.eqb id 0 then (ts, BadRequest400 "Invalid id")
  else
    let ts0 :=
      {| rows :=
           {| Folders := Folders (rows ts); Files := Files (rows ts);
              FileTags := FileTags (rows ts);
              FolderTags := filter (fun ft => negb (Z.eqb (fst ft) id)) (FolderTags (rows ts));
              nextFolderId := nextFolderId (rows ts); nextFileId := nextFileId (rows ts) |};
         Tags := Tags ts; nextTagId := nextTagId ts |} in
    let '(ts', ok) := insertFolderTags ts0 id (filter (fun t => negb (Z.eqb t 0)) tagIds) in
    (ts', if ok then Ok200 tt else Failed500).

(** [GET /api/folder/:id/tags]: every tag, with whether the folder has it. *)
Definition getFolderTags (ts : TagStore) (id : Z) : response (list (Tags.row * bool)) :=
  if Z.eqb id 0 then BadRequest400 "Invalid id"
  else
    Ok200
      (flat_map
         (fun t =>
            match filter (fun ft => Z.eqb (snd ft) (Tags.Id t) && Z.eqb (fst ft) id)
                         (FolderTags (rows ts)) with
            | [] => [(t, false)]
            | joined => map (fun _ => (t, true)) joined
            end)
         (sort_stable (fun a b => String.leb (Tags.Name a) (Tags.Name b)) (Tags ts))).

(** Every stored colour is empty or [#] and six hexadecimal digits. *)
Definition colors_ok (ts : TagStore) : bool :=
  forallb (fun t => negb (Str.nonempty (Tags.ColorHex t)) || is_color (Tags.ColorHex t))
          (Tags ts).

(** ** Files and the root folder *)

(** [SELECT * FROM Files WHERE Id=@Id] *)
Definition fileById (st : Store) (id : Z) : list Files.row :=
  filter (fun f => Z.eqb (Files.Id f) id) (Files st).

(** [DELETE /api/file/:id] *)
Definition deleteFile (w : World) (id : Z) : World * response unit :=
  if Z.eqb id 0 then (w, BadRequest400 "Invalid id")
  else
    match fileById (store w) id with
    | [] => (w, NotFound404 "File not found")
    | file :: _ =>
        (enqueue_job (with_store w (cleanFile (store w) id))
                     (JobUnlink (Files.StoragePath file)), Ok200 tt)
    end.

(** [path.extname]: the part of the last name from its last dot on, empty
    when there is no dot, when the only dot starts the name, or when the
    name is [..]. *)
Definition extname (p : string) : string :=
  let b := Path.basename p in
  match Str.last_index_of "." b with
  | None | Some O => ""
  | Some i => if b =? ".." then "" else Str.slice_from i b
  end.

(** [UPDATE Files SET Name=@Name WHERE Id=@Id] *)
Definition setFileName (st : Store) (id : Z) (name : string) : Store :=
  {| Folders := Folders st;
     Files := map (fun f => if Z.eqb (Files.Id f) id
                            then {| Files.Id := Files.Id f; Files.FolderId := Files.FolderId f;
                                    Files.Name := name;
                                    Files.StoragePath := Files.StoragePath f;
                                    Files.SizeBytes := Files.SizeBytes f;
                                    Files.MimeType := Files.MimeType f |}
                            else f) (Files st);
     FileTags := FileTags st; FolderTags := FolderTags st;
     nextFolderId := nextFolderId st; nextFileId := nextFileId st |}.

(** [UPDATE Files SET StoragePath=@StoragePath WHERE Id=@Id] *)
Definition setStoragePath (st : Store) (id : Z) (storagePath : string) : Store :=
  {| Folders := Folders st;
     Files := map (fun f => if Z.eqb (Files.Id f) id
                            then {| Files.Id := Files.Id f; Files.FolderId := Files.FolderId f;
                                    Files.Name := Files.Name f;
                                    Files.StoragePath := storagePath;
                                    Files.SizeBytes := Files.SizeBytes f;
                                    Files.MimeType := Files.MimeType f |}
                            else f) (Files st);
     FileTags := FileTags st; FolderTags := FolderTags st;
     nextFolderId := nextFolderId st; nextFileId := nextFileId st |}.

(** [PATCH /api/file/:id] of the current build: the name in the table, then
    the attempt to rename the file beside itself, keeping the extension of
    the old name; the storage path follows when the rename went through. *)
Definition renameFile (env : Env) (w : World) (id : Z) (name : string)
  : World * response (option Files.row) :=
  if Z.eqb id 0 then (w, BadRequest400 "Invalid id")
  else if Str.blank name then (w, BadRequest400 "Name required")
  else
    match fileById (store w) id with
    | [] => (w, NotFound404 "File not found")
    | file :: _ =>
        let oldName := Files.Name file in
        let oldPath := Files.StoragePath file in
        let st1 := setFileName (store w) id (Text.trim name) in
        let w1 := with_store w st1 in
        let w2 :=
          if Str.nonempty oldPath && Disk.access (cwd env) (disk w) oldPath
          then
            let newPath :=
              Path.join [Path.dirname oldPath; Text.trim name +++ extname oldName] in
            if Disk.access (cwd env) (disk w) newPath then w1
            else
              match Disk.rename (disk w) (Path.resolve_segs (cwd env) oldPath)
                                (Path.resolve_segs (cwd env) newPath) with
              | Some d =>
                  {| store := setStoragePath st1 id (Str.replace_char "\" "/" newPath);
                     disk := d; queue := queue w |}
              | None => w1
              end
          else w1 in
        (w2, Ok200 (hd_error (fileById (store w2) id)))
    end.

(** [PATCH /api/file/:id] of the older build: the name in the table only. *)
Definition renameFileRecord (w : World) (id : Z) (name : string)
  : World * response Files.row :=
  if Z.eqb id 0 then (w, BadRequest400 "Invalid id")
  else if Str.blank name then (w, BadRequest400 "Name required")
  else
    let st' := setFileName (store w) id (Text.trim name) in
    match fileById st' id with
    | f :: _ => (with_store w st', Ok200 f)
    | [] => (with_store w st', NotFound404 "File not found")
    end.

(** The folders without parent. *)
Definition parentless (st : Store) : list Folders.row :=
  filter (fun r => match Folders.ParentId r with None => true | Some _ => false end)
         (Folders st).

(** [ensureRootFolder()]: the world after it and the root it returns, [None]
    when [mkdir] throws. *)
Definition ensureRootFolder (env : Env) (w : World) : World * option Folders.row :=
  let st1 :=
    match parentless (store w) with
    | [] => snd (Db.insertFolder (store w) "root" None "/root")
    | _ => store w
    end in
  match sort_stable (fun a b => Z.leb (Folders.Id a) (Folders.Id b)) (parentless st1) with
  | root :: _ =>
      match ensureDiskFolder env (disk w) (Folders.FullPath root) with
      | Some d => ({| store := st1; disk := d; queue := queue w |}, Some root)
      | None => (with_store w st1, None)
      end
  | [] => (with_store w st1, None)
  end.

(** The id and the path are those of a recorded folder. *)
Definition names_folder (st : Store) (id : Z) (path : string) : Prop :=
  exists b, In b (Folders st) /\ Folders.Id b = id /\ Folders.FullPath b = path.

(** From [w] to [w1] folders were only added, at the end of the table, and
    nothing else of the store or the queue changed; the two rules on paths
    and the files on the disk were kept. *)
Definition gains_folders (w w1 : World) : Prop :=
  (exists added, Folders (store w1) = Folders (store w) ++ added)
  /\ Files (store w1) = Files (store w)
  /\ FileTags (store w1) = FileTags (store w)
  /\ FolderTags (store w1) = FolderTags (store w)
  /\ queue w1 = queue w
  /\ (ancestor_closed (store w) = true -> ancestor_closed (store w1) = true)
  /\ (paths_follow_parents (store w) = true -> paths_follow_parents (store w1) = true)
  /\ (forall q z, Disk.lookup (disk w) q = Some (Disk.File z) ->
                  Disk.lookup (disk w1) q = Some (Disk.File z)).

(** Any character but the backslash. *)
Definition not_backslash (a : ascii) : bool := negb (Ascii.eqb a "\").

(** An answer that turns the request down: 400 or 404. *)
Definition refused {A : Type} (r : response A) : bool :=
  match r with
  | BadRequest400 _ | NotFound404 _ => true
  | _ => false
  end.

(** ** More concrete inputs *)

Module Samples.

Definition tag (id : Z) (name color : string) : Tags.row :=
  {| Tags.Id := id; Tags.Name := name; Tags.Slug := name; Tags.ColorHex := color |}.

(** The folders [/root] and [/root/drafts], the tags [a] and [b]; the folder
    [drafts] has the tag [a]. *)
Definition tagged : TagStore :=
  {| rows := Fixtures.store_of
               [Fixtures.root_row; Fixtures.folder_row 2 "drafts" (Some 1%Z) "/root/drafts"]
               [] [] [(2, 1)]%Z;
     Tags := [tag 1 "a" "#000000"; tag 2 "b" "#ffffff"];
     nextTagId := 3 |}.

(** [uploads/root] holds [report.txt] and [taken.txt]; the first is the
    recorded file 7. *)
Definition disk_report : Disk.node :=
  Fixtures.disk_with
    (Disk.Cons "root"
       (Disk.Dir true
          (Disk.Cons "report.txt" (Disk.File 10)
             (Disk.Cons "taken.txt" (Disk.File 20) Disk.Nil)))
       Disk.Nil).

Definition store_report : Store :=
  Fixtures.store_of [Fixtures.root_row]
    [Fixtures.file_row 7 1 "report.txt" "/srv/tagger/uploads/root/report.txt" 10] [] [].

End Samples.

(* ================================================================== *)
(** * Theory *)
(* ================================================================== *)

Module StrFacts.
Import Str.

Lemma append_nil_r (s : string) : s +++ "" = s.
Proof. induction s; simpl; congruence. Qed.

Lemma append_assoc (a b c : string) : (a +++ b) +++ c = a +++ b +++ c.
Proof. induction a; simpl; congruence. Qed.

Lemma split_on_not_nil c s : split_on c s <> [].
Proof.
  destruct s as [|a s]; simpl; [discriminate|].
  destruct (Ascii.eqb a c); [discriminate|].
  destruct (split_on c s); discriminate.
Qed.

Lemma split_on_no_char c s : has_char c s = false -> split_on c s = [s].
Proof.
  induction s as [|a s IH]; simpl; [reflexivity|].
  destruct (Ascii.eqb a c); simpl; [discriminate|].
  intros H. rewrite (IH H). reflexivity.
Qed.

(** Splitting distributes over a separator. *)
Lemma split_on_sep c x y :
  split_on c (x +++ String c y) = split_on c x ++ split_on c y.
Proof.
  induction x as [|a x IH]; simpl.
  - rewrite Ascii.eqb_refl. reflexivity.
  - destruct (Ascii.eqb a c); [rewrite IH; reflexivity|].
    rewrite IH.
    destruct (split_on c x) eqn:E; [exfalso; eapply split_on_not_nil; eauto|].
    reflexivity.
Qed.

Lemma split_on_slash_free c s : Forall (fun x => has_char c x = false) (split_on c s).
Proof.
  induction s as [|a s IH]; simpl.
  - constructor; [reflexivity|constructor].
  - destruct (Ascii.eqb a c) eqn:E.
    + constructor; [reflexivity|exact IH].
    + destruct (split_on c s) as [|h t]; [repeat constructor; simpl; rewrite E; reflexivity|].
      inversion IH; subst. constructor; [simpl; rewrite E; assumption|assumption].
Qed.

Lemma split_join c l :
  l <> [] -> Forall (fun x => has_char c x = false) l ->
  split_on c (join_with (String c "") l) = l.
Proof.
  induction l as [|x l IH]; [congruence|].
  intros _ H. inversion H as [|? ? Hx Hl]; subst.
  destruct l as [|y l].
  - simpl. apply split_on_no_char; assumption.
  - change (join_with (String c "") (x :: y :: l))
      with (x +++ String c (join_with (String c "") (y :: l))).
    rewrite split_on_sep, split_on_no_char by assumption.
    rewrite IH by first [assumption | discriminate]. reflexivity.
Qed.

Lemma has_char_append c a b :
  has_char c (a +++ b) = has_char c a || has_char c b.
Proof. induction a as [|x a IH]; simpl; [reflexivity|]. rewrite IH, orb_assoc. reflexivity. Qed.

Lemma replace_char_absent a b s : has_char a s = false -> replace_char a b s = s.
Proof.
  induction s as [|x s IH]; simpl; [reflexivity|].
  destruct (Ascii.eqb x a); simpl; [discriminate|]. intros H. rewrite IH; auto.
Qed.

Lemma has_char_join c sep l :
  has_char c sep = false -> Forall (fun x => has_char c x = false) l ->
  has_char c (join_with sep l) = false.
Proof.
  intros Hs. induction l as [|x l IH]; intros H; [reflexivity|].
  inversion H; subst. destruct l as [|y l]; [assumption|].
  change (join_with sep (x :: y :: l)) with (x +++ sep +++ join_with sep (y :: l)).
  rewrite !has_char_append, IH by assumption.
  rewrite Hs. rewrite H2. reflexivity.
Qed.

End StrFacts.

Module PathFacts.
Import Str StrFacts Path.

Lemma plain_name_inv s :
  plain_name s = true ->
  s <> "" /\ s <> "." /\ s <> ".." /\ has_char "/" s = false.
Proof.
  unfold plain_name, nonempty. rewrite !andb_true_iff, !negb_true_iff.
  intros [[[H1 H2] H3] H4]. repeat split; try assumption.
  all: intros ->; discriminate.
Qed.

Lemma seg_step_plain b st s : plain_name s = true -> seg_step b st s = s :: st.
Proof.
  intros H. apply plain_name_inv in H. destruct H as (H1 & H2 & H3 & _).
  unfold seg_step.
  apply String.eqb_neq in H1, H2, H3. rewrite H1, H2, H3. reflexivity.
Qed.

Lemma fold_plain b segs st :
  Forall (fun s => plain_name s = true) segs ->
  fold_left (seg_step b) segs st = rev segs ++ st.
Proof.
  revert st. induction segs as [|s segs IH]; intros st H; [reflexivity|].
  inversion H; subst. simpl. rewrite seg_step_plain by assumption.
  rewrite IH by assumption. rewrite <- app_assoc. reflexivity.
Qed.

Lemma plain_no_slash l :
  Forall (fun s => plain_name s = true) l ->
  Forall (fun x => has_char "/" x = false) l.
Proof.
  intros H. eapply Forall_impl; [|exact H]. intros a Ha.
  apply plain_name_inv in Ha. tauto.
Qed.

Lemma split_abs_path segs :
  Forall (fun s => plain_name s = true) segs ->
  filter nonempty (split_on "/" (abs_path segs)) = segs.
Proof.
  intros H. unfold abs_path.
  assert (Hne : filter nonempty segs = segs).
  { clear -H. induction H as [|s l Hs Hl IH]; [reflexivity|]. simpl.
    apply plain_name_inv in Hs. destruct Hs as (Hs & _).
    unfold nonempty at 1. apply String.eqb_neq in Hs. rewrite Hs. simpl. congruence. }
  destruct segs as [|s segs]; [reflexivity|].
  change ("/" +++ join_with "/" (s :: segs))
    with ("" +++ String "/" (join_with "/" (s :: segs))).
  rewrite split_on_sep, split_join by (try discriminate; apply plain_no_slash; assumption).
  simpl app. simpl filter at 1. exact Hne.
Qed.

Lemma normalizeString_abs_path b segs :
  Forall (fun s => plain_name s = true) segs ->
  normalizeString b (abs_path segs) = segs.
Proof.
  intros H. unfold normalizeString, abs_path.
  destruct segs as [|s segs]; [reflexivity|].
  change ("/" +++ join_with "/" (s :: segs))
    with ("" +++ String "/" (join_with "/" (s :: segs))).
  rewrite split_on_sep, split_join by (try discriminate; apply plain_no_slash; assumption).
  change (fold_left (seg_step b) (split_on "/" "" ++ s :: segs) [])
    with (fold_left (seg_step b) (s :: segs) []).
  rewrite (fold_plain b (s :: segs) [] H). rewrite app_nil_r. apply rev_involutive.
Qed.

(** Appending plain segments to any path appends them to its normal form. *)
Lemma normalizeString_extend b x segs :
  segs <> [] -> Forall (fun s => plain_name s = true) segs ->
  normalizeString b (x +++ "/" +++ join_with "/" segs) = normalizeString b x ++ segs.
Proof.
  intros Hne H. unfold normalizeString.
  change (x +++ "/" +++ join_with "/" segs) with (x +++ String "/" (join_with "/" segs)).
  rewrite split_on_sep, split_join by (try assumption; apply plain_no_slash; assumption).
  rewrite fold_left_app, fold_plain by assumption.
  rewrite rev_app_distr, rev_involutive. reflexivity.
Qed.

Lemma seg_step_keeps_plain st s :
  has_char "/" s = false ->
  Forall (fun x => plain_name x = true) st ->
  Forall (fun x => plain_name x = true) (seg_step false st s).
Proof.
  intros Hs Hst. unfold seg_step.
  destruct (s =? "") eqn:E1; [exact Hst|].
  destruct (s =? ".") eqn:E2; [exact Hst|]. simpl.
  destruct (s =? "..") eqn:E3.
  - destruct st as [|t st]; [constructor|].
    inversion Hst; subst. destruct (t =? ".."); assumption.
  - constructor; [|assumption].
    unfold plain_name, nonempty. rewrite E1, E2, E3, Hs. reflexivity.
Qed.

Lemma normalizeString_plain p :
  Forall (fun x => plain_name x = true) (normalizeString false p).
Proof.
  unfold normalizeString. apply Forall_rev.
  assert (G : forall l st, Forall (fun x => has_char "/" x = false) l ->
            Forall (fun x => plain_name x = true) st ->
            Forall (fun x => plain_name x = true) (fold_left (seg_step false) l st)).
  { induction l as [|a l IH]; intros st Hl Hst; [exact Hst|].
    inversion Hl; subst. simpl. apply IH; [assumption|].
    apply seg_step_keeps_plain; assumption. }
  apply G; [apply split_on_slash_free|constructor].
Qed.

Lemma join_nonempty sep l x :
  In x l -> x <> "" -> join_with sep l <> "".
Proof.
  induction l as [|y l IH]; [contradiction|].
  intros Hin Hx. destruct l as [|z l].
  - destruct Hin as [->|[]]. exact Hx.
  - change (join_with sep (y :: z :: l)) with (y +++ sep +++ join_with sep (z :: l)).
    destruct Hin as [->|Hin].
    + destruct x; [congruence|discriminate].
    + specialize (IH Hin Hx). destruct y; simpl; [|discriminate].
      destruct sep; simpl; [exact IH|discriminate].
Qed.

Lemma join_plain_eqb l :
  Forall (fun x => plain_name x = true) l ->
  (join_with "/" l =? "") = match l with [] => true | _ => false end.
Proof.
  intros H. destruct l as [|x l]; [reflexivity|].
  apply String.eqb_neq. inversion H; subst.
  apply join_nonempty with (x := x); [left; reflexivity|].
  apply plain_name_inv in H2. tauto.
Qed.

Lemma ends_with_char_append c x y :
  y <> "" -> ends_with_char c (x +++ y) = ends_with_char c y.
Proof.
  intros Hy. induction x as [|a x IH]; [reflexivity|].
  simpl. destruct (x +++ y) eqn:E; [|exact IH].
  destruct x; simpl in E; [congruence|discriminate].
Qed.

Lemma ends_with_no_char c s : has_char c s = false -> ends_with_char c s = false.
Proof.
  induction s as [|a s IH]; [reflexivity|]. simpl.
  destruct (Ascii.eqb a c); simpl; [discriminate|].
  intros H. destruct s; [reflexivity|]. apply IH, H.
Qed.

Lemma ends_with_join x l :
  l <> [] -> Forall (fun s => plain_name s = true) l ->
  ends_with_char "/" (x +++ "/" +++ join_with "/" l) = false.
Proof.
  revert x. induction l as [|s l IH]; [congruence|].
  intros x _ H. inversion H; subst.
  apply plain_name_inv in H2. destruct H2 as (Hs & _ & _ & Hns).
  destruct l as [|t l].
  - simpl join_with. rewrite <- append_assoc, ends_with_char_append by assumption.
    apply ends_with_no_char, Hns.
  - change (join_with "/" (s :: t :: l)) with (s +++ "/" +++ join_with "/" (t :: l)).
    rewrite <- (append_assoc x), <- (append_assoc (x +++ "/")).
    apply IH; [discriminate|assumption].
Qed.

Lemma normalize_abs p :
  isAbsolute p = true -> ends_with_char "/" p = false ->
  normalize p = abs_path (normalizeString false p).
Proof.
  intros Ha He. unfold normalize.
  destruct p as [|c p]; [discriminate|].
  change (String c p =? "") with false. cbv iota.
  rewrite Ha, He. simpl negb.
  rewrite join_plain_eqb by apply normalizeString_plain.
  destruct (normalizeString false (String c p)); reflexivity.
Qed.

(** [path.join] of a normal absolute path and plain names. *)
Lemma join_abs_path R segs :
  Forall (fun s => plain_name s = true) R ->
  Forall (fun s => plain_name s = true) segs ->
  Path.join (abs_path R :: segs) = abs_path (R ++ segs).
Proof.
  intros HR Hs. unfold Path.join.
  assert (Hf : filter nonempty (abs_path R :: segs) = abs_path R :: segs).
  { simpl. f_equal. clear -Hs. induction Hs as [|s l Hs Hl IH]; [reflexivity|]. simpl.
    apply plain_name_inv in Hs. destruct Hs as (Hs & _).
    unfold nonempty at 1. apply String.eqb_neq in Hs. rewrite Hs. simpl. congruence. }
  rewrite Hf.
  destruct segs as [|s segs].
  - rewrite app_nil_r. simpl join_with.
    destruct R as [|r R]; [reflexivity|].
    change (abs_path (r :: R) =? "") with false. cbv iota.
    rewrite normalize_abs; [rewrite normalizeString_abs_path by assumption; reflexivity
                           |reflexivity|].
    unfold abs_path. change ("/" +++ join_with "/" (r :: R))
      with ("" +++ "/" +++ join_with "/" (r :: R)).
    apply ends_with_join; [discriminate|assumption].
  - change (join_with "/" (abs_path R :: s :: segs))
      with (abs_path R +++ "/" +++ join_with "/" (s :: segs)).
    change (abs_path R +++ "/" +++ join_with "/" (s :: segs) =? "") with false. cbv iota.
    rewrite normalize_abs;
      [|reflexivity|apply ends_with_join; [discriminate|assumption]].
    rewrite normalizeString_extend by first [discriminate | assumption].
    rewrite normalizeString_abs_path by assumption. reflexivity.
Qed.

Lemma strip_common_prefix R segs : strip_common R (R ++ segs) = ([], segs).
Proof.
  induction R as [|r R IH]; simpl; [destruct segs; reflexivity|].
  rewrite String.eqb_refl. exact IH.
Qed.

Lemma relative_under cwd R segs :
  Forall (fun s => plain_name s = true) R ->
  Forall (fun s => plain_name s = true) segs ->
  relative cwd (abs_path R) (abs_path (R ++ segs)) = join_with "/" segs.
Proof.
  intros HR Hs. unfold relative, resolve_segs.
  assert (A : forall l, isAbsolute (abs_path l) = true) by reflexivity.
  rewrite !A, !normalizeString_abs_path
    by (try assumption; apply Forall_app; split; assumption).
  rewrite strip_common_prefix. reflexivity.
Qed.

Section WithEnv.
Context (env : Env).

Lemma upload_root_segs_plain :
  Forall (fun s => plain_name s = true) (upload_root_segs env).
Proof. apply normalizeString_plain. Qed.

Lemma UPLOAD_ROOT_abs : UPLOAD_ROOT env = abs_path (upload_root_segs env).
Proof.
  unfold UPLOAD_ROOT, upload_root_segs, Path.join.
  change (filter nonempty [__dirname env; "uploads"]) with [__dirname env; "uploads"].
  change (join_with "/" [__dirname env; "uploads"])
    with (__dirname env +++ "/" +++ join_with "/" ["uploads"]).
  change (__dirname env +++ "/" +++ join_with "/" ["uploads"] =? "") with false.
  cbv iota.
  apply normalize_abs; [reflexivity|].
  apply (ends_with_join (__dirname env) ["uploads"]); [discriminate|repeat constructor].
Qed.

Lemma fullPathToPhysical_logical segs :
  Forall (fun s => plain_name s = true) segs ->
  fullPathToPhysical env (logical_path segs) = abs_path (upload_root_segs env ++ segs).
Proof.
  intros H. unfold fullPathToPhysical, logical_path.
  fold (abs_path segs). rewrite split_abs_path by assumption.
  rewrite UPLOAD_ROOT_abs. apply join_abs_path; [apply upload_root_segs_plain|assumption].
Qed.

Lemma toLogical_physical segs :
  Forall (fun s => clean_name s = true) segs ->
  toLogical env (abs_path (upload_root_segs env ++ segs)) = logical_path segs.
Proof.
  intros H.
  assert (Hp : Forall (fun s => plain_name s = true) segs).
  { eapply Forall_impl; [|exact H]. intros a Ha. unfold clean_name in Ha.
    apply andb_true_iff in Ha. tauto. }
  unfold toLogical. rewrite UPLOAD_ROOT_abs.
  rewrite relative_under by (try assumption; apply upload_root_segs_plain).
  rewrite replace_char_absent; [reflexivity|].
  apply has_char_join; [reflexivity|].
  eapply Forall_impl; [|exact H]. intros a Ha. unfold clean_name in Ha.
  apply andb_true_iff in Ha. destruct Ha as [_ Ha]. apply negb_true_iff in Ha. exact Ha.
Qed.

End WithEnv.
End PathFacts.

Module QueueFacts.
Import JobQueue.

Section Queue.
Context {J : Type} (behave : J -> behaviour).

Local Notation "'Q'" := (JobQueue.t J).
Local Notation "'inv'" := (JobQueue.inv behave).
Local Notation "'accounted'" := (JobQueue.accounted behave).

Lemma started_app (h1 h2 : list (event J)) : started (h1 ++ h2) = started h1 ++ started h2.
Proof. apply flat_map_app. Qed.

Lemma finished_app (h1 h2 : list (event J)) :
  finished (h1 ++ h2) = finished h1 ++ finished h2.
Proof. apply flat_map_app. Qed.

Lemma logged_app (h1 h2 : list (event J)) : logged (h1 ++ h2) = logged h1 ++ logged h2.
Proof. apply flat_map_app. Qed.

(** The loop, one job at a time. *)
Lemma drain_throw job rest proc aw h e :
  on_call (behave job) = ThrowsSync e ->
  drain behave (job :: rest) proc aw h
  = drain behave rest proc aw (((h ++ [Started job]) ++ [ConsoleError e]) ++ [Finished job]).
Proof.
  intros E. simpl. unfold call_job, try_catch, console_error. rewrite E. reflexivity.
Qed.

Lemma drain_promise job rest proc aw h :
  on_call (behave job) = ReturnsPromise ->
  drain behave (job :: rest) proc aw h
  = (Normal, {| jobs := rest; processing := proc; awaiting := aw ++ [job];
                history := h ++ [Started job] |}).
Proof.
  intros E. simpl. unfold call_job, try_catch, console_error. rewrite E. reflexivity.
Qed.

Lemma enqueue_idle (q : Q) j :
  processing q = false -> jobs q = [] ->
  snd (enqueue behave q j) = snd (drain behave [j] true (awaiting q) (history q)).
Proof.
  intros Hp Hj. unfold enqueue, process. cbn [jobs processing awaiting history].
  rewrite Hp, Hj. cbn [app orb].
  destruct (drain behave [j] true (awaiting q) (history q)). reflexivity.
Qed.

Lemma enqueue_busy (q : Q) j :
  processing q = true ->
  snd (enqueue behave q j)
  = {| jobs := jobs q ++ [j]; processing := processing q;
       awaiting := awaiting q; history := history q |}.
Proof.
  intros Hp. unfold enqueue, process. cbn [jobs processing awaiting history].
  rewrite Hp. reflexivity.
Qed.

Lemma resume_none (q : Q) i : nth_error (awaiting q) i = None -> resume behave q i = (Normal, q).
Proof. intros E. unfold resume. rewrite E. reflexivity. Qed.

Lemma resume_one (q : Q) k :
  awaiting q = [k] ->
  snd (resume behave q 0)
  = snd (drain behave (jobs q) (processing q) []
           ((history q ++ map ConsoleError (match on_settle (behave k) with
                                            | Rejected e => [e]
                                            | Fulfilled => []
                                            end)) ++ [Finished k])).
Proof.
  intros Ha. unfold resume. rewrite Ha. cbn [nth_error remove_nth].
  unfold try_catch, console_error.
  destruct (on_settle (behave k)); cbn [map]; [rewrite app_nil_r|]; reflexivity.
Qed.

(** No exception leaves the loop. *)
Lemma drain_normal pending proc aw h : fst (drain behave pending proc aw h) = Normal.
Proof.
  revert h. induction pending as [|job rest IH]; intros h; [reflexivity|].
  destruct (on_call (behave job)) eqn:E.
  - rewrite (drain_throw _ _ _ _ _ _ E). apply IH.
  - rewrite (drain_promise _ _ _ _ _ E). reflexivity.
Qed.

Lemma process_normal (q : Q) : fst (process behave q) = Normal.
Proof.
  unfold process.
  destruct (processing q || _); [reflexivity|apply drain_normal].
Qed.

Lemma resume_normal (q : Q) i : fst (resume behave q i) = Normal.
Proof.
  unfold resume. destruct (nth_error (awaiting q) i); [|reflexivity].
  unfold try_catch, console_error.
  destruct (on_settle (behave j)); apply drain_normal.
Qed.

Lemma drain_inv pending h :
  serial h None -> inv (snd (drain behave pending true [] h)).
Proof.
  revert h. induction pending as [|job rest IH]; intros h Hs.
  - left. simpl. auto.
  - destruct (on_call (behave job)) eqn:E.
    + rewrite (drain_throw _ _ _ _ _ _ E). apply IH.
      apply serial_finish, serial_error, serial_start, Hs.
    + rewrite (drain_promise _ _ _ _ _ E). right. simpl. split; [reflexivity|].
      exists job. repeat split; [assumption|]. apply serial_start, Hs.
Qed.

Lemma drain_started pending proc aw h :
  started (history (snd (drain behave pending proc aw h)))
  ++ jobs (snd (drain behave pending proc aw h))
  = started h ++ pending.
Proof.
  revert h. induction pending as [|job rest IH]; intros h; [reflexivity|].
  destruct (on_call (behave job)) eqn:E.
  - rewrite (drain_throw _ _ _ _ _ _ E), IH. rewrite !started_app. simpl.
    rewrite <- !app_assoc. reflexivity.
  - rewrite (drain_promise _ _ _ _ _ E). simpl. rewrite started_app. simpl.
    rewrite <- app_assoc. reflexivity.
Qed.

Lemma drain_accounted pending proc h :
  started h = finished h ->
  logged h = flat_map (fun j => raises (behave j)) (finished h) ->
  accounted (snd (drain behave pending proc [] h)).
Proof.
  revert h. induction pending as [|job rest IH]; intros h H1 H2.
  - split; simpl; [rewrite app_nil_r|]; assumption.
  - destruct (on_call (behave job)) eqn:E.
    + rewrite (drain_throw _ _ _ _ _ _ E). apply IH.
      * rewrite !started_app, !finished_app, H1. simpl. rewrite !app_nil_r. reflexivity.
      * rewrite !logged_app, !finished_app, flat_map_app, H2. simpl.
        unfold raises. rewrite E. rewrite !app_nil_r. reflexivity.
    + rewrite (drain_promise _ _ _ _ _ E). split; simpl.
      * rewrite started_app, finished_app, H1. simpl. rewrite app_nil_r. reflexivity.
      * rewrite logged_app, finished_app, H2. simpl. rewrite !app_nil_r. reflexivity.
Qed.

Lemma drain_size pending proc h :
  List.length (awaiting (snd (drain behave pending proc [] h)))
  + List.length (jobs (snd (drain behave pending proc [] h)))
  <= List.length pending.
Proof.
  revert h. induction pending as [|job rest IH]; intros h; [simpl; lia|].
  destruct (on_call (behave job)) eqn:E.
  - rewrite (drain_throw _ _ _ _ _ _ E). etransitivity; [apply IH|simpl; lia].
  - rewrite (drain_promise _ _ _ _ _ E). simpl. lia.
Qed.

Lemma enqueue_inv (q : Q) j : inv q -> inv (snd (enqueue behave q j)).
Proof.
  intros [(Hp & Hj & Ha & Hs)|(Hp & k & Ha & Hk & Hs)].
  - rewrite enqueue_idle, Ha by assumption. apply drain_inv, Hs.
  - rewrite enqueue_busy by assumption. right. simpl. split; [assumption|].
    exists k. auto.
Qed.

Lemma resume_inv (q : Q) i : inv q -> inv (snd (resume behave q i)).
Proof.
  intros H.
  destruct (nth_error (awaiting q) i) eqn:E; [|rewrite resume_none; assumption].
  destruct H as [(Hp & Hj & Ha & Hs)|(Hp & k & Ha & Hk & Hs)].
  - rewrite Ha in E. destruct i; discriminate.
  - rewrite Ha in E. destruct i as [|i]; [|destruct i; discriminate].
    rewrite (resume_one _ _ Ha), Hp. apply drain_inv.
    apply serial_finish. destruct (on_settle (behave k)); simpl.
    + rewrite app_nil_r. exact Hs.
    + apply serial_error, Hs.
Qed.

Lemma step_inv (q : Q) a : inv q -> inv (step behave q a).
Proof. destruct a; [apply enqueue_inv|apply resume_inv]. Qed.

Lemma run_inv (q : Q) l : inv q -> inv (run behave q l).
Proof.
  revert q. induction l as [|a l IH]; intros q H; [exact H|].
  apply IH, step_inv, H.
Qed.

Lemma empty_inv : inv JobQueue.empty.
Proof. left. simpl. repeat split; constructor. Qed.

Lemma enqueue_accounted (q : Q) j :
  inv q -> accounted q -> accounted (snd (enqueue behave q j)).
Proof.
  intros [(Hp & Hj & Ha & Hs)|(Hp & k & Ha & Hk & Hs)] [A1 A2].
  - rewrite enqueue_idle, Ha by assumption. rewrite Ha, app_nil_r in A1.
    apply drain_accounted; assumption.
  - rewrite enqueue_busy by assumption. split; assumption.
Qed.

Lemma resume_accounted (q : Q) i :
  inv q -> accounted q -> accounted (snd (resume behave q i)).
Proof.
  intros H A.
  destruct (nth_error (awaiting q) i) eqn:E; [|rewrite resume_none; assumption].
  destruct H as [(Hp & Hj & Ha & Hs)|(Hp & k & Ha & Hk & Hs)].
  - rewrite Ha in E. destruct i; discriminate.
  - rewrite Ha in E. destruct i as [|i]; [|destruct i; discriminate].
    destruct A as [A1 A2]. rewrite Ha in A1.
    rewrite (resume_one _ _ Ha). apply drain_accounted.
    + rewrite !started_app, !finished_app, A1. simpl.
      destruct (on_settle (behave k)); simpl; rewrite !app_nil_r; reflexivity.
    + rewrite !logged_app, !finished_app, flat_map_app, A2. simpl.
      unfold raises. rewrite Hk.
      destruct (on_settle (behave k)); simpl; rewrite !app_nil_r; reflexivity.
Qed.

Lemma run_accounted (q : Q) l : inv q -> accounted q -> accounted (run behave q l).
Proof.
  revert q. induction l as [|a l IH]; intros q H A; [exact A|].
  simpl. apply IH; [apply step_inv, H|].
  destruct a; [apply enqueue_accounted|apply resume_accounted]; assumption.
Qed.

(** First in, first out: the jobs started so far, followed by the pending
    ones, are the jobs enqueued, in the order of their enqueueing. *)
Lemma enqueue_fifo (q : Q) j :
  inv q ->
  started (history (snd (enqueue behave q j))) ++ jobs (snd (enqueue behave q j))
  = (started (history q) ++ jobs q) ++ [j].
Proof.
  intros [(Hp & Hj & Ha & Hs)|(Hp & k & Ha & Hk & Hs)].
  - rewrite enqueue_idle by assumption. rewrite drain_started, Hj, app_nil_r. reflexivity.
  - rewrite enqueue_busy by assumption. simpl. apply app_assoc.
Qed.

Lemma resume_fifo (q : Q) i :
  inv q ->
  started (history (snd (resume behave q i))) ++ jobs (snd (resume behave q i))
  = started (history q) ++ jobs q.
Proof.
  intros H.
  destruct (nth_error (awaiting q) i) eqn:E; [|rewrite resume_none; auto].
  destruct H as [(Hp & Hj & Ha & Hs)|(Hp & k & Ha & Hk & Hs)].
  - rewrite Ha in E. destruct i; discriminate.
  - rewrite Ha in E. destruct i as [|i]; [|destruct i; discriminate].
    rewrite (resume_one _ _ Ha), drain_started. rewrite !started_app. simpl.
    destruct (on_settle (behave k)); simpl; rewrite !app_nil_r; reflexivity.
Qed.

Lemma run_fifo (q : Q) l :
  inv q ->
  started (history (run behave q l)) ++ jobs (run behave q l)
  = (started (history q) ++ jobs q) ++ enqueued l.
Proof.
  revert q. induction l as [|a l IH]; intros q H; [simpl; rewrite app_nil_r; reflexivity|].
  simpl. rewrite IH by (apply step_inv, H).
  destruct a as [j|i]; simpl.
  - rewrite enqueue_fifo by assumption. rewrite <- !app_assoc. reflexivity.
  - rewrite resume_fifo by assumption. reflexivity.
Qed.

(** Settling the awaited promise often enough empties the queue. *)
Lemma settle_all_idle (q : Q) n :
  inv q -> List.length (awaiting q) + List.length (jobs q) <= n ->
  processing (settle_all behave q n) = false
  /\ jobs (settle_all behave q n) = []
  /\ awaiting (settle_all behave q n) = [].
Proof.
  revert q. induction n as [|n IH]; intros q H Hn.
  - destruct H as [(Hp & Hj & Ha & Hs)|(Hp & k & Ha & Hk & Hs)]; [simpl; auto|].
    rewrite Ha in Hn. simpl in Hn. lia.
  - unfold settle_all. simpl. apply IH; [apply resume_inv, H|].
    destruct H as [(Hp & Hj & Ha & Hs)|(Hp & k & Ha & Hk & Hs)].
    + rewrite resume_none by (rewrite Ha; reflexivity). simpl. rewrite Ha, Hj. simpl. lia.
    + rewrite (resume_one _ _ Ha). etransitivity; [apply drain_size|].
      rewrite Ha in Hn. simpl in Hn. lia.
Qed.

Lemma drained_idle (q : Q) :
  inv q ->
  processing (drained behave q) = false /\ jobs (drained behave q) = []
  /\ awaiting (drained behave q) = [].
Proof.
  intros H. apply settle_all_idle; [assumption|].
  destruct H as [(Hp & Hj & Ha & Hs)|(Hp & k & Ha & Hk & Hs)]; rewrite Ha; simpl; lia.
Qed.

Lemma run_app (q : Q) a b : run behave (run behave q a) b = run behave q (a ++ b).
Proof. unfold run. rewrite fold_left_app. reflexivity. Qed.

Lemma enqueued_app (a b : list (input J)) : enqueued (a ++ b) = enqueued a ++ enqueued b.
Proof. apply flat_map_app. Qed.

Lemma enqueued_settles n : enqueued (repeat (@Settle J 0) n) = [].
Proof. induction n; simpl; auto. Qed.

(** After draining, the jobs finished are exactly the jobs enqueued, in
    order, and the started ones are the same. *)
Lemma drained_finished l :
  let q := drained behave (run behave JobQueue.empty l) in
  finished (history q) = enqueued l /\ started (history q) = enqueued l
  /\ logged (history q) = flat_map (fun j => raises (behave j)) (enqueued l).
Proof.
  intros q.
  pose proof (run_inv _ l empty_inv) as I.
  assert (A0 : accounted (@JobQueue.empty J)) by (split; reflexivity).
  pose proof (run_accounted _ l empty_inv A0) as A.
  destruct (drained_idle _ I) as (Hp & Hj & Ha).
  unfold drained, settle_all in *. fold q in Hp, Hj, Ha.
  assert (Iq : inv q) by (apply run_inv, I).
  assert (Aq : accounted q) by (apply run_accounted; assumption).
  destruct Aq as [A1 A2]. rewrite Ha, app_nil_r in A1.
  assert (F : started (history q) ++ jobs q = enqueued l).
  { unfold q. rewrite run_fifo by assumption. rewrite run_fifo by apply empty_inv.
    simpl. rewrite enqueued_settles, app_nil_r. reflexivity. }
  rewrite Hj, app_nil_r in F.
  repeat split; congruence.
Qed.

End Queue.
End QueueFacts.

(** ** Cleanup jobs and listing handlers *)

Module StoreFacts.

Lemma filter_idem {A : Type} (f : A -> bool) (l : list A) :
  filter f (filter f l) = filter f l.
Proof.
  induction l as [|x l IH]; [reflexivity|]. simpl.
  destruct (f x) eqn:E; simpl; [rewrite E, IH; reflexivity|exact IH].
Qed.

Lemma filter_none {A : Type} (f : A -> bool) (l : list A) : filter f (filter (fun x => negb (f x)) l) = [].
Proof.
  induction l as [|x l IH]; [reflexivity|]. simpl.
  destruct (f x) eqn:E; simpl; [exact IH|rewrite E; exact IH].
Qed.

Lemma existsb_filter_neg {A : Type} (f : A -> bool) (l : list A) :
  existsb f (filter (fun x => negb (f x)) l) = false.
Proof.
  induction l as [|x l IH]; [reflexivity|]. simpl.
  destruct (f x) eqn:E; simpl; [exact IH|rewrite E; exact IH].
Qed.

Lemma filter_all {A : Type} (f : A -> bool) (l : list A) :
  (forall x, In x l -> f x = true) -> filter f l = l.
Proof.
  induction l as [|x l IH]; intros H; [reflexivity|]. simpl.
  rewrite (H x (or_introl eq_refl)). f_equal. apply IH. intros y Hy. apply H. right. exact Hy.
Qed.

Lemma fold_left_keeps {A B C : Type} (f : A -> B -> A) (g : A -> C) :
  (forall a b, g (f a b) = g a) -> forall l a, g (fold_left f l a) = g a.
Proof.
  intros H l. induction l as [|b l IH]; intros a; [reflexivity|].
  simpl. rewrite IH. apply H.
Qed.

Lemma cleanFile_twice st id :
  Db.deleteFileRows (cleanFile st id) id = ((0, 0), cleanFile st id).
Proof.
  unfold cleanFile, Db.deleteFileRows. simpl. rewrite !filter_idem, !Nat.sub_diag.
  reflexivity.
Qed.

Lemma cleanFolder_twice st id :
  Db.deleteFolderRows (cleanFolder st id) id = ((0, 0, 0), cleanFolder st id).
Proof.
  unfold cleanFolder, Db.deleteFolderRows, Db.filesOfFolder. simpl.
  rewrite (filter_none (fun f => Db.sql_eq (Files.FolderId f) (Some id))). simpl.
  rewrite !filter_idem.
  rewrite (existsb_filter_neg (fun r => Z.eqb (Folders.Id r) id)).
  rewrite (filter_all (fun _ => true)) by reflexivity.
  rewrite !Nat.sub_diag. reflexivity.
Qed.

End StoreFacts.

Module ListingFacts.
Import JobQueue QueueFacts.

Section WithEnv.
Context (env : Env).

Lemma probe_rows_spec {R : Type} d (physical : R -> string) (cleanup : R -> job) rows :
  probe_rows env d physical cleanup rows
  = (filter (fun r => Disk.access (cwd env) d (physical r)) rows,
     map cleanup (filter (fun r => negb (Disk.access (cwd env) d (physical r))) rows)).
Proof.
  unfold probe_rows.
  set (pass := fun r => Disk.access (cwd env) d (physical r)).
  assert (G : forall keep js,
             fold_left
               (fun acc row => if pass row then (fst acc ++ [row], snd acc)
                               else (fst acc, snd acc ++ [cleanup row]))
               rows (keep, js)
             = (keep ++ filter pass rows,
                js ++ map cleanup (filter (fun r => negb (pass r)) rows))).
  { induction rows as [|r rows IH]; intros keep js; simpl.
    - rewrite !app_nil_r. reflexivity.
    - destruct (pass r) eqn:E; simpl; rewrite IH; simpl; rewrite <- app_assoc; reflexivity. }
  apply (G [] []).
Qed.

Lemma fold_enqueue_job js w :
  fold_left enqueue_job js w
  = {| store := store w; disk := disk w;
       queue := JobQueue.run job_behaviour (queue w) (map (@Enqueue job) js) |}.
Proof.
  revert w. induction js as [|j js IH]; intros w; [destruct w; reflexivity|].
  simpl. rewrite IH. reflexivity.
Qed.

Lemma enqueued_map (js : list job) : enqueued (map (@Enqueue job) js) = js.
Proof. induction js; simpl; congruence. Qed.

(** The jobs a queue has taken so far and not dropped: started or pending. *)
Lemma run_enqueue_backlog q js :
  inv job_behaviour q ->
  started (history (JobQueue.run job_behaviour q (map (@Enqueue job) js)))
  ++ jobs (JobQueue.run job_behaviour q (map (@Enqueue job) js))
  = (started (history q) ++ jobs q) ++ js.
Proof. intros H. rewrite run_fifo by assumption. rewrite enqueued_map. reflexivity. Qed.

End WithEnv.
End ListingFacts.

(** ** Paths of children: parent, leaf, depth, directory and base name *)

Module ChildFacts.
Import Str StrFacts Path PathFacts.

Lemma last_index_of_absent c s : has_char c s = false -> last_index_of c s = None.
Proof.
  induction s as [|a s IH]; [reflexivity|]. simpl.
  destruct (Ascii.eqb a c); simpl; [discriminate|]. intros H. rewrite IH; auto.
Qed.

Lemma last_index_of_sep c P name :
  has_char c name = false ->
  last_index_of c (P +++ String c name) = Some (String.length P).
Proof.
  intros H. induction P as [|a P IH]; simpl.
  - rewrite last_index_of_absent by assumption. rewrite Ascii.eqb_refl. reflexivity.
  - rewrite IH. reflexivity.
Qed.

Lemma slice_to_append P s : slice_to (String.length P) (P +++ s) = P.
Proof.
  unfold slice_to. induction P as [|a P IH]; simpl; [destruct s; reflexivity|].
  rewrite IH. reflexivity.
Qed.

Lemma parent_of_child P name :
  has_char "/" name = false ->
  parent_of (P +++ "/" +++ name) = match P with EmptyString => None | _ => Some P end.
Proof.
  intros H. unfold parent_of.
  change (P +++ "/" +++ name) with (P +++ String "/" name).
  rewrite last_index_of_sep by assumption.
  destruct P as [|a P]; [reflexivity|].
  cbn [String.length].
  pose proof (slice_to_append (String a P) (String "/" name)) as E.
  cbn [String.length] in E. rewrite E. reflexivity.
Qed.

Lemma split_child P name :
  has_char "/" name = false ->
  split_on "/" (P +++ "/" +++ name) = split_on "/" P ++ [name].
Proof.
  intros H. change (P +++ "/" +++ name) with (P +++ String "/" name).
  rewrite split_on_sep, (split_on_no_char _ name) by assumption. reflexivity.
Qed.

Lemma depth_child P name :
  has_char "/" name = false -> depth (P +++ "/" +++ name) = S (depth P).
Proof.
  intros H. unfold depth. rewrite split_child by assumption.
  rewrite length_app. simpl. lia.
Qed.

Lemma leaf_of_child P name :
  has_char "/" name = false -> name <> "" -> leaf_of (P +++ "/" +++ name) = name.
Proof.
  intros H Hn. unfold leaf_of, last_seg. rewrite split_child by assumption.
  rewrite last_last. unfold nonempty. apply String.eqb_neq in Hn. rewrite Hn. reflexivity.
Qed.

Lemma join_snoc l x :
  l <> [] -> join_with "/" (l ++ [x]) = join_with "/" l +++ "/" +++ x.
Proof.
  induction l as [|a l IH]; [congruence|]. intros _.
  destruct l as [|b l]; [reflexivity|].
  change (join_with "/" ((a :: b :: l) ++ [x]))
    with (a +++ "/" +++ join_with "/" ((b :: l) ++ [x])).
  rewrite IH by discriminate.
  change (join_with "/" (a :: b :: l)) with (a +++ "/" +++ join_with "/" (b :: l)).
  rewrite !append_assoc. reflexivity.
Qed.

(** The logical path of a child is the one of its directory, a slash, and
    the name. *)
Lemma logical_path_snoc segs name :
  segs <> [] ->
  logical_path (segs ++ [name]) = logical_path segs +++ "/" +++ name.
Proof.
  intros H. unfold logical_path. rewrite join_snoc by assumption.
  rewrite !append_assoc. reflexivity.
Qed.

Lemma abs_path_snoc X name :
  X <> [] -> abs_path (X ++ [name]) = abs_path X +++ "/" +++ name.
Proof. apply logical_path_snoc. Qed.

Lemma chars_append a b :
  list_ascii_of_string (a +++ b) = list_ascii_of_string a ++ list_ascii_of_string b.
Proof. induction a as [|x a IH]; simpl; congruence. Qed.

Lemma has_char_chars c s :
  has_char c s = false -> Forall (fun a => Ascii.eqb a c = false) (list_ascii_of_string s).
Proof.
  induction s as [|a s IH]; simpl; [constructor|].
  intros H. apply orb_false_iff in H. destruct H. constructor; auto.
Qed.

Lemma drop_while_all p l rest :
  Forall (fun a => p a = true) l -> drop_while p (l ++ rest) = drop_while p rest.
Proof. induction 1 as [|a l Ha Hl IH]; simpl; [reflexivity|]. rewrite Ha. exact IH. Qed.

Lemma take_while_all p l x rest :
  Forall (fun a => p a = true) l -> p x = false -> take_while p (l ++ x :: rest) = l.
Proof.
  intros H Hx. induction H as [|a l Ha Hl IH]; simpl; [rewrite Hx; reflexivity|].
  rewrite Ha, IH. reflexivity.
Qed.

Lemma drop_while_head p l : match l with a :: _ => p a = false | [] => True end ->
  drop_while p l = l.
Proof. destruct l as [|a l]; [reflexivity|]. simpl. intros ->. reflexivity. Qed.

(** The reversed characters of a name without slash: none is a slash. *)
Lemma rev_name_no_slash name :
  has_char "/" name = false ->
  Forall (fun a => negb (is_slash a) = true) (rev (list_ascii_of_string name)).
Proof.
  intros H. apply Forall_rev. apply has_char_chars in H.
  eapply Forall_impl; [|exact H]. intros a Ha. unfold is_slash. rewrite Ha. reflexivity.
Qed.

Lemma dirname_child P name :
  has_char "/" name = false -> name <> "" ->
  (2 <= String.length P)%nat -> starts_with_char "/" P = true ->
  dirname (P +++ "/" +++ name) = P.
Proof.
  intros H Hn Hlen Hroot.
  destruct P as [|c0 P]; [discriminate|].
  simpl in Hroot. unfold dirname.
  change (String c0 P +++ "/" +++ name) with (String c0 (P +++ String "/" name)).
  cbv iota beta.
  rewrite chars_append. simpl list_ascii_of_string.
  rewrite rev_app_distr. simpl rev. rewrite <- app_assoc. simpl app.
  pose proof (rev_name_no_slash name H) as Hrev.
  assert (Hd1 : drop_while is_slash
                  (rev (list_ascii_of_string name) ++ "/"%char :: rev (list_ascii_of_string P))
                = rev (list_ascii_of_string name) ++ "/"%char :: rev (list_ascii_of_string P)).
  { apply drop_while_head.
    destruct (rev (list_ascii_of_string name)) as [|a l] eqn:E.
    - exfalso. apply Hn. destruct name; [reflexivity|].
      apply (f_equal (@List.length ascii)) in E. rewrite length_rev in E. discriminate.
    - inversion Hrev; subst. simpl. apply negb_true_iff. assumption. }
  rewrite Hd1. rewrite drop_while_all by exact Hrev.
  simpl drop_while. unfold is_slash at 1. simpl Ascii.eqb. cbv iota. simpl negb. cbv iota.
  unfold is_slash. rewrite Hroot. simpl andb.
  simpl in Hlen.
  destruct (rev (list_ascii_of_string P)) as [|a l] eqn:E.
  - exfalso. apply (f_equal (@List.length ascii)) in E. rewrite length_rev in E.
    assert (String.length P = List.length (list_ascii_of_string P)).
    { clear. induction P; simpl; congruence. }
    simpl in E. lia.
  - simpl List.length. simpl Nat.eqb. cbv iota.
    rewrite <- E, rev_involutive, string_of_list_ascii_of_string. reflexivity.
Qed.

Lemma basename_child P name :
  has_char "/" name = false -> name <> "" ->
  basename (P +++ "/" +++ name) = name.
Proof.
  intros H Hn. unfold basename.
  change (P +++ "/" +++ name) with (P +++ String "/" name).
  rewrite chars_append. simpl list_ascii_of_string.
  rewrite rev_app_distr. simpl rev. rewrite <- app_assoc. simpl app.
  pose proof (rev_name_no_slash name H) as Hrev.
  rewrite drop_while_head.
  - rewrite take_while_all by (try exact Hrev; reflexivity).
    rewrite rev_involutive. apply string_of_list_ascii_of_string.
  - destruct (rev (list_ascii_of_string name)) as [|a l] eqn:E.
    + exfalso. apply Hn. destruct name; [reflexivity|].
      apply (f_equal (@List.length ascii)) in E. rewrite length_rev in E. discriminate.
    + inversion Hrev; subst. simpl. apply negb_true_iff. assumption.
Qed.

End ChildFacts.

(** ** Directory trees *)

Module DiskFacts.
Import Disk.

(** Induction on a listing, with the listings of its subdirectories. *)
Lemma entries_tree_ind (P : entries -> Prop) :
  P Nil ->
  (forall name c rest,
      (forall b sub, c = Dir b sub -> P sub) -> P rest -> P (Cons name c rest)) ->
  forall es, P es.
Proof.
  intros HN HC.
  apply (entries_mut P (fun n => forall b sub, n = Dir b sub -> P sub)).
  - exact HN.
  - intros name n Hn rest Hrest. apply HC; assumption.
  - intros size b sub E. discriminate.
  - intros b sub Hsub b' sub' E. inversion E; subst. exact Hsub.
  - intros b sub E. discriminate.
Qed.

Lemma lookup_app n a b :
  lookup n (a ++ b) = match lookup n a with Some m => lookup m b | None => None end.
Proof.
  revert n. induction a as [|x a IH]; intros n; [reflexivity|].
  simpl. destruct n as [|r es|]; try reflexivity.
  destruct (find_entry x es); [apply IH|reflexivity].
Qed.

Lemma existsb_eqb_false name seen :
  existsb (String.eqb name) seen = false -> ~ In name seen.
Proof.
  intros H Hin. apply not_true_iff_false in H. apply H.
  apply existsb_exists. exists name. split; [assumption|apply String.eqb_refl].
Qed.

Lemma tidy_cons seen name c rest :
  tidy seen (Cons name c rest) = true ->
  clean_name name = true /\ ~ In name seen
  /\ (forall b sub, c = Dir b sub -> tidy [] sub = true)
  /\ tidy (name :: seen) rest = true.
Proof.
  simpl. rewrite !andb_true_iff, negb_true_iff. intros [[[H1 H2] H3] H4].
  repeat split; try assumption.
  - apply existsb_eqb_false, H2.
  - intros b sub ->. exact H3.
Qed.

Lemma tidy_sub seen name c rest b sub :
  tidy seen (Cons name c rest) = true -> c = Dir b sub -> tidy [] sub = true.
Proof. intros H E. apply tidy_cons in H. destruct H as (_ & _ & H & _). eauto. Qed.

(** The first name of a path below a tidy listing is none of the names that
    came before the listing. *)
Lemma dir_paths_head seen es rs :
  tidy seen es = true -> In rs (dir_paths es) ->
  exists n rs', rs = n :: rs' /\ ~ In n seen.
Proof.
  revert seen. induction es as [|name c rest _ IH] using entries_tree_ind;
    intros seen T Hin; [contradiction|].
  apply tidy_cons in T. destruct T as (_ & Hfresh & _ & Trest).
  simpl in Hin. apply in_app_or in Hin. destruct Hin as [Hin|Hin].
  - destruct c as [|b sub|]; try contradiction.
    destruct Hin as [<-|Hin]; [eauto|].
    destruct b; [|contradiction].
    apply in_map_iff in Hin. destruct Hin as (rs' & <- & _). eauto.
  - destruct (IH _ Trest Hin) as (n & rs' & -> & Hn).
    exists n, rs'. split; [reflexivity|]. intros H. apply Hn. right. exact H.
Qed.

Lemma file_paths_head seen es rs size :
  tidy seen es = true -> In (rs, size) (file_paths es) ->
  exists n rs', rs = n :: rs' /\ ~ In n seen.
Proof.
  revert seen. induction es as [|name c rest _ IH] using entries_tree_ind;
    intros seen T Hin; [contradiction|].
  apply tidy_cons in T. destruct T as (_ & Hfresh & _ & Trest).
  simpl in Hin. apply in_app_or in Hin. destruct Hin as [Hin|Hin].
  - destruct c as [sz|b sub|]; try contradiction.
    + destruct Hin as [E|[]]. inversion E; subst. eauto.
    + destruct b; [|contradiction].
      apply in_map_iff in Hin. destruct Hin as ([rs' sz] & E & _).
      inversion E; subst. eauto.
  - destruct (IH _ Trest Hin) as (n & rs' & -> & Hn).
    exists n, rs'. split; [reflexivity|]. intros H. apply Hn. right. exact H.
Qed.

Lemma lookup_skip r name c rest n rs :
  n <> name -> lookup (Dir r (Cons name c rest)) (n :: rs) = lookup (Dir r rest) (n :: rs).
Proof.
  intros H. simpl. apply not_eq_sym in H. apply String.eqb_neq in H. rewrite H. reflexivity.
Qed.

Lemma lookup_here r name c rest rs :
  lookup (Dir r (Cons name c rest)) (name :: rs) = lookup c rs.
Proof. simpl. rewrite String.eqb_refl. reflexivity. Qed.

(** Below a tidy listing every enumerated directory is found as a directory
    and every enumerated file as a file of that size; the names on the way
    are clean. *)
Lemma paths_lookup es :
  forall seen, tidy seen es = true ->
    (forall rs, In rs (dir_paths es) ->
       Forall (fun s => clean_name s = true) rs
       /\ forall r, exists b sub, lookup (Dir r es) rs = Some (Dir b sub))
    /\ (forall rs size, In (rs, size) (file_paths es) ->
       Forall (fun s => clean_name s = true) rs
       /\ forall r, lookup (Dir r es) rs = Some (File size)).
Proof.
  induction es as [|name c rest IHsub IH] using entries_tree_ind; intros seen T.
  - split; intros; contradiction.
  - pose proof (tidy_cons _ _ _ _ T) as (Hclean & Hfresh & Tsub & Trest).
    destruct (IH _ Trest) as [IHd IHf].
    split.
    + intros rs Hin. simpl in Hin. apply in_app_or in Hin. destruct Hin as [Hin|Hin].
      * destruct c as [|b sub|]; try contradiction.
        destruct Hin as [<-|Hin].
        { split; [repeat constructor; assumption|]. intros r.
          rewrite lookup_here. simpl. eauto. }
        destruct b; [|contradiction].
        apply in_map_iff in Hin. destruct Hin as (rs' & <- & Hin).
        destruct (IHsub true sub eq_refl [] (Tsub _ _ eq_refl)) as [Sd _].
        destruct (Sd _ Hin) as [C L].
        split; [constructor; assumption|]. intros r. rewrite lookup_here. apply L.
      * destruct (IHd _ Hin) as [C L]. split; [exact C|]. intros r.
        destruct (dir_paths_head _ _ _ Trest Hin) as (n & rs' & -> & Hn).
        rewrite lookup_skip; [apply L|]. intros ->. apply Hn. left. reflexivity.
    + intros rs size Hin. simpl in Hin. apply in_app_or in Hin. destruct Hin as [Hin|Hin].
      * destruct c as [sz|b sub|]; try contradiction.
        { destruct Hin as [E|[]]. inversion E; subst.
          split; [repeat constructor; assumption|]. intros r.
          rewrite lookup_here. reflexivity. }
        destruct b; [|contradiction].
        apply in_map_iff in Hin. destruct Hin as ([rs' sz] & E & Hin).
        inversion E; subst.
        destruct (IHsub true sub eq_refl [] (Tsub _ _ eq_refl)) as [_ Sf].
        destruct (Sf _ _ Hin) as [C L].
        split; [constructor; assumption|]. intros r. rewrite lookup_here. apply L.
      * destruct (IHf _ _ Hin) as [C L]. split; [exact C|]. intros r.
        destruct (file_paths_head _ _ _ _ Trest Hin) as (n & rs' & -> & Hn).
        rewrite lookup_skip; [apply L|]. intros ->. apply Hn. left. reflexivity.
Qed.

(** The directory of an enumerated directory or file is the listing itself
    or an enumerated directory. *)
Lemma paths_parent es :
  (forall rs, In rs (dir_paths es) ->
     rs <> [] /\ (removelast rs = [] \/ In (removelast rs) (dir_paths es)))
  /\ (forall rs size, In (rs, size) (file_paths es) ->
     rs <> [] /\ (removelast rs = [] \/ In (removelast rs) (dir_paths es))).
Proof.
  induction es as [|name c rest IHsub IH] using entries_tree_ind.
  - split; intros; contradiction.
  - destruct IH as [IHd IHf].
    assert (K : forall rs', rs' <> [] -> removelast (name :: rs') = name :: removelast rs').
    { intros rs' H. destruct rs'; [congruence|reflexivity]. }
    split.
    + intros rs Hin. simpl in Hin. apply in_app_or in Hin. destruct Hin as [Hin|Hin].
      * destruct c as [|b sub|]; try contradiction.
        destruct Hin as [<-|Hin]; [split; [discriminate|left; reflexivity]|].
        destruct b; [|contradiction].
        apply in_map_iff in Hin. destruct Hin as (rs' & <- & Hin).
        destruct (IHsub true sub eq_refl) as [Sd _].
        destruct (Sd _ Hin) as [Hne Hp].
        split; [discriminate|]. right. rewrite K by assumption.
        simpl. destruct Hp as [->|Hp]; [left; reflexivity|].
        right. apply in_or_app. left. apply in_map, Hp.
      * destruct (IHd _ Hin) as [Hne Hp]. split; [assumption|].
        destruct Hp as [Hp|Hp]; [left; assumption|].
        right. simpl. apply in_or_app. right. exact Hp.
    + intros rs size Hin. simpl in Hin. apply in_app_or in Hin. destruct Hin as [Hin|Hin].
      * destruct c as [sz|b sub|]; try contradiction.
        { destruct Hin as [E|[]]. inversion E; subst.
          split; [discriminate|left; reflexivity]. }
        destruct b; [|contradiction].
        apply in_map_iff in Hin. destruct Hin as ([rs' sz] & E & Hin).
        inversion E; subst.
        destruct (IHsub true sub eq_refl) as [_ Sf].
        destruct (Sf _ _ Hin) as [Hne Hp].
        split; [discriminate|]. right. simpl fst. rewrite K by assumption.
        simpl. destruct Hp as [->|Hp]; [left; reflexivity|].
        right. apply in_or_app. left. apply in_map, Hp.
      * destruct (IHf _ _ Hin) as [Hne Hp]. split; [assumption|].
        destruct Hp as [Hp|Hp]; [left; assumption|].
        right. simpl. apply in_or_app. right. exact Hp.
Qed.

End DiskFacts.

(** ** What the walk collects *)

Module WalkFacts.
Import Str StrFacts Path PathFacts ChildFacts Disk DiskFacts.

Lemma set_add_In x y l : In x (set_add y l) <-> x = y \/ In x l.
Proof.
  unfold set_add, set_has. destruct (existsb (String.eqb y) l) eqn:E.
  - split; [auto|]. intros [->|H]; [|exact H].
    apply existsb_exists in E. destruct E as (z & Hz & Ez).
    apply String.eqb_eq in Ez. subst. exact Hz.
  - rewrite in_app_iff. simpl. intuition.
Qed.

Lemma set_has_In x l : set_has x l = true <-> In x l.
Proof.
  unfold set_has. rewrite existsb_exists. split.
  - intros (y & Hy & E). apply String.eqb_eq in E. subst. exact Hy.
  - intros H. exists x. split; [exact H|apply String.eqb_refl].
Qed.

Lemma clean_is_plain l :
  Forall (fun s => clean_name s = true) l -> Forall (fun s => plain_name s = true) l.
Proof.
  intros H. eapply Forall_impl; [|exact H]. intros a Ha. unfold clean_name in Ha.
  apply andb_true_iff in Ha. tauto.
Qed.

Lemma clean_no_backslash l :
  Forall (fun s => clean_name s = true) l -> Forall (fun s => has_char "\" s = false) l.
Proof.
  intros H. eapply Forall_impl; [|exact H]. intros a Ha. unfold clean_name in Ha.
  apply andb_true_iff in Ha. destruct Ha as [_ Ha]. apply negb_true_iff in Ha. exact Ha.
Qed.

Section WithEnv.
Context (env : Env).
Hypothesis Hroot : Forall (fun s => clean_name s = true) (upload_root_segs env).

Local Notation "'R'" := (upload_root_segs env).

(** The physical path of the entry at [segs] below the upload root. *)
Lemma replace_physical segs :
  Forall (fun s => clean_name s = true) segs ->
  replace_char "\" "/" (abs_path (R ++ segs)) = abs_path (R ++ segs).
Proof.
  intros H. apply replace_char_absent. unfold abs_path.
  rewrite has_char_append. simpl. apply has_char_join; [reflexivity|].
  apply clean_no_backslash, Forall_app. split; assumption.
Qed.

Lemma join_physical segs name :
  Forall (fun s => clean_name s = true) segs -> clean_name name = true ->
  Path.join [abs_path (R ++ segs); name] = abs_path (R ++ segs ++ [name]).
Proof.
  intros H Hn. rewrite join_abs_path.
  - rewrite <- app_assoc. reflexivity.
  - apply clean_is_plain, Forall_app. split; assumption.
  - apply clean_is_plain. repeat constructor. assumption.
Qed.

Lemma walkDir_spec es :
  forall segs names seen,
    Forall (fun s => clean_name s = true) segs ->
    tidy names es = true ->
    (forall x,
        In x (fst (walkDir env (abs_path (R ++ segs)) es seen))
        <-> In x (fst seen ++ map (fun rs => logical_path (segs ++ rs)) (dir_paths es)))
    /\ (forall x,
        In x (snd (walkDir env (abs_path (R ++ segs)) es seen))
        <-> In x (snd seen
                  ++ map (fun pz => abs_path (R ++ segs ++ fst pz)) (file_paths es))).
Proof.
  induction es as [|name c rest IHsub IH] using entries_tree_ind;
    intros segs names seen Hsegs T.
  - simpl. rewrite !app_nil_r. split; intros x; reflexivity.
  - pose proof (tidy_cons _ _ _ _ T) as (Hclean & Hfresh & Tsub & Trest).
    assert (Hsegs' : Forall (fun s => clean_name s = true) (segs ++ [name])).
    { apply Forall_app. split; [assumption|repeat constructor; assumption]. }
    cbn [walkDir]. rewrite join_physical by assumption.
    destruct c as [size|b sub|].
    + (* a regular file *)
      rewrite replace_physical by assumption.
      destruct (IH segs (name :: names)
                  (fst seen, set_add (abs_path (R ++ segs ++ [name])) (snd seen))
                  Hsegs Trest) as [Id If].
      split; intros x.
      * rewrite Id. reflexivity.
      * rewrite If. cbn [fst snd file_paths].
        rewrite ?map_app, ?in_app_iff, ?set_add_In. cbn [map In fst snd].
        intuition congruence.
    + (* a directory *)
      rewrite toLogical_physical by assumption.
      set (seen' := (set_add (logical_path (segs ++ [name])) (fst seen), snd seen)).
      destruct b.
      * destruct (IHsub true sub eq_refl (segs ++ [name]) [] seen' Hsegs'
                        (Tsub _ _ eq_refl)) as [Sd Sf].
        destruct (IH segs (name :: names)
                    (walkDir env (abs_path (R ++ segs ++ [name])) sub seen')
                    Hsegs Trest) as [Id If].
        assert (Ed : map (fun rs => logical_path ((segs ++ [name]) ++ rs)) (dir_paths sub)
                     = map (fun rs => logical_path (segs ++ rs))
                           (map (cons name) (dir_paths sub))).
        { rewrite map_map. apply map_ext. intros rs. rewrite <- app_assoc. reflexivity. }
        assert (Ef : map (fun pz => abs_path (R ++ (segs ++ [name]) ++ fst pz)) (file_paths sub)
                     = map (fun pz => abs_path (R ++ segs ++ fst pz))
                           (map (fun pz => (name :: fst pz, snd pz)) (file_paths sub))).
        { rewrite map_map. apply map_ext. intros rs. cbn [fst].
          rewrite <- app_assoc. reflexivity. }
        split; intros x.
        -- rewrite Id, in_app_iff, Sd, Ed. unfold seen'. cbn [fst snd dir_paths].
           rewrite ?map_app, ?in_app_iff, ?set_add_In. cbn [map In fst snd].
           intuition congruence.
        -- rewrite If, in_app_iff, Sf, Ef. unfold seen'. cbn [fst snd file_paths].
           rewrite ?map_app, ?in_app_iff. intuition congruence.
      * destruct (IH segs (name :: names) seen' Hsegs Trest) as [Id If].
        split; intros x.
        -- rewrite Id. unfold seen'. cbn [fst snd dir_paths].
           rewrite ?map_app, ?in_app_iff, ?set_add_In. cbn [map In fst snd app].
           intuition congruence.
        -- rewrite If. unfold seen'. cbn [fst snd file_paths]. reflexivity.
    + (* neither file nor directory *)
      destruct (IH segs (name :: names) seen Hsegs Trest) as [Id If].
      split; intros x; [rewrite Id|rewrite If]; reflexivity.
Qed.

End WithEnv.
End WalkFacts.

(** ** [LIKE] on a pattern without wildcards *)

Module SqlFacts.
Import Sql.

Lemma many_anything s : like_toks [TMany] s = true.
Proof.
  induction s as [|x s IH]; [reflexivity|].
  change (like_toks [TMany] (x :: s)) with (like_toks [] (x :: s) || like_toks [TMany] s).
  rewrite IH. apply orb_true_r.
Qed.

Lemma tokenize_plain P :
  has_like_meta P = false ->
  tokenize (list_ascii_of_string (P +++ "%")) None
  = map TChar (list_ascii_of_string P) ++ [TMany].
Proof.
  induction P as [|c P IH]; intros H; [reflexivity|].
  simpl in H. apply orb_false_iff in H. destruct H as [Hc HP].
  unfold is_like_meta in Hc. apply orb_false_iff in Hc. destruct Hc as [Hc H3].
  apply orb_false_iff in Hc. destruct Hc as [H1 H2].
  cbn [append list_ascii_of_string tokenize map app].
  rewrite H1, H2, H3. rewrite IH by assumption. reflexivity.
Qed.

(** Without wildcards in [P], [s LIKE P + '%'] says that [P] is a prefix
    of [s]. *)
Lemma like_plain_prefix P s :
  has_like_meta P = false -> like s (P +++ "%") = String.prefix P s.
Proof.
  intros H. unfold like. rewrite tokenize_plain by assumption. clear H.
  revert s. induction P as [|c P IH]; intros s.
  - cbn [list_ascii_of_string map app]. rewrite many_anything. destruct s; reflexivity.
  - destruct s as [|x s]; [reflexivity|].
    cbn [list_ascii_of_string map app like_toks String.prefix].
    rewrite IH. destruct (ascii_dec c x) as [->|N].
    + rewrite Ascii.eqb_refl. reflexivity.
    + apply not_eq_sym in N. apply Ascii.eqb_neq in N. rewrite N. reflexivity.
Qed.

(** A pattern without bracket, followed by [%], matches every string that
    starts with the pattern read as plain text. *)
Lemma tokenize_no_bracket P :
  Str.has_char "[" P = false ->
  tokenize (list_ascii_of_string (P +++ "%")) None
  = map tok_of (list_ascii_of_string P) ++ [TMany].
Proof.
  induction P as [|c P IH]; intros H; [reflexivity|].
  simpl in H. apply orb_false_iff in H. destruct H as [Hc HP].
  cbn [append list_ascii_of_string tokenize map app]. unfold tok_of at 1.
  rewrite Hc. rewrite IH by assumption.
  destruct (Ascii.eqb c "%"); [reflexivity|]. destruct (Ascii.eqb c "_"); reflexivity.
Qed.

Lemma like_many_unfold ts s :
  like_toks (TMany :: ts) s
  = like_toks ts s || match s with _ :: s' => like_toks (TMany :: ts) s' | [] => false end.
Proof. destruct s; reflexivity. Qed.

Lemma like_toks_self l s : like_toks (map tok_of l ++ [TMany]) (l ++ s) = true.
Proof.
  induction l as [|c l IH]; [apply many_anything|].
  cbn [map app]. unfold tok_of at 1.
  destruct (Ascii.eqb c "%") eqn:E1.
  - rewrite like_many_unfold. rewrite like_many_unfold. rewrite IH. apply orb_true_r.
  - destruct (Ascii.eqb c "_") eqn:E2; cbn [like_toks]; [exact IH|].
    rewrite Ascii.eqb_refl. exact IH.
Qed.

Lemma like_self_prefix P s :
  Str.has_char "[" P = false -> like (P +++ s) (P +++ "%") = true.
Proof.
  intros H. unfold like. rewrite tokenize_no_bracket by assumption.
  rewrite ChildFacts.chars_append. apply like_toks_self.
Qed.

End SqlFacts.

(** ** The stable sort *)

Module SortFacts.

Section ByKey.
Context {A : Type} (key : A -> nat).

Local Notation "'le'" := (fun a b => Nat.leb (key a) (key b)).

Lemma insert_In x y l : In y (insert_sorted le x l) <-> y = x \/ In y l.
Proof.
  induction l as [|z l IH]; simpl; [intuition|].
  destruct (Nat.leb (key x) (key z)); simpl; [intuition|].
  rewrite IH. intuition.
Qed.

Lemma sort_In l x : In x (sort_stable le l) <-> In x l.
Proof.
  induction l as [|z l IH]; simpl; [reflexivity|].
  rewrite insert_In, IH. intuition.
Qed.

Lemma insert_sorted_sorted x l :
  StronglySorted (fun a b => key a <= key b) l ->
  StronglySorted (fun a b => key a <= key b) (insert_sorted le x l).
Proof.
  induction 1 as [|z l Hl IH Hz]; simpl; [repeat constructor|].
  destruct (Nat.leb (key x) (key z)) eqn:E.
  - apply Nat.leb_le in E. constructor; [constructor; assumption|].
    constructor; [assumption|].
    eapply Forall_impl; [|exact Hz]. intros a Ha. simpl in Ha. lia.
  - apply Nat.leb_gt in E. constructor; [exact IH|].
    apply Forall_forall. intros a Ha. apply insert_In in Ha.
    destruct Ha as [->|Ha]; [lia|].
    rewrite Forall_forall in Hz. apply Hz, Ha.
Qed.

Lemma sort_sorted l : StronglySorted (fun a b => key a <= key b) (sort_stable le l).
Proof.
  induction l as [|z l IH]; simpl; [constructor|]. apply insert_sorted_sorted, IH.
Qed.

End ByKey.
End SortFacts.

(** ** The insertion loops of the recursive sync *)

Module SyncFacts.

Lemma map_get_set {V : Type} k x (v : V) m :
  map_get k (map_set x v m) = if x =? k then Some v else map_get k m.
Proof. reflexivity. Qed.

Lemma map_of_rows_get rows k :
  forall m id pid,
    map_get k (map_of_rows rows m) = Some (id, pid) ->
    (exists r, In r rows /\ Folders.FullPath r = k /\ Folders.Id r = id)
    \/ map_get k m = Some (id, pid).
Proof.
  induction rows as [|r rows IH]; intros m id pid H; [right; exact H|].
  simpl in H. apply IH in H. destruct H as [(r0 & Hr0 & H1 & H2)|H].
  - left. exists r0. split; [right; exact Hr0|auto].
  - rewrite map_get_set in H. destruct (Folders.FullPath r =? k) eqn:E; [|right; exact H].
    apply String.eqb_eq in E. inversion H; subst. left. exists r. split; [left; reflexivity|auto].
Qed.

Lemma map_of_rows_has rows k :
  forall m,
    (exists r, In r rows /\ Folders.FullPath r = k) \/ map_get k m <> None ->
    map_get k (map_of_rows rows m) <> None.
Proof.
  induction rows as [|r rows IH]; intros m H.
  - destruct H as [(r & [] & _)|H]. exact H.
  - simpl. apply IH. destruct H as [(r0 & [<-|Hr0] & H1)|H].
    + right. rewrite map_get_set. apply String.eqb_eq in H1. rewrite H1. discriminate.
    + left. eauto.
    + right. rewrite map_get_set. destruct (Folders.FullPath r =? k); [discriminate|exact H].
Qed.

Lemma map_of_rows_none rows k :
  forall m,
    (forall r, In r rows -> Folders.FullPath r <> k) ->
    map_get k (map_of_rows rows m) = map_get k m.
Proof.
  induction rows as [|r rows IH]; intros m H; [reflexivity|].
  simpl. rewrite IH by (intros r0 Hr0; apply H; right; exact Hr0).
  rewrite map_get_set.
  destruct (String.eqb_spec (Folders.FullPath r) k) as [E|_]; [|reflexivity].
  exfalso. apply (H r); [left; reflexivity|exact E].
Qed.

Section Loop.
Context (folderId : option Z).

Lemma insertFolderStep_known st m ids x v :
  map_get x m = Some v -> insertFolderStep folderId (st, m, ids) x = (st, m, ids).
Proof. intros H. unfold insertFolderStep. rewrite H. reflexivity. Qed.

Lemma insertFolderStep_new st m ids x p pid ppid :
  map_get x m = None -> parent_of x = Some p -> map_get p m = Some (pid, ppid) ->
  insertFolderStep folderId (st, m, ids) x
  = (snd (Db.insertFolder st (leaf_of x) (Some pid) x),
     map_set x (nextFolderId st, Some pid) m,
     ids ++ [nextFolderId st]).
Proof.
  intros H Hp Hm. unfold insertFolderStep. rewrite H, Hp, Hm. reflexivity.
Qed.

Lemma insert_folders_spec L :
  forall st m ids st' m' ids',
    fold_left (insertFolderStep folderId) L (st, m, ids) = (st', m', ids') ->
    StronglySorted (fun a b => depth a <= depth b) L ->
    map_ok st m ->
    (forall x, In x L ->
       map_get x m <> None
       \/ exists p, parent_of x = Some p
                    /\ (map_get p m <> None \/ (In p L /\ depth p < depth x))) ->
    map_ok st' m'
    /\ (forall k v, map_get k m = Some v -> map_get k m' = Some v)
    /\ (forall x, In x L -> map_get x m' <> None)
    /\ (exists added,
           Folders st' = Folders st ++ added
           /\ forall r, In r added ->
                In (Folders.FullPath r) L /\ map_get (Folders.FullPath r) m = None
                /\ (nextFolderId st <= Folders.Id r)%Z)
    /\ Files st' = Files st /\ FileTags st' = FileTags st
    /\ FolderTags st' = FolderTags st /\ nextFileId st' = nextFileId st
    /\ (nextFolderId st <= nextFolderId st')%Z
    /\ (forall x, In x L -> map_get x m = None ->
          exists r p pr,
            In r (Folders st') /\ Folders.FullPath r = x /\ Folders.Name r = leaf_of x
            /\ parent_of x = Some p
            /\ In pr (Folders st') /\ Folders.FullPath pr = p
            /\ Folders.ParentId r = Some (Folders.Id pr)).
Proof.
  induction L as [|x L IH]; intros st m ids st' m' ids' E Hsorted Hok Hpar.
  - simpl in E. inversion E; subst.
    split; [assumption|]. split; [auto|]. split; [intros x []|].
    split; [exists []; rewrite app_nil_r; split; [reflexivity|intros r []]|].
    repeat (split; [reflexivity|]). intros x [].
  - inversion Hsorted as [|? ? HsL Hx]; subst.
    rewrite Forall_forall in Hx.
    cbn [fold_left] in E.
    destruct (map_get x m) as [v|] eqn:Hget.
    + (* already known *)
      rewrite (insertFolderStep_known _ _ _ _ _ Hget) in E.
      assert (Hpar' : forall y, In y L ->
                 map_get y m <> None
                 \/ exists p, parent_of y = Some p
                              /\ (map_get p m <> None \/ (In p L /\ depth p < depth y))).
      { intros y Hy. destruct (Hpar y (or_intror Hy)) as [H|(p & Hp & [H|[[->|Hin] Hd]])].
        - left. exact H.
        - right. exists p. auto.
        - right. exists p. split; [exact Hp|]. left. congruence.
        - right. exists p. auto. }
      destruct (IH _ _ _ _ _ _ E HsL Hok Hpar')
        as (Ok' & Keep & All & (added & Ea & Ha) & F1 & F2 & F3 & F4 & F5 & New).
      repeat split; try assumption.
      * intros y [<-|Hy]; [|apply All, Hy].
        rewrite (Keep _ _ Hget). discriminate.
      * exists added. split; [exact Ea|]. intros r Hr.
        destruct (Ha r Hr) as (H1 & H2 & H3). repeat split; auto. right. exact H1.
      * intros y [<-|Hy] Hnone; [congruence|]. apply New; assumption.
    + (* a new folder: its parent is in the map *)
      destruct (Hpar x (or_introl eq_refl)) as [H|(p & Hp & Hin)]; [congruence|].
      assert (Hm : map_get p m <> None).
      { destruct Hin as [H|[[->|Hin] Hd]]; [exact H|lia|].
        specialize (Hx p Hin). simpl in Hx. lia. }
      destruct (map_get p m) as [[pid ppid]|] eqn:Hpget; [clear Hm|congruence].
      rewrite (insertFolderStep_new _ _ _ _ _ _ _ Hget Hp Hpget) in E.
      set (r := {| Folders.Id := nextFolderId st; Folders.Name := leaf_of x;
                   Folders.ParentId := Some pid; Folders.FullPath := x |}) in *.
      set (st1 := snd (Db.insertFolder st (leaf_of x) (Some pid) x)) in *.
      assert (Ef : Folders st1 = Folders st ++ [r]) by reflexivity.
      assert (Ok1 : map_ok st1 (map_set x (nextFolderId st, Some pid) m)).
      { intros k id pid' Hk. rewrite map_get_set in Hk.
        destruct (x =? k) eqn:Exk.
        - apply String.eqb_eq in Exk. inversion Hk; subst.
          exists r. rewrite Ef. split; [apply in_or_app; right; left; reflexivity|auto].
        - destruct (Hok _ _ _ Hk) as (r0 & Hr0 & H1 & H2).
          exists r0. rewrite Ef. split; [apply in_or_app; left; exact Hr0|auto]. }
      assert (Hpar' : forall y, In y L ->
                 map_get y (map_set x (nextFolderId st, Some pid) m) <> None
                 \/ exists q, parent_of y = Some q
                              /\ (map_get q (map_set x (nextFolderId st, Some pid) m) <> None
                                  \/ (In q L /\ depth q < depth y))).
      { assert (Mono : forall k, map_get k m <> None ->
                                 map_get k (map_set x (nextFolderId st, Some pid) m) <> None).
        { intros k Hk. rewrite map_get_set. destruct (x =? k); [discriminate|exact Hk]. }
        intros y Hy. destruct (Hpar y (or_intror Hy)) as [H|(q & Hq & [H|[[->|Hin'] Hd]])].
        - left. apply Mono, H.
        - right. exists q. split; [exact Hq|]. left. apply Mono, H.
        - right. exists q. split; [exact Hq|]. left. rewrite map_get_set, String.eqb_refl.
          discriminate.
        - right. exists q. auto. }
      destruct (IH _ _ _ _ _ _ E HsL Ok1 Hpar')
        as (Ok' & Keep & All & (added & Ea & Ha) & F1 & F2 & F3 & F4 & F5 & New).
      destruct (Hok _ _ _ Hpget) as (pr & Hpr & Hprp & Hprid).
      assert (Grow : forall a, In a (Folders st1) -> In a (Folders st')).
      { intros a Ha'. rewrite Ea. apply in_or_app. left. exact Ha'. }
      assert (Hr : In r (Folders st1)) by (rewrite Ef; apply in_or_app; right; left; reflexivity).
      assert (Hpr1 : In pr (Folders st1)) by (rewrite Ef; apply in_or_app; left; exact Hpr).
      assert (Wx : exists r0 p0 pr0,
                 In r0 (Folders st') /\ Folders.FullPath r0 = x
                 /\ Folders.Name r0 = leaf_of x /\ parent_of x = Some p0
                 /\ In pr0 (Folders st') /\ Folders.FullPath pr0 = p0
                 /\ Folders.ParentId r0 = Some (Folders.Id pr0)).
      { exists r, p, pr. repeat split; auto. simpl. congruence. }
      repeat split; try assumption.
      * intros k v Hk. apply Keep. rewrite map_get_set.
        destruct (x =? k) eqn:Exk; [|exact Hk].
        apply String.eqb_eq in Exk. congruence.
      * intros y [<-|Hy]; [|apply All, Hy].
        rewrite (Keep x (nextFolderId st, Some pid)); [discriminate|].
        rewrite map_get_set, String.eqb_refl. reflexivity.
      * exists (r :: added). split.
        -- rewrite Ea, Ef, <- app_assoc. reflexivity.
        -- intros a [<-|Ha'].
           ++ simpl. repeat split; [left; reflexivity|exact Hget|lia].
           ++ destruct (Ha a Ha') as (H1 & H2 & H3). repeat split.
              ** right. exact H1.
              ** rewrite map_get_set in H2. destruct (x =? Folders.FullPath a); [discriminate|exact H2].
              ** simpl in H3. lia.
      * simpl in F5. lia.
      * intros y [<-|Hy] Hnone; [exact Wx|].
        destruct (String.eqb_spec x y) as [<-|Hxy]; [exact Wx|].
        apply New; [exact Hy|]. rewrite map_get_set.
        apply String.eqb_neq in Hxy. rewrite Hxy. exact Hnone.
Qed.

End Loop.

Section Files.
Context (env : Env) (d : Disk.node) (m : list (string * (Z * option Z)))
        (known : list string).

Lemma insert_files_spec F :
  forall st,
    let st2 := fold_left (insertFileStep env d m known) F st in
    Folders st2 = Folders st /\ FileTags st2 = FileTags st
    /\ FolderTags st2 = FolderTags st /\ nextFolderId st2 = nextFolderId st
    /\ (nextFileId st <= nextFileId st2)%Z
    /\ (exists added,
           Files st2 = Files st ++ added
           /\ forall f, In f added ->
                (nextFileId st <= Files.Id f)%Z
                /\ exists fp, In fp F /\ set_has fp known = false
                              /\ Files.StoragePath f = Str.replace_char "\" "/" fp)
    /\ (forall fp fid pid size,
           In fp F -> set_has fp known = false ->
           map_get (toLogical env (Path.dirname fp)) m = Some (fid, pid) ->
           Disk.stat_size (cwd env) d fp = Some size ->
           exists f, In f (Files st2)
                     /\ Files.StoragePath f = Str.replace_char "\" "/" fp
                     /\ Files.FolderId f = Some fid
                     /\ Files.Name f = Path.basename fp
                     /\ Files.SizeBytes f = size).
Proof.
  induction F as [|fp0 F IH]; intros st st2.
  - unfold st2. simpl. repeat (split; [reflexivity|]).
    split; [exists []; rewrite app_nil_r; split; [reflexivity|intros f []]|].
    intros fp fid pid size [].
  - unfold st2. cbn [fold_left].
    set (st1 := insertFileStep env d m known st fp0).
    destruct (IH st1) as (F1 & F2 & F3 & F4 & F5 & (added & Ea & Ha) & New).
    assert (Step : (st1 = st
                    /\ (set_has fp0 known = true
                        \/ map_get (toLogical env (Path.dirname fp0)) m = None
                        \/ Disk.stat_size (cwd env) d fp0 = None))
                   \/ (set_has fp0 known = false
                       /\ exists fid pid size,
                           map_get (toLogical env (Path.dirname fp0)) m = Some (fid, pid)
                           /\ Disk.stat_size (cwd env) d fp0 = Some size
                           /\ st1 = snd (Db.insertFile st (Some fid) (Path.basename fp0)
                                           (Str.replace_char "\" "/" fp0) size
                                           (Some "application/octet-stream")))).
    { unfold st1, insertFileStep.
      destruct (set_has fp0 known); [left; auto|].
      destruct (map_get (toLogical env (Path.dirname fp0)) m) as [[fid pid]|];
        [|left; auto].
      destruct (Disk.stat_size (cwd env) d fp0) as [size|]; [|left; auto].
      right. split; [reflexivity|]. exists fid, pid, size. auto. }
    destruct Step as [[E Why]|(Hk & fid & pid & size & Hm & Hs & E)].
    + rewrite E in *.
      repeat (split; [assumption|]).
      split.
      * exists added. split; [exact Ea|]. intros f Hf.
        destruct (Ha f Hf) as (H1 & fp & H2 & H3 & H4).
        split; [exact H1|]. exists fp. split; [right; exact H2|auto].
      * intros fp fid pid size [<-|Hin] Hk Hm Hs.
        -- exfalso. destruct Why as [W|[W|W]]; congruence.
        -- eapply New; eassumption.
    + set (f0 := {| Files.Id := nextFileId st; Files.FolderId := Some fid;
                    Files.Name := Path.basename fp0;
                    Files.StoragePath := Str.replace_char "\" "/" fp0;
                    Files.SizeBytes := size;
                    Files.MimeType := Some "application/octet-stream" |}).
      assert (Ef : Files st1 = Files st ++ [f0]) by (rewrite E; reflexivity).
      assert (En : nextFileId st1 = (nextFileId st + 1)%Z) by (rewrite E; reflexivity).
      assert (E1 : Folders st1 = Folders st) by (rewrite E; reflexivity).
      assert (E2 : FileTags st1 = FileTags st) by (rewrite E; reflexivity).
      assert (E3 : FolderTags st1 = FolderTags st) by (rewrite E; reflexivity).
      assert (E4 : nextFolderId st1 = nextFolderId st) by (rewrite E; reflexivity).
      split; [congruence|]. split; [congruence|]. split; [congruence|].
      split; [congruence|]. split; [lia|].
      split.
      * exists (f0 :: added). split; [rewrite Ea, Ef, <- app_assoc; reflexivity|].
        intros f [<-|Hf].
        -- split; [simpl; lia|]. exists fp0. split; [left; reflexivity|auto].
        -- destruct (Ha f Hf) as (H1 & fp & H2 & H3 & H4).
           split; [lia|]. exists fp. split; [right; exact H2|auto].
      * intros fp fid' pid' size' [<-|Hin] Hk' Hm' Hs'.
        -- exists f0. split.
           ++ rewrite Ea, Ef. apply in_or_app. left. apply in_or_app. right. left. reflexivity.
           ++ rewrite Hm in Hm'. rewrite Hs in Hs'. inversion Hm'; inversion Hs'; subst.
              repeat split.
        -- eapply New; eassumption.
Qed.

End Files.

(** Enqueueing for the rows that fail a test is enqueueing the list of their
    jobs. *)
Lemma fold_cond_enqueue {A : Type} (cond : A -> bool) (mk : A -> job) rows :
  forall w,
    fold_left (fun w' r => if cond r then w' else enqueue_job w' (mk r)) rows w
    = fold_left enqueue_job (map mk (filter (fun r => negb (cond r)) rows)) w.
Proof.
  induction rows as [|r rows IH]; intros w; [reflexivity|].
  simpl. destruct (cond r); simpl; apply IH.
Qed.

Lemma fold_cond_enqueue_parts {A : Type} (cond : A -> bool) (mk : A -> job) rows w :
  let w' := fold_left (fun w' r => if cond r then w' else enqueue_job w' (mk r)) rows w in
  store w' = store w /\ disk w' = disk w
  /\ queue w' = JobQueue.run job_behaviour (queue w)
                  (map (@JobQueue.Enqueue job)
                       (map mk (filter (fun r => negb (cond r)) rows))).
Proof.
  intros w'. unfold w'. rewrite fold_cond_enqueue, ListingFacts.fold_enqueue_job.
  repeat split.
Qed.

(** *** One pass over a folder whose directory is listed *)

(** *** Counting rows and jobs *)

Lemma filter_flat_map {A B : Type} (p : B -> bool) (g : A -> list B) l :
  filter p (flat_map g l) = flat_map (fun x => filter p (g x)) l.
Proof.
  induction l as [|x l IH]; [reflexivity|]. simpl. rewrite filter_app, IH. reflexivity.
Qed.

Lemma flat_map_nil {A B : Type} (g : A -> list B) l :
  (forall x, In x l -> g x = []) -> flat_map g l = [].
Proof.
  induction l as [|x l IH]; intros H; [reflexivity|]. simpl.
  rewrite (H x (or_introl eq_refl)), IH; [reflexivity|].
  intros y Hy. apply H. right. exact Hy.
Qed.

Lemma filter_nil {A : Type} (p : A -> bool) l :
  (forall x, In x l -> p x = false) -> filter p l = [].
Proof.
  induction l as [|x l IH]; intros H; [reflexivity|]. simpl.
  rewrite (H x (or_introl eq_refl)). apply IH. intros y Hy. apply H. right. exact Hy.
Qed.

Lemma filter_comm {A : Type} (p q : A -> bool) l :
  filter p (filter q l) = filter q (filter p l).
Proof.
  induction l as [|x l IH]; [reflexivity|]. simpl.
  destruct (p x) eqn:Ep, (q x) eqn:Eq; simpl; rewrite ?Ep, ?Eq, IH; reflexivity.
Qed.

Lemma mem_Z_In x l : Db.mem_Z x l = true <-> In x l.
Proof.
  unfold Db.mem_Z. rewrite existsb_exists. split.
  - intros (y & Hy & E). apply Z.eqb_eq in E. subst. exact Hy.
  - intros H. exists x. split; [exact H|apply Z.eqb_refl].
Qed.

(** In a table with distinct keys the rows with the key of a given row are
    that row alone. *)
Lemma distinct_unique {A : Type} (key : A -> Z) l x :
  distinct (map key l) = true -> In x l ->
  filter (fun y => Z.eqb (key y) (key x)) l = [x].
Proof.
  induction l as [|a l IH]; intros D Hin; [contradiction|].
  simpl in D. apply andb_true_iff in D. destruct D as [Da Dl].
  apply negb_true_iff in Da.
  assert (Hfresh : forall y, In y l -> key y <> key a).
  { intros y Hy E. apply not_true_iff_false in Da. apply Da. apply mem_Z_In.
    rewrite <- E. apply in_map, Hy. }
  simpl. destruct Hin as [->|Hin].
  - rewrite Z.eqb_refl. f_equal. apply filter_nil. intros y Hy.
    apply Z.eqb_neq. apply Hfresh, Hy.
  - assert (E : Z.eqb (key a) (key x) = false).
    { apply Z.eqb_neq. intros E. apply (Hfresh x Hin). symmetry. exact E. }
    rewrite E. apply IH; assumption.
Qed.

(** Only the row with the key of [x] contributes. *)
Lemma flat_map_single {A B : Type} (key : A -> Z) (h : A -> list B) l x :
  distinct (map key l) = true -> In x l ->
  (forall y, key y <> key x -> h y = []) ->
  flat_map h l = h x.
Proof.
  induction l as [|a l IH]; intros D Hin Hh; [contradiction|].
  simpl in D. apply andb_true_iff in D. destruct D as [Da Dl].
  apply negb_true_iff in Da.
  assert (Hfresh : forall y, In y l -> key y <> key a).
  { intros y Hy E. apply not_true_iff_false in Da. apply Da. apply mem_Z_In.
    rewrite <- E. apply in_map, Hy. }
  simpl. destruct Hin as [->|Hin].
  - rewrite (flat_map_nil h l), app_nil_r; [reflexivity|].
    intros y Hy. apply Hh, Hfresh, Hy.
  - rewrite (Hh a); [apply IH; assumption|].
    intros E. apply (Hfresh x Hin). symmetry. exact E.
Qed.

Lemma filter_clean_file id (X : list Files.row) (Y : list Folders.row) :
  filter (is_clean_file id)
         (map (fun rf => JobCleanFile (Files.Id rf)) X
          ++ map (fun rf => JobCleanFolder (Folders.Id rf)) Y)
  = map (fun rf => JobCleanFile (Files.Id rf))
        (filter (fun rf => Z.eqb (Files.Id rf) id) X).
Proof.
  rewrite filter_app.
  assert (E : filter (is_clean_file id) (map (fun rf => JobCleanFolder (Folders.Id rf)) Y)
              = []).
  { apply filter_nil. intros j Hj. apply in_map_iff in Hj. destruct Hj as (r & <- & _).
    reflexivity. }
  rewrite E, app_nil_r.
  induction X as [|x X IH]; [reflexivity|]. simpl.
  destruct (Z.eqb (Files.Id x) id); simpl; rewrite IH; reflexivity.
Qed.

Lemma filter_clean_folder id (X : list Files.row) (Y : list Folders.row) :
  filter (is_clean_folder id)
         (map (fun rf => JobCleanFile (Files.Id rf)) X
          ++ map (fun rf => JobCleanFolder (Folders.Id rf)) Y)
  = map (fun rf => JobCleanFolder (Folders.Id rf))
        (filter (fun rf => Z.eqb (Folders.Id rf) id) Y).
Proof.
  rewrite filter_app.
  assert (E : filter (is_clean_folder id) (map (fun rf => JobCleanFile (Files.Id rf)) X)
              = []).
  { apply filter_nil. intros j Hj. apply in_map_iff in Hj. destruct Hj as (r & <- & _).
    reflexivity. }
  rewrite E. cbn [app].
  induction Y as [|y Y IH]; [reflexivity|]. simpl.
  destruct (Z.eqb (Folders.Id y) id); simpl; rewrite IH; reflexivity.
Qed.

Lemma keys_ok_inv st :
  keys_ok st = true ->
  distinct (map Folders.Id (Folders st)) = true
  /\ distinct (map Files.Id (Files st)) = true
  /\ (forall r, In r (Folders st) -> (Folders.Id r < nextFolderId st)%Z)
  /\ (forall f, In f (Files st) -> (Files.Id f < nextFileId st)%Z).
Proof.
  unfold keys_ok. rewrite !andb_true_iff, !forallb_forall.
  intros [[[H1 H2] H3] H4]. repeat split; try assumption.
  - intros r Hr. apply Z.ltb_lt, H3, Hr.
  - intros f Hf. apply Z.ltb_lt, H4, Hf.
Qed.

Lemma filter_andb {A : Type} (p q : A -> bool) l :
  filter (fun x => p x && q x) l = filter q (filter p l).
Proof.
  induction l as [|x l IH]; [reflexivity|]. simpl.
  destruct (p x); simpl; [destruct (q x)|]; rewrite IH; reflexivity.
Qed.

Lemma filter_const {A B : Type} (p : A -> bool) (a : A) (X : list B) :
  filter p (map (fun _ => a) X) = if p a then map (fun _ => a) X else [].
Proof.
  induction X as [|x X IH]; simpl; [destruct (p a); reflexivity|].
  rewrite IH. destruct (p a); reflexivity.
Qed.

(** A row above the next key is not the row of a key in use. *)
Lemma filter_fresh {A : Type} (key : A -> Z) (next id : Z) l :
  (id < next)%Z -> (forall y, In y l -> (next <= key y)%Z) ->
  filter (fun y => Z.eqb (key y) id) l = [].
Proof.
  intros H Hl. apply filter_nil. intros y Hy. apply Z.eqb_neq.
  specialize (Hl y Hy). lia.
Qed.

Section Pass.
Import Str StrFacts Path PathFacts ChildFacts Disk DiskFacts WalkFacts.

Context (env : Env) (w : World) (folderId : option Z) (segs : list string)
        (es : Disk.entries).
Hypothesis Henv : Forall (fun s => clean_name s = true) (server_dir env).
Hypothesis Hne : segs <> [].
Hypothesis Hsegs : Forall (fun s => clean_name s = true) segs.
Hypothesis Hdisk :
  Disk.lookup (disk w) (server_dir env ++ "uploads" :: segs) = Some (Disk.Dir true es).
Hypothesis Htidy : Disk.tidy [] es = true.

Local Notation "'R'" := (upload_root_segs env).
Local Notation "'base'" := (logical_path segs).

Lemma root_segs : R = server_dir env ++ ["uploads"].
Proof.
  unfold upload_root_segs, __dirname.
  change (abs_path (server_dir env) +++ "/uploads")
    with (abs_path (server_dir env) +++ "/" +++ join_with "/" ["uploads"]).
  rewrite normalizeString_extend by first [discriminate | repeat constructor].
  rewrite normalizeString_abs_path by (apply clean_is_plain, Henv). reflexivity.
Qed.

Lemma root_clean : Forall (fun s => clean_name s = true) R.
Proof.
  rewrite root_segs. apply Forall_app. split; [exact Henv|repeat constructor].
Qed.

Lemma below_clean rs :
  Forall (fun s => clean_name s = true) rs ->
  Forall (fun s => clean_name s = true) (segs ++ rs).
Proof. intros H. apply Forall_app. split; assumption. Qed.

Lemma physical_below rs :
  Forall (fun s => clean_name s = true) rs ->
  fullPathToPhysical env (logical_path (segs ++ rs)) = abs_path (R ++ segs ++ rs).
Proof.
  intros H. apply fullPathToPhysical_logical, clean_is_plain, below_clean, H.
Qed.

Lemma at_below rs :
  Forall (fun s => clean_name s = true) rs ->
  Disk.at_path (cwd env) (disk w) (abs_path (R ++ segs ++ rs))
  = Disk.lookup (Disk.Dir true es) rs.
Proof.
  intros H. unfold Disk.at_path, resolve_segs.
  change (isAbsolute (abs_path (R ++ segs ++ rs))) with true. cbv iota.
  rewrite normalizeString_abs_path.
  - rewrite root_segs, <- !app_assoc. simpl app.
    change (server_dir env ++ "uploads" :: segs ++ rs)
      with (server_dir env ++ ("uploads" :: segs) ++ rs).
    rewrite app_assoc, lookup_app, Hdisk. reflexivity.
  - apply clean_is_plain, Forall_app. split; [apply root_clean|apply below_clean, H].
Qed.

Lemma physical_base : fullPathToPhysical env base = abs_path (R ++ segs).
Proof.
  pose proof (physical_below [] (Forall_nil _)) as H. rewrite !app_nil_r in H. exact H.
Qed.

Lemma at_base :
  Disk.at_path (cwd env) (disk w) (fullPathToPhysical env base) = Some (Disk.Dir true es).
Proof.
  rewrite physical_base. pose proof (at_below [] (Forall_nil _)) as H.
  rewrite !app_nil_r in H. exact H.
Qed.

(** Splitting a path below the folder into its directory and its name. *)
Lemma snoc_last (rs : list string) : rs <> [] -> rs = removelast rs ++ [last rs ""].
Proof. apply app_removelast_last. Qed.

Lemma clean_parts rs :
  rs <> [] -> Forall (fun s => clean_name s = true) rs ->
  Forall (fun s => clean_name s = true) (removelast rs)
  /\ clean_name (last rs "") = true.
Proof.
  intros Hn H. rewrite (snoc_last rs Hn) in H. apply Forall_app in H.
  destruct H as [H1 H2]. inversion H2; subst. auto.
Qed.

Lemma clean_name_inv n :
  clean_name n = true -> n <> "" /\ has_char "/" n = false /\ has_char "\" n = false.
Proof.
  unfold clean_name. rewrite andb_true_iff, negb_true_iff. intros [H1 H2].
  apply plain_name_inv in H1. tauto.
Qed.

Lemma logical_below rs :
  rs <> [] ->
  logical_path (segs ++ rs)
  = logical_path (segs ++ removelast rs) +++ "/" +++ last rs "".
Proof.
  intros Hn. rewrite (snoc_last rs Hn) at 1. rewrite app_assoc.
  apply logical_path_snoc. destruct segs; [congruence|discriminate].
Qed.

Lemma logical_not_empty l : logical_path l <> "".
Proof. discriminate. Qed.

Lemma parent_below rs :
  rs <> [] -> Forall (fun s => clean_name s = true) rs ->
  parent_of (logical_path (segs ++ rs)) = Some (logical_path (segs ++ removelast rs))
  /\ leaf_of (logical_path (segs ++ rs)) = last rs ""
  /\ depth (logical_path (segs ++ rs)) = S (depth (logical_path (segs ++ removelast rs))).
Proof.
  intros Hn H. destruct (clean_parts rs Hn H) as [_ Hl].
  apply clean_name_inv in Hl. destruct Hl as (Hl1 & Hl2 & _).
  rewrite logical_below by assumption.
  split; [|split].
  - rewrite parent_of_child by assumption. reflexivity.
  - apply leaf_of_child; assumption.
  - apply depth_child; assumption.
Qed.

Lemma physical_parts rs :
  rs <> [] -> Forall (fun s => clean_name s = true) rs ->
  dirname (abs_path (R ++ segs ++ rs)) = abs_path (R ++ segs ++ removelast rs)
  /\ basename (abs_path (R ++ segs ++ rs)) = last rs "".
Proof.
  intros Hn H. destruct (clean_parts rs Hn H) as [_ Hl].
  apply clean_name_inv in Hl. destruct Hl as (Hl1 & Hl2 & _).
  assert (E : abs_path (R ++ segs ++ rs)
              = abs_path (R ++ segs ++ removelast rs) +++ "/" +++ last rs "").
  { rewrite (snoc_last rs Hn) at 1. rewrite !app_assoc. apply abs_path_snoc.
    destruct segs; [congruence|]. intros E0. apply app_eq_nil in E0. destruct E0 as [E0 _].
    apply app_eq_nil in E0. destruct E0. discriminate. }
  rewrite E. split.
  - apply dirname_child; try assumption; [|reflexivity].
    unfold abs_path. destruct segs as [|s0 segs0]; [congruence|].
    assert (Hj : join_with "/" (R ++ (s0 :: segs0) ++ removelast rs) <> "").
    { inversion Hsegs; subst. apply join_nonempty with (x := s0).
      - apply in_or_app. right. left. reflexivity.
      - apply clean_name_inv in H2. tauto. }
    destruct (join_with "/" (R ++ (s0 :: segs0) ++ removelast rs)); [congruence|].
    simpl. lia.
  - apply basename_child; assumption.
Qed.

Hypothesis Hbracket : has_char "[" base = false.
Hypothesis Hrow : exists b, In b (Folders (store w)) /\ Folders.FullPath b = base.

Local Notation "'seen'" := (walkDir env (abs_path (R ++ segs)) es ([], [])).
Local Notation "'seenFolders'" := (set_add base (fst seen)).
Local Notation "'pattern'" := (base +++ "%").

Lemma sync_unfold :
  discoverAndSyncFolderRecursive env w folderId base
  = let folderRows := Db.foldersLike (store w) pattern in
    let '(st1, folderMap1, folderIds1) :=
      fold_left (insertFolderStep folderId)
                (sort_stable (fun a b => Nat.leb (depth a) (depth b)) seenFolders)
                (store w, map_of_rows folderRows [], map Folders.Id folderRows) in
    let existingFilesMap :=
      match folderIds1 with
      | [] => []
      | _ => map Files.StoragePath (Db.filesInFolders st1 folderIds1)
      end in
    let st2 := fold_left (insertFileStep env (disk w) folderMap1 existingFilesMap)
                         (snd seen) st1 in
    fold_left (fun w' rf => if set_has (Folders.FullPath rf) seenFolders then w'
                            else enqueue_job w' (JobCleanFolder (Folders.Id rf)))
              (Db.foldersLike st2 pattern)
              (fold_left (fun w' rf => if set_has (Files.StoragePath rf) (snd seen) then w'
                                       else enqueue_job w' (JobCleanFile (Files.Id rf)))
                         (Db.filesUnderLike st2 pattern) (with_store w st2)).
Proof.
  unfold discoverAndSyncFolderRecursive, Disk.access, Disk.readdir.
  rewrite at_base. cbv iota. simpl negb. cbv iota.
  rewrite physical_base. reflexivity.
Qed.

Lemma seenFolders_In x :
  In x seenFolders
  <-> x = base \/ exists rs, In rs (dir_paths es) /\ x = logical_path (segs ++ rs).
Proof.
  rewrite set_add_In.
  destruct (walkDir_spec env root_clean es segs [] ([], []) Hsegs Htidy) as [Sd _].
  rewrite Sd. cbn [fst app]. rewrite in_map_iff.
  split; (intros [H|(rs & H1 & H2)]; [left; exact H|right; exists rs; auto]).
Qed.

Lemma seenFiles_In x :
  In x (snd seen)
  <-> exists rs size, In (rs, size) (file_paths es) /\ x = abs_path (R ++ segs ++ rs).
Proof.
  destruct (walkDir_spec env root_clean es segs [] ([], []) Hsegs Htidy) as [_ Sf].
  rewrite Sf. cbn [snd app]. rewrite in_map_iff.
  split.
  - intros ([rs size] & H1 & H2). exists rs, size. auto.
  - intros (rs & size & H1 & H2). exists (rs, size). auto.
Qed.

Lemma base_known :
  map_get base (map_of_rows (Db.foldersLike (store w) pattern) []) <> None.
Proof.
  apply map_of_rows_has. left. destruct Hrow as (b & Hb & Eb).
  exists b. split; [|exact Eb]. unfold Db.foldersLike. apply filter_In.
  split; [exact Hb|]. rewrite Eb.
  pose proof (SqlFacts.like_self_prefix base "" Hbracket) as L.
  rewrite append_nil_r in L. exact L.
Qed.

Lemma known_rows_ok :
  map_ok (store w) (map_of_rows (Db.foldersLike (store w) pattern) []).
Proof.
  intros k id pid H. apply map_of_rows_get in H.
  destruct H as [(r & Hr & H1 & H2)|H]; [|discriminate].
  exists r. unfold Db.foldersLike in Hr. apply filter_In in Hr. tauto.
Qed.

Lemma seen_parents x :
  In x (sort_stable (fun a b => Nat.leb (depth a) (depth b)) seenFolders) ->
  map_get x (map_of_rows (Db.foldersLike (store w) pattern) []) <> None
  \/ exists p, parent_of x = Some p
       /\ (map_get p (map_of_rows (Db.foldersLike (store w) pattern) []) <> None
           \/ (In p (sort_stable (fun a b => Nat.leb (depth a) (depth b)) seenFolders)
               /\ depth p < depth x)).
Proof.
  intros H. apply (proj1 (SortFacts.sort_In depth _ _)) in H. apply seenFolders_In in H.
  destruct H as [->|(rs & Hrs & ->)]; [left; apply base_known|].
  right.
  destruct (paths_lookup es [] Htidy) as [Pd _]. destruct (Pd rs Hrs) as [Hc _].
  destruct (paths_parent es) as [Qd _]. destruct (Qd rs Hrs) as [Hn Hp].
  destruct (parent_below rs Hn Hc) as (P1 & _ & P3).
  exists (logical_path (segs ++ removelast rs)). split; [exact P1|].
  destruct Hp as [E|Hp].
  - left. rewrite E, app_nil_r. apply base_known.
  - right. split; [|lia]. apply (proj2 (SortFacts.sort_In depth _ _)). apply seenFolders_In.
    right. exists (removelast rs). auto.
Qed.

Lemma sync_outcome :
  let w' := discoverAndSyncFolderRecursive env w folderId base in
  disk w' = disk w
  /\ (exists added,
         Folders (store w') = Folders (store w) ++ added
         /\ forall r, In r added ->
              In (Folders.FullPath r) seenFolders
              /\ (nextFolderId (store w) <= Folders.Id r)%Z)
  /\ (exists added,
         Files (store w') = Files (store w) ++ added
         /\ forall f, In f added ->
              In (Files.StoragePath f) (snd seen)
              /\ (nextFileId (store w) <= Files.Id f)%Z)
  /\ FileTags (store w') = FileTags (store w)
  /\ FolderTags (store w') = FolderTags (store w)
  /\ queue w'
     = JobQueue.run job_behaviour (queue w)
         (map (@JobQueue.Enqueue job)
              (map (fun rf => JobCleanFile (Files.Id rf))
                   (filter (fun rf => negb (set_has (Files.StoragePath rf) (snd seen)))
                           (Db.filesUnderLike (store w') pattern))
               ++ map (fun rf => JobCleanFolder (Folders.Id rf))
                      (filter (fun rf => negb (set_has (Folders.FullPath rf) seenFolders))
                              (Db.foldersLike (store w') pattern))))
  /\ (forall rs, In rs (dir_paths es) ->
        (forall r, In r (Folders (store w)) ->
                   Folders.FullPath r <> logical_path (segs ++ rs)) ->
        exists r pr,
          In r (Folders (store w')) /\ Folders.FullPath r = logical_path (segs ++ rs)
          /\ Folders.Name r = last rs ""
          /\ In pr (Folders (store w'))
          /\ Folders.FullPath pr = logical_path (segs ++ removelast rs)
          /\ Folders.ParentId r = Some (Folders.Id pr))
  /\ (forall rs size, In (rs, size) (file_paths es) ->
        (forall f, In f (Files (store w)) ->
                   Files.StoragePath f <> abs_path (R ++ segs ++ rs)) ->
        exists f fo,
          In f (Files (store w')) /\ Files.StoragePath f = abs_path (R ++ segs ++ rs)
          /\ Files.Name f = last rs "" /\ Files.SizeBytes f = size
          /\ In fo (Folders (store w'))
          /\ Folders.FullPath fo = logical_path (segs ++ removelast rs)
          /\ Files.FolderId f = Some (Folders.Id fo)).
Proof.
  intros w'. unfold w'. rewrite sync_unfold. cbv zeta.
  set (L := sort_stable (fun a b => Nat.leb (depth a) (depth b)) seenFolders).
  set (m0 := map_of_rows (Db.foldersLike (store w) pattern) []).
  destruct (fold_left (insertFolderStep folderId) L
              (store w, m0, map Folders.Id (Db.foldersLike (store w) pattern)))
    as [[st1 m1] ids1] eqn:EL.
  destruct (insert_folders_spec folderId L _ _ _ _ _ _ EL
              (SortFacts.sort_sorted depth _) known_rows_ok seen_parents)
    as (Ok1 & Keep & All & (afolders & Eaf & Haf) & F1 & F2 & F3 & F4 & F5 & New).
  set (known := match ids1 with
                | [] => []
                | _ => map Files.StoragePath (Db.filesInFolders st1 ids1)
                end).
  destruct (insert_files_spec env (disk w) m1 known (snd seen) st1)
    as (G1 & G2 & G3 & G4 & G5 & (afiles & Eai & Hai) & NewF).
  set (st2 := fold_left (insertFileStep env (disk w) m1 known) (snd seen) st1) in *.
  match goal with
  | |- context [fold_left ?f (Db.foldersLike st2 pattern) (fold_left ?g ?rows ?w0)] =>
      destruct (fold_cond_enqueue_parts
                  (fun rf => set_has (Files.StoragePath rf) (snd seen))
                  (fun rf => JobCleanFile (Files.Id rf)) rows w0) as (A1 & A2 & A3);
      destruct (fold_cond_enqueue_parts
                  (fun rf => set_has (Folders.FullPath rf) seenFolders)
                  (fun rf => JobCleanFolder (Folders.Id rf)) (Db.foldersLike st2 pattern)
                  (fold_left g rows w0)) as (B1 & B2 & B3)
  end.
  cbv zeta in A1, A2, A3, B1, B2, B3.
  rewrite B1, B2, B3, A1, A2, A3. cbn [with_store store disk queue].
  assert (KnownIn : forall fp, set_has fp known = true ->
                               exists f, In f (Files (store w)) /\ Files.StoragePath f = fp).
  { intros fp H. apply set_has_In in H. unfold known in H.
    destruct ids1; [contradiction|].
    apply in_map_iff in H. destruct H as (f & Hf1 & Hf2).
    unfold Db.filesInFolders in Hf2. apply filter_In in Hf2.
    exists f. rewrite <- F1. tauto. }
  assert (HasParent : forall rs, rs <> [] ->
             (removelast rs = [] \/ In (removelast rs) (dir_paths es)) ->
             exists fid pid fo,
               map_get (logical_path (segs ++ removelast rs)) m1 = Some (fid, pid)
               /\ In fo (Folders st2)
               /\ Folders.FullPath fo = logical_path (segs ++ removelast rs)
               /\ Folders.Id fo = fid).
  { intros rs Hn Hp.
    assert (Hm : map_get (logical_path (segs ++ removelast rs)) m1 <> None).
    { destruct Hp as [E|Hp].
      - rewrite E, app_nil_r. pose proof base_known as Hb. fold m0 in Hb.
        destruct (map_get base m0) as [v|] eqn:Ev; [|congruence].
        rewrite (Keep _ _ Ev). discriminate.
      - apply All. apply (proj2 (SortFacts.sort_In depth _ _)). apply seenFolders_In.
        right. exists (removelast rs). auto. }
    destruct (map_get (logical_path (segs ++ removelast rs)) m1) as [[fid pid]|] eqn:Em;
      [|congruence].
    destruct (Ok1 _ _ _ Em) as (fo & Hfo & H1 & H2).
    exists fid, pid, fo. rewrite G1. auto. }
  split; [reflexivity|].
  split.
  { exists afolders. rewrite G1. split; [exact Eaf|].
    intros r Hr. destruct (Haf r Hr) as (H1 & _ & H3).
    split; [|exact H3]. apply (proj1 (SortFacts.sort_In depth _ _)) in H1. exact H1. }
  split.
  { exists afiles. rewrite Eai, F1. split; [reflexivity|].
    intros f Hf. destruct (Hai f Hf) as (H1 & fp & H2 & H3 & H4).
    split; [|lia].
    rewrite H4. apply seenFiles_In in H2. destruct H2 as (rs & size & Hrs & ->).
    destruct (paths_lookup es [] Htidy) as [_ Pf]. destruct (Pf _ _ Hrs) as [Hc _].
    rewrite (replace_physical env root_clean (segs ++ rs)) by (apply below_clean, Hc).
    apply seenFiles_In. eauto. }
  split; [congruence|]. split; [congruence|].
  split.
  { rewrite !map_app, <- QueueFacts.run_app. reflexivity. }
  split.
  - intros rs Hrs Hfresh.
    destruct (paths_lookup es [] Htidy) as [Pd _]. destruct (Pd rs Hrs) as [Hc _].
    destruct (paths_parent es) as [Qd _]. destruct (Qd rs Hrs) as [Hn Hp].
    destruct (parent_below rs Hn Hc) as (P1 & P2 & _).
    assert (Hx : In (logical_path (segs ++ rs)) L).
    { apply (proj2 (SortFacts.sort_In depth _ _)). apply seenFolders_In. right. eauto. }
    assert (Hnone : map_get (logical_path (segs ++ rs)) m0 = None).
    { unfold m0. rewrite map_of_rows_none; [reflexivity|].
      intros r Hr. unfold Db.foldersLike in Hr. apply filter_In in Hr.
      apply Hfresh. tauto. }
    destruct (New _ Hx Hnone) as (r & p & pr & N1 & N2 & N3 & N4 & N5 & N6 & N7).
    rewrite P1 in N4. inversion N4; subst p.
    exists r, pr. rewrite G1. rewrite <- P2. auto 10.
  - intros rs size Hrs Hfresh.
    destruct (paths_lookup es [] Htidy) as [_ Pf]. destruct (Pf _ _ Hrs) as [Hc Hl].
    destruct (paths_parent es) as [_ Qf]. destruct (Qf _ _ Hrs) as [Hn Hp].
    destruct (physical_parts rs Hn Hc) as [D1 D2].
    destruct (HasParent rs Hn Hp) as (fid & pid & fo & Hm & Hfo & Efo & Eid).
    assert (Hin : In (abs_path (R ++ segs ++ rs)) (snd seen))
      by (apply seenFiles_In; eauto).
    assert (Hk : set_has (abs_path (R ++ segs ++ rs)) known = false).
    { apply not_true_iff_false. intros H. destruct (KnownIn _ H) as (f & Hf & Ef).
      apply (Hfresh f Hf Ef). }
    assert (Hlog : toLogical env (dirname (abs_path (R ++ segs ++ rs)))
                   = logical_path (segs ++ removelast rs)).
    { rewrite D1. apply toLogical_physical, below_clean.
      apply (clean_parts rs Hn Hc). }
    assert (Hstat : Disk.stat_size (cwd env) (disk w) (abs_path (R ++ segs ++ rs))
                    = Some size).
    { unfold Disk.stat_size. rewrite at_below by exact Hc. rewrite Hl. reflexivity. }
    rewrite <- Hlog in Hm.
    destruct (NewF _ _ _ _ Hin Hk Hm Hstat) as (f & Hf & S1 & S2 & S3 & S4).
    exists f, fo. split; [exact Hf|]. split.
    + rewrite S1.
      apply (replace_physical env root_clean (segs ++ rs)), below_clean, Hc.
    + rewrite S3, D2, S2, Eid. auto.
Qed.

(** What the pass has seen is on the disk. *)
Lemma seen_file_access x :
  In x (snd seen) -> Disk.access (cwd env) (disk w) x = true.
Proof.
  intros H. apply seenFiles_In in H. destruct H as (rs & size & Hrs & ->).
  destruct (paths_lookup es [] Htidy) as [_ Pf]. destruct (Pf _ _ Hrs) as [Hc L].
  unfold Disk.access. rewrite (at_below rs Hc), (L true). reflexivity.
Qed.

Lemma seen_folder_access x :
  In x seenFolders -> Disk.access (cwd env) (disk w) (fullPathToPhysical env x) = true.
Proof.
  intros H. apply seenFolders_In in H. destruct H as [->|(rs & Hrs & ->)].
  - unfold Disk.access. rewrite at_base. reflexivity.
  - destruct (paths_lookup es [] Htidy) as [Pd _]. destruct (Pd _ Hrs) as [Hc L].
    destruct (L true) as (b & sub & E).
    unfold Disk.access. rewrite (physical_below rs Hc), (at_below rs Hc), E. reflexivity.
Qed.

Hypothesis Hkeys : keys_ok (store w) = true.

(** The jobs of one pass: cleanups only, of rows that were recorded before
    the pass and have not been seen, one for each such row. *)
Lemma sync_jobs :
  let w' := discoverAndSyncFolderRecursive env w folderId base in
  exists new,
    queue w' = JobQueue.run job_behaviour (queue w) (map (@JobQueue.Enqueue job) new)
    /\ (forall j, In j new ->
          (exists rf, j = JobCleanFile (Files.Id rf) /\ In rf (Files (store w))
                      /\ ~ In (Files.StoragePath rf) (snd seen))
          \/ (exists r, j = JobCleanFolder (Folders.Id r) /\ In r (Folders (store w))
                        /\ Sql.like (Folders.FullPath r) pattern = true
                        /\ ~ In (Folders.FullPath r) seenFolders))
    /\ (forall rf fo,
          In rf (Files (store w)) -> In fo (Folders (store w)) ->
          Files.FolderId rf = Some (Folders.Id fo) ->
          Sql.like (Folders.FullPath fo) pattern = true ->
          ~ In (Files.StoragePath rf) (snd seen) ->
          filter (is_clean_file (Files.Id rf)) new = [JobCleanFile (Files.Id rf)])
    /\ (forall r,
          In r (Folders (store w)) ->
          Sql.like (Folders.FullPath r) pattern = true ->
          ~ In (Folders.FullPath r) seenFolders ->
          filter (is_clean_folder (Folders.Id r)) new = [JobCleanFolder (Folders.Id r)]).
Proof.
  intros w'.
  destruct sync_outcome as (_ & (afo & Efo & Hfo) & (afi & Efi & Hfi) & _ & _ & Q & _).
  fold w' in Efo, Efi, Q.
  destruct (keys_ok_inv _ Hkeys) as (D1 & D2 & B1 & B2).
  eexists. split; [exact Q|]. split; [|split].
  - intros j Hj. apply in_app_or in Hj. destruct Hj as [Hj|Hj].
    + left. apply in_map_iff in Hj. destruct Hj as (rf & <- & Hrf).
      apply filter_In in Hrf. destruct Hrf as [Hrf Hns].
      apply negb_true_iff in Hns.
      assert (Hnot : ~ In (Files.StoragePath rf) (snd seen)).
      { intros Hin. apply set_has_In in Hin. congruence. }
      exists rf. split; [reflexivity|]. split; [|exact Hnot].
      unfold Db.filesUnderLike in Hrf. apply in_flat_map in Hrf.
      destruct Hrf as (f & Hf & Hrf). apply in_map_iff in Hrf.
      destruct Hrf as (_ & <- & _). rewrite Efi in Hf. apply in_app_or in Hf.
      destruct Hf as [Hf|Hf]; [exact Hf|]. exfalso. apply Hnot, (Hfi f Hf).
    + right. apply in_map_iff in Hj. destruct Hj as (r & <- & Hr).
      apply filter_In in Hr. destruct Hr as [Hr Hns].
      apply negb_true_iff in Hns.
      assert (Hnot : ~ In (Folders.FullPath r) seenFolders).
      { intros Hin. apply set_has_In in Hin. congruence. }
      unfold Db.foldersLike in Hr. apply filter_In in Hr. destruct Hr as [Hr Hl].
      exists r. split; [reflexivity|]. split; [|split; assumption].
      rewrite Efo in Hr. apply in_app_or in Hr.
      destruct Hr as [Hr|Hr]; [exact Hr|]. exfalso. apply Hnot, (Hfo r Hr).
  - intros rf fo Hrf Hfo0 Hjoin Hlike Hnot.
    rewrite filter_clean_file, filter_comm.
    assert (E : filter (fun r => Z.eqb (Files.Id r) (Files.Id rf))
                       (Db.filesUnderLike (store w') pattern) = [rf]).
    { unfold Db.filesUnderLike. rewrite filter_flat_map, Efi, flat_map_app.
      rewrite (flat_map_nil _ afi), app_nil_r.
      - rewrite (flat_map_single Files.Id _ _ rf D2 Hrf).
        + rewrite filter_const, Z.eqb_refl, Hjoin.
          replace (filter _ (Folders (store w')))
            with (filter (fun r => Sql.like (Folders.FullPath r) pattern)
                         (filter (fun r => Z.eqb (Folders.Id r) (Folders.Id fo))
                                 (Folders (store w')))).
          * rewrite Efo, filter_app, (distinct_unique Folders.Id _ fo D1 Hfo0).
            rewrite (filter_fresh Folders.Id (nextFolderId (store w)));
              [|apply B1, Hfo0|intros y Hy; apply (Hfo y Hy)].
            cbn [filter app]. rewrite Hlike. reflexivity.
          * rewrite <- filter_andb. apply filter_ext. intros a. reflexivity.
        + intros y Hy. rewrite filter_const.
          destruct (Z.eqb (Files.Id y) (Files.Id rf)) eqn:E; [|reflexivity].
          apply Z.eqb_eq in E. contradiction.
      - intros y Hy. rewrite filter_const.
        destruct (Z.eqb (Files.Id y) (Files.Id rf)) eqn:E; [|reflexivity].
        apply Z.eqb_eq in E. pose proof (proj2 (Hfi y Hy)). pose proof (B2 rf Hrf). lia. }
    rewrite E. simpl.
    destruct (set_has (Files.StoragePath rf) (snd seen)) eqn:Es; [|reflexivity].
    apply set_has_In in Es. contradiction.
  - intros r Hr Hlike Hnot.
    rewrite filter_clean_folder, filter_comm.
    assert (E : filter (fun x => Z.eqb (Folders.Id x) (Folders.Id r))
                       (Db.foldersLike (store w') pattern) = [r]).
    { unfold Db.foldersLike. rewrite filter_comm, Efo, filter_app.
      rewrite (distinct_unique Folders.Id _ r D1 Hr).
      rewrite (filter_fresh Folders.Id (nextFolderId (store w)));
        [|apply B1, Hr|intros y Hy; apply (Hfo y Hy)].
      cbn [filter app]. rewrite Hlike. reflexivity. }
    rewrite E. simpl.
    destruct (set_has (Folders.FullPath r) seenFolders) eqn:Es; [|reflexivity].
    apply set_has_In in Es. contradiction.
Qed.

End Pass.

End SyncFacts.

(** ** The recursive sync, entry by entry *)

Module ReachFacts.
Import Str StrFacts Path PathFacts ChildFacts Disk DiskFacts WalkFacts SyncFacts.

(** An entry that is reached is the entry that a lookup finds. *)
Lemma reach_lookup rs : forall es node r,
  reach es rs = Some node -> lookup (Dir r es) rs = Some node.
Proof.
  induction rs as [|s rest IH]; intros es node r H; [discriminate|].
  cbn [reach] in H. cbn [lookup].
  destruct (find_entry s es) as [c|]; [|discriminate].
  destruct rest as [|s' rest'].
  - exact H.
  - destruct c as [|[] sub|]; try discriminate. apply (IH sub node true H).
Qed.

(** The directory of an entry that is reached is reached, and can be
    listed. *)
Lemma reach_parent rs : forall es node,
  reach es rs = Some node -> removelast rs <> [] ->
  exists sub, reach es (removelast rs) = Some (Dir true sub).
Proof.
  induction rs as [|s rest IH]; intros es node H Hn; [discriminate|].
  destruct rest as [|s' rest']; [contradiction Hn; reflexivity|].
  cbn [reach] in H.
  destruct (find_entry s es) as [c|] eqn:Ef; [|discriminate].
  destruct c as [|[] sub|]; try discriminate.
  change (removelast (s :: s' :: rest')) with (s :: removelast (s' :: rest')).
  destruct (removelast (s' :: rest')) as [|t ts] eqn:Er.
  - exists sub. cbn [reach]. rewrite Ef. reflexivity.
  - destruct (IH sub node H) as (sub' & Hs); [discriminate|].
    exists sub'. cbn [reach]. rewrite Ef. exact Hs.
Qed.

Lemma reach_not_nil es rs node : reach es rs = Some node -> rs <> [].
Proof. intros H E. subst. discriminate. Qed.

Lemma reach_skip name c rest n rs :
  n <> name -> reach (Cons name c rest) (n :: rs) = reach rest (n :: rs).
Proof.
  intros H. cbn [reach find_entry]. apply not_eq_sym in H. apply String.eqb_neq in H.
  rewrite H. reflexivity.
Qed.

(** In a tidy listing the enumerated directories and files are those that
    are reached. *)
Lemma reach_enumerated es :
  forall names, tidy names es = true ->
    (forall rs, In rs (dir_paths es) -> exists b sub, reach es rs = Some (Dir b sub))
    /\ (forall rs size, In (rs, size) (file_paths es) -> reach es rs = Some (File size)).
Proof.
  induction es as [|name c rest IHsub IH] using entries_tree_ind; intros names T.
  - split; intros; contradiction.
  - pose proof (tidy_cons _ _ _ _ T) as (Hclean & Hfresh & Tsub & Trest).
    destruct (IH _ Trest) as [IHd IHf].
    assert (Here : forall rs', reach (Cons name c rest) (name :: rs')
                               = match rs' with
                                 | [] => Some c
                                 | _ :: _ => match c with
                                             | Dir true sub => reach sub rs'
                                             | _ => None
                                             end
                                 end).
    { intros rs'. cbn [reach find_entry]. rewrite String.eqb_refl. reflexivity. }
    split.
    + intros rs Hin. cbn [dir_paths] in Hin. apply in_app_or in Hin.
      destruct Hin as [Hin|Hin].
      * destruct c as [|b sub|]; try contradiction.
        destruct Hin as [<-|Hin]; [rewrite Here; eauto|].
        destruct b; [|contradiction].
        apply in_map_iff in Hin. destruct Hin as (rs' & <- & Hrs').
        destruct (IHsub true sub eq_refl [] (Tsub _ _ eq_refl)) as [Sd _].
        destruct (Sd rs' Hrs') as (b' & sub' & E).
        rewrite Here. destruct rs' as [|t ts]; [discriminate|]. eauto.
      * destruct (dir_paths_head _ _ _ Trest Hin) as (n & rs' & -> & Hn).
        rewrite reach_skip by (intros ->; apply Hn; left; reflexivity).
        apply IHd, Hin.
    + intros rs size Hin. cbn [file_paths] in Hin. apply in_app_or in Hin.
      destruct Hin as [Hin|Hin].
      * destruct c as [sz|b sub|]; try contradiction.
        -- destruct Hin as [E|[]]. inversion E; subst. rewrite Here. reflexivity.
        -- destruct b; [|contradiction].
           apply in_map_iff in Hin. destruct Hin as ([rs' sz] & E & Hrs').
           inversion E; subst.
           destruct (IHsub true sub eq_refl [] (Tsub _ _ eq_refl)) as [_ Sf].
           pose proof (Sf rs' size Hrs') as E'.
           rewrite Here. destruct rs' as [|t ts]; [discriminate|]. exact E'.
      * destruct (file_paths_head _ _ _ _ Trest Hin) as (n & rs' & -> & Hn).
        rewrite reach_skip by (intros ->; apply Hn; left; reflexivity).
        apply (IHf _ _ Hin).
Qed.

Section Walk.
Context (env : Env).

(** The walk only adds to what it has seen. *)
Lemma walkDir_mono es : forall dir seen,
  (forall x, In x (fst seen) -> In x (fst (walkDir env dir es seen)))
  /\ (forall y, In y (snd seen) -> In y (snd (walkDir env dir es seen))).
Proof.
  induction es as [|name c rest IHsub IH] using entries_tree_ind; intros dir seen.
  - split; intros; assumption.
  - cbn [walkDir]. destruct c as [size|b sub|].
    + match goal with |- context [walkDir env dir rest ?s1] =>
        destruct (IH dir s1) as [A B] end.
      split; intros x Hx; [apply A; exact Hx|].
      apply B. cbn [snd]. apply set_add_In. right. exact Hx.
    + destruct b.
      * match goal with |- context [walkDir env dir rest (walkDir env ?fp sub ?s1)] =>
          destruct (IHsub true sub eq_refl fp s1) as [A1 B1];
          destruct (IH dir (walkDir env fp sub s1)) as [A B] end.
        split; intros x Hx.
        -- apply A, A1. cbn [fst]. apply set_add_In. right. exact Hx.
        -- apply B, B1. exact Hx.
      * match goal with |- context [walkDir env dir rest ?s1] =>
          destruct (IH dir s1) as [A B] end.
        split; intros x Hx; [|apply B; exact Hx].
        apply A. cbn [fst]. apply set_add_In. right. exact Hx.
    + apply IH.
Qed.

(** What the walk does with the entry of a given name is part of what it has
    seen in the end. *)
Lemma walkDir_entry es : forall dir seen s c,
  find_entry s es = Some c ->
  exists seen0,
    let fullPath := Path.join [dir; s] in
    let seen1 :=
      match c with
      | Dir readable sub =>
          let seen' := (set_add (toLogical env fullPath) (fst seen0), snd seen0) in
          if readable then walkDir env fullPath sub seen' else seen'
      | File _ => (fst seen0, set_add (replace_char "\" "/" fullPath) (snd seen0))
      | Other => seen0
      end in
    (forall x, In x (fst seen1) -> In x (fst (walkDir env dir es seen)))
    /\ (forall y, In y (snd seen1) -> In y (snd (walkDir env dir es seen))).
Proof.
  induction es as [|name ent rest _ IH] using entries_tree_ind;
    intros dir seen s c H; [discriminate|].
  cbn [find_entry] in H. destruct (name =? s) eqn:E.
  - apply String.eqb_eq in E. subst name. inversion H; subst ent.
    exists seen. cbn [walkDir]. apply walkDir_mono.
  - cbn [walkDir]. apply IH. exact H.
Qed.

Hypothesis Hroot : Forall (fun s => clean_name s = true) (upload_root_segs env).

Local Notation "'R'" := (upload_root_segs env).

(** An entry reached by clean names is seen by the walk: a directory under
    its logical path, a regular file under its physical path. *)
Lemma walkDir_reach rs : forall es segs seen node,
  Forall (fun s => clean_name s = true) segs ->
  Forall (fun s => clean_name s = true) rs ->
  reach es rs = Some node ->
  match node with
  | Dir _ _ =>
      In (logical_path (segs ++ rs)) (fst (walkDir env (abs_path (R ++ segs)) es seen))
  | File _ =>
      In (abs_path (R ++ segs ++ rs)) (snd (walkDir env (abs_path (R ++ segs)) es seen))
  | Other => True
  end.
Proof.
  induction rs as [|s rest IH]; intros es segs seen node Hsegs Hrs H; [discriminate|].
  inversion Hrs as [|? ? Hs Hrest]; subst.
  assert (Hsegs' : Forall (fun x => clean_name x = true) (segs ++ [s])).
  { apply Forall_app. split; [assumption|repeat constructor; assumption]. }
  cbn [reach] in H.
  destruct (find_entry s es) as [c|] eqn:Ef; [|discriminate].
  destruct (walkDir_entry es (abs_path (R ++ segs)) seen s c Ef) as (seen0 & A & B).
  cbv zeta in A, B. rewrite (join_physical env Hroot segs s Hsegs Hs) in A, B.
  destruct rest as [|s' rest'].
  - inversion H; subst node. destruct c as [size|b sub|]; [| |exact I].
    + apply B. cbn [snd]. apply set_add_In. left.
      symmetry. apply (replace_physical env Hroot (segs ++ [s]) Hsegs').
    + apply A. rewrite (toLogical_physical env (segs ++ [s]) Hsegs').
      destruct b.
      * apply walkDir_mono. cbn [fst]. apply set_add_In. left. reflexivity.
      * cbn [fst]. apply set_add_In. left. reflexivity.
  - destruct c as [|[] sub|]; try discriminate.
    match type of A with
    | forall x, In x (fst (walkDir env ?fp sub ?s1)) -> _ =>
        pose proof (IH sub (segs ++ [s]) s1 node Hsegs' Hrest H) as W
    end.
    rewrite <- !app_assoc in W. cbn [app] in W.
    destruct node as [size|b' sub'|]; [apply B, W|apply A, W|exact I].
Qed.

End Walk.

Section Loop.
Context (folderId : option Z).

Lemma insertFolderStep_fresh st m ids x :
  map_get x m = None ->
  exists par,
    insertFolderStep folderId (st, m, ids) x
    = (snd (Db.insertFolder st (leaf_of x) par x),
       map_set x (nextFolderId st, par) m,
       ids ++ [nextFolderId st])
    /\ forall p pid ppid,
         parent_of x = Some p -> map_get p m = Some (pid, ppid) -> par = Some pid.
Proof.
  intros H. unfold insertFolderStep. rewrite H.
  eexists. split; [reflexivity|].
  intros p pid ppid Hp Hm. rewrite Hp, Hm. reflexivity.
Qed.

(** The loop over the folders seen, without any assumption on the paths: a
    path whose parent is known, or comes earlier in the loop, gets a row
    below the row of its parent. *)
Lemma insert_folders_each L :
  forall st m ids st' m' ids',
    fold_left (insertFolderStep folderId) L (st, m, ids) = (st', m', ids') ->
    StronglySorted (fun a b => depth a <= depth b) L ->
    map_ok st m ->
    map_ok st' m'
    /\ (forall k v, map_get k m = Some v -> map_get k m' = Some v)
    /\ (forall x, In x L -> map_get x m' <> None)
    /\ (exists added, Folders st' = Folders st ++ added)
    /\ Files st' = Files st
    /\ (forall x p, In x L -> map_get x m = None -> parent_of x = Some p ->
          (map_get p m <> None \/ (In p L /\ depth p < depth x)) ->
          exists r pr,
            In r (Folders st') /\ Folders.FullPath r = x /\ Folders.Name r = leaf_of x
            /\ In pr (Folders st') /\ Folders.FullPath pr = p
            /\ Folders.ParentId r = Some (Folders.Id pr)).
Proof.
  induction L as [|x L IH]; intros st m ids st' m' ids' E Hsorted Hok.
  - simpl in E. inversion E; subst.
    split; [assumption|]. split; [auto|]. split; [intros x []|].
    split; [exists []; rewrite app_nil_r; reflexivity|].
    split; [reflexivity|]. intros x p [].
  - inversion Hsorted as [|? ? HsL Hx]; subst.
    rewrite Forall_forall in Hx.
    cbn [fold_left] in E.
    destruct (map_get x m) as [v|] eqn:Hget.
    + rewrite (insertFolderStep_known _ _ _ _ _ _ Hget) in E.
      destruct (IH _ _ _ _ _ _ E HsL Hok) as (Ok' & Keep & All & Add & Fi & New).
      split; [exact Ok'|]. split; [exact Keep|].
      split.
      { intros y [<-|Hy]; [|apply All, Hy]. rewrite (Keep _ _ Hget). discriminate. }
      split; [exact Add|]. split; [exact Fi|].
      intros y p [<-|Hy] Hnone Hp Hpar; [congruence|].
      apply (New y p Hy Hnone Hp).
      destruct Hpar as [H|[[->|Hin] Hd]]; [left; exact H|left; congruence|right; auto].
    + destruct (insertFolderStep_fresh st m ids x Hget) as (par & Estep & Hparent).
      rewrite Estep in E.
      set (r := {| Folders.Id := nextFolderId st; Folders.Name := leaf_of x;
                   Folders.ParentId := par; Folders.FullPath := x |}) in *.
      set (st1 := snd (Db.insertFolder st (leaf_of x) par x)) in *.
      set (m1 := map_set x (nextFolderId st, par) m) in *.
      assert (Ef : Folders st1 = Folders st ++ [r]) by reflexivity.
      assert (Ok1 : map_ok st1 m1).
      { intros k id pid' Hk. unfold m1 in Hk. rewrite map_get_set in Hk.
        destruct (x =? k) eqn:Exk.
        - apply String.eqb_eq in Exk. inversion Hk; subst.
          exists r. rewrite Ef. split; [apply in_or_app; right; left; reflexivity|auto].
        - destruct (Hok _ _ _ Hk) as (r0 & Hr0 & H1 & H2).
          exists r0. rewrite Ef. split; [apply in_or_app; left; exact Hr0|auto]. }
      destruct (IH _ _ _ _ _ _ E HsL Ok1) as (Ok' & Keep & All & (added & Ea) & Fi & New).
      assert (Mono : forall k, map_get k m <> None -> map_get k m1 <> None).
      { intros k Hk. unfold m1. rewrite map_get_set.
        destruct (x =? k); [discriminate|exact Hk]. }
      assert (Hx1 : map_get x m1 = Some (nextFolderId st, par)).
      { unfold m1. rewrite map_get_set, String.eqb_refl. reflexivity. }
      assert (Grow : forall a, In a (Folders st1) -> In a (Folders st')).
      { intros a Ha'. rewrite Ea. apply in_or_app. left. exact Ha'. }
      split; [exact Ok'|].
      split.
      { intros k v Hk. apply Keep. unfold m1. rewrite map_get_set.
        destruct (x =? k) eqn:Exk; [|exact Hk].
        apply String.eqb_eq in Exk. congruence. }
      split.
      { intros y [<-|Hy]; [|apply All, Hy]. rewrite (Keep _ _ Hx1). discriminate. }
      split.
      { exists (r :: added). rewrite Ea, Ef, <- app_assoc. reflexivity. }
      split; [exact Fi|].
      assert (Wx : forall p, parent_of x = Some p ->
                 (map_get p m <> None \/ (In p (x :: L) /\ depth p < depth x)) ->
                 exists r0 pr,
                   In r0 (Folders st') /\ Folders.FullPath r0 = x
                   /\ Folders.Name r0 = leaf_of x
                   /\ In pr (Folders st') /\ Folders.FullPath pr = p
                   /\ Folders.ParentId r0 = Some (Folders.Id pr)).
      { intros p Hp Hpar.
        assert (Hm : map_get p m <> None).
        { destruct Hpar as [H|[[->|Hin] Hd]]; [exact H|lia|].
          specialize (Hx p Hin). simpl in Hx. lia. }
        destruct (map_get p m) as [[pid ppid]|] eqn:Hpget; [clear Hm|congruence].
        destruct (Hok _ _ _ Hpget) as (pr & Hpr & Hprp & Hprid).
        exists r, pr.
        split; [apply Grow; rewrite Ef; apply in_or_app; right; left; reflexivity|].
        split; [reflexivity|]. split; [reflexivity|].
        split; [apply Grow; rewrite Ef; apply in_or_app; left; exact Hpr|].
        split; [exact Hprp|].
        cbn [Folders.ParentId r]. rewrite (Hparent p pid ppid Hp Hpget), Hprid.
        reflexivity. }
      intros y p Hy Hnone Hp Hpar.
      destruct (String.eqb_spec x y) as [<-|Hxy]; [apply (Wx p Hp Hpar)|].
      destruct Hy as [Hy|Hy]; [contradiction|].
      apply (New y p Hy).
      * unfold m1. rewrite map_get_set. apply String.eqb_neq in Hxy. rewrite Hxy.
        exact Hnone.
      * exact Hp.
      * destruct Hpar as [H|[[->|Hin] Hd]].
        -- left. apply Mono, H.
        -- left. rewrite Hx1. discriminate.
        -- right. auto.
Qed.

End Loop.

Section Pass.
Context (env : Env) (w : World) (folderId : option Z) (segs : list string)
        (es : Disk.entries).
Hypothesis Henv : Forall (fun s => clean_name s = true) (server_dir env).
Hypothesis Hne : segs <> [].
Hypothesis Hsegs : Forall (fun s => clean_name s = true) segs.
Hypothesis Hbracket : has_char "[" (logical_path segs) = false.
Hypothesis Hrow : exists b, In b (Folders (store w)) /\ Folders.FullPath b = logical_path segs.
Hypothesis Hdisk :
  Disk.lookup (disk w) (server_dir env ++ "uploads" :: segs) = Some (Disk.Dir true es).

Local Notation "'R'" := (upload_root_segs env).
Local Notation "'base'" := (logical_path segs).
Local Notation "'seen'" := (walkDir env (abs_path (R ++ segs)) es ([], [])).
Local Notation "'seenFolders'" := (set_add base (fst seen)).
Local Notation "'pattern'" := (base +++ "%").

(** What one pass does for the entries that are reached by clean names,
    whatever else the directory holds. *)
Lemma sync_reaches :
  let w' := discoverAndSyncFolderRecursive env w folderId base in
  (forall r, In r (Folders (store w)) -> In r (Folders (store w')))
  /\ (forall rs readable sub,
        Forall (fun s => clean_name s = true) rs ->
        reach es rs = Some (Dir readable sub) ->
        (forall r, In r (Folders (store w)) ->
                   Folders.FullPath r <> logical_path (segs ++ rs)) ->
        exists r pr,
          In r (Folders (store w')) /\ Folders.FullPath r = logical_path (segs ++ rs)
          /\ Folders.Name r = last rs ""
          /\ In pr (Folders (store w'))
          /\ Folders.FullPath pr = logical_path (segs ++ removelast rs)
          /\ Folders.ParentId r = Some (Folders.Id pr))
  /\ (forall rs size,
        Forall (fun s => clean_name s = true) rs ->
        reach es rs = Some (File size) ->
        (forall f, In f (Files (store w)) ->
                   Files.StoragePath f <> abs_path (R ++ segs ++ rs)) ->
        exists f fo,
          In f (Files (store w')) /\ Files.StoragePath f = abs_path (R ++ segs ++ rs)
          /\ Files.Name f = last rs "" /\ Files.SizeBytes f = size
          /\ In fo (Folders (store w'))
          /\ Folders.FullPath fo = logical_path (segs ++ removelast rs)
          /\ Files.FolderId f = Some (Folders.Id fo)).
Proof.
  intros w'. unfold w'.
  rewrite (sync_unfold env w folderId segs es Henv Hsegs Hdisk). cbv zeta.
  pose proof (root_clean env Henv) as Hroot.
  set (L := sort_stable (fun a b => Nat.leb (depth a) (depth b)) seenFolders).
  set (m0 := map_of_rows (Db.foldersLike (store w) pattern) []).
  destruct (fold_left (insertFolderStep folderId) L
              (store w, m0, map Folders.Id (Db.foldersLike (store w) pattern)))
    as [[st1 m1] ids1] eqn:EL.
  destruct (insert_folders_each folderId L _ _ _ _ _ _ EL
              (SortFacts.sort_sorted depth _) (known_rows_ok w segs))
    as (Ok1 & Keep & All & (afolders & Eaf) & F1 & New).
  set (known := match ids1 with
                | [] => []
                | _ => map Files.StoragePath (Db.filesInFolders st1 ids1)
                end).
  destruct (insert_files_spec env (disk w) m1 known (snd seen) st1)
    as (G1 & _ & _ & _ & _ & _ & NewF).
  set (st2 := fold_left (insertFileStep env (disk w) m1 known) (snd seen) st1) in *.
  match goal with
  | |- context [fold_left ?f (Db.foldersLike st2 pattern) (fold_left ?g ?rows ?w0)] =>
      destruct (fold_cond_enqueue_parts
                  (fun rf => set_has (Files.StoragePath rf) (snd seen))
                  (fun rf => JobCleanFile (Files.Id rf)) rows w0) as (A1 & _ & _);
      destruct (fold_cond_enqueue_parts
                  (fun rf => set_has (Folders.FullPath rf) seenFolders)
                  (fun rf => JobCleanFolder (Folders.Id rf)) (Db.foldersLike st2 pattern)
                  (fold_left g rows w0)) as (B1 & _ & _)
  end.
  cbv zeta in A1, B1. rewrite B1, A1. cbn [with_store store].
  (* a directory that is reached is in the loop over the folders *)
  assert (InL : forall rs b sub,
             Forall (fun s => clean_name s = true) rs ->
             reach es rs = Some (Dir b sub) ->
             In (logical_path (segs ++ rs)) L).
  { intros rs b sub Hc Hr. apply (proj2 (SortFacts.sort_In depth _ _)).
    apply set_add_In. right.
    apply (walkDir_reach env Hroot rs es segs ([], []) (Dir b sub) Hsegs Hc Hr). }
  (* the folder of the containing directory is in the map after the loop *)
  assert (HasParent : forall rs node,
             Forall (fun s => clean_name s = true) rs ->
             reach es rs = Some node ->
             exists fid pid fo,
               map_get (logical_path (segs ++ removelast rs)) m1 = Some (fid, pid)
               /\ In fo (Folders st2)
               /\ Folders.FullPath fo = logical_path (segs ++ removelast rs)
               /\ Folders.Id fo = fid).
  { intros rs node Hc Hr.
    assert (Hm : map_get (logical_path (segs ++ removelast rs)) m1 <> None).
    { destruct (removelast rs) as [|t ts] eqn:Er.
      - rewrite app_nil_r. pose proof (base_known w segs Hbracket Hrow) as Hb.
        fold m0 in Hb. destruct (map_get base m0) as [v|] eqn:Ev; [|congruence].
        rewrite (Keep _ _ Ev). discriminate.
      - assert (Hnp : removelast rs <> []) by (rewrite Er; discriminate).
        destruct (reach_parent rs es node Hr Hnp) as (sub & Hp).
        rewrite <- Er. apply All. apply (InL (removelast rs) true sub); [|exact Hp].
        apply (clean_parts rs (reach_not_nil es rs node Hr) Hc). }
    destruct (map_get (logical_path (segs ++ removelast rs)) m1) as [[fid pid]|] eqn:Em;
      [|congruence].
    destruct (Ok1 _ _ _ Em) as (fo & Hfo & H1 & H2).
    exists fid, pid, fo. rewrite G1. auto. }
  split; [|split].
  - intros r Hr. rewrite G1, Eaf. apply in_or_app. left. exact Hr.
  - intros rs b sub Hc Hr Hfresh.
    pose proof (reach_not_nil es rs _ Hr) as Hn.
    destruct (parent_below env w segs es Hne Hsegs Hdisk rs Hn Hc) as (P1 & P2 & P3).
    assert (Hnone : map_get (logical_path (segs ++ rs)) m0 = None).
    { unfold m0. rewrite map_of_rows_none; [reflexivity|].
      intros r Hr0. unfold Db.foldersLike in Hr0. apply filter_In in Hr0.
      apply Hfresh. tauto. }
    assert (Hpar : map_get (logical_path (segs ++ removelast rs)) m0 <> None
                   \/ (In (logical_path (segs ++ removelast rs)) L
                       /\ depth (logical_path (segs ++ removelast rs))
                          < depth (logical_path (segs ++ rs)))).
    { destruct (removelast rs) as [|t ts] eqn:Er.
      - left. rewrite app_nil_r. apply (base_known w segs Hbracket Hrow).
      - right. rewrite <- Er in *. split; [|lia].
        assert (Hnp : removelast rs <> []) by (rewrite Er; discriminate).
        destruct (reach_parent rs es _ Hr Hnp) as (sub' & Hp).
        apply (InL (removelast rs) true sub'); [|exact Hp].
        apply (clean_parts rs Hn Hc). }
    destruct (New _ _ (InL rs b sub Hc Hr) Hnone P1 Hpar)
      as (r & pr & N1 & N2 & N3 & N5 & N6 & N7).
    exists r, pr. rewrite G1. rewrite <- P2. auto 10.
  - intros rs size Hc Hr Hfresh.
    pose proof (reach_not_nil es rs _ Hr) as Hn.
    destruct (physical_parts env w segs es Hne Hsegs Hdisk rs Hn Hc) as [D1 D2].
    destruct (HasParent rs _ Hc Hr) as (fid & pid & fo & Hm & Hfo & Efo & Eid).
    assert (Hin : In (abs_path (R ++ segs ++ rs)) (snd seen)).
    { apply (walkDir_reach env Hroot rs es segs ([], []) (File size) Hsegs Hc Hr). }
    assert (Hk : set_has (abs_path (R ++ segs ++ rs)) known = false).
    { apply not_true_iff_false. intros H. apply set_has_In in H. unfold known in H.
      destruct ids1; [contradiction|].
      apply in_map_iff in H. destruct H as (f & Hf1 & Hf2).
      unfold Db.filesInFolders in Hf2. apply filter_In in Hf2.
      apply (Hfresh f); [rewrite <- F1; apply Hf2|exact Hf1]. }
    assert (Hlog : toLogical env (dirname (abs_path (R ++ segs ++ rs)))
                   = logical_path (segs ++ removelast rs)).
    { rewrite D1. apply toLogical_physical, below_clean; [exact Hsegs|].
      apply (clean_parts rs Hn Hc). }
    assert (Hstat : Disk.stat_size (cwd env) (disk w) (abs_path (R ++ segs ++ rs))
                    = Some size).
    { unfold Disk.stat_size.
      rewrite (at_below env w segs es Henv Hsegs Hdisk rs Hc).
      rewrite (reach_lookup rs es _ true Hr). reflexivity. }
    rewrite <- Hlog in Hm.
    destruct (NewF _ _ _ _ Hin Hk Hm Hstat) as (f & Hf & S1 & S2 & S3 & S4).
    exists f, fo. split; [exact Hf|]. split.
    + rewrite S1.
      apply (replace_physical env Hroot (segs ++ rs)), below_clean; assumption.
    + rewrite S3, D2, S2, Eid. auto.
Qed.

End Pass.

End ReachFacts.

(** ** What the cleanup jobs leave behind *)

Module CleanupFacts.

Lemma cleanFile_removes env w0 id :
  let w1 := run_job env w0 (JobCleanFile id) in
  (forall f, In f (Files (store w1)) -> Files.Id f <> id)
  /\ (forall t, In t (FileTags (store w1)) -> fst t <> id).
Proof.
  simpl. split.
  - intros f H. apply filter_In in H. destruct H as [_ H].
    apply negb_true_iff, Z.eqb_neq in H. exact H.
  - intros t H. apply filter_In in H. destruct H as [_ H].
    apply negb_true_iff, Z.eqb_neq in H. exact H.
Qed.

Lemma cleanFolder_removes env w0 id :
  let w1 := run_job env w0 (JobCleanFolder id) in
  (forall r, In r (Folders (store w1)) -> Folders.Id r <> id)
  /\ (forall f, In f (Files (store w1)) -> Files.FolderId f <> Some id)
  /\ (forall f t, In f (Files (store w0)) -> Files.FolderId f = Some id ->
                  In t (FileTags (store w1)) -> fst t <> Files.Id f)
  /\ ((exists r, In r (Folders (store w0)) /\ Folders.Id r = id) ->
      forall t, In t (FolderTags (store w1)) -> fst t <> id).
Proof.
  simpl. split; [|split; [|split]].
  - intros r H. apply filter_In in H. destruct H as [_ H].
    apply negb_true_iff, Z.eqb_neq in H. exact H.
  - intros f H E. apply filter_In in H. destruct H as [_ H].
    apply negb_true_iff in H. rewrite E in H. simpl in H. rewrite Z.eqb_refl in H.
    discriminate.
  - intros f t Hf E H Et. apply filter_In in H. destruct H as [_ H].
    apply negb_true_iff in H. apply not_true_iff_false in H. apply H.
    apply SyncFacts.mem_Z_In. rewrite Et. apply in_map.
    unfold Db.filesOfFolder. apply filter_In. split; [exact Hf|].
    rewrite E. simpl. apply Z.eqb_refl.
  - intros (r & Hr & Er) t H.
    assert (X : existsb (fun r0 => Z.eqb (Folders.Id r0) id) (Folders (store w0)) = true).
    { apply existsb_exists. exists r. split; [exact Hr|]. apply Z.eqb_eq, Er. }
    rewrite X in H. apply filter_In in H. destruct H as [_ H].
    apply negb_true_iff, Z.eqb_neq in H. exact H.
Qed.

End CleanupFacts.

(* ================================================================== *)
(** * The claims *)
(* ================================================================== *)

Import JobQueue.

(** ** Job queue *)

(** C4.  Whatever is enqueued and whenever the awaited promises settle: at
    most one call of [process()] is suspended on a job, so at most one job is
    executing; in the history a job is entered only when the previous one has
    been left; the jobs started, followed by the pending ones, are the jobs
    enqueued, in that order, and the finished ones are an initial part of the
    started ones; once every promise has settled the queue has stopped with
    every job finished in the order of enqueueing; and a job enqueued after
    that is started at once and finished in its turn. *)
Theorem C4_queue_serial_fifo_restart :
  forall (J : Type) (behave : J -> behaviour) (l : list (input J)),
    let q := run behave empty l in
    List.length (awaiting q) <= 1
    /\ serial (history q) (hd_error (awaiting q))
    /\ backlog q = enqueued l
    /\ started (history q) = finished (history q) ++ awaiting q
    /\ (let q' := drained behave q in
        processing q' = false /\ jobs q' = [] /\ awaiting q' = []
        /\ finished (history q') = enqueued l
        /\ forall j : J,
            started (history (snd (enqueue behave q' j))) = enqueued l ++ [j]
            /\ finished (history (drained behave (snd (enqueue behave q' j))))
               = enqueued l ++ [j]).
Proof.
  intros J behave l q.
  pose proof (QueueFacts.run_inv behave _ l (@QueueFacts.empty_inv J behave)) as I.
  fold q in I.
  assert (A : JobQueue.accounted behave q).
  { apply QueueFacts.run_accounted; [apply QueueFacts.empty_inv|split; reflexivity]. }
  assert (F : backlog q = enqueued l).
  { unfold backlog, q. rewrite QueueFacts.run_fifo by apply QueueFacts.empty_inv.
    reflexivity. }
  split; [|split; [|split; [exact F|split; [exact (proj1 A)|]]]].
  - destruct I as [(_ & _ & Ha & _)|(_ & k & Ha & _)]; rewrite Ha; simpl; lia.
  - destruct I as [(_ & _ & Ha & Hs)|(_ & k & Ha & _ & Hs)]; rewrite Ha; exact Hs.
  - intros q'.
    destruct (QueueFacts.drained_idle behave q I) as (Hp & Hj & Ha).
    destruct (QueueFacts.drained_finished behave l) as (Hf & Hst & _).
    fold q in Hf, Hst. fold q' in Hp, Hj, Ha, Hf, Hst.
    repeat (split; [assumption|]).
    intros j.
    set (l' := l ++ repeat (Settle 0) (S (List.length (jobs q))) ++ [Enqueue j]).
    assert (E : snd (enqueue behave q' j) = run behave empty l').
    { unfold l', q', drained, settle_all, q, run. rewrite !fold_left_app. reflexivity. }
    assert (El : enqueued l' = enqueued l ++ [j]).
    { unfold l'. rewrite !QueueFacts.enqueued_app, QueueFacts.enqueued_settles.
      reflexivity. }
    split.
    + assert (I' : JobQueue.inv behave q').
      { unfold q', drained, settle_all. apply QueueFacts.run_inv, I. }
      pose proof (QueueFacts.enqueue_fifo behave q' j I') as B.
      rewrite Hj, app_nil_r, Hst in B.
      rewrite QueueFacts.enqueue_idle in * by assumption.
      rewrite Ha in *.
      destruct (on_call (behave j)) eqn:C.
      * rewrite (QueueFacts.drain_throw behave _ _ _ _ _ _ C) in *. simpl in *.
        rewrite app_nil_r in B. exact B.
      * rewrite (QueueFacts.drain_promise behave _ _ _ _ _ C) in *. simpl in *.
        rewrite app_nil_r in B. exact B.
    + rewrite E, <- El. apply (QueueFacts.drained_finished behave l').
Qed.

(** C5.  A job that throws when called, or whose promise is rejected, has its
    error written to the console by the loop and nothing else happens to it:
    no call of [enqueue], [process] or a resumption ends with an exception,
    the job is started once and counted as finished, the jobs enqueued after
    it are all started and finished in order, and the queue ends stopped, not
    stuck.  The console holds exactly the errors of the jobs that failed. *)
Theorem C5_job_errors_are_contained :
  forall (J : Type) (behave : J -> behaviour) (l1 l2 : list (input J)) (j : J) (e : err),
    In e (raises (behave j)) ->
    let q := drained behave (run behave empty (l1 ++ Enqueue j :: l2)) in
    (forall (q0 : JobQueue.t J) (fn : J) (i : nat),
        fst (enqueue behave q0 fn) = Normal
        /\ fst (process behave q0) = Normal
        /\ fst (resume behave q0 i) = Normal)
    /\ In e (logged (history q))
    /\ logged (history q)
       = flat_map (fun k => raises (behave k)) (enqueued l1 ++ j :: enqueued l2)
    /\ started (history q) = enqueued l1 ++ j :: enqueued l2
    /\ finished (history q) = enqueued l1 ++ j :: enqueued l2
    /\ processing q = false /\ jobs q = [] /\ awaiting q = [].
Proof.
  intros J behave l1 l2 j e He q.
  destruct (QueueFacts.drained_finished behave (l1 ++ Enqueue j :: l2)) as (Hf & Hs & Hl).
  fold q in Hf, Hs, Hl.
  rewrite QueueFacts.enqueued_app in Hf, Hs, Hl. simpl in Hf, Hs, Hl.
  assert (I : JobQueue.inv behave (run behave empty (l1 ++ Enqueue j :: l2))).
  { apply QueueFacts.run_inv, QueueFacts.empty_inv. }
  destruct (QueueFacts.drained_idle behave _ I) as (Hp & Hj & Ha). fold q in Hp, Hj, Ha.
  split; [|split; [|repeat (split; [assumption|]); assumption]].
  - intros q0 fn i. split; [|split].
    + unfold enqueue. destruct (process behave _). reflexivity.
    + apply QueueFacts.process_normal.
    + apply QueueFacts.resume_normal.
  - rewrite Hl, flat_map_app. apply in_or_app. right. simpl. apply in_or_app. left. exact He.
Qed.

Lemma C5_job_errors_are_contained_witness :
  In "late" (raises (Fixtures.three_jobs 1))
  /\ logged (history (drained Fixtures.three_jobs
                        (run Fixtures.three_jobs empty
                           ([Enqueue 2; Enqueue 0] ++ Enqueue 1 :: [Settle 0; Enqueue 3]))))
     = ["boom"; "late"].
Proof.
  split; [left; reflexivity|].
  destruct (C5_job_errors_are_contained nat Fixtures.three_jobs
              [Enqueue 2; Enqueue 0] [Settle 0; Enqueue 3] 1 "late"
              (or_introl eq_refl)) as (_ & _ & H & _).
  rewrite H. reflexivity.
Defined.

(** ** Cleanup jobs *)

(** C6.  Running the cleanup job of a file, or of a folder, a second time on
    the same id deletes no row and leaves the store as the first run left
    it. *)
Theorem C6_cleanup_is_idempotent :
  forall (st : Store) (id : Z),
    Db.deleteFileRows (cleanFile st id) id = ((0, 0), cleanFile st id)
    /\ cleanFile (cleanFile st id) id = cleanFile st id
    /\ Db.deleteFolderRows (cleanFolder st id) id = ((0, 0, 0), cleanFolder st id)
    /\ cleanFolder (cleanFolder st id) id = cleanFolder st id.
Proof.
  intros st id.
  pose proof (StoreFacts.cleanFile_twice st id) as A.
  pose proof (StoreFacts.cleanFolder_twice st id) as B.
  repeat split; try assumption.
  - unfold cleanFile at 1. rewrite A. reflexivity.
  - unfold cleanFolder at 1. rewrite B. reflexivity.
Qed.

(** ** Listing reads *)


(** ** Path mapper *)

(** C7, as stated, fails: [..] is a non-empty segment, and [path.join]
    resolves it. *)
Lemma C7_round_trip_counterexample :
  ~ (forall segs : list string,
        nonempty_segments segs = true ->
        toLogical Fixtures.env0 (fullPathToPhysical Fixtures.env0 (logical_path segs))
        = logical_path segs).
Proof.
  intros H. specialize (H ["root"; ".."] eq_refl). vm_compute in H. discriminate.
Qed.

(** C7, amended.  For a logical path made of segments that are not empty,
    are neither [.] nor [..] and hold neither a slash nor a backslash, the
    logical path of its physical path is the path itself. *)
Theorem C7_round_trip_clean_segments :
  forall (env : Env) (segs : list string),
    Forall (fun s => clean_name s = true) segs ->
    toLogical env (fullPathToPhysical env (logical_path segs)) = logical_path segs.
Proof.
  intros env segs H.
  rewrite PathFacts.fullPathToPhysical_logical.
  - apply PathFacts.toLogical_physical, H.
  - eapply Forall_impl; [|exact H]. intros a Ha. unfold clean_name in Ha.
    apply andb_true_iff in Ha. tauto.
Qed.

Lemma C7_round_trip_clean_segments_witness :
  Forall (fun s => clean_name s = true) ["root"; "photos"; "2023"]
  /\ toLogical Fixtures.env0 (fullPathToPhysical Fixtures.env0 "/root/photos/2023")
     = "/root/photos/2023".
Proof.
  assert (H : Forall (fun s => clean_name s = true) ["root"; "photos"; "2023"])
    by (repeat constructor).
  split; [exact H|].
  exact (C7_round_trip_clean_segments Fixtures.env0 ["root"; "photos"; "2023"] H).
Defined.


(** ** Folder deletion *)




(** ** Folder rename *)

(** C9, on the code.  The example of the specification comes out as stated,
    also when the directory is missing on disk.  A folder whose path holds a
    bracket is not rewritten: [LIKE '/root/a[1]%'] reads the bracket as a set
    of characters and matches neither the folder nor its child, so that only
    the name changes, while the directory on disk is renamed. *)
Theorem C9_rename_bracket_path_not_rewritten :
  let root := Fixtures.root_row in
  let ok := renameFolder Fixtures.env0
              (Fixtures.world_of Fixtures.store_A_B (Fixtures.disk_named "A")) 2 "A2" in
  let nodir := renameFolder Fixtures.env0
                 (Fixtures.world_of Fixtures.store_A_B Fixtures.disk_empty_root) 2 "A2" in
  let bad := renameFolder Fixtures.env0
               (Fixtures.world_of Fixtures.store_bracket (Fixtures.disk_named "a[1]")) 2 "A2" in
  Folders (store (fst ok))
  = [root; Fixtures.folder_row 2 "A2" (Some 1%Z) "/root/A2";
     Fixtures.folder_row 3 "B" (Some 2%Z) "/root/A2/B"]
  /\ disk (fst ok) = Fixtures.disk_named "A2"
  /\ Folders (store (fst nodir)) = Folders (store (fst ok))
  /\ snd nodir = Ok200 (Some (Fixtures.folder_row 2 "A2" (Some 1%Z) "/root/A2"))
  /\ Folders (store (fst bad))
     = [root; Fixtures.folder_row 2 "A2" (Some 1%Z) "/root/a[1]";
        Fixtures.folder_row 3 "B" (Some 2%Z) "/root/a[1]/B"]
  /\ disk (fst bad) = Fixtures.disk_named "A2".
Proof. vm_compute. repeat split. Qed.

(** ** Folder creation *)

(** C8, on the code.  [POST /api/folders] accepts the name [a/b]: the folder
    [/root/a/b] is recorded under the root although no folder has the path
    [/root/a], so the paths are no longer closed under ancestors.  The upload
    resolver removes the slash from the same segment and keeps them closed. *)
Theorem C8_create_folder_slash_breaks_closure :
  let w := Fixtures.world_of Fixtures.store_root Fixtures.disk_empty_root in
  let posted := createFolder Fixtures.env0 w "a/b" (Some 1%Z) in
  ancestor_closed (store w) = true
  /\ snd posted = Created201 (Fixtures.folder_row 100 "a/b" (Some 1%Z) "/root/a/b")
  /\ ancestor_closed (store (fst posted)) = false
  /\ option_map (fun r => (Folders (store (fst r)), ancestor_closed (store (fst r))))
                (ensureFolderChain Fixtures.env0 w 1 "/root" ["a/b"])
     = Some ([Fixtures.root_row; Fixtures.folder_row 100 "ab" (Some 1%Z) "/root/ab"], true).
Proof. vm_compute. repeat split. Qed.

(** ** The reconciliation pass: insertion *)

(** The older build's pass never inserts a folder and never enqueues
    anything. *)
Lemma Legacy_discovery_is_shallow :
  forall (env : Env) (w : World) (folderId : option Z) (folderPath : string),
    Folders (store (Legacy.discoverAndAddNewFiles env w folderId folderPath))
    = Folders (store w)
    /\ queue (Legacy.discoverAndAddNewFiles env w folderId folderPath) = queue w
    /\ disk (Legacy.discoverAndAddNewFiles env w folderId folderPath) = disk w.
Proof.
  intros env w folderId folderPath. unfold Legacy.discoverAndAddNewFiles.
  destruct (negb (Disk.access _ _ _)); [auto|].
  destruct (Disk.readdir _ _ _) as [entries|]; [|auto].
  cbn [with_store store disk queue]. repeat split.
  apply StoreFacts.fold_left_keeps. intros st nf.
  destruct (Disk.stat_size _ _ _); reflexivity.
Qed.







(* ================================================================== *)
(** * Further properties of the server *)
(* ================================================================== *)

(** ** Character classes and runs *)

Module TextFacts.
Import Text.

Lemma chars_all_no_char p c s :
  chars_all p s = true -> p c = false -> Str.has_char c s = false.
Proof.
  intros H Hc. induction s as [|a s IH]; [reflexivity|].
  simpl in *. apply andb_true_iff in H. destruct H as [Ha Hs].
  destruct (Ascii.eqb a c) eqn:E.
  - apply Ascii.eqb_eq in E. subst. congruence.
  - simpl. apply IH, Hs.
Qed.

Lemma chars_all_append p s t :
  chars_all p (s +++ t) = chars_all p s && chars_all p t.
Proof.
  induction s as [|a s IH]; [reflexivity|]. simpl. rewrite IH. apply andb_assoc.
Qed.

Lemma chars_all_impl (p q : ascii -> bool) s :
  (forall a, p a = true -> q a = true) -> chars_all p s = true -> chars_all q s = true.
Proof.
  intros Hpq. induction s as [|a s IH]; [reflexivity|]. simpl.
  rewrite !andb_true_iff. intros [Ha Hs]. auto.
Qed.

(** After the replacement no character of the class is left, when the
    replacement text has none. *)
Lemma replace_runs_clean p r b s :
  chars_all (fun a => negb (p a)) r = true ->
  chars_all (fun a => negb (p a)) (replace_runs p r b s) = true.
Proof.
  intros Hr. revert b. induction s as [|a s IH]; intros b; [reflexivity|].
  simpl. destruct (p a) eqn:E.
  - destruct b; [apply IH|]. rewrite chars_all_append, Hr. apply IH.
  - simpl. rewrite E. apply IH.
Qed.

Lemma replace_runs_fixed p r b s :
  chars_all (fun a => negb (p a)) s = true -> replace_runs p r b s = s.
Proof.
  revert b. induction s as [|a s IH]; intros b H; [reflexivity|].
  simpl in *. apply andb_true_iff in H. destruct H as [Ha Hs].
  apply negb_true_iff in Ha. rewrite Ha. f_equal. apply IH, Hs.
Qed.

Lemma replace_runs_length p (c : ascii) b s :
  String.length (replace_runs p (String c "") b s) <= String.length s.
Proof.
  revert b. induction s as [|a s IH]; intros b; [apply Nat.le_refl|].
  simpl. destruct (p a).
  - destruct b; [specialize (IH true); lia|]. simpl. specialize (IH true). lia.
  - simpl. specialize (IH false). lia.
Qed.

(** No part of a split holds a character of the class. *)
Lemma split_where_parts p s :
  Forall (fun x => chars_all (fun a => negb (p a)) x = true) (split_where p s).
Proof.
  induction s as [|a s IH]; [repeat constructor|].
  simpl. destruct (p a) eqn:E.
  - constructor; [reflexivity|exact IH].
  - destruct (split_where p s) as [|h t]; [repeat constructor; simpl; rewrite E; reflexivity|].
    inversion IH; subst. constructor; [|assumption].
    simpl. rewrite E. assumption.
Qed.

Lemma split_where_not_nil p s : split_where p s <> [].
Proof.
  destruct s as [|a s]; [discriminate|]. simpl.
  destruct (p a); [discriminate|]. destruct (split_where p s); discriminate.
Qed.

Lemma remove_chars_fixed p s :
  chars_all (fun a => negb (p a)) s = true -> Str.remove_chars p s = s.
Proof.
  induction s as [|a s IH]; intros H; [reflexivity|].
  simpl in *. apply andb_true_iff in H. destruct H as [Ha Hs].
  apply negb_true_iff in Ha. rewrite Ha. f_equal. apply IH, Hs.
Qed.

Lemma Forall_removelast {A : Type} (P : A -> Prop) l : Forall P l -> Forall P (removelast l).
Proof.
  induction l as [|x l IH]; intros H; [constructor|].
  inversion H; subst. simpl. destruct l; [constructor|]. constructor; auto.
Qed.

Lemma Forall_last {A : Type} (P : A -> Prop) l d : Forall P l -> l <> [] -> P (last l d).
Proof.
  induction l as [|x l IH]; intros H Hn; [congruence|].
  inversion H; subst. simpl. destruct l; [assumption|]. apply IH; [assumption|discriminate].
Qed.

End TextFacts.

(** ** Uploaded names *)

(** X1.  Whatever name the client sends, the name under which an uploaded
    file is stored is made of letters, digits, [_], [.] and [-] only; it
    holds no slash and no backslash, and is not longer than the part of the
    client's name it comes from. *)
Theorem X1_safe_name_charset :
  forall baseName : string,
    Text.chars_all Upload.safe_char (Upload.safeName baseName) = true
    /\ Str.has_char "/" (Upload.safeName baseName) = false
    /\ Str.has_char "\" (Upload.safeName baseName) = false
    /\ String.length (Upload.safeName baseName) <= String.length baseName.
Proof.
  intros b.
  assert (H : Text.chars_all Upload.safe_char (Upload.safeName b) = true).
  { unfold Upload.safeName.
    apply (TextFacts.chars_all_impl (fun a => negb (negb (Upload.safe_char a)))).
    - intros a Ha. apply negb_true_iff, negb_false_iff in Ha. exact Ha.
    - apply TextFacts.replace_runs_clean. reflexivity. }
  split; [exact H|]. split; [|split].
  - apply (TextFacts.chars_all_no_char _ _ _ H). reflexivity.
  - apply (TextFacts.chars_all_no_char _ _ _ H). reflexivity.
  - apply TextFacts.replace_runs_length.
Qed.

(** X2.  The names that the sanitising leaves as they are, are those made of
    letters, digits, [_], [.] and [-]; sanitising twice is sanitising once. *)
Theorem X2_safe_name_idempotent :
  forall baseName : string,
    (Upload.safeName baseName = baseName
     <-> Text.chars_all Upload.safe_char baseName = true)
    /\ Upload.safeName (Upload.safeName baseName) = Upload.safeName baseName.
Proof.
  assert (Fix : forall b, Text.chars_all Upload.safe_char b = true -> Upload.safeName b = b).
  { intros b H. apply TextFacts.replace_runs_fixed.
    apply (TextFacts.chars_all_impl Upload.safe_char); [|exact H].
    intros a Ha. rewrite Ha. reflexivity. }
  assert (Clean : forall b, Text.chars_all Upload.safe_char (Upload.safeName b) = true).
  { intros b. unfold Upload.safeName.
    apply (TextFacts.chars_all_impl (fun a => negb (negb (Upload.safe_char a)))).
    - intros a Ha. apply negb_true_iff, negb_false_iff in Ha. exact Ha.
    - apply TextFacts.replace_runs_clean. reflexivity. }
  intros b. split; [split|].
  - intros E. rewrite <- E. apply Clean.
  - apply Fix.
  - apply Fix, Clean.
Qed.

(** X3.  The folder names taken from the client's file name are not empty
    and hold no separator, so that [ensureFolderChain], which removes
    separators from each name, uses them as they are; the file's own name
    holds no separator either. *)
Theorem X3_upload_parts_have_no_separator :
  forall filename : string,
    Forall (fun d => Str.nonempty d = true
                     /\ Str.has_char "/" d = false /\ Str.has_char "\" d = false
                     /\ Str.remove_chars is_slash_or_backslash d = d)
           (Upload.subDirs filename)
    /\ Str.has_char "/" (Upload.baseName filename) = false
    /\ Str.has_char "\" (Upload.baseName filename) = false.
Proof.
  intros filename.
  pose proof (TextFacts.split_where_parts is_slash_or_backslash filename) as P.
  fold (Upload.parts filename) in P.
  split.
  - unfold Upload.subDirs. apply Forall_forall. intros d Hd.
    apply filter_In in Hd. destruct Hd as [Hd Hne].
    pose proof (TextFacts.Forall_removelast _ _ P) as P'.
    rewrite Forall_forall in P'. specialize (P' d Hd).
    split; [exact Hne|]. split; [|split].
    + apply (TextFacts.chars_all_no_char _ _ _ P'). reflexivity.
    + apply (TextFacts.chars_all_no_char _ _ _ P'). reflexivity.
    + apply TextFacts.remove_chars_fixed, P'.
  - assert (L : Text.chars_all (fun a => negb (is_slash_or_backslash a))
                               (Upload.baseName filename) = true).
    { unfold Upload.baseName, Str.last_seg.
      apply (TextFacts.Forall_last _ _ _ P). apply TextFacts.split_where_not_nil. }
    split; apply (TextFacts.chars_all_no_char _ _ _ L); reflexivity.
Qed.

(** ** Tag colours and slugs *)

Module TagFacts.
Import Text TextFacts.

Lemma hex_digit_is_hex d : is_hex (hex_digit d) = true.
Proof. do 17 (destruct d as [|d]; [reflexivity|]). reflexivity. Qed.

Lemma hex_digits_chars fuel : forall n acc,
  chars_all is_hex acc = true -> chars_all is_hex (hex_digits fuel n acc) = true.
Proof.
  induction fuel as [|fuel IH]; intros n acc H; [exact H|].
  simpl. destruct (N.eqb (n / 16) 0).
  - simpl. rewrite hex_digit_is_hex. exact H.
  - apply IH. simpl. rewrite hex_digit_is_hex. exact H.
Qed.

(** A number below [16^k] has at most [k] digits. *)
Lemma hex_digits_length fuel : forall k n acc,
  (n < 16 ^ N.of_nat (S k))%N ->
  String.length (hex_digits fuel n acc) <= S k + String.length acc.
Proof.
  induction fuel as [|fuel IH]; intros k n acc H; [simpl; lia|].
  simpl. destruct (N.eqb (n / 16) 0) eqn:E; [simpl; lia|].
  apply N.eqb_neq in E.
  destruct k as [|k].
  - exfalso. apply E. apply N.div_small. exact H.
  - assert (Hq : (n / 16 < 16 ^ N.of_nat (S k))%N).
    { apply N.Div0.div_lt_upper_bound.
      replace (N.of_nat (S (S k))) with (N.succ (N.of_nat (S k))) in H by lia.
      rewrite N.pow_succ_r' in H. exact H. }
    specialize (IH k (n / 16)%N (String (hex_digit (N.to_nat (n mod 16))) acc) Hq).
    simpl in IH. lia.
Qed.

Lemma length_append s t : String.length (s +++ t) = String.length s + String.length t.
Proof. induction s as [|a s IH]; simpl; [reflexivity|]. rewrite IH. reflexivity. Qed.

Lemma length_of_list l : String.length (string_of_list_ascii l) = List.length l.
Proof. induction l as [|a l IH]; simpl; [reflexivity|]. rewrite IH. reflexivity. Qed.

Lemma chars_all_repeat p c n :
  p c = true -> chars_all p (string_of_list_ascii (repeat c n)) = true.
Proof. intros H. induction n as [|n IH]; simpl; [reflexivity|]. rewrite H. exact IH. Qed.

Lemma padStart_length n c s :
  String.length s <= n -> String.length (padStart n c s) = n.
Proof.
  intros H. unfold padStart. rewrite length_append, length_of_list, repeat_length. lia.
Qed.

Lemma padStart_chars p n c s :
  p c = true -> chars_all p s = true -> chars_all p (padStart n c s) = true.
Proof.
  intros Hc Hs. unfold padStart. rewrite chars_all_append, Hs, chars_all_repeat by exact Hc.
  reflexivity.
Qed.

Lemma remove_chars_clean p s :
  chars_all (fun a => negb (p a)) (Str.remove_chars p s) = true.
Proof.
  induction s as [|a s IH]; [reflexivity|]. simpl.
  destruct (p a) eqn:E; [exact IH|]. simpl. rewrite E. exact IH.
Qed.

Lemma drop_while_none p l :
  forallb (fun a => negb (p a)) l = true -> Path.drop_while p l = l.
Proof.
  destruct l as [|a l]; [reflexivity|]. simpl. intros H.
  apply andb_true_iff in H. destruct H as [Ha _]. apply negb_true_iff in Ha.
  rewrite Ha. reflexivity.
Qed.

Lemma chars_all_forallb p s :
  chars_all p s = forallb p (list_ascii_of_string s).
Proof. induction s as [|a s IH]; simpl; [reflexivity|]. rewrite IH. reflexivity. Qed.

Lemma forallb_rev {A : Type} (p : A -> bool) l : forallb p (rev l) = forallb p l.
Proof.
  induction l as [|a l IH]; [reflexivity|]. simpl.
  rewrite forallb_app, IH. simpl. rewrite andb_true_r. apply andb_comm.
Qed.

(** A text without blanks is its own trimming. *)
Lemma trim_fixed s :
  chars_all (fun a => negb (Str.is_space a)) s = true -> trim s = s.
Proof.
  intros H. unfold trim.
  assert (L : Str.trim_left s = s).
  { destruct s as [|a s]; [reflexivity|]. simpl in *.
    apply andb_true_iff in H. destruct H as [Ha _]. apply negb_true_iff in Ha.
    rewrite Ha. reflexivity. }
  rewrite L, drop_while_none.
  - rewrite rev_involutive. apply string_of_list_ascii_of_string.
  - rewrite forallb_rev, <- chars_all_forallb. exact H.
Qed.

Lemma toLowerCase_fixed s :
  chars_all (fun a => negb (is_upper a)) s = true -> toLowerCase s = s.
Proof.
  induction s as [|a s IH]; intros H; [reflexivity|]. simpl in *.
  apply andb_true_iff in H. destruct H as [Ha Hs]. apply negb_true_iff in Ha.
  unfold lower. rewrite Ha. f_equal. apply IH, Hs.
Qed.

Lemma slug_char_plain a :
  slug_char a = true -> Str.is_space a = false /\ is_upper a = false.
Proof.
  destruct a as [[] [] [] [] [] [] [] []]; vm_compute; intros H;
    first [discriminate | split; reflexivity].
Qed.

Lemma slugOf_clean name : chars_all slug_char (slugOf name) = true.
Proof.
  unfold slugOf.
  apply (chars_all_impl (fun a => negb (negb (slug_char a)))).
  - intros a Ha. apply negb_true_iff, negb_false_iff in Ha. exact Ha.
  - apply remove_chars_clean.
Qed.

Lemma slugOf_fixed s : chars_all slug_char s = true -> slugOf s = s.
Proof.
  intros H. unfold slugOf.
  rewrite trim_fixed, toLowerCase_fixed, replace_runs_fixed, remove_chars_fixed.
  - reflexivity.
  - apply (chars_all_impl slug_char); [|exact H]. intros a Ha. rewrite Ha. reflexivity.
  - apply (chars_all_impl slug_char); [|exact H]. intros a Ha.
    apply slug_char_plain in Ha. destruct Ha as [Ha _]. rewrite Ha. reflexivity.
  - apply (chars_all_impl slug_char); [|exact H]. intros a Ha.
    apply slug_char_plain in Ha. destruct Ha as [_ Ha]. rewrite Ha. reflexivity.
  - apply (chars_all_impl slug_char); [|exact H]. intros a Ha.
    apply slug_char_plain in Ha. destruct Ha as [Ha _]. rewrite Ha. reflexivity.
Qed.

Lemma randomColor_is_color n : (n < 16 ^ 6)%N -> is_color (randomColor n) = true.
Proof.
  intros H. unfold randomColor.
  change ("#" +++ padStart 6 "0" (toString16 n))
    with (String "#" (padStart 6 "0" (toString16 n))).
  unfold is_color. rewrite Ascii.eqb_refl. cbn [andb].
  assert (L : String.length (toString16 n) <= 6).
  { unfold toString16.
    pose proof (hex_digits_length (S (N.to_nat (N.log2 n))) 5 n "" H) as X.
    change (String.length "") with 0 in X. lia. }
  rewrite padStart_length by exact L. rewrite Nat.eqb_refl. cbn [andb].
  apply padStart_chars; [reflexivity|].
  apply hex_digits_chars. reflexivity.
Qed.

End TagFacts.

(** X4.  The colour drawn for a tag that comes without one passes the test
    that the colour handlers apply to a colour sent by the client: for every
    number that [Math.floor(Math.random() * 16777215)] can give, the text
    is [#] and six hexadecimal digits. *)
Theorem X4_random_color_is_valid :
  forall n : N, (n < 16777215)%N -> is_color (randomColor n) = true.
Proof. intros n H. apply TagFacts.randomColor_is_color. simpl. lia. Qed.

Lemma X4_random_color_is_valid_witness :
  (255 < 16777215)%N /\ randomColor 255 = "#0000ff" /\ is_color "#0000ff" = true.
Proof.
  split; [reflexivity|]. split; [reflexivity|].
  change "#0000ff" with (randomColor 255).
  apply (X4_random_color_is_valid 255). reflexivity.
Defined.

(** X5.  The slug of a tag name (ASCII text) is made of lower-case letters,
    digits and [-] only, and the slug of a slug is the slug itself. *)
Theorem X5_slug_charset_idempotent :
  forall name : string,
    Text.is_ascii_text name = true ->
    Text.chars_all slug_char (slugOf name) = true
    /\ slugOf (slugOf name) = slugOf name.
Proof.
  intros name _. split.
  - apply TagFacts.slugOf_clean.
  - apply TagFacts.slugOf_fixed, TagFacts.slugOf_clean.
Qed.

Lemma X5_slug_charset_idempotent_witness :
  Text.is_ascii_text "  Summer  Trip 2023! " = true
  /\ slugOf "  Summer  Trip 2023! " = "summer-trip-2023"
  /\ slugOf "summer-trip-2023" = "summer-trip-2023".
Proof.
  destruct (X5_slug_charset_idempotent "  Summer  Trip 2023! " eq_refl) as [_ H].
  split; [reflexivity|]. split; [reflexivity|]. exact H.
Defined.

(** ** The tag handlers *)

Module TagStoreFacts.

Lemma insert_sorted_In {A : Type} (le : A -> A -> bool) x y l :
  In y (insert_sorted le x l) <-> y = x \/ In y l.
Proof.
  induction l as [|z l IH]; simpl; [intuition|].
  destruct (le x z); simpl; [intuition|]. rewrite IH. intuition.
Qed.

Lemma sort_stable_In {A : Type} (le : A -> A -> bool) l x :
  In x (sort_stable le l) <-> In x l.
Proof.
  induction l as [|z l IH]; simpl; [reflexivity|].
  rewrite insert_sorted_In, IH. intuition.
Qed.

Lemma str_eq_refl s : Sql.str_eq s s = true.
Proof. unfold Sql.str_eq. apply String.eqb_refl. Qed.

Lemma pair_eqb_eq a b : pair_eqb a b = true <-> a = b.
Proof.
  unfold pair_eqb. rewrite andb_true_iff, !Z.eqb_eq.
  destruct a, b; simpl. split; [intros [-> ->]; reflexivity|intros E; inversion E; auto].
Qed.

(** The INSERT loop goes through when the folder and the tags exist and no
    pair is there already or asked for twice. *)
Lemma insertFolderTags_all id : forall tagIds ts,
  existsb (fun r => Z.eqb (Folders.Id r) id) (Folders (rows ts)) = true ->
  (forall t, In t tagIds -> existsb (fun x => Z.eqb (Tags.Id x) t) (Tags ts) = true) ->
  NoDup tagIds ->
  (forall t, In t tagIds -> ~ In (id, t) (FolderTags (rows ts))) ->
  let r := insertFolderTags ts id tagIds in
  snd r = true
  /\ FolderTags (rows (fst r)) = FolderTags (rows ts) ++ map (pair id) tagIds
  /\ Folders (rows (fst r)) = Folders (rows ts)
  /\ Files (rows (fst r)) = Files (rows ts)
  /\ FileTags (rows (fst r)) = FileTags (rows ts)
  /\ Tags (fst r) = Tags ts /\ nextTagId (fst r) = nextTagId ts.
Proof.
  induction tagIds as [|t rest IH]; intros ts Hf Ht Hnd Hnew.
  - simpl. rewrite app_nil_r. repeat split.
  - cbn [insertFolderTags]. unfold insertFolderTag.
    rewrite Hf, (Ht t (or_introl eq_refl)). cbn [andb].
    assert (E : existsb (pair_eqb (id, t)) (FolderTags (rows ts)) = false).
    { apply not_true_iff_false. intros H. apply existsb_exists in H.
      destruct H as (p & Hp & Ep). apply pair_eqb_eq in Ep. subst p.
      apply (Hnew t (or_introl eq_refl)), Hp. }
    rewrite E. cbn [negb].
    inversion Hnd as [|? ? Hnotin Hnd']; subst.
    match goal with |- context [insertFolderTags ?x id rest] => set (ts1 := x) end.
    destruct (IH ts1) as (A & B & C & D & F & G & H); try assumption.
    + intros t' Ht'. apply Ht. right. exact Ht'.
    + intros t' Ht' Hin. simpl in Hin. apply in_app_or in Hin.
      destruct Hin as [Hin|[Hin|[]]].
      * apply (Hnew t' (or_intror Ht')), Hin.
      * inversion Hin; subst. contradiction.
    + cbv zeta. rewrite A, B, C, D, F, G, H. simpl.
      rewrite <- app_assoc. repeat split.
Qed.

(** Whatever happens, the loop only appends pairs of this folder, in the
    order asked, stopping at the first INSERT that fails. *)
Lemma insertFolderTags_prefix id : forall tagIds ts,
  let r := insertFolderTags ts id tagIds in
  exists done left,
    tagIds = done ++ left
    /\ (snd r = true <-> left = [])
    /\ FolderTags (rows (fst r)) = FolderTags (rows ts) ++ map (pair id) done
    /\ Folders (rows (fst r)) = Folders (rows ts)
    /\ Files (rows (fst r)) = Files (rows ts)
    /\ FileTags (rows (fst r)) = FileTags (rows ts)
    /\ Tags (fst r) = Tags ts.
Proof.
  induction tagIds as [|t rest IH]; intros ts.
  - exists [], []. simpl. rewrite app_nil_r. repeat split.
  - cbn [insertFolderTags]. unfold insertFolderTag.
    destruct (existsb _ (Folders (rows ts)) && existsb _ (Tags ts)
              && negb (existsb _ (FolderTags (rows ts)))).
    + match goal with |- context [insertFolderTags ?x id rest] => set (ts1 := x) end.
      destruct (IH ts1) as (done & left & E & S & B & C & D & F & G).
      exists (t :: done), left. cbv zeta. rewrite B, C, D, F, G.
      split; [simpl; f_equal; exact E|]. split; [exact S|].
      simpl. rewrite <- app_assoc. repeat split.
    + exists [], (t :: rest). simpl. rewrite app_nil_r.
      split; [reflexivity|]. split; [split; discriminate|]. repeat split.
Qed.

End TagStoreFacts.

(** X6.  Creating a tag is idempotent by slug, for names that are ASCII
    text: once [POST /api/tags] has answered with a tag (new or found), every
    further request whose name has the same slug - the same name up to case,
    outer blanks and characters that the slug drops - is answered 200 with
    that same tag and inserts nothing. *)
Theorem X6_createTag_returns_existing :
  forall (ts : TagStore) (random : N) (name : string) (colorHex : option string)
         (t : Tags.row),
    Text.is_ascii_text name = true ->
    (snd (createTag ts random name colorHex) = Created201 t
     \/ snd (createTag ts random name colorHex) = Ok200 t) ->
    forall (random' : N) (name' : string) (colorHex' : option string),
      Text.is_ascii_text name' = true ->
      Str.blank name' = false ->
      color_acceptable colorHex' = true ->
      slugOf name' = slugOf name ->
      createTag (fst (createTag ts random name colorHex)) random' name' colorHex'
      = (fst (createTag ts random name colorHex), Ok200 t).
Proof.
  intros ts random name colorHex t _ H random' name' colorHex' _ Hb Hc Hs.
  unfold createTag in H |- *.
  destruct (Str.blank name); [destruct H; discriminate|].
  destruct (negb (color_acceptable colorHex)); [destruct H; discriminate|].
  destruct (tagsBySlug ts (slugOf name)) as [|t0 l] eqn:E.
  - cbn [fst snd] in *. destruct H as [H|H]; [|discriminate]. inversion H; subst t.
    rewrite Hb, Hc, Hs. cbn [negb]. unfold tagsBySlug in *. cbn [Tags].
    rewrite filter_app, E. cbn [filter app Tags.Slug].
    rewrite TagStoreFacts.str_eq_refl. reflexivity.
  - cbn [fst snd] in *. destruct H as [H|H]; [discriminate|]. inversion H; subst t0.
    rewrite Hb, Hc, Hs, E. reflexivity.
Qed.

Lemma X6_createTag_returns_existing_witness :
  let ts := {| rows := Fixtures.store_root; Tags := []; nextTagId := 1 |} in
  let first := createTag ts 255 "Summer Trip" None in
  snd first = Created201 {| Tags.Id := 1; Tags.Name := "Summer Trip";
                            Tags.Slug := "summer-trip"; Tags.ColorHex := "#0000ff" |}
  /\ createTag (fst first) 7 " summer  TRIP! " (Some "#aabbcc")
     = (fst first, Ok200 {| Tags.Id := 1; Tags.Name := "Summer Trip";
                            Tags.Slug := "summer-trip"; Tags.ColorHex := "#0000ff" |}).
Proof.
  intros ts first. split; [reflexivity|].
  apply (X6_createTag_returns_existing ts 255 "Summer Trip" None _ eq_refl
           (or_introl eq_refl) 7 " summer  TRIP! " (Some "#aabbcc")); reflexivity.
Defined.

(** X7.  [DELETE /api/tags/:id] with a usable id answers 200 whether the tag
    exists or not; afterwards no tag has the id and no file or folder is
    linked to it, every other tag and link is kept, folders and files are
    untouched, and deleting again changes nothing. *)
Theorem X7_deleteTag_cascades :
  forall (ts : TagStore) (id : Z),
    id <> 0%Z ->
    let ts' := fst (deleteTag ts id) in
    snd (deleteTag ts id) = Ok200 tt
    /\ (forall t, In t (Tags ts') <-> In t (Tags ts) /\ Tags.Id t <> id)
    /\ (forall p, In p (FileTags (rows ts')) <-> In p (FileTags (rows ts)) /\ snd p <> id)
    /\ (forall p, In p (FolderTags (rows ts')) <-> In p (FolderTags (rows ts)) /\ snd p <> id)
    /\ Folders (rows ts') = Folders (rows ts)
    /\ Files (rows ts') = Files (rows ts)
    /\ deleteTag ts' id = (ts', Ok200 tt).
Proof.
  intros ts id Hid ts'. subst ts'. unfold deleteTag.
  apply Z.eqb_neq in Hid. rewrite Hid. cbn [fst snd rows Tags FileTags FolderTags
                                             Folders Files].
  split; [reflexivity|].
  split; [|split; [|split; [|split; [reflexivity|split; [reflexivity|]]]]].
  - intros t. rewrite filter_In, negb_true_iff, Z.eqb_neq. reflexivity.
  - intros p. rewrite filter_In, negb_true_iff, Z.eqb_neq. reflexivity.
  - intros p. rewrite filter_In, negb_true_iff, Z.eqb_neq. reflexivity.
  - rewrite !StoreFacts.filter_idem. reflexivity.
Qed.

Lemma X7_deleteTag_cascades_witness :
  let ts := {| rows := Fixtures.store_drafts;
               Tags := [{| Tags.Id := 1; Tags.Name := "a"; Tags.Slug := "a";
                           Tags.ColorHex := "#000000" |}];
               nextTagId := 2 |} in
  FileTags (rows ts) = [(7, 1)]%Z
  /\ FileTags (rows (fst (deleteTag ts 1))) = []
  /\ deleteTag (fst (deleteTag ts 1)) 1 = (fst (deleteTag ts 1), Ok200 tt).
Proof.
  intros ts. split; [reflexivity|]. split; [reflexivity|].
  assert (H : 1%Z <> 0%Z) by discriminate.
  exact (proj2 (proj2 (proj2 (proj2 (proj2 (proj2 (X7_deleteTag_cascades ts 1 H))))))).
Defined.

(** X8.  No handler stores a colour that is neither empty nor [#] and six
    hexadecimal digits: when every stored colour is of that kind, it is so
    after [POST /api/tags] (for every number the random draw can give),
    [POST /api/tags/:id/color], [PATCH /api/tags/:id] and
    [DELETE /api/tags/:id], whatever they are sent. *)
Theorem X8_tag_colors_stay_valid :
  forall ts : TagStore,
    colors_ok ts = true ->
    (forall random name colorHex,
        (random < 16777215)%N -> colors_ok (fst (createTag ts random name colorHex)) = true)
    /\ (forall id colorHex, colors_ok (fst (setTagColor ts id colorHex)) = true)
    /\ (forall id name colorHex, colors_ok (fst (patchTag ts id name colorHex)) = true)
    /\ (forall id, colors_ok (fst (deleteTag ts id)) = true).
Proof.
  intros ts H.
  assert (Hall : forall t, In t (Tags ts) ->
                   negb (Str.nonempty (Tags.ColorHex t)) || is_color (Tags.ColorHex t) = true).
  { intros t Ht. unfold colors_ok in H. rewrite forallb_forall in H. apply H, Ht. }
  split; [|split; [|split]].
  - intros random name colorHex Hr. unfold createTag.
    destruct (Str.blank name); [exact H|].
    destruct (color_acceptable colorHex) eqn:Ec; [|exact H]. cbn [negb].
    destruct (tagsBySlug ts (slugOf name)); [|exact H].
    unfold colors_ok. cbn [fst Tags]. rewrite forallb_app.
    fold (colors_ok ts). rewrite H. cbn [forallb andb Tags.ColorHex]. rewrite andb_true_r.
    assert (R : is_color (randomColor random) = true).
    { apply TagFacts.randomColor_is_color. simpl. lia. }
    destruct colorHex as [c|]; [|rewrite R; apply orb_true_r].
    destruct (Str.nonempty c) eqn:En; [|rewrite R; apply orb_true_r].
    rewrite En. simpl in Ec. rewrite En in Ec. exact Ec.
  - intros id colorHex. unfold setTagColor.
    destruct colorHex as [c|]; [|exact H].
    destruct (is_color c) eqn:Ec; [|exact H].
    unfold colors_ok. cbn [fst Tags]. rewrite forallb_forall. intros t Ht.
    apply in_map_iff in Ht. destruct Ht as (t0 & <- & Ht0).
    destruct (Z.eqb (Tags.Id t0) id); [|apply Hall, Ht0].
    cbn [Tags.ColorHex]. rewrite Ec. apply orb_true_r.
  - intros id name colorHex. unfold patchTag.
    destruct (Z.eqb id 0); [exact H|].
    destruct (color_acceptable colorHex) eqn:Ec; [|exact H]. cbn [negb].
    match goal with |- context [tagById ?x id] => set (ts' := x) end.
    assert (Hts : colors_ok ts' = true).
    { subst ts'. destruct name as [n|], colorHex as [c|]; try exact H;
        unfold colors_ok; cbn [Tags]; rewrite forallb_forall; intros t Ht;
        apply in_map_iff in Ht; destruct Ht as (t0 & <- & Ht0);
        (destruct (Z.eqb (Tags.Id t0) id); [|apply Hall, Ht0]);
        cbn [Tags.ColorHex]; first [exact Ec | apply Hall, Ht0]. }
    destruct (tagById ts' id); exact Hts.
  - intros id. unfold deleteTag. destruct (Z.eqb id 0); [exact H|].
    unfold colors_ok. cbn [fst Tags]. rewrite forallb_forall. intros t Ht.
    apply filter_In in Ht. apply Hall, Ht.
Qed.

Lemma X8_tag_colors_stay_valid_witness :
  let ts := {| rows := Fixtures.store_root;
               Tags := [{| Tags.Id := 1; Tags.Name := "a"; Tags.Slug := "a";
                           Tags.ColorHex := "#12abEF" |}];
               nextTagId := 2 |} in
  colors_ok ts = true
  /\ colors_ok (fst (patchTag ts 1 None (Some ""))) = true
  /\ colors_ok (fst (createTag ts 0 "b" None)) = true.
Proof.
  intros ts.
  assert (H : colors_ok ts = true) by reflexivity.
  destruct (X8_tag_colors_stay_valid ts H) as (A & _ & C & _).
  split; [exact H|]. split; [apply C|apply A; reflexivity].
Defined.

(** X9.  [POST /api/folder/:id/tags] replaces the tags of the folder: when
    the folder exists, the tag ids asked for exist, are not 0 and are
    different from each other, the answer is 200, the links of the folder
    are exactly those asked for, in that order, the links of other folders
    and the tags are kept, and [GET /api/folder/:id/tags] afterwards lists
    every tag, selected exactly when it was asked for. *)
Theorem X9_setFolderTags_then_get :
  forall (ts : TagStore) (id : Z) (tagIds : list Z),
    id <> 0%Z ->
    existsb (fun r => Z.eqb (Folders.Id r) id) (Folders (rows ts)) = true ->
    (forall t, In t tagIds ->
               t <> 0%Z /\ existsb (fun x => Z.eqb (Tags.Id x) t) (Tags ts) = true) ->
    NoDup tagIds ->
    let ts' := fst (setFolderTags ts id tagIds) in
    snd (setFolderTags ts id tagIds) = Ok200 tt
    /\ FolderTags (rows ts')
       = filter (fun ft => negb (Z.eqb (fst ft) id)) (FolderTags (rows ts))
         ++ map (pair id) tagIds
    /\ Tags ts' = Tags ts
    /\ Folders (rows ts') = Folders (rows ts)
    /\ exists body,
         getFolderTags ts' id = Ok200 body
         /\ forall t b, In (t, b) body
                        <-> In t (Tags ts) /\ b = existsb (Z.eqb (Tags.Id t)) tagIds.
Proof.
  intros ts id tagIds Hid Hf Ht Hnd ts'.
  assert (Hnz : filter (fun t => negb (Z.eqb t 0)) tagIds = tagIds).
  { apply StoreFacts.filter_all. intros t Hin. apply negb_true_iff, Z.eqb_neq.
    apply (Ht t Hin). }
  assert (Hid' : Z.eqb id 0 = false) by (apply Z.eqb_neq, Hid).
  subst ts'. unfold setFolderTags. rewrite Hid', Hnz.
  match goal with |- context [insertFolderTags ?x id tagIds] => set (ts0 := x) in * end.
  destruct (TagStoreFacts.insertFolderTags_all id tagIds ts0) as (A & B & C & _ & _ & G & _).
  - exact Hf.
  - intros t Hin. apply (Ht t Hin).
  - exact Hnd.
  - intros t Hin Hin'. subst ts0. cbn [rows FolderTags] in Hin'.
    apply filter_In in Hin'. destruct Hin' as [_ Hin']. cbn [fst] in Hin'.
    rewrite Z.eqb_refl in Hin'. discriminate.
  - destruct (insertFolderTags ts0 id tagIds) as [ts1 ok] eqn:E.
    cbn [fst snd] in *. subst ok.
    split; [reflexivity|]. split; [exact B|]. split; [exact G|]. split; [exact C|].
    unfold getFolderTags. rewrite Hid'. eexists. split; [reflexivity|].
    intros t b. rewrite in_flat_map.
    assert (J : forall x : Tags.row,
               filter (fun ft : Z * Z => Z.eqb (snd ft) (Tags.Id x) && Z.eqb (fst ft) id)
                      (FolderTags (rows ts1)) = []
               <-> existsb (Z.eqb (Tags.Id x)) tagIds = false).
    { intros x. split.
      - intros Hnil. apply not_true_iff_false. intros Hex.
        apply existsb_exists in Hex. destruct Hex as (u & Hu & Eu).
        apply Z.eqb_eq in Eu. subst u.
        assert (Hin : In (id, Tags.Id x)
                         (filter (fun ft : Z * Z => Z.eqb (snd ft) (Tags.Id x)
                                                    && Z.eqb (fst ft) id)
                                 (FolderTags (rows ts1)))).
        { apply filter_In. split.
          - rewrite B. apply in_or_app. right. apply in_map, Hu.
          - cbn [fst snd]. rewrite !Z.eqb_refl. reflexivity. }
        rewrite Hnil in Hin. contradiction.
      - intros Hex. apply SyncFacts.filter_nil. intros p Hp.
        apply not_true_iff_false. intros Hm. apply andb_true_iff in Hm.
        destruct Hm as [M1 M2]. apply Z.eqb_eq in M1, M2.
        rewrite B in Hp. apply in_app_or in Hp. destruct Hp as [Hp|Hp].
        + subst ts0. cbn [rows FolderTags] in Hp. apply filter_In in Hp.
          destruct Hp as [_ Hp]. rewrite M2, Z.eqb_refl in Hp. discriminate.
        + apply in_map_iff in Hp. destruct Hp as (u & <- & Hu). cbn [snd] in M1.
          apply not_true_iff_false in Hex. apply Hex. apply existsb_exists.
          exists u. split; [exact Hu|]. apply Z.eqb_eq. symmetry. exact M1. }
    split.
    + intros (x & Hx & Hin). apply TagStoreFacts.sort_stable_In in Hx. rewrite G in Hx.
      destruct (filter _ (FolderTags (rows ts1))) as [|p l] eqn:Ef.
      * destruct Hin as [Hin|[]]. inversion Hin; subst.
        split; [exact Hx|]. symmetry. apply J. exact Ef.
      * apply in_map_iff in Hin. destruct Hin as (_ & Hin & _). inversion Hin; subst.
        split; [exact Hx|].
        destruct (existsb (Z.eqb (Tags.Id t)) tagIds) eqn:Ex; [reflexivity|].
        apply J in Ex. rewrite Ex in Ef. discriminate.
    + intros [Hx ->]. exists t. split.
      * apply TagStoreFacts.sort_stable_In. rewrite G. exact Hx.
      * destruct (filter _ (FolderTags (rows ts1))) as [|p l] eqn:Ef.
        { apply J in Ef. rewrite Ef. left. reflexivity. }
        destruct (existsb (Z.eqb (Tags.Id t)) tagIds) eqn:Ex.
        { left. reflexivity. }
        apply J in Ex. rewrite Ex in Ef. discriminate.
Qed.

Lemma X9_setFolderTags_then_get_witness :
  let ts' := fst (setFolderTags Samples.tagged 2 [2]%Z) in
  FolderTags (rows Samples.tagged) = [(2, 1)]%Z
  /\ FolderTags (rows ts') = [(2, 2)]%Z
  /\ getFolderTags ts' 2
     = Ok200 [(Samples.tag 1 "a" "#000000", false); (Samples.tag 2 "b" "#ffffff", true)].
Proof.
  intros ts'.
  assert (H1 : 2%Z <> 0%Z) by discriminate.
  assert (H2 : existsb (fun r => Z.eqb (Folders.Id r) 2)
                       (Folders (rows Samples.tagged)) = true) by reflexivity.
  assert (H3 : forall t, In t [2%Z] ->
                 t <> 0%Z /\ existsb (fun x => Z.eqb (Tags.Id x) t)
                                     (Tags Samples.tagged) = true).
  { intros t [<-|[]]. split; [discriminate|reflexivity]. }
  assert (H4 : NoDup [2%Z]) by (constructor; [intros []|constructor]).
  destruct (X9_setFolderTags_then_get Samples.tagged 2 [2%Z] H1 H2 H3 H4)
    as (_ & B & _).
  split; [reflexivity|]. split; [exact B|reflexivity].
Defined.

(** X10.  [POST /api/folder/:id/tags] is not atomic.  Whatever it answers,
    the links the folder had are gone and the links of other folders, the
    tags, the folders and the files are as before; the folder is left with
    the links for an initial part of the ids asked for (zeros dropped): all
    of them when the answer is 200, and those before the first INSERT that
    failed when it is 500. *)
Theorem X10_setFolderTags_drops_old_links :
  forall (ts : TagStore) (id : Z) (tagIds : list Z),
    id <> 0%Z ->
    let r := setFolderTags ts id tagIds in
    exists done left,
      filter (fun t => negb (Z.eqb t 0)) tagIds = done ++ left
      /\ FolderTags (rows (fst r))
         = filter (fun ft => negb (Z.eqb (fst ft) id)) (FolderTags (rows ts))
           ++ map (pair id) done
      /\ ((snd r = Ok200 tt /\ left = []) \/ (snd r = Failed500 /\ left <> []))
      /\ Tags (fst r) = Tags ts
      /\ Folders (rows (fst r)) = Folders (rows ts)
      /\ Files (rows (fst r)) = Files (rows ts)
      /\ FileTags (rows (fst r)) = FileTags (rows ts).
Proof.
  intros ts id tagIds Hid r. subst r. unfold setFolderTags.
  apply Z.eqb_neq in Hid. rewrite Hid.
  match goal with |- context [insertFolderTags ?x id ?l] => set (ts0 := x); set (ids := l) end.
  destruct (TagStoreFacts.insertFolderTags_prefix id ids ts0)
    as (done & left & E & S & B & C & D & F & G).
  destruct (insertFolderTags ts0 id ids) as [ts1 ok] eqn:Eq. cbn [fst snd] in *.
  exists done, left. split; [exact E|]. split; [exact B|].
  split; [|split; [exact G|split; [exact C|split; [exact D|exact F]]]].
  destruct ok.
  - left. split; [reflexivity|]. apply S. reflexivity.
  - right. split; [reflexivity|]. intros Hl. apply S in Hl. discriminate.
Qed.

Lemma X10_setFolderTags_drops_old_links_witness :
  let r := setFolderTags Samples.tagged 2 [2; 2]%Z in
  snd r = Failed500
  /\ FolderTags (rows Samples.tagged) = [(2, 1)]%Z
  /\ FolderTags (rows (fst r)) = [(2, 2)]%Z
  /\ exists done left, [2; 2]%Z = done ++ left /\ left <> [].
Proof.
  intros r.
  assert (H : 2%Z <> 0%Z) by discriminate.
  destruct (X10_setFolderTags_drops_old_links Samples.tagged 2 [2; 2]%Z H)
    as (done & left & E & _ & [[R _]|[_ L]] & _).
  - discriminate R.
  - split; [reflexivity|]. split; [reflexivity|]. split; [reflexivity|].
    exists done, left. split; [exact E|exact L].
Defined.

(** ** Directories made and files moved *)

Module MkdirFacts.
Import Disk.

Lemma find_entry_set_entry k s c es :
  find_entry k (set_entry s c es) = if s =? k then Some c else find_entry k es.
Proof.
  induction es as [|n x rest IH]; simpl; [reflexivity|].
  destruct (n =? s) eqn:E; simpl.
  - apply String.eqb_eq in E. subst n. destruct (s =? k); reflexivity.
  - rewrite IH. destruct (s =? k) eqn:E2; [|reflexivity].
    apply String.eqb_eq in E2. subst k. rewrite E. reflexivity.
Qed.

Lemma set_entry_same s c es : find_entry s es = Some c -> set_entry s c es = es.
Proof.
  induction es as [|n x rest IH]; simpl; [discriminate|].
  destruct (n =? s); [intros E; inversion E; reflexivity|].
  intros E. rewrite IH by exact E. reflexivity.
Qed.

Lemma lookup_fresh_chain segs : exists r es, lookup (fresh_chain segs) segs = Some (Dir r es).
Proof.
  induction segs as [|s segs IH]; simpl; [eauto|].
  rewrite String.eqb_refl. exact IH.
Qed.

(** After [mkdir -p] the path is a directory. *)
Lemma mkdir_p_lookup segs : forall n n',
  mkdir_p n segs = Some n' -> exists r es, lookup n' segs = Some (Dir r es).
Proof.
  induction segs as [|s segs IH]; intros n n' H.
  - simpl in H. destruct n; inversion H; subst. simpl. eauto.
  - simpl in H. destruct n as [|r es|]; try discriminate.
    destruct (find_entry s es) as [c|] eqn:E.
    + destruct (mkdir_p c segs) as [c'|] eqn:M; [|discriminate].
      inversion H; subst. simpl. rewrite find_entry_set_entry, String.eqb_refl.
      apply (IH c c' M).
    + inversion H; subst. simpl. rewrite find_entry_set_entry, String.eqb_refl.
      apply lookup_fresh_chain.
Qed.

(** A path that is a directory already is left alone. *)
Lemma mkdir_p_existing segs : forall n r es,
  lookup n segs = Some (Dir r es) -> mkdir_p n segs = Some n.
Proof.
  induction segs as [|s segs IH]; intros n r es H.
  - simpl in *. inversion H; subst. reflexivity.
  - simpl in *. destruct n as [|r0 es0|]; try discriminate.
    destruct (find_entry s es0) as [c|] eqn:E; [|discriminate].
    rewrite (IH c r es H). rewrite (set_entry_same _ _ _ E). reflexivity.
Qed.

Lemma mkdir_p_twice segs n n' : mkdir_p n segs = Some n' -> mkdir_p n' segs = Some n'.
Proof.
  intros H. destruct (mkdir_p_lookup segs n n' H) as (r & es & L).
  apply (mkdir_p_existing segs n' r es L).
Qed.

(** What was there stays: a file as it was, a directory as a directory. *)
Lemma mkdir_p_keeps segs : forall n n' q x,
  mkdir_p n segs = Some n' -> lookup n q = Some x ->
  match x with
  | File z => lookup n' q = Some (File z)
  | Other => lookup n' q = Some Other
  | Dir _ _ => exists r es, lookup n' q = Some (Dir r es)
  end.
Proof.
  induction segs as [|s segs IH]; intros n n' q x H L.
  - simpl in H. destruct n; inversion H; subst. rewrite L. destruct x; eauto.
  - simpl in H. destruct n as [|r es|]; try discriminate.
    destruct q as [|k q].
    + simpl in L. inversion L; subst.
      destruct (find_entry s es) as [c|]; [destruct (mkdir_p c segs); [|discriminate]|];
        inversion H; subst; simpl; eauto.
    + simpl in L. destruct (find_entry k es) as [ck|] eqn:Ek; [|discriminate].
      destruct (find_entry s es) as [c|] eqn:E.
      * destruct (mkdir_p c segs) as [c'|] eqn:M; [|discriminate].
        inversion H; subst. simpl. rewrite find_entry_set_entry.
        destruct (s =? k) eqn:Esk.
        { apply String.eqb_eq in Esk. subst k. rewrite E in Ek. inversion Ek; subst ck.
          apply (IH c c' q x M L). }
        rewrite Ek, L. destruct x; eauto.
      * inversion H; subst. simpl. rewrite find_entry_set_entry.
        destruct (s =? k) eqn:Esk.
        { apply String.eqb_eq in Esk. subst k. congruence. }
        rewrite Ek, L. destruct x; eauto.
Qed.

(** The node put at a path by [update_at] is found there. *)
Lemma update_at_lookup f P : forall n n',
  update_at f n P = Some n' ->
  exists x y, lookup n P = Some x /\ f x = Some y /\ lookup n' P = Some y.
Proof.
  induction P as [|s P IH]; intros n n' H.
  - simpl in *. exists n, n'. auto.
  - simpl in H. destruct n as [|r es|]; try discriminate.
    destruct (find_entry s es) as [c|] eqn:E; [|discriminate].
    destruct (update_at f c P) as [c'|] eqn:U; [|discriminate].
    inversion H; subst. destruct (IH c c' U) as (x & y & A & B & C).
    exists x, y. simpl. rewrite E, find_entry_set_entry, String.eqb_refl. auto.
Qed.

(** After a rename the new path leads to what the old one led to. *)
Lemma rename_lookup n old new n' :
  rename n old new = Some n' ->
  exists sub, lookup n old = Some sub /\ lookup n' new = Some sub.
Proof.
  unfold rename. intros H.
  destruct (lookup n old) as [sub|] eqn:L; [|discriminate].
  destruct (rev old) as [|oname oparent]; [discriminate|].
  destruct (rev new) as [|nname nparent] eqn:Rn; [discriminate|].
  assert (En : new = rev nparent ++ [nname]).
  { rewrite <- (rev_involutive new), Rn. reflexivity. }
  assert (K : forall n1,
             update_at (fun d => match d with
                                 | Dir r es => Some (Dir r (set_entry nname sub es))
                                 | _ => None
                                 end) n1 (rev nparent) = Some n' ->
             lookup n' new = Some sub).
  { intros n1 U. apply update_at_lookup in U. destruct U as (x & y & _ & B & C).
    destruct x as [|r es|]; try discriminate. inversion B; subst y.
    rewrite En, DiskFacts.lookup_app, C. simpl.
    rewrite find_entry_set_entry, String.eqb_refl. reflexivity. }
  exists sub. split; [reflexivity|].
  destruct (lookup n new) as [[|r [|]|]|];
    try discriminate;
    (destruct (update_at _ n (rev oparent)) as [n1|]; [|discriminate]);
    apply (K n1 H).
Qed.

End MkdirFacts.

(** X11.  [ensureDiskFolder], when [mkdir] does not throw, leaves a directory
    at the physical path of the folder; every file that was on the disk is
    still there with its size and every directory is still a directory; a
    path that is a directory already leaves the disk as it is, so that a
    second call changes nothing. *)
Theorem X11_ensureDiskFolder_makes_directory :
  forall (env : Env) (d d' : Disk.node) (fullPath : string),
    ensureDiskFolder env d fullPath = Some d' ->
    (exists r es, Disk.at_path (cwd env) d' (fullPathToPhysical env fullPath)
                  = Some (Disk.Dir r es))
    /\ (forall q z, Disk.lookup d q = Some (Disk.File z) ->
                    Disk.lookup d' q = Some (Disk.File z))
    /\ (forall q r es, Disk.lookup d q = Some (Disk.Dir r es) ->
                       exists r' es', Disk.lookup d' q = Some (Disk.Dir r' es'))
    /\ ((exists r es, Disk.at_path (cwd env) d (fullPathToPhysical env fullPath)
                      = Some (Disk.Dir r es)) -> d' = d)
    /\ ensureDiskFolder env d' fullPath = Some d'.
Proof.
  intros env d d' fullPath H. unfold ensureDiskFolder, Disk.at_path in *.
  split; [|split; [|split; [|split]]].
  - apply (MkdirFacts.mkdir_p_lookup _ _ _ H).
  - intros q z L. apply (MkdirFacts.mkdir_p_keeps _ _ _ _ _ H L).
  - intros q r es L. apply (MkdirFacts.mkdir_p_keeps _ _ _ _ _ H L).
  - intros (r & es & L). rewrite (MkdirFacts.mkdir_p_existing _ _ _ _ L) in H.
    inversion H. reflexivity.
  - apply (MkdirFacts.mkdir_p_twice _ _ _ H).
Qed.

Lemma X11_ensureDiskFolder_makes_directory_witness :
  exists d',
    ensureDiskFolder Fixtures.env0 Fixtures.disk_photos "/root/new/sub" = Some d'
    /\ Disk.access (cwd Fixtures.env0) d' "/srv/tagger/uploads/root/new/sub" = true
    /\ Disk.lookup d' ["srv"; "tagger"; "uploads"; "root"; "photos"; "2023"; "img1.jpg"]
       = Some (Disk.File 2048).
Proof.
  destruct (ensureDiskFolder Fixtures.env0 Fixtures.disk_photos "/root/new/sub")
    as [d'|] eqn:E; [|discriminate E].
  exists d'. split; [reflexivity|].
  destruct (X11_ensureDiskFolder_makes_directory Fixtures.env0 Fixtures.disk_photos d'
              "/root/new/sub" E) as ((r & es & A) & B & _).
  split.
  - unfold Disk.access.
    change (Disk.at_path (cwd Fixtures.env0) d' "/srv/tagger/uploads/root/new/sub")
      with (Disk.at_path (cwd Fixtures.env0) d'
              (fullPathToPhysical Fixtures.env0 "/root/new/sub")).
    rewrite A. reflexivity.
  - apply B. reflexivity.
Defined.

(** ** The root folder *)

Module RootFacts.

(** The first row of a result ordered by id has the least id. *)
Lemma sort_head_least {A : Type} (f : A -> Z) (l : list A) : forall x rest,
  sort_stable (fun a b => Z.leb (f a) (f b)) l = x :: rest ->
  In x l /\ forall y, In y l -> (f x <= f y)%Z.
Proof.
  induction l as [|a l IH]; intros x rest H; [discriminate|].
  simpl in H.
  destruct (sort_stable (fun a b => Z.leb (f a) (f b)) l) as [|s t] eqn:E.
  - simpl in H. inversion H; subst.
    assert (Hl : l = []).
    { destruct l as [|y l']; [reflexivity|].
      assert (Hy : In y (sort_stable (fun a b => Z.leb (f a) (f b)) (y :: l'))).
      { apply TagStoreFacts.sort_stable_In. left. reflexivity. }
      rewrite E in Hy. contradiction. }
    subst l. split; [left; reflexivity|]. intros y [<-|[]]. lia.
  - destruct (IH s t eq_refl) as [Hs Hmin].
    simpl in H. destruct (Z.leb (f a) (f s)) eqn:L.
    + inversion H; subst. apply Z.leb_le in L.
      split; [left; reflexivity|]. intros y [<-|Hy]; [lia|].
      specialize (Hmin y Hy). lia.
    + inversion H; subst. apply Z.leb_gt in L.
      split; [right; exact Hs|]. intros y [<-|Hy]; [lia|]. apply Hmin, Hy.
Qed.

Lemma parentless_In st r :
  In r (parentless st) <-> In r (Folders st) /\ Folders.ParentId r = None.
Proof.
  unfold parentless. rewrite filter_In. split; intros [H1 H2]; split; try assumption.
  - destruct (Folders.ParentId r); [discriminate|reflexivity].
  - rewrite H2. reflexivity.
Qed.

End RootFacts.

(** X12.  [ensureRootFolder], when it returns, returns a folder of the table
    that has no parent and the least id among the folders without parent; it
    inserts [/root] when there was no folder without parent and nothing
    otherwise; the directory of the returned folder exists afterwards; and
    calling it again returns the same folder and changes nothing. *)
Theorem X12_ensureRootFolder_idempotent :
  forall (env : Env) (w : World) (root : Folders.row),
    snd (ensureRootFolder env w) = Some root ->
    let w' := fst (ensureRootFolder env w) in
    In root (Folders (store w'))
    /\ Folders.ParentId root = None
    /\ (forall r, In r (Folders (store w')) -> Folders.ParentId r = None ->
                  (Folders.Id root <= Folders.Id r)%Z)
    /\ (parentless (store w) = [] ->
        Folders (store w') = Folders (store w) ++ [root]
        /\ Folders.Name root = "root" /\ Folders.FullPath root = "/root")
    /\ (parentless (store w) <> [] -> store w' = store w)
    /\ Disk.access (cwd env) (disk w')
         (fullPathToPhysical env (Folders.FullPath root)) = true
    /\ ensureRootFolder env w' = (w', Some root).
Proof.
  intros env w root H w'. subst w'. unfold ensureRootFolder in H |- *.
  set (st1 := match parentless (store w) with
              | [] => snd (Db.insertFolder (store w) "root" None "/root")
              | _ => store w
              end) in *.
  destruct (sort_stable (fun a b => Z.leb (Folders.Id a) (Folders.Id b)) (parentless st1))
    as [|r0 rest] eqn:Es; [discriminate|].
  destruct (ensureDiskFolder env (disk w) (Folders.FullPath r0)) as [d|] eqn:Ed;
    [|discriminate].
  cbn [fst snd] in *. inversion H; subst r0. clear H.
  destruct (RootFacts.sort_head_least Folders.Id _ _ _ Es) as [Hin Hmin].
  apply RootFacts.parentless_In in Hin. destruct Hin as [Hin Hnone].
  split; [exact Hin|]. split; [exact Hnone|].
  split; [intros r Hr Hp; apply Hmin, RootFacts.parentless_In; auto|].
  split; [|split; [|split]].
  - intros Hnil. subst st1. rewrite Hnil in *. cbn [snd Db.insertFolder Folders] in *.
    assert (Hroot : In root [{| Folders.Id := nextFolderId (store w); Folders.Name := "root";
                                Folders.ParentId := None; Folders.FullPath := "/root" |}]).
    { assert (Hp : In root (parentless
                             {| Folders := Folders (store w)
                                           ++ [{| Folders.Id := nextFolderId (store w);
                                                  Folders.Name := "root";
                                                  Folders.ParentId := None;
                                                  Folders.FullPath := "/root" |}];
                                Files := Files (store w); FileTags := FileTags (store w);
                                FolderTags := FolderTags (store w);
                                nextFolderId := nextFolderId (store w) + 1;
                                nextFileId := nextFileId (store w) |})).
      { apply RootFacts.parentless_In. split; assumption. }
      unfold parentless in Hp. cbn [Folders] in Hp. rewrite filter_app in Hp.
      fold (parentless (store w)) in Hp. rewrite Hnil in Hp. exact Hp. }
    destruct Hroot as [<-|[]]. repeat split.
  - intros Hne. subst st1. destruct (parentless (store w)); [congruence|reflexivity].
  - cbn [disk]. unfold Disk.access.
    destruct (MkdirFacts.mkdir_p_lookup _ _ _ Ed) as (r & es & L).
    unfold Disk.at_path. rewrite L. reflexivity.
  - cbn [store disk queue].
    assert (Hne : parentless st1 <> []).
    { intros E. assert (Hp : In root (parentless st1))
        by (apply RootFacts.parentless_In; split; assumption).
      rewrite E in Hp. contradiction. }
    destruct (parentless st1) as [|p ps] eqn:Ep; [congruence|].
    cbv iota. rewrite Ep, Es. unfold ensureDiskFolder in *.
    rewrite (MkdirFacts.mkdir_p_twice _ _ _ Ed). reflexivity.
Qed.

Lemma X12_ensureRootFolder_idempotent_witness :
  let w := Fixtures.world_of (Fixtures.store_of [] [] [] [])
                             (Fixtures.disk_with Disk.Nil) in
  let root := Fixtures.folder_row 100 "root" None "/root" in
  snd (ensureRootFolder Fixtures.env0 w) = Some root
  /\ Disk.access (cwd Fixtures.env0) (disk w) "/srv/tagger/uploads/root" = false
  /\ Disk.access (cwd Fixtures.env0) (disk (fst (ensureRootFolder Fixtures.env0 w)))
       "/srv/tagger/uploads/root" = true
  /\ ensureRootFolder Fixtures.env0 (fst (ensureRootFolder Fixtures.env0 w))
     = (fst (ensureRootFolder Fixtures.env0 w), Some root).
Proof.
  intros w root.
  assert (H : snd (ensureRootFolder Fixtures.env0 w) = Some root) by reflexivity.
  destruct (X12_ensureRootFolder_idempotent Fixtures.env0 w root H)
    as (_ & _ & _ & _ & _ & A & B).
  split; [exact H|]. split; [reflexivity|]. split; [exact A|exact B].
Defined.

(** ** Deleting and renaming files *)

Module FileFacts.

Lemma fileById_map (g : Files.row -> Files.row) l id :
  (forall f, Files.Id (g f) = Files.Id f) ->
  filter (fun f => Z.eqb (Files.Id f) id) (map g l)
  = map g (filter (fun f => Z.eqb (Files.Id f) id) l).
Proof.
  intros Hg. induction l as [|f l IH]; [reflexivity|]. simpl.
  rewrite Hg. destruct (Z.eqb (Files.Id f) id); simpl; rewrite IH; reflexivity.
Qed.

(** An UPDATE that matches no row leaves the table as it is. *)
Lemma map_unmatched (g : Files.row -> Files.row) l id :
  filter (fun f => Z.eqb (Files.Id f) id) l = [] ->
  map (fun f => if Z.eqb (Files.Id f) id then g f else f) l = l.
Proof.
  induction l as [|f l IH]; [reflexivity|]. simpl.
  destruct (Z.eqb (Files.Id f) id); [discriminate|]. intros H. rewrite IH by exact H.
  reflexivity.
Qed.

End FileFacts.

(** X13.  [DELETE /api/file/:id] on a file that is recorded answers 200; the
    file's row and its tag links are gone and every other row is kept; the
    disk is not touched by the request: one job that unlinks the file's
    storage path is appended to the queue, behind the jobs taken before; and
    the same request sent again is answered 404 and changes nothing. *)
Theorem X13_deleteFile_outcome :
  forall (st : Store) (d : Disk.node) (l : list (JobQueue.input job)) (id : Z)
         (file : Files.row) (others : list Files.row),
    id <> 0%Z ->
    fileById st id = file :: others ->
    let w := {| store := st; disk := d; queue := JobQueue.run job_behaviour JobQueue.empty l |} in
    let w' := fst (deleteFile w id) in
    snd (deleteFile w id) = Ok200 tt
    /\ disk w' = d
    /\ (forall f, In f (Files (store w')) <-> In f (Files st) /\ Files.Id f <> id)
    /\ (forall p, In p (FileTags (store w')) <-> In p (FileTags st) /\ fst p <> id)
    /\ Folders (store w') = Folders st
    /\ FolderTags (store w') = FolderTags st
    /\ JobQueue.backlog (queue w')
       = JobQueue.enqueued l ++ [JobUnlink (Files.StoragePath file)]
    /\ deleteFile w' id = (w', NotFound404 "File not found").
Proof.
  intros st d l id file others Hid Hf w w'. subst w' w. unfold deleteFile.
  apply Z.eqb_neq in Hid. rewrite Hid. cbn [store]. rewrite Hf. cbn [fst snd].
  split; [reflexivity|]. split; [reflexivity|].
  split; [|split; [|split; [reflexivity|split; [reflexivity|split]]]].
  - intros f. cbn. rewrite filter_In, negb_true_iff, Z.eqb_neq. reflexivity.
  - intros p. cbn. rewrite filter_In, negb_true_iff, Z.eqb_neq. reflexivity.
  - unfold JobQueue.backlog, enqueue_job, with_store. cbn [queue].
    pose proof (ListingFacts.run_enqueue_backlog
                  (JobQueue.run job_behaviour JobQueue.empty l)
                  [JobUnlink (Files.StoragePath file)]) as B.
    cbn [map JobQueue.run fold_left JobQueue.step] in B.
    rewrite B by (apply QueueFacts.run_inv, QueueFacts.empty_inv).
    rewrite QueueFacts.run_fifo by apply QueueFacts.empty_inv. reflexivity.
  - unfold fileById. cbn [store enqueue_job with_store cleanFile Db.deleteFileRows snd Files].
    rewrite (StoreFacts.filter_none (fun f => Z.eqb (Files.Id f) id)). reflexivity.
Qed.

Lemma X13_deleteFile_outcome_witness :
  let w := {| store := Fixtures.store_drafts; disk := Fixtures.disk_empty_root;
              queue := JobQueue.run job_behaviour JobQueue.empty [] |} in
  snd (deleteFile w 7) = Ok200 tt
  /\ Files (store (fst (deleteFile w 7))) = []
  /\ FileTags (store (fst (deleteFile w 7))) = []
  /\ JobQueue.backlog (queue (fst (deleteFile w 7)))
     = [JobUnlink "/srv/tagger/uploads/root/drafts/x"]
  /\ snd (deleteFile (fst (deleteFile w 7)) 7) = NotFound404 "File not found".
Proof.
  intros w.
  assert (H1 : 7%Z <> 0%Z) by discriminate.
  assert (H2 : fileById Fixtures.store_drafts 7
               = [Fixtures.file_row 7 2 "x" "/srv/tagger/uploads/root/drafts/x" 1])
    by reflexivity.
  destruct (X13_deleteFile_outcome Fixtures.store_drafts Fixtures.disk_empty_root [] 7 _ _
              H1 H2) as (A & _ & _ & _ & _ & _ & Q & N).
  split; [exact A|]. split; [reflexivity|]. split; [reflexivity|]. split; [exact Q|].
  fold w in N. rewrite N. reflexivity.
Defined.

(** ** Characters that paths keep *)

Module PathCharFacts.
Import Str Path Text TextFacts.

Section Class.
Context (q : ascii -> bool).
Hypothesis q_slash : q "/" = true.
Hypothesis q_dot : q "." = true.

Lemma of_list l : chars_all q (string_of_list_ascii l) = forallb q l.
Proof. induction l as [|a l IH]; simpl; [reflexivity|]. rewrite IH. reflexivity. Qed.

Lemma drop_while_forallb p l : forallb q l = true -> forallb q (drop_while p l) = true.
Proof.
  induction l as [|a l IH]; [reflexivity|]. simpl. intros H.
  apply andb_true_iff in H. destruct H as [Ha Hl].
  destruct (p a); [apply IH, Hl|]. simpl. rewrite Ha. exact Hl.
Qed.

Lemma take_while_forallb p l : forallb q l = true -> forallb q (take_while p l) = true.
Proof.
  induction l as [|a l IH]; [reflexivity|]. simpl. intros H.
  apply andb_true_iff in H. destruct H as [Ha Hl].
  destruct (p a); [|reflexivity]. simpl. rewrite Ha. apply IH, Hl.
Qed.

Lemma split_on_chars c s :
  chars_all q s = true -> Forall (fun x => chars_all q x = true) (split_on c s).
Proof.
  induction s as [|a s IH]; intros H; [repeat constructor|].
  simpl in H. apply andb_true_iff in H. destruct H as [Ha Hs]. specialize (IH Hs).
  simpl. destruct (Ascii.eqb a c); [constructor; [reflexivity|exact IH]|].
  destruct (split_on c s) as [|h t]; [repeat constructor; simpl; rewrite Ha; reflexivity|].
  inversion IH; subst. constructor; [simpl; rewrite Ha; assumption|assumption].
Qed.

Lemma join_with_chars sep l :
  chars_all q sep = true -> Forall (fun x => chars_all q x = true) l ->
  chars_all q (join_with sep l) = true.
Proof.
  intros Hs. induction l as [|x l IH]; intros H; [reflexivity|].
  inversion H; subst. destruct l as [|y l]; [assumption|].
  change (join_with sep (x :: y :: l)) with (x +++ sep +++ join_with sep (y :: l)).
  rewrite !chars_all_append, Hs. rewrite IH by assumption.
  match goal with Hx : chars_all q x = true |- _ => rewrite Hx end. reflexivity.
Qed.

Lemma seg_step_chars b stack s :
  Forall (fun x => chars_all q x = true) stack -> chars_all q s = true ->
  Forall (fun x => chars_all q x = true) (seg_step b stack s).
Proof.
  intros Hst Hs. unfold seg_step.
  assert (Hdd : chars_all q ".." = true) by (simpl; rewrite q_dot; reflexivity).
  destruct ((s =? "") || (s =? ".")); [exact Hst|].
  destruct (s =? "..").
  - destruct stack as [|top below].
    + destruct b; repeat constructor; assumption.
    + inversion Hst; subst. destruct (top =? "..");
        [destruct b; [constructor; assumption|assumption]|assumption].
  - constructor; assumption.
Qed.

Lemma normalizeString_chars b p :
  chars_all q p = true -> Forall (fun x => chars_all q x = true) (normalizeString b p).
Proof.
  intros H. unfold normalizeString. apply Forall_rev.
  pose proof (split_on_chars "/" p H) as S.
  assert (G : forall segs st,
             Forall (fun x => chars_all q x = true) segs ->
             Forall (fun x => chars_all q x = true) st ->
             Forall (fun x => chars_all q x = true) (fold_left (seg_step b) segs st)).
  { induction segs as [|s segs IH]; intros st Hs Hst; [exact Hst|].
    inversion Hs; subst. simpl. apply IH; [assumption|apply seg_step_chars; assumption]. }
  apply G; [exact S|constructor].
Qed.

Lemma normalize_chars p : chars_all q p = true -> chars_all q (normalize p) = true.
Proof.
  intros H. unfold normalize.
  destruct (p =? ""); [simpl; rewrite q_dot; reflexivity|].
  pose proof (join_with_chars "/" (normalizeString (negb (isAbsolute p)) p)) as J.
  assert (Hb : chars_all q (join_with "/" (normalizeString (negb (isAbsolute p)) p)) = true).
  { apply J; [simpl; rewrite q_slash; reflexivity|apply normalizeString_chars, H]. }
  clear J. set (body := join_with "/" (normalizeString (negb (isAbsolute p)) p)) in *.
  destruct (body =? "").
  - destruct (isAbsolute p); [simpl; rewrite q_slash; reflexivity|].
    destruct (ends_with_char "/" p); simpl; rewrite q_dot, ?q_slash; reflexivity.
  - assert (Hs : chars_all q "/" = true) by (simpl; rewrite q_slash; reflexivity).
    destruct (ends_with_char "/" p), (isAbsolute p);
      rewrite ?chars_all_append, ?Hb, ?Hs; reflexivity.
Qed.

Lemma join_chars args :
  Forall (fun x => chars_all q x = true) args -> chars_all q (Path.join args) = true.
Proof.
  intros H. unfold Path.join.
  destruct (join_with "/" (filter nonempty args) =? "");
    [simpl; rewrite q_dot; reflexivity|].
  apply normalize_chars, join_with_chars; [simpl; rewrite q_slash; reflexivity|].
  apply Forall_forall. intros x Hx. apply filter_In in Hx.
  rewrite Forall_forall in H. apply H, Hx.
Qed.

Lemma dirname_chars p : chars_all q p = true -> chars_all q (dirname p) = true.
Proof.
  intros H. unfold dirname. destruct p as [|c0 rest]; [simpl; rewrite q_dot; reflexivity|].
  simpl in H. apply andb_true_iff in H. destruct H as [H0 Hr].
  set (t2 := drop_while (fun a => negb (is_slash a))
                        (drop_while is_slash (rev (list_ascii_of_string rest)))).
  assert (Ht2 : forallb q t2 = true).
  { subst t2. apply drop_while_forallb, drop_while_forallb.
    rewrite TagFacts.forallb_rev, <- TagFacts.chars_all_forallb. exact Hr. }
  destruct t2 as [|x before].
  - destruct (is_slash c0); simpl; rewrite ?q_slash, ?q_dot; reflexivity.
  - destruct (is_slash c0 && Nat.eqb (List.length (x :: before)) 1);
      [simpl; rewrite q_slash; reflexivity|].
    simpl. rewrite H0, of_list, TagFacts.forallb_rev.
    simpl in Ht2. apply andb_true_iff in Ht2. apply Ht2.
Qed.

Lemma basename_chars p : chars_all q p = true -> chars_all q (basename p) = true.
Proof.
  intros H. unfold basename. rewrite of_list, TagFacts.forallb_rev.
  apply take_while_forallb, drop_while_forallb.
  rewrite TagFacts.forallb_rev, <- TagFacts.chars_all_forallb. exact H.
Qed.

Lemma slice_from_chars n : forall s,
  chars_all q s = true -> chars_all q (slice_from n s) = true.
Proof.
  induction n as [|n IH]; intros s H; [exact H|].
  destruct s as [|a s]; [reflexivity|]. simpl in *.
  apply andb_true_iff in H. apply IH, H.
Qed.

Lemma extname_chars p : chars_all q p = true -> chars_all q (extname p) = true.
Proof.
  intros H. unfold extname. pose proof (basename_chars p H) as B.
  destruct (last_index_of "." (basename p)) as [[|i]|]; try reflexivity.
  destruct (basename p =? ".."); [reflexivity|]. apply slice_from_chars, B.
Qed.

Lemma trim_left_chars s : chars_all q s = true -> chars_all q (trim_left s) = true.
Proof.
  induction s as [|a s IH]; intros H; [reflexivity|]. simpl in *.
  apply andb_true_iff in H. destruct H as [Ha Hs].
  destruct (is_space a); [apply IH, Hs|]. simpl. rewrite Ha. exact Hs.
Qed.

Lemma trim_chars s : chars_all q s = true -> chars_all q (trim s) = true.
Proof.
  intros H. unfold trim. rewrite of_list, TagFacts.forallb_rev.
  apply drop_while_forallb. rewrite TagFacts.forallb_rev, <- TagFacts.chars_all_forallb.
  apply trim_left_chars, H.
Qed.

End Class.

Lemma no_backslash_iff s : chars_all not_backslash s = true <-> has_char "\" s = false.
Proof.
  induction s as [|a s IH]; simpl; [tauto|]. unfold not_backslash at 1.
  rewrite andb_true_iff, orb_false_iff, negb_true_iff, IH. tauto.
Qed.

End PathCharFacts.

Module RenameFileFacts.

Lemma fileById_setFileName st id n :
  fileById (setFileName st id n) id
  = map (fun f => {| Files.Id := Files.Id f; Files.FolderId := Files.FolderId f;
                     Files.Name := n; Files.StoragePath := Files.StoragePath f;
                     Files.SizeBytes := Files.SizeBytes f;
                     Files.MimeType := Files.MimeType f |})
        (fileById st id).
Proof.
  unfold fileById, setFileName. cbn [Files].
  induction (Files st) as [|f l IH]; [reflexivity|]. simpl.
  destruct (Z.eqb (Files.Id f) id) eqn:E; simpl; rewrite E, IH; reflexivity.
Qed.

Lemma fileById_setStoragePath st id sp :
  fileById (setStoragePath st id sp) id
  = map (fun f => {| Files.Id := Files.Id f; Files.FolderId := Files.FolderId f;
                     Files.Name := Files.Name f; Files.StoragePath := sp;
                     Files.SizeBytes := Files.SizeBytes f;
                     Files.MimeType := Files.MimeType f |})
        (fileById st id).
Proof.
  unfold fileById, setStoragePath. cbn [Files].
  induction (Files st) as [|f l IH]; [reflexivity|]. simpl.
  destruct (Z.eqb (Files.Id f) id) eqn:E; simpl; rewrite E, IH; reflexivity.
Qed.

Lemma ids_setFileName st id n :
  map Files.Id (Files (setFileName st id n)) = map Files.Id (Files st).
Proof.
  unfold setFileName. cbn [Files]. rewrite map_map. apply map_ext.
  intros f. destruct (Z.eqb (Files.Id f) id); reflexivity.
Qed.

Lemma ids_setStoragePath st id sp :
  map Files.Id (Files (setStoragePath st id sp)) = map Files.Id (Files st).
Proof.
  unfold setStoragePath. cbn [Files]. rewrite map_map. apply map_ext.
  intros f. destruct (Z.eqb (Files.Id f) id); reflexivity.
Qed.

Lemma others_setFileName st id n f :
  In f (Files st) -> Files.Id f <> id -> In f (Files (setFileName st id n)).
Proof.
  intros Hf Hid. unfold setFileName. cbn [Files]. apply in_map_iff. exists f.
  apply Z.eqb_neq in Hid. rewrite Hid. auto.
Qed.

Lemma others_setStoragePath st id sp f :
  In f (Files st) -> Files.Id f <> id -> In f (Files (setStoragePath st id sp)).
Proof.
  intros Hf Hid. unfold setStoragePath. cbn [Files]. apply in_map_iff. exists f.
  apply Z.eqb_neq in Hid. rewrite Hid. auto.
Qed.

End RenameFileFacts.

(** X14.  [PATCH /api/file/:id] of the current build keeps the record and the
    disk together.  For a recorded file whose storage path can be accessed
    (no backslash in the storage path, the old and the new name; the new
    name ASCII text that is not blank), the answer
    is 200 with the row under its new, trimmed name, in the same folder and
    with the same size, and the storage path of that row can be accessed on
    the disk as the request leaves it - whether the file was renamed beside
    itself or, the target being taken or the rename failing, left where it
    was.  Folders and tag links are untouched, the ids of the files are the
    same and the rows of other files are kept. *)
Theorem X14_renameFile_keeps_record_on_disk :
  forall (env : Env) (w : World) (id : Z) (name : string)
         (file : Files.row) (others : list Files.row),
    id <> 0%Z ->
    Text.is_ascii_text name = true ->
    Str.blank name = false ->
    fileById (store w) id = file :: others ->
    Disk.access (cwd env) (disk w) (Files.StoragePath file) = true ->
    Str.has_char "\" (Files.StoragePath file) = false ->
    Str.has_char "\" (Files.Name file) = false ->
    Str.has_char "\" name = false ->
    let r := renameFile env w id name in
    exists f',
      snd r = Ok200 (Some f')
      /\ Files.Id f' = id
      /\ Files.Name f' = Text.trim name
      /\ Files.FolderId f' = Files.FolderId file
      /\ Files.SizeBytes f' = Files.SizeBytes file
      /\ Disk.access (cwd env) (disk (fst r)) (Files.StoragePath f') = true
      /\ Folders (store (fst r)) = Folders (store w)
      /\ FileTags (store (fst r)) = FileTags (store w)
      /\ FolderTags (store (fst r)) = FolderTags (store w)
      /\ map Files.Id (Files (store (fst r))) = map Files.Id (Files (store w))
      /\ (forall f, In f (Files (store w)) -> Files.Id f <> id ->
                    In f (Files (store (fst r)))).
Proof.
  intros env w id name file others Hid _ Hb Hf Hacc Hsp Hon Hn r. subst r.
  assert (Hfid : Files.Id file = id).
  { assert (Hin : In file (fileById (store w) id)) by (rewrite Hf; left; reflexivity).
    unfold fileById in Hin. apply filter_In in Hin. apply Z.eqb_eq, Hin. }
  unfold renameFile. apply Z.eqb_neq in Hid. rewrite Hid, Hb, Hf.
  set (newPath := Path.join [Path.dirname (Files.StoragePath file);
                             Text.trim name +++ extname (Files.Name file)]).
  set (st1 := setFileName (store w) id (Text.trim name)).
  assert (Hnew : Str.replace_char "\" "/" newPath = newPath).
  { apply StrFacts.replace_char_absent. apply PathCharFacts.no_backslash_iff.
    subst newPath. apply PathCharFacts.join_chars; try reflexivity.
    constructor; [|constructor; [|constructor]].
    - apply PathCharFacts.dirname_chars; try reflexivity.
      apply PathCharFacts.no_backslash_iff, Hsp.
    - rewrite TextFacts.chars_all_append. apply andb_true_iff. split.
      + apply PathCharFacts.trim_chars, PathCharFacts.no_backslash_iff, Hn.
      + apply PathCharFacts.extname_chars, PathCharFacts.no_backslash_iff, Hon. }
  assert (Stay : exists f',
             Ok200 (hd_error (fileById st1 id)) = Ok200 (Some f')
             /\ Files.Id f' = id /\ Files.Name f' = Text.trim name
             /\ Files.FolderId f' = Files.FolderId file
             /\ Files.SizeBytes f' = Files.SizeBytes file
             /\ Disk.access (cwd env) (disk w) (Files.StoragePath f') = true
             /\ Folders st1 = Folders (store w)
             /\ FileTags st1 = FileTags (store w)
             /\ FolderTags st1 = FolderTags (store w)
             /\ map Files.Id (Files st1) = map Files.Id (Files (store w))
             /\ (forall f, In f (Files (store w)) -> Files.Id f <> id -> In f (Files st1))).
  { subst st1. rewrite RenameFileFacts.fileById_setFileName, Hf. cbn [map hd_error].
    eexists. split; [reflexivity|]. cbn.
    repeat (split; [first [reflexivity | exact Hfid | exact Hacc]|]).
    split; [apply RenameFileFacts.ids_setFileName|].
    intros f. apply RenameFileFacts.others_setFileName. }
  destruct (Str.nonempty (Files.StoragePath file)
            && Disk.access (cwd env) (disk w) (Files.StoragePath file));
    [|exact Stay].
  destruct (Disk.access (cwd env) (disk w) newPath); [exact Stay|].
  destruct (Disk.rename (disk w) (Path.resolve_segs (cwd env) (Files.StoragePath file))
                        (Path.resolve_segs (cwd env) newPath)) as [d|] eqn:Er;
    [|exact Stay].
  cbn [fst snd store disk]. rewrite Hnew.
  rewrite RenameFileFacts.fileById_setStoragePath. subst st1.
  rewrite RenameFileFacts.fileById_setFileName, Hf. cbn [map hd_error].
  eexists. split; [reflexivity|]. cbn [Files.Id Files.Name Files.FolderId Files.SizeBytes
                                       Files.StoragePath].
  split; [exact Hfid|]. split; [reflexivity|]. split; [reflexivity|].
  split; [reflexivity|]. split.
  - destruct (MkdirFacts.rename_lookup _ _ _ _ Er) as (sub & _ & L).
    unfold Disk.access, Disk.at_path. rewrite L. reflexivity.
  - split; [reflexivity|]. split; [reflexivity|]. split; [reflexivity|]. split.
    + rewrite RenameFileFacts.ids_setStoragePath. apply RenameFileFacts.ids_setFileName.
    + intros f Hin Hne. apply RenameFileFacts.others_setStoragePath; [|exact Hne].
      apply RenameFileFacts.others_setFileName; assumption.
Qed.

Lemma X14_renameFile_keeps_record_on_disk_witness :
  let w := Fixtures.world_of Samples.store_report Samples.disk_report in
  map Files.StoragePath (Files (store (fst (renameFile Fixtures.env0 w 7 " notes "))))
  = ["/srv/tagger/uploads/root/notes.txt"]
  /\ map Files.StoragePath (Files (store (fst (renameFile Fixtures.env0 w 7 "taken"))))
     = ["/srv/tagger/uploads/root/report.txt"]
  /\ exists f',
       snd (renameFile Fixtures.env0 w 7 " notes ") = Ok200 (Some f')
       /\ Files.Name f' = "notes"
       /\ Disk.access (cwd Fixtures.env0)
            (disk (fst (renameFile Fixtures.env0 w 7 " notes "))) (Files.StoragePath f')
          = true.
Proof.
  intros w. split; [reflexivity|]. split; [reflexivity|].
  assert (H1 : 7%Z <> 0%Z) by discriminate.
  assert (H2 : fileById (store w) 7
               = [Fixtures.file_row 7 1 "report.txt"
                                    "/srv/tagger/uploads/root/report.txt" 10])
    by reflexivity.
  destruct (X14_renameFile_keeps_record_on_disk Fixtures.env0 w 7 " notes " _ _ H1
              eq_refl eq_refl H2 eq_refl eq_refl eq_refl eq_refl)
    as (f' & A & _ & B & _ & _ & C & _).
  exists f'. split; [exact A|]. split; [exact B|exact C].
Defined.

(** ** Requests that are refused *)

Module RefusalFacts.

Lemma setFileName_unmatched st id n : fileById st id = [] -> setFileName st id n = st.
Proof.
  intros H. unfold setFileName. unfold fileById in H.
  rewrite (FileFacts.map_unmatched _ _ _ H). destruct st; reflexivity.
Qed.

Lemma with_store_same w : with_store w (store w) = w.
Proof. destruct w; reflexivity. Qed.

End RefusalFacts.

(** X15.  A request that is turned down has changed nothing: whenever
    [POST /api/folders], [DELETE /api/folder/:id], [PATCH /api/folder/:id],
    [DELETE /api/file/:id] or [PATCH /api/file/:id] (of either build) answers
    400 or 404, the store, the disk and the queue are as before the request.
    (The answer 500 is another matter: it can come after the directory has
    been made or a statement has run.) *)
Theorem X15_refused_requests_change_nothing :
  forall (env : Env) (w : World),
    (forall name parentId,
        refused (snd (createFolder env w name parentId)) = true ->
        fst (createFolder env w name parentId) = w)
    /\ (forall id,
          refused (snd (deleteFolder env w id)) = true -> fst (deleteFolder env w id) = w)
    /\ (forall id name,
          refused (snd (renameFolder env w id name)) = true ->
          fst (renameFolder env w id name) = w)
    /\ (forall id, refused (snd (deleteFile w id)) = true -> fst (deleteFile w id) = w)
    /\ (forall id name,
          refused (snd (renameFile env w id name)) = true ->
          fst (renameFile env w id name) = w)
    /\ (forall id name,
          refused (snd (renameFileRecord w id name)) = true ->
          fst (renameFileRecord w id name) = w).
Proof.
  intros env w. split; [|split; [|split; [|split; [|split]]]].
  - intros name parentId. unfold createFolder.
    destruct (Str.blank name); [reflexivity|].
    destruct (match truthy_id parentId with
              | Some pid => match Db.folderById (store w) pid with
                            | p :: _ => Some (Some (Folders.Id p), Folders.FullPath p)
                            | [] => None
                            end
              | None => Some (None, "/root")
              end) as [[pid ppath]|]; [|reflexivity].
    destruct (ensureDiskFolder env (disk w) (ppath +++ "/" +++ name));
      cbn; discriminate.
  - intros id. unfold deleteFolder. destruct (Z.eqb id 0); [reflexivity|].
    destruct (Db.folderById (store w) id); [reflexivity|]. cbn. discriminate.
  - intros id name. unfold renameFolder. destruct (Z.eqb id 0); [reflexivity|].
    destruct (Str.blank name); [reflexivity|].
    destruct (Db.folderById (store w) id); [reflexivity|]. cbn. discriminate.
  - intros id. unfold deleteFile. destruct (Z.eqb id 0); [reflexivity|].
    destruct (fileById (store w) id); [reflexivity|]. cbn. discriminate.
  - intros id name. unfold renameFile. destruct (Z.eqb id 0); [reflexivity|].
    destruct (Str.blank name); [reflexivity|].
    destruct (fileById (store w) id); [reflexivity|]. cbn. discriminate.
  - intros id name. unfold renameFileRecord. destruct (Z.eqb id 0); [reflexivity|].
    destruct (Str.blank name); [reflexivity|].
    destruct (fileById (setFileName (store w) id (Text.trim name)) id) eqn:E;
      [|cbn; discriminate].
    intros _. cbn [fst].
    rewrite RenameFileFacts.fileById_setFileName in E.
    destruct (fileById (store w) id) eqn:E0; [|discriminate].
    rewrite (RefusalFacts.setFileName_unmatched _ _ _ E0).
    apply RefusalFacts.with_store_same.
Qed.

Lemma X15_refused_requests_change_nothing_witness :
  let w := Fixtures.world_of Samples.store_report Samples.disk_report in
  snd (createFolder Fixtures.env0 w "drafts" (Some 9%Z)) = BadRequest400 "Parent not found"
  /\ fst (createFolder Fixtures.env0 w "drafts" (Some 9%Z)) = w
  /\ snd (renameFileRecord w 9 "a") = NotFound404 "File not found"
  /\ fst (renameFileRecord w 9 "a") = w.
Proof.
  intros w.
  destruct (X15_refused_requests_change_nothing Fixtures.env0 w)
    as (A & _ & _ & _ & _ & B).
  split; [reflexivity|]. split; [apply A; reflexivity|].
  split; [reflexivity|apply B; reflexivity].
Defined.

(** ** Folders created by request and by upload *)

Module TreeFacts.
Import Str.

Lemma existsb_app_l {A : Type} (f : A -> bool) l l' :
  existsb f l = true -> existsb f (l ++ l') = true.
Proof. intros H. rewrite existsb_app, H. reflexivity. Qed.

(** Appending a row whose parent path is recorded keeps the paths closed. *)
Lemma ancestor_closed_snoc st st' row :
  Folders st' = Folders st ++ [row] ->
  ancestor_closed st = true ->
  match parent_of (Folders.FullPath row) with
  | Some p => existsb (fun a => Folders.FullPath a =? p) (Folders st ++ [row])
  | None => true
  end = true ->
  ancestor_closed st' = true.
Proof.
  intros E H Hrow. unfold ancestor_closed in *. rewrite E, forallb_app.
  apply andb_true_iff. split.
  - rewrite forallb_forall in *. intros r Hr. specialize (H r Hr).
    destruct (parent_of (Folders.FullPath r)); [|reflexivity].
    apply existsb_app_l, H.
  - cbn [forallb]. rewrite andb_true_r. exact Hrow.
Qed.

Lemma paths_follow_parents_snoc st st' row :
  Folders st' = Folders st ++ [row] ->
  paths_follow_parents st = true ->
  match Folders.ParentId row with
  | Some pid =>
      existsb (fun a => Z.eqb (Folders.Id a) pid
                        && (Folders.FullPath row
                            =? Folders.FullPath a +++ "/" +++ Folders.Name row))
              (Folders st ++ [row])
  | None => true
  end = true ->
  paths_follow_parents st' = true.
Proof.
  intros E H Hrow. unfold paths_follow_parents in *. rewrite E, forallb_app.
  apply andb_true_iff. split.
  - rewrite forallb_forall in *. intros r Hr. specialize (H r Hr).
    destruct (Folders.ParentId r); [|reflexivity].
    apply existsb_app_l, H.
  - cbn [forallb]. rewrite andb_true_r. exact Hrow.
Qed.

Lemma folderById_In st id r :
  In r (Db.folderById st id) -> In r (Folders st) /\ Folders.Id r = id.
Proof.
  unfold Db.folderById. rewrite filter_In. intros [H E]. apply Z.eqb_eq in E. auto.
Qed.

(** The row of a new child: its parent's path is found, and the child's path
    follows from the parent's. *)
Lemma child_row_ok st parent name :
  In parent (Folders st) ->
  let row := {| Folders.Id := nextFolderId st; Folders.Name := name;
                Folders.ParentId := Some (Folders.Id parent);
                Folders.FullPath := Folders.FullPath parent +++ "/" +++ name |} in
  (has_char "/" name = false ->
   match parent_of (Folders.FullPath row) with
   | Some p => existsb (fun a => Folders.FullPath a =? p) (Folders st ++ [row])
   | None => true
   end = true)
  /\ existsb (fun a => Z.eqb (Folders.Id a) (Folders.Id parent)
                       && (Folders.FullPath row
                           =? Folders.FullPath a +++ "/" +++ Folders.Name row))
             (Folders st ++ [row]) = true.
Proof.
  intros Hin row. split.
  - intros Hs. subst row. cbn [Folders.FullPath].
    rewrite ChildFacts.parent_of_child by exact Hs.
    destruct (Folders.FullPath parent) eqn:E; [reflexivity|]. rewrite <- E.
    apply existsb_app_l, existsb_exists. exists parent. split; [exact Hin|].
    apply String.eqb_refl.
  - apply existsb_app_l, existsb_exists. exists parent. split; [exact Hin|].
    subst row. cbn. rewrite Z.eqb_refl, String.eqb_refl. reflexivity.
Qed.

Lemma stripped_no_slash segment :
  has_char "/" (remove_chars is_slash_or_backslash segment) = false.
Proof.
  apply (TextFacts.chars_all_no_char (fun a => negb (is_slash_or_backslash a))).
  - apply TagFacts.remove_chars_clean.
  - reflexivity.
Qed.

End TreeFacts.

(** X16.  What a [POST /api/folders] that answers 201 has done: one row is
    appended to the folders, with the next id, the name as sent and the path
    of the parent, a slash and the name; files, tag links and the queue are
    untouched; the directory of the new folder exists on the disk; the rule
    that a folder's path is its parent's path, a slash and its name is kept;
    and the paths stay closed under ancestors when the name holds no slash
    and, for a request with no [parentId], [/root] is a recorded path (the
    parent path is [/root] then, and the handler does not see to it that
    [/root] is recorded). *)
Theorem X16_createFolder_outcome :
  forall (env : Env) (w w' : World) (name : string) (parentId : option Z)
         (row : Folders.row),
    createFolder env w name parentId = (w', Created201 row) ->
    Folders (store w') = Folders (store w) ++ [row]
    /\ Files (store w') = Files (store w)
    /\ FileTags (store w') = FileTags (store w)
    /\ FolderTags (store w') = FolderTags (store w)
    /\ queue w' = queue w
    /\ Folders.Id row = nextFolderId (store w)
    /\ Folders.Name row = name
    /\ ((exists parent, In parent (Folders (store w))
                        /\ parentId = Some (Folders.Id parent)
                        /\ Folders.ParentId row = Some (Folders.Id parent)
                        /\ Folders.FullPath row = Folders.FullPath parent +++ "/" +++ name)
        \/ (truthy_id parentId = None /\ Folders.ParentId row = None
            /\ Folders.FullPath row = "/root" +++ "/" +++ name))
    /\ Disk.access (cwd env) (disk w') (fullPathToPhysical env (Folders.FullPath row)) = true
    /\ (paths_follow_parents (store w) = true -> paths_follow_parents (store w') = true)
    /\ (Str.has_char "/" name = false ->
        ancestor_closed (store w) = true ->
        (truthy_id parentId = None ->
         existsb (fun a => Folders.FullPath a =? "/root") (Folders (store w)) = true) ->
        ancestor_closed (store w') = true).
Proof.
  intros env w w' name parentId row H. unfold createFolder in H.
  destruct (Str.blank name); [discriminate|].
  destruct (truthy_id parentId) as [pid|] eqn:Et.
  - destruct (Db.folderById (store w) pid) as [|p ps] eqn:Ep; [discriminate|].
    destruct (ensureDiskFolder env (disk w) (Folders.FullPath p +++ "/" +++ name))
      as [d'|] eqn:Ed; [|discriminate].
    cbn [Db.insertFolder] in H. inversion H; subst w' row. clear H.
    cbn [store disk queue Folders Files FileTags FolderTags Folders.Id Folders.Name
         Folders.ParentId Folders.FullPath].
    assert (Hp : In p (Folders (store w)) /\ Folders.Id p = pid).
    { apply TreeFacts.folderById_In. rewrite Ep. left. reflexivity. }
    destruct Hp as [Hin Hpid].
    assert (Hparent : parentId = Some pid).
    { unfold truthy_id in Et. destruct parentId as [z|]; [|discriminate].
      destruct (Z.eqb z 0); [discriminate|exact Et]. }
    destruct (TreeFacts.child_row_ok (store w) p name Hin) as [Hc Hf].
    cbv zeta in Hc, Hf. rewrite Hpid in *.
    repeat (split; [reflexivity|]).
    split; [left; exists p; rewrite Hpid; auto|].
    split; [|split].
    + destruct (MkdirFacts.mkdir_p_lookup _ _ _ Ed) as (r & es & L).
      unfold Disk.access, Disk.at_path. cbn [String.append] in L |- *.
      rewrite L. reflexivity.
    + intros Hpf. eapply TreeFacts.paths_follow_parents_snoc; [reflexivity|exact Hpf|].
      exact Hf.
    + intros Hs Hac _. eapply TreeFacts.ancestor_closed_snoc; [reflexivity|exact Hac|].
      apply Hc, Hs.
  - destruct (ensureDiskFolder env (disk w) ("/root" +++ "/" +++ name))
      as [d'|] eqn:Ed; [|discriminate].
    cbn [Db.insertFolder] in H. inversion H; subst w' row. clear H.
    cbn [store disk queue Folders Files FileTags FolderTags Folders.Id Folders.Name
         Folders.ParentId Folders.FullPath].
    repeat (split; [reflexivity|]).
    split; [right; auto|].
    split; [|split].
    + destruct (MkdirFacts.mkdir_p_lookup _ _ _ Ed) as (r & es & L).
      unfold Disk.access, Disk.at_path. cbn [String.append] in L |- *.
      rewrite L. reflexivity.
    + intros Hpf. eapply TreeFacts.paths_follow_parents_snoc; [reflexivity|exact Hpf|].
      reflexivity.
    + intros Hs Hac Hroot. eapply TreeFacts.ancestor_closed_snoc; [reflexivity|exact Hac|].
      cbn [Folders.FullPath].
      pose proof (ChildFacts.parent_of_child "/root" name Hs) as P.
      cbn [String.append] in P |- *. rewrite P.
      apply TreeFacts.existsb_app_l, Hroot; reflexivity.
Qed.

Lemma X16_createFolder_outcome_witness :
  let w := Fixtures.world_of Fixtures.store_root Fixtures.disk_empty_root in
  let r := createFolder Fixtures.env0 w "docs" (Some 1%Z) in
  snd r = Created201 (Fixtures.folder_row 100 "docs" (Some 1%Z) "/root/docs")
  /\ ancestor_closed (store (fst r)) = true
  /\ Disk.access (cwd Fixtures.env0) (disk (fst r)) "/srv/tagger/uploads/root/docs" = true.
Proof.
  intros w r.
  assert (H : createFolder Fixtures.env0 w "docs" (Some 1%Z)
              = (fst r, Created201 (Fixtures.folder_row 100 "docs" (Some 1%Z) "/root/docs")))
    by reflexivity.
  destruct (X16_createFolder_outcome Fixtures.env0 w (fst r) "docs" (Some 1%Z) _ H)
    as (_ & _ & _ & _ & _ & _ & _ & _ & A & _ & C).
  split; [reflexivity|]. split; [|exact A].
  apply C; [reflexivity|reflexivity|discriminate].
Defined.

Module ChainFacts.
Import Str.

Lemma gains_refl w : gains_folders w w.
Proof.
  unfold gains_folders. split; [exists []; rewrite app_nil_r; reflexivity|].
  repeat split; auto.
Qed.

Lemma gains_trans w1 w2 w3 :
  gains_folders w1 w2 -> gains_folders w2 w3 -> gains_folders w1 w3.
Proof.
  intros ((a1 & A1) & B1 & C1 & D1 & E1 & F1 & G1 & H1)
         ((a2 & A2) & B2 & C2 & D2 & E2 & F2 & G2 & H2).
  unfold gains_folders. split; [exists (a1 ++ a2); rewrite A2, A1, app_assoc; reflexivity|].
  repeat split; try congruence; auto.
Qed.

Lemma names_folder_gains w w1 id path :
  gains_folders w w1 -> names_folder (store w) id path -> names_folder (store w1) id path.
Proof.
  intros ((a & A) & _) (b & Hb & E1 & E2). exists b. rewrite A.
  split; [apply in_or_app; left; exact Hb|auto].
Qed.

Lemma fold_none env segs : fold_left (ensureFolderStep env) segs None = None.
Proof. induction segs as [|s segs IH]; [reflexivity|exact IH]. Qed.

(** One round of the loop: the folder found or made is recorded, and only
    folders were added. *)
Lemma step_spec env w cid cpath seg w1 id1 path1 :
  ensureFolderStep env (Some (w, (cid, cpath))) seg = Some (w1, (id1, path1)) ->
  names_folder (store w) cid cpath ->
  gains_folders w w1 /\ names_folder (store w1) id1 path1.
Proof.
  intros H (b & Hb & Eid & Epath). unfold ensureFolderStep in H.
  destruct (negb (nonempty seg)).
  - inversion H; subst. split; [apply gains_refl|]. exists b. auto.
  - set (name := remove_chars is_slash_or_backslash seg) in *.
    destruct (filter _ (Folders (store w))) as [|r rs] eqn:Ef.
    + destruct (ensureDiskFolder env (disk w) (cpath +++ "/" +++ name)) as [d'|] eqn:Ed;
        [|discriminate].
      cbn [Db.insertFolder] in H. inversion H; subst w1 id1 path1. clear H.
      cbn [Folders.Id Folders.FullPath].
      destruct (TreeFacts.child_row_ok (store w) b name Hb) as [Hc Hf].
      cbv zeta in Hc, Hf. rewrite Eid, Epath in *.
      split.
      * unfold gains_folders.
        cbn [store disk queue Folders Files FileTags FolderTags].
        split; [eexists; reflexivity|]. repeat (split; [reflexivity|]).
        split; [|split].
        { intros Hac. eapply TreeFacts.ancestor_closed_snoc; [reflexivity|exact Hac|].
          apply Hc. apply TreeFacts.stripped_no_slash. }
        { intros Hpf. eapply TreeFacts.paths_follow_parents_snoc; [reflexivity|exact Hpf|].
          exact Hf. }
        { intros q z L. apply (MkdirFacts.mkdir_p_keeps _ _ _ _ _ Ed L). }
      * eexists. cbn [store Folders]. split; [apply in_or_app; right; left; reflexivity|].
        split; reflexivity.
    + inversion H; subst w1 id1 path1. split; [apply gains_refl|].
      exists r. split; [|auto].
      assert (Hin : In r (filter (fun f => Db.sql_eq (Folders.ParentId f) (Some cid)
                                          && Sql.str_eq (Folders.Name f) name)
                                 (Folders (store w)))) by (rewrite Ef; left; reflexivity).
      apply filter_In in Hin. apply Hin.
Qed.

Lemma chain_spec env : forall subDirs w cid cpath w' id path,
  fold_left (ensureFolderStep env) subDirs (Some (w, (cid, cpath))) = Some (w', (id, path)) ->
  names_folder (store w) cid cpath ->
  gains_folders w w' /\ names_folder (store w') id path.
Proof.
  induction subDirs as [|s rest IH]; intros w cid cpath w' id path H Hn.
  - simpl in H. inversion H; subst. split; [apply gains_refl|exact Hn].
  - cbn [fold_left] in H.
    destruct (ensureFolderStep env (Some (w, (cid, cpath))) s) as [[w1 [id1 path1]]|] eqn:Es.
    + destruct (step_spec _ _ _ _ _ _ _ _ Es Hn) as [G1 N1].
      destruct (IH _ _ _ _ _ _ H N1) as [G2 N2].
      split; [exact (gains_trans _ _ _ G1 G2)|exact N2].
    + rewrite fold_none in H. discriminate.
Qed.

End ChainFacts.

(** X17.  [ensureFolderChain], started from a recorded folder, returns the id
    and the path of a recorded folder; on the way it only appends folders to
    the table - files, tag links and the queue are untouched, no file on the
    disk is lost - and it keeps both rules on paths: closed under ancestors,
    and each path its parent's path, a slash and the name. *)
Theorem X17_ensureFolderChain_keeps_tree :
  forall (env : Env) (w w' : World) (baseId : Z) (basePath : string)
         (subDirs : list string) (id : Z) (path : string),
    ensureFolderChain env w baseId basePath subDirs = Some (w', (id, path)) ->
    (exists b, In b (Folders (store w)) /\ Folders.Id b = baseId
               /\ Folders.FullPath b = basePath) ->
    (exists r, In r (Folders (store w')) /\ Folders.Id r = id /\ Folders.FullPath r = path)
    /\ (exists added, Folders (store w') = Folders (store w) ++ added)
    /\ Files (store w') = Files (store w)
    /\ FileTags (store w') = FileTags (store w)
    /\ FolderTags (store w') = FolderTags (store w)
    /\ queue w' = queue w
    /\ (ancestor_closed (store w) = true -> ancestor_closed (store w') = true)
    /\ (paths_follow_parents (store w) = true -> paths_follow_parents (store w') = true)
    /\ (forall q z, Disk.lookup (disk w) q = Some (Disk.File z) ->
                    Disk.lookup (disk w') q = Some (Disk.File z)).
Proof.
  intros env w w' baseId basePath subDirs id path H Hb.
  destruct (ChainFacts.chain_spec env subDirs w baseId basePath w' id path H Hb) as [G N].
  split; [exact N|exact G].
Qed.

Lemma X17_ensureFolderChain_keeps_tree_witness :
  let w := Fixtures.world_of Fixtures.store_root Fixtures.disk_photos in
  exists w',
    ensureFolderChain Fixtures.env0 w 1 "/root" ["a/b"; ""; "c"]
    = Some (w', (101%Z, "/root/ab/c"))
    /\ map Folders.FullPath (Folders (store w')) = ["/root"; "/root/ab"; "/root/ab/c"]
    /\ ancestor_closed (store w') = true
    /\ Disk.lookup (disk w') ["srv"; "tagger"; "uploads"; "root"; "photos"; "2023"; "img1.jpg"]
       = Some (Disk.File 2048).
Proof.
  intros w.
  destruct (ensureFolderChain Fixtures.env0 w 1 "/root" ["a/b"; ""; "c"])
    as [[w' [id path]]|] eqn:E; [|discriminate E].
  assert (Eid : (id, path) = (101%Z, "/root/ab/c")).
  { assert (X : option_map snd (ensureFolderChain Fixtures.env0 w 1 "/root" ["a/b"; ""; "c"])
               = Some (101%Z, "/root/ab/c")) by reflexivity.
    rewrite E in X. inversion X. reflexivity. }
  assert (Ef : map Folders.FullPath (Folders (store w'))
               = ["/root"; "/root/ab"; "/root/ab/c"]).
  { assert (X : option_map (fun r => map Folders.FullPath (Folders (store (fst r))))
                           (ensureFolderChain Fixtures.env0 w 1 "/root" ["a/b"; ""; "c"])
               = Some ["/root"; "/root/ab"; "/root/ab/c"]) by reflexivity.
    rewrite E in X. inversion X. reflexivity. }
  inversion Eid; subst id path.
  assert (Hb : exists b, In b (Folders (store w)) /\ Folders.Id b = 1%Z
                         /\ Folders.FullPath b = "/root").
  { exists Fixtures.root_row. split; [left; reflexivity|split; reflexivity]. }
  destruct (X17_ensureFolderChain_keeps_tree Fixtures.env0 w w' 1 "/root" _ _ _ E Hb)
    as (_ & _ & _ & _ & _ & _ & A & _ & D).
  exists w'. split; [reflexivity|]. split; [exact Ef|]. split.
  - apply A. reflexivity.
  - apply D. reflexivity.
Defined.

(** ** Renaming a folder *)

Module RenameFacts.

Lemma substring_slice n : forall m s,
  String.length s <= n + m -> substring n m s = Str.slice_from n s.
Proof.
  induction n as [|n IH]; intros m s H.
  - simpl. revert s H. induction m as [|m IHm]; intros s H.
    + destruct s; [reflexivity|simpl in H; lia].
    + destruct s as [|a s]; [reflexivity|]. simpl. f_equal. apply IHm. simpl in H. lia.
  - destruct s as [|a s]; [reflexivity|]. simpl. apply IH. simpl in H. lia.
Qed.

Lemma SUBSTRING_rest old s :
  Sql.rtrim old = old -> String.length s <= 1000 ->
  Sql.SUBSTRING s (Sql.LEN old + 1) 2000 = Str.slice_from (String.length old) s.
Proof.
  intros Ht Hl. unfold Sql.SUBSTRING, Sql.LEN. rewrite Ht.
  replace (String.length old + 1 - 1) with (String.length old) by lia.
  replace (2000 - (1 - (String.length old + 1))) with 2000 by lia.
  apply substring_slice. lia.
Qed.

End RenameFacts.

(** X18.  [PATCH /api/folder/:id] with a name that is ASCII text and not
    blank, on a recorded folder whose path holds none of the wildcards of
    [LIKE] and no trailing blank (paths within the width of their column):
    every folder whose path begins with the old path - a
    sibling such as [/root/AB] beside [/root/A] included - gets the new path
    (the path of the parent, a slash and the new name) in place of that
    beginning, the other paths are kept; the folder itself gets
    the new name; ids, parents, the order of the rows, files, tag links and
    the queue are untouched.  The store after the request is the same
    whatever the disk is, so a rename that fails on disk does not undo it. *)
Theorem X18_renameFolder_substitutes_prefix :
  forall (env : Env) (w : World) (id : Z) (name : string)
         (folder : Folders.row) (others : list Folders.row),
    id <> 0%Z ->
    Text.is_ascii_text name = true ->
    Str.blank name = false ->
    Db.folderById (store w) id = folder :: others ->
    Sql.has_like_meta (Folders.FullPath folder) = false ->
    Sql.rtrim (Folders.FullPath folder) = Folders.FullPath folder ->
    Forall (fun r => String.length (Folders.FullPath r) <= 1000) (Folders (store w)) ->
    let old := Folders.FullPath folder in
    let parentFull :=
      match Folders.ParentId folder with
      | Some pid => match Db.folderById (store w) pid with
                    | p :: _ => Folders.FullPath p
                    | [] => "/root"
                    end
      | None => "/root"
      end in
    let new := parentFull +++ "/" +++ name in
    let w' := fst (renameFolder env w id name) in
    Folders (store w')
    = map (fun r =>
             {| Folders.Id := Folders.Id r;
                Folders.Name := if Z.eqb (Folders.Id r) id then name else Folders.Name r;
                Folders.ParentId := Folders.ParentId r;
                Folders.FullPath :=
                  if String.prefix old (Folders.FullPath r)
                  then new +++ Str.slice_from (String.length old) (Folders.FullPath r)
                  else Folders.FullPath r |})
          (Folders (store w))
    /\ Files (store w') = Files (store w)
    /\ FileTags (store w') = FileTags (store w)
    /\ FolderTags (store w') = FolderTags (store w)
    /\ queue w' = queue w
    /\ (forall d, store (fst (renameFolder env (with_disk w d) id name)) = store w').
Proof.
  intros env w id name folder others Hid _ Hb Hf Hmeta Hrt Hlen old parentFull new w'.
  subst w'. apply Z.eqb_neq in Hid.
  unfold renameFolder. cbn [with_disk store]. rewrite Hid, Hb, Hf.
  cbn [fst store queue renameFolderRows Folders Files FileTags FolderTags].
  fold old. fold parentFull. fold new.
  split; [|repeat split].
  rewrite map_map. apply map_ext_in. intros r Hr.
  rewrite Forall_forall in Hlen.
  rewrite (SqlFacts.like_plain_prefix old (Folders.FullPath r) Hmeta).
  destruct (String.prefix old (Folders.FullPath r)).
  - cbn [Folders.Id Folders.Name Folders.ParentId Folders.FullPath].
    rewrite (RenameFacts.SUBSTRING_rest old _ Hrt (Hlen r Hr)).
    destruct (Z.eqb (Folders.Id r) id); reflexivity.
  - destruct (Z.eqb (Folders.Id r) id); [reflexivity|]. destruct r; reflexivity.
Qed.

Lemma X18_renameFolder_substitutes_prefix_witness :
  let w := Fixtures.world_of Fixtures.store_siblings Fixtures.disk_empty_root in
  map Folders.FullPath (Folders (store w)) = ["/root"; "/root/A"; "/root/AB"]
  /\ map Folders.FullPath (Folders (store (fst (renameFolder Fixtures.env0 w 2 "A2"))))
     = ["/root"; "/root/A2"; "/root/A2B"].
Proof.
  intros w. split; [reflexivity|].
  assert (H1 : 2%Z <> 0%Z) by discriminate.
  assert (H3 : Db.folderById (store w) 2
               = [Fixtures.folder_row 2 "A" (Some 1%Z) "/root/A"]) by reflexivity.
  assert (H6 : Forall (fun r => String.length (Folders.FullPath r) <= 1000)
                      (Folders (store w))).
  { repeat constructor; simpl; lia. }
  destruct (X18_renameFolder_substitutes_prefix Fixtures.env0 w 2 "A2" _ _ H1 eq_refl
              eq_refl H3 eq_refl eq_refl H6) as (E & _).
  rewrite E. reflexivity.
Defined.

(** ** The reconciliation pass on any input *)

Module PassFacts.

(** The loop over the folders seen only appends rows, and the list of ids
    follows the rows. *)
Lemma folders_fold_appends folderId L : forall st m ids st' m' ids',
  fold_left (insertFolderStep folderId) L (st, m, ids) = (st', m', ids') ->
  (exists added,
      Folders st' = Folders st ++ added
      /\ ids' = ids ++ map Folders.Id added
      /\ forall r, In r added -> In (Folders.FullPath r) L)
  /\ Files st' = Files st /\ FileTags st' = FileTags st /\ FolderTags st' = FolderTags st.
Proof.
  induction L as [|x L IH]; intros st m ids st' m' ids' E.
  - simpl in E. inversion E; subst.
    split; [exists []; rewrite !app_nil_r; repeat split; intros r []|]. repeat split.
  - cbn [fold_left] in E.
    destruct (insertFolderStep folderId (st, m, ids) x) as [[st1 m1] ids1] eqn:Es.
    destruct (IH _ _ _ _ _ _ E) as ((added & A1 & A2 & A3) & B & C & D).
    unfold insertFolderStep in Es.
    destruct (map_get x m).
    + inversion Es; subst st1 m1 ids1.
      split; [|repeat split; assumption].
      exists added. repeat split; try assumption. intros r Hr. right. apply A3, Hr.
    + cbn [Db.insertFolder] in Es. inversion Es; subst st1 m1 ids1. clear Es.
      cbn [Folders Files FileTags FolderTags Folders.Id] in *.
      split; [|repeat split; assumption].
      eexists (_ :: added). rewrite A1, A2, <- !app_assoc. cbn [app map Folders.Id].
      split; [reflexivity|]. split; [reflexivity|].
      intros r [<-|Hr]; [left; reflexivity|right; apply A3, Hr].
Qed.

End PassFacts.

(** X19.  What a pass of [discoverAndSyncFolderRecursive] never does, for
    every store, disk, queue, folder id and path: it leaves the disk as it
    is; it removes and changes no row - folders and files are only appended,
    tag links are untouched; and the jobs it enqueues are cleanups of rows,
    none of which touches the disk. *)
Theorem X19_sync_never_deletes :
  forall (env : Env) (w : World) (folderId : option Z) (folderFullPath : string),
    let w' := discoverAndSyncFolderRecursive env w folderId folderFullPath in
    disk w' = disk w
    /\ (exists added, Folders (store w') = Folders (store w) ++ added)
    /\ (exists added, Files (store w') = Files (store w) ++ added)
    /\ FileTags (store w') = FileTags (store w)
    /\ FolderTags (store w') = FolderTags (store w)
    /\ exists new,
         queue w' = JobQueue.run job_behaviour (queue w) (map (@JobQueue.Enqueue job) new)
         /\ forall j, In j new ->
              is_cleanup j = true /\ forall w0, disk (run_job env w0 j) = disk w0.
Proof.
  intros env w folderId folderFullPath w'. subst w'.
  unfold discoverAndSyncFolderRecursive.
  destruct (negb (Disk.access (cwd env) (disk w) (fullPathToPhysical env folderFullPath))).
  - split; [reflexivity|]. split; [exists []; rewrite app_nil_r; reflexivity|].
    split; [exists []; rewrite app_nil_r; reflexivity|].
    split; [reflexivity|]. split; [reflexivity|]. exists []. split; [reflexivity|].
    intros j [].
  - cbv zeta.
    set (seen := match Disk.readdir (cwd env) (disk w)
                         (fullPathToPhysical env folderFullPath) with
                 | Some es => walkDir env (fullPathToPhysical env folderFullPath) es ([], [])
                 | None => ([], [])
                 end).
    set (pat := folderFullPath +++ "%").
    match goal with
    | |- context [fold_left (insertFolderStep folderId) ?L ?acc] =>
        destruct (fold_left (insertFolderStep folderId) L acc) as [[st1 m1] ids1] eqn:EL
    end.
    destruct (PassFacts.folders_fold_appends _ _ _ _ _ _ _ _ EL)
      as ((afo & A1 & _ & _) & A2 & A3 & A4).
    match goal with
    | |- context [fold_left (insertFileStep env (disk w) m1 ?known) ?F st1] =>
        destruct (SyncFacts.insert_files_spec env (disk w) m1 known F st1)
          as (G1 & G2 & G3 & _ & _ & (afi & Eai & _) & _);
        set (st2 := fold_left (insertFileStep env (disk w) m1 known) F st1) in *
    end.
    destruct (SyncFacts.fold_cond_enqueue_parts
                (fun rf : Files.row => set_has (Files.StoragePath rf) (snd seen))
                (fun rf => JobCleanFile (Files.Id rf))
                (Db.filesUnderLike st2 pat) (with_store w st2)) as (P1 & P2 & P3).
    destruct (SyncFacts.fold_cond_enqueue_parts
                (fun rf : Folders.row =>
                   set_has (Folders.FullPath rf) (set_add folderFullPath (fst seen)))
                (fun rf => JobCleanFolder (Folders.Id rf))
                (Db.foldersLike st2 pat)
                (fold_left (fun w' rf => if set_has (Files.StoragePath rf) (snd seen)
                                         then w'
                                         else enqueue_job w' (JobCleanFile (Files.Id rf)))
                           (Db.filesUnderLike st2 pat) (with_store w st2)))
      as (Q1 & Q2 & Q3).
    cbv zeta in P1, P2, P3, Q1, Q2, Q3.
    rewrite Q1, Q2, Q3, P1, P2, P3. cbn [with_store store disk queue].
    split; [reflexivity|].
    split; [exists afo; rewrite G1; exact A1|].
    split; [exists afi; rewrite Eai, A2; reflexivity|].
    split; [congruence|]. split; [congruence|].
    eexists (_ ++ _). split.
    + rewrite map_app, QueueFacts.run_app. reflexivity.
    + intros j Hj. apply in_app_or in Hj.
      destruct Hj as [Hj|Hj]; apply in_map_iff in Hj; destruct Hj as (r & <- & _);
        split; reflexivity.
Qed.

(** ** The discovery pass of the older build *)

Module LegacyFacts.

Section Loop.
Context (env : Env) (d : Disk.node) (folderId : option Z).

Local Notation "'step'" :=
  (fun (st : Store) (nf : string * string) =>
     match Disk.stat_size (cwd env) d (snd nf) with
     | None => st
     | Some size =>
         snd (Db.insertFile st folderId (fst nf) (snd nf) size
                            (Some "application/octet-stream"))
     end).

Local Notation "'ok'" :=
  (fun nf : string * string =>
     match Disk.stat_size (cwd env) d (snd nf) with Some _ => true | None => false end).

(** The insertion loop: one row, in order, for every new file whose [stat]
    goes through. *)
Lemma loop_spec : forall (l : list (string * string)) (st : Store),
  let st' := fold_left step l st in
  Folders st' = Folders st /\ FileTags st' = FileTags st /\ FolderTags st' = FolderTags st
  /\ exists added,
       Files st' = Files st ++ added
       /\ map Files.StoragePath added = map snd (filter ok l)
       /\ forall f, In f added -> Files.FolderId f = folderId.
Proof.
  induction l as [|nf l IH]; intros st st'.
  - subst st'. simpl. repeat split. exists []. rewrite app_nil_r. repeat split.
    intros f [].
  - subst st'. cbn [fold_left filter].
    destruct (Disk.stat_size (cwd env) d (snd nf)) as [size|] eqn:Es.
    + destruct (IH (snd (Db.insertFile st folderId (fst nf) (snd nf) size
                                       (Some "application/octet-stream"))))
        as (A & B & C & added & E1 & E2 & E3).
      cbn [Db.insertFile snd Folders Files FileTags FolderTags] in *.
      split; [exact A|]. split; [exact B|]. split; [exact C|].
      eexists (_ :: added). rewrite E1, <- app_assoc. cbn [app map Files.StoragePath snd].
      split; [reflexivity|]. split; [rewrite E2; reflexivity|].
      intros f [<-|Hf]; [reflexivity|apply E3, Hf].
    + apply IH.
Qed.

End Loop.

Lemma filesOfFolder_none st : Db.filesOfFolder st None = [].
Proof.
  unfold Db.filesOfFolder. apply SyncFacts.filter_nil. intros f _.
  destruct (Files.FolderId f); reflexivity.
Qed.

End LegacyFacts.

(** X20.  What a pass of the older build's [discoverAndAddNewFiles] does, for
    every input: folders, tag links, the queue and the disk are as before;
    files are only appended, and every appended row carries the folder id the
    pass was given and a storage path that can be accessed and was not among
    the paths recorded for that folder. *)
Theorem X20_legacy_discovery_outcome :
  forall (env : Env) (w : World) (folderId : option Z) (folderPath : string),
    let w' := Legacy.discoverAndAddNewFiles env w folderId folderPath in
    Folders (store w') = Folders (store w)
    /\ FileTags (store w') = FileTags (store w)
    /\ FolderTags (store w') = FolderTags (store w)
    /\ queue w' = queue w
    /\ disk w' = disk w
    /\ exists added,
         Files (store w') = Files (store w) ++ added
         /\ forall f, In f added ->
              Files.FolderId f = folderId
              /\ Disk.access (cwd env) (disk w) (Files.StoragePath f) = true
              /\ ~ In (Files.StoragePath f)
                      (map Files.StoragePath (Db.filesOfFolder (store w) folderId)).
Proof.
  intros env w folderId folderPath w'. subst w'. unfold Legacy.discoverAndAddNewFiles.
  assert (Same : Folders (store w) = Folders (store w)
                 /\ FileTags (store w) = FileTags (store w)
                 /\ FolderTags (store w) = FolderTags (store w)
                 /\ queue w = queue w /\ disk w = disk w
                 /\ exists added,
                      Files (store w) = Files (store w) ++ added
                      /\ forall f, In f added ->
                           Files.FolderId f = folderId
                           /\ Disk.access (cwd env) (disk w) (Files.StoragePath f) = true
                           /\ ~ In (Files.StoragePath f)
                                   (map Files.StoragePath
                                        (Db.filesOfFolder (store w) folderId))).
  { repeat (split; [reflexivity|]). exists []. rewrite app_nil_r.
    split; [reflexivity|intros f []]. }
  destruct (negb (Disk.access (cwd env) (disk w) (fullPathToPhysical env folderPath)));
    [exact Same|].
  destruct (Disk.readdir (cwd env) (disk w) (fullPathToPhysical env folderPath))
    as [entries|]; [|exact Same].
  cbv zeta. clear Same.
  match goal with
  | |- context [fold_left ?f ?l (store w)] =>
      destruct (LegacyFacts.loop_spec env (disk w) folderId l (store w))
        as (A & B & C & added & E1 & E2 & E3)
  end.
  cbv zeta in A, B, C, E1. cbn [with_store store disk queue].
  split; [exact A|]. split; [exact B|]. split; [exact C|].
  split; [reflexivity|]. split; [reflexivity|].
  exists added. split; [exact E1|].
  intros f Hf. split; [apply E3, Hf|].
  assert (Hin : In (Files.StoragePath f) (map Files.StoragePath added))
    by (apply in_map, Hf).
  rewrite E2 in Hin. apply in_map_iff in Hin. destruct Hin as (nf & Enf & Hnf).
  apply filter_In in Hnf. destruct Hnf as [Hnf Hok].
  apply filter_In in Hnf. destruct Hnf as [_ Hnew].
  rewrite <- Enf. split.
  - unfold Disk.access. unfold Disk.stat_size in Hok.
    destruct (Disk.at_path (cwd env) (disk w) (snd nf)); [reflexivity|discriminate].
  - intros Hknown. apply negb_true_iff in Hnew. apply not_true_iff_false in Hnew.
    apply Hnew. apply WalkFacts.set_has_In. exact Hknown.
Qed.

Module LegacyAgainFacts.

Lemma fold_skip env d folderId : forall (l : list (string * string)) (st : Store),
  (forall nf, In nf l -> Disk.stat_size (cwd env) d (snd nf) = None) ->
  fold_left (fun st nf =>
               match Disk.stat_size (cwd env) d (snd nf) with
               | None => st
               | Some size =>
                   snd (Db.insertFile st folderId (fst nf) (snd nf) size
                                      (Some "application/octet-stream"))
               end) l st = st.
Proof.
  induction l as [|nf l IH]; intros st H; [reflexivity|].
  cbn [fold_left]. rewrite (H nf (or_introl eq_refl)). apply IH.
  intros x Hx. apply H. right. exact Hx.
Qed.

(** The pass as a function of the store alone, once the directory is
    listed. *)
Lemma pass_listed env w folderId folderPath entries :
  Disk.access (cwd env) (disk w) (fullPathToPhysical env folderPath) = true ->
  Disk.readdir (cwd env) (disk w) (fullPathToPhysical env folderPath) = Some entries ->
  Legacy.discoverAndAddNewFiles env w folderId folderPath
  = with_store w
      (fold_left
         (fun st nf =>
            match Disk.stat_size (cwd env) (disk w) (snd nf) with
            | None => st
            | Some size =>
                snd (Db.insertFile st folderId (fst nf) (snd nf) size
                                   (Some "application/octet-stream"))
            end)
         (filter (fun df => negb (set_has (snd df)
                                    (map Files.StoragePath
                                         (Db.filesOfFolder (store w) folderId))))
                 (map (fun name =>
                         (name, Str.replace_char "\" "/"
                                  (Path.join [fullPathToPhysical env folderPath; name])))
                      (Legacy.file_names entries)))
         (store w)).
Proof.
  intros Ha Hr. unfold Legacy.discoverAndAddNewFiles. rewrite Ha, Hr. reflexivity.
Qed.

Lemma pass_not_listed env w folderId folderPath :
  Disk.access (cwd env) (disk w) (fullPathToPhysical env folderPath) = false
  \/ Disk.readdir (cwd env) (disk w) (fullPathToPhysical env folderPath) = None ->
  Legacy.discoverAndAddNewFiles env w folderId folderPath = w.
Proof.
  intros H. unfold Legacy.discoverAndAddNewFiles.
  destruct (Disk.access (cwd env) (disk w) (fullPathToPhysical env folderPath));
    [|reflexivity].
  destruct H as [H|H]; [discriminate|]. rewrite H. reflexivity.
Qed.

End LegacyAgainFacts.

(** X21.  The older build's discovery pass is idempotent when it is given a
    folder id: run again on the world it left, with the same id and path, it
    changes nothing. *)
Theorem X21_legacy_discovery_repeated :
  forall (env : Env) (w : World) (id : Z) (folderPath : string),
    let w1 := Legacy.discoverAndAddNewFiles env w (Some id) folderPath in
    Legacy.discoverAndAddNewFiles env w1 (Some id) folderPath = w1.
Proof.
  intros env w id folderPath.
  set (phys := fullPathToPhysical env folderPath).
  destruct (Disk.access (cwd env) (disk w) phys) eqn:Ea.
  2: { assert (E : Legacy.discoverAndAddNewFiles env w (Some id) folderPath = w)
         by (apply LegacyAgainFacts.pass_not_listed; left; exact Ea).
       intros w1. subst w1. rewrite !E. reflexivity. }
  destruct (Disk.readdir (cwd env) (disk w) phys) as [entries|] eqn:Er.
  2: { assert (E : Legacy.discoverAndAddNewFiles env w (Some id) folderPath = w)
         by (apply LegacyAgainFacts.pass_not_listed; right; exact Er).
       intros w1. subst w1. rewrite !E. reflexivity. }
  set (diskFiles := map (fun name => (name, Str.replace_char "\" "/" (Path.join [phys; name])))
                        (Legacy.file_names entries)).
  intros w1. subst w1.
  rewrite (LegacyAgainFacts.pass_listed env w (Some id) folderPath entries Ea Er).
  fold phys. fold diskFiles.
  set (known := map Files.StoragePath (Db.filesOfFolder (store w) (Some id))).
  set (newFiles := filter (fun df => negb (set_has (snd df) known)) diskFiles).
  destruct (LegacyFacts.loop_spec env (disk w) (Some id) newFiles (store w))
    as (_ & _ & _ & added & E1 & E2 & E3).
  cbv zeta in E1.
  match goal with |- context [with_store w ?x] => set (st' := x) in * end.
  rewrite (LegacyAgainFacts.pass_listed env (with_store w st') (Some id) folderPath
             entries Ea Er).
  cbn [with_store store disk]. fold phys. fold diskFiles.
  rewrite LegacyAgainFacts.fold_skip; [reflexivity|].
  intros nf Hnf. apply filter_In in Hnf. destruct Hnf as [Hd Hnot].
  apply negb_true_iff in Hnot.
  destruct (Disk.stat_size (cwd env) (disk w) (snd nf)) as [size|] eqn:Es;
    [|reflexivity].
  exfalso. apply not_true_iff_false in Hnot. apply Hnot. apply WalkFacts.set_has_In.
  unfold Db.filesOfFolder. rewrite E1, filter_app, map_app. apply in_or_app.
  destruct (set_has (snd nf) known) eqn:Ek.
  - left. apply WalkFacts.set_has_In in Ek. exact Ek.
  - right.
    assert (Hsp : In (snd nf) (map Files.StoragePath added)).
    { rewrite E2. apply in_map. apply filter_In. split.
      - subst newFiles. apply filter_In. split; [exact Hd|]. rewrite Ek. reflexivity.
      - rewrite Es. reflexivity. }
    apply in_map_iff in Hsp. destruct Hsp as (f & Ef & Hf).
    apply in_map_iff. exists f. split; [exact Ef|].
    apply filter_In. split; [exact Hf|]. rewrite (E3 f Hf). cbn. apply Z.eqb_refl.
Qed.

(** X23.  The older build's discovery pass with no folder id.
    [GET /api/files] without [folderId] passes [null]; the comparison
    [FolderId = NULL] then finds no recorded path, so that (the store taking
    a row without folder id, as it does here) every pass records all the
    files of the directory again: the paths recorded by a pass are those of
    the files listed in the directory that [stat] finds, whatever is recorded
    already, and a second pass appends rows with the same storage paths as
    the first. *)
Theorem X23_legacy_discovery_without_folder_repeats :
  forall (env : Env) (w : World) (folderPath : string) (entries : Disk.entries),
    Disk.access (cwd env) (disk w) (fullPathToPhysical env folderPath) = true ->
    Disk.readdir (cwd env) (disk w) (fullPathToPhysical env folderPath) = Some entries ->
    let w1 := Legacy.discoverAndAddNewFiles env w None folderPath in
    let w2 := Legacy.discoverAndAddNewFiles env w1 None folderPath in
    let found :=
      filter (fun p => match Disk.stat_size (cwd env) (disk w) p with
                       | Some _ => true
                       | None => false
                       end)
             (map (fun name =>
                     Str.replace_char "\" "/"
                       (Path.join [fullPathToPhysical env folderPath; name]))
                  (Legacy.file_names entries)) in
    exists a1 a2,
      Files (store w1) = Files (store w) ++ a1
      /\ Files (store w2) = Files (store w1) ++ a2
      /\ map Files.StoragePath a1 = found
      /\ map Files.StoragePath a2 = found.
Proof.
  intros env w folderPath entries Ea Er.
  set (phys := fullPathToPhysical env folderPath) in *.
  set (diskFiles := map (fun name => (name, Str.replace_char "\" "/" (Path.join [phys; name])))
                        (Legacy.file_names entries)).
  cbv zeta.
  rewrite (LegacyAgainFacts.pass_listed env w None folderPath entries Ea Er).
  fold phys. fold diskFiles. rewrite LegacyFacts.filesOfFolder_none.
  match goal with |- context [with_store w ?x] => set (st' := x) in * end.
  rewrite (LegacyAgainFacts.pass_listed env (with_store w st') None folderPath
             entries Ea Er).
  cbn [with_store store disk]. fold phys. fold diskFiles.
  rewrite LegacyFacts.filesOfFolder_none.
  set (newFiles := filter (fun df => negb (set_has (snd df) (map Files.StoragePath [])))
                          diskFiles) in *.
  destruct (LegacyFacts.loop_spec env (disk w) None newFiles (store w))
    as (_ & _ & _ & a1 & E1 & E2 & _).
  destruct (LegacyFacts.loop_spec env (disk w) None newFiles st')
    as (_ & _ & _ & a2 & F1 & F2 & _).
  cbv zeta in E1, F1. exists a1, a2.
  assert (N : newFiles = diskFiles).
  { subst newFiles. clear. induction diskFiles as [|x l IH]; [reflexivity|].
    cbn [filter]. change (set_has (snd x) (map Files.StoragePath [])) with false.
    cbn [negb]. f_equal. exact IH. }
  assert (Fd : map snd (filter (fun nf => match Disk.stat_size (cwd env) (disk w) (snd nf) with
                                          | Some _ => true
                                          | None => false
                                          end) diskFiles)
               = filter (fun p => match Disk.stat_size (cwd env) (disk w) p with
                                  | Some _ => true
                                  | None => false
                                  end)
                        (map (fun name => Str.replace_char "\" "/" (Path.join [phys; name]))
                             (Legacy.file_names entries))).
  { subst diskFiles. clear. induction (Legacy.file_names entries) as [|n l IH];
      [reflexivity|].
    cbn [map filter snd].
    destruct (Disk.stat_size (cwd env) (disk w)
                (Str.replace_char "\" "/" (Path.join [phys; n])));
      cbn [map snd]; rewrite IH; reflexivity. }
  split; [exact E1|]. split; [exact F1|].
  rewrite E2, F2, N. split; exact Fd.
Qed.

Lemma X23_legacy_discovery_without_folder_repeats_witness :
  let w := Fixtures.world_of Samples.store_report Samples.disk_report in
  let w1 := Legacy.discoverAndAddNewFiles Fixtures.env0 w None "/root" in
  let w2 := Legacy.discoverAndAddNewFiles Fixtures.env0 w1 None "/root" in
  let both := ["/srv/tagger/uploads/root/report.txt"; "/srv/tagger/uploads/root/taken.txt"] in
  Disk.access (cwd Fixtures.env0) (disk w) (fullPathToPhysical Fixtures.env0 "/root") = true
  /\ exists a1 a2,
       Files (store w1) = Files (store w) ++ a1
       /\ Files (store w2) = Files (store w1) ++ a2
       /\ map Files.StoragePath a1 = both
       /\ map Files.StoragePath a2 = both.
Proof.
  intros w w1 w2 both.
  assert (Ha : Disk.access (cwd Fixtures.env0) (disk w)
                 (fullPathToPhysical Fixtures.env0 "/root") = true) by reflexivity.
  assert (Hr : Disk.readdir (cwd Fixtures.env0) (disk w)
                 (fullPathToPhysical Fixtures.env0 "/root")
               = Some (Disk.Cons "report.txt" (Disk.File 10)
                         (Disk.Cons "taken.txt" (Disk.File 20) Disk.Nil)))
    by reflexivity.
  exact (conj Ha (X23_legacy_discovery_without_folder_repeats Fixtures.env0 w "/root" _
                    Ha Hr)).
Defined.

(** ** The reconciliation pass, run again *)

Module ResyncFacts.
Import Str StrFacts Path PathFacts ChildFacts Disk DiskFacts WalkFacts SyncFacts.

Lemma join_app l1 l2 :
  l1 <> [] -> l2 <> [] ->
  join_with "/" (l1 ++ l2) = join_with "/" l1 +++ "/" +++ join_with "/" l2.
Proof.
  intros H1 H2. induction l1 as [|x l1 IH]; [congruence|].
  destruct l1 as [|y l1].
  - destruct l2 as [|z l2]; [congruence|]. reflexivity.
  - change (join_with "/" ((x :: y :: l1) ++ l2))
      with (x +++ "/" +++ join_with "/" ((y :: l1) ++ l2)).
    rewrite IH by discriminate.
    change (join_with "/" (x :: y :: l1)) with (x +++ "/" +++ join_with "/" (y :: l1)).
    rewrite !append_assoc. reflexivity.
Qed.

(** All the rows of the table are known to a pass that has nothing left to
    insert. *)
Lemma folders_all_known folderId L : forall st m ids,
  (forall x, In x L -> map_get x m <> None) ->
  fold_left (insertFolderStep folderId) L (st, m, ids) = (st, m, ids).
Proof.
  induction L as [|x L IH]; intros st m ids H; [reflexivity|].
  cbn [fold_left].
  destruct (map_get x m) as [v|] eqn:E.
  - rewrite (insertFolderStep_known folderId st m ids x v E). apply IH.
    intros y Hy. apply H. right. exact Hy.
  - exfalso. apply (H x (or_introl eq_refl)), E.
Qed.

Lemma files_all_known env d m known F : forall st,
  (forall y, In y F -> set_has y known = true) ->
  fold_left (insertFileStep env d m known) F st = st.
Proof.
  induction F as [|y F IH]; intros st H; [reflexivity|].
  cbn [fold_left]. unfold insertFileStep at 2. rewrite (H y (or_introl eq_refl)).
  apply IH. intros z Hz. apply H. right. exact Hz.
Qed.

Section Again.
Context (env : Env) (w : World) (folderId : option Z) (segs : list string)
        (es : Disk.entries).
Hypothesis Henv : Forall (fun s => clean_name s = true) (server_dir env).
Hypothesis Hne : segs <> [].
Hypothesis Hsegs : Forall (fun s => clean_name s = true) segs.
Hypothesis Hdisk :
  Disk.lookup (disk w) (server_dir env ++ "uploads" :: segs) = Some (Disk.Dir true es).
Hypothesis Htidy : Disk.tidy [] es = true.
Hypothesis Hbracket : has_char "[" (logical_path segs) = false.

Local Notation "'R'" := (upload_root_segs env).
Local Notation "'base'" := (logical_path segs).
Local Notation "'seen'" := (walkDir env (abs_path (R ++ segs)) es ([], [])).
Local Notation "'seenFolders'" := (set_add base (fst seen)).
Local Notation "'pattern'" := (base +++ "%").

Lemma below_like rs : Sql.like (logical_path (segs ++ rs)) pattern = true.
Proof.
  destruct rs as [|r rs].
  - rewrite app_nil_r. pose proof (SqlFacts.like_self_prefix base "" Hbracket) as L.
    rewrite append_nil_r in L. exact L.
  - assert (E : logical_path (segs ++ r :: rs) = base +++ "/" +++ join_with "/" (r :: rs)).
    { unfold logical_path. rewrite join_app by (assumption || discriminate).
      symmetry. apply append_assoc. }
    rewrite E. apply SqlFacts.like_self_prefix, Hbracket.
Qed.

Lemma seen_like x : In x seenFolders -> Sql.like x pattern = true.
Proof.
  intros H. apply (seenFolders_In env segs es Henv Hsegs Htidy) in H.
  destruct H as [->|(rs & _ & ->)].
  - pose proof (below_like []) as L. rewrite app_nil_r in L. exact L.
  - apply below_like.
Qed.

Hypothesis Hrow : exists b, In b (Folders (store w)) /\ Folders.FullPath b = base.

(** After a pass every folder seen is recorded, and every file seen is
    recorded in a folder under the prefix. *)
Lemma covers :
  let w1 := discoverAndSyncFolderRecursive env w folderId base in
  (forall x, In x seenFolders ->
     exists r, In r (Folders (store w1)) /\ Folders.FullPath r = x)
  /\ (forall y, In y (snd seen) ->
        exists f fo,
          In f (Files (store w1)) /\ Files.StoragePath f = y
          /\ In fo (Folders (store w1))
          /\ Files.FolderId f = Some (Folders.Id fo)
          /\ Sql.like (Folders.FullPath fo) pattern = true).
Proof.
  intros w1. unfold w1.
  rewrite (sync_unfold env w folderId segs es) by assumption. cbv zeta.
  set (L := sort_stable (fun a b => Nat.leb (depth a) (depth b)) seenFolders).
  set (m0 := map_of_rows (Db.foldersLike (store w) pattern) []).
  destruct (fold_left (insertFolderStep folderId) L
              (store w, m0, map Folders.Id (Db.foldersLike (store w) pattern)))
    as [[st1 m1] ids1] eqn:EL.
  destruct (insert_folders_spec folderId L _ _ _ _ _ _ EL
              (SortFacts.sort_sorted depth _) (known_rows_ok w segs)
              (seen_parents env w segs es Henv Hne Hsegs Hdisk Htidy Hbracket Hrow))
    as (Ok1 & Keep & All & _ & F1 & _).
  destruct (PassFacts.folders_fold_appends _ _ _ _ _ _ _ _ EL)
    as ((afo & A1 & A2 & A3) & _).
  set (known := match ids1 with
                | [] => []
                | _ => map Files.StoragePath (Db.filesInFolders st1 ids1)
                end).
  destruct (insert_files_spec env (disk w) m1 known (snd seen) st1)
    as (G1 & _ & _ & _ & _ & (afiles & Eai & _) & NewF).
  set (st2 := fold_left (insertFileStep env (disk w) m1 known) (snd seen) st1) in *.
  match goal with
  | |- context [fold_left ?f (Db.foldersLike st2 pattern) (fold_left ?g ?rows ?w0)] =>
      destruct (fold_cond_enqueue_parts
                  (fun rf => set_has (Files.StoragePath rf) (snd seen))
                  (fun rf => JobCleanFile (Files.Id rf)) rows w0) as (P1 & _ & _);
      destruct (fold_cond_enqueue_parts
                  (fun rf => set_has (Folders.FullPath rf) seenFolders)
                  (fun rf => JobCleanFolder (Folders.Id rf)) (Db.foldersLike st2 pattern)
                  (fold_left g rows w0)) as (Q1 & _ & _)
  end.
  cbv zeta in P1, Q1. rewrite Q1, P1. cbn [with_store store].
  assert (InL : forall x, In x seenFolders -> In x L).
  { intros x Hx. apply (proj2 (SortFacts.sort_In depth _ _)). exact Hx. }
  assert (KnownIn : forall fp, set_has fp known = true ->
                               In fp (map Files.StoragePath (Db.filesInFolders st1 ids1))).
  { intros fp H. apply set_has_In in H. unfold known in H.
    destruct ids1; [contradiction|exact H]. }
  assert (Row : forall x, In x L ->
                  exists fid pid fo, map_get x m1 = Some (fid, pid)
                                     /\ In fo (Folders st2) /\ Folders.FullPath fo = x
                                     /\ Folders.Id fo = fid).
  { intros x Hx. pose proof (All x Hx) as Hm.
    destruct (map_get x m1) as [[fid pid]|] eqn:Em; [|congruence].
    destruct (Ok1 _ _ _ Em) as (fo & Hfo & H1 & H2).
    exists fid, pid, fo. rewrite G1. auto. }
  split.
  - intros x Hx. destruct (Row x (InL x Hx)) as (fid & pid & fo & _ & Hfo & Efo & _).
    exists fo. auto.
  - intros y Hy. pose proof Hy as Hy0.
    apply (seenFiles_In env segs es Henv Hsegs Htidy) in Hy.
    destruct Hy as (rs & size & Hrs & ->).
    destruct (paths_lookup es [] Htidy) as [_ Pf]. destruct (Pf _ _ Hrs) as [Hc Hl].
    destruct (paths_parent es) as [_ Qf]. destruct (Qf _ _ Hrs) as [Hn Hp].
    destruct (set_has (abs_path (R ++ segs ++ rs)) known) eqn:Ek.
    + apply KnownIn in Ek.
      apply in_map_iff in Ek. destruct Ek as (f & Ef & Hf).
      unfold Db.filesInFolders in Hf. apply filter_In in Hf. destruct Hf as [Hf Hin].
      unfold Db.in_ids in Hin. destruct (Files.FolderId f) as [fid|] eqn:Efid;
        [|discriminate].
      apply mem_Z_In in Hin. rewrite A2 in Hin. apply in_app_or in Hin.
      assert (Hfo : exists fo, In fo (Folders st1) /\ Folders.Id fo = fid
                               /\ Sql.like (Folders.FullPath fo) pattern = true).
      { destruct Hin as [Hin|Hin].
        - apply in_map_iff in Hin. destruct Hin as (fo & E1 & Hfo).
          unfold Db.foldersLike in Hfo. apply filter_In in Hfo.
          exists fo. rewrite A1. split; [apply in_or_app; left; apply Hfo|].
          split; [exact E1|apply Hfo].
        - apply in_map_iff in Hin. destruct Hin as (fo & E1 & Hfo).
          exists fo. rewrite A1. split; [apply in_or_app; right; exact Hfo|].
          split; [exact E1|]. apply seen_like.
          apply (proj1 (SortFacts.sort_In depth _ _)). apply A3, Hfo. }
      destruct Hfo as (fo & Hfo & Eid & Hlike).
      exists f, fo. rewrite Eai, G1.
      split; [apply in_or_app; left; exact Hf|]. split; [exact Ef|].
      split; [exact Hfo|]. split; [rewrite Efid, Eid; reflexivity|exact Hlike].
    + destruct (physical_parts env w segs es Hne Hsegs Hdisk rs Hn Hc) as [D1 D2].
      assert (HxL : In (logical_path (segs ++ removelast rs)) L).
      { apply InL. apply (seenFolders_In env segs es Henv Hsegs Htidy).
        destruct Hp as [E|Hp]; [left; rewrite E, app_nil_r; reflexivity|].
        right. exists (removelast rs). auto. }
      destruct (Row _ HxL) as (fid & pid & fo & Hm & Hfo & Efo & Eid).
      assert (Hlog : toLogical env (dirname (abs_path (R ++ segs ++ rs)))
                     = logical_path (segs ++ removelast rs)).
      { rewrite D1. apply toLogical_physical, below_clean; [exact Hsegs|].
        apply (clean_parts rs Hn Hc). }
      assert (Hstat : Disk.stat_size (cwd env) (disk w) (abs_path (R ++ segs ++ rs))
                      = Some size).
      { unfold Disk.stat_size.
        rewrite (at_below env w segs es Henv Hsegs Hdisk rs Hc). rewrite Hl. reflexivity. }
      rewrite <- Hlog in Hm.
      destruct (NewF _ _ _ _ Hy0 Ek Hm Hstat) as (f & Hf & S1 & S2 & _).
      exists f, fo. split; [exact Hf|]. split.
      * rewrite S1.
        apply (replace_physical env (root_clean env Henv) (segs ++ rs)), below_clean;
          assumption.
      * split; [exact Hfo|]. split; [rewrite S2, Eid; reflexivity|].
        rewrite Efo. apply below_like.
Qed.

End Again.

End ResyncFacts.

(** X22.  The reconciliation pass is idempotent on the store.  When the
    folder is recorded, its directory is listed and all the names below it
    are clean (and, as in a directory, different from each other), a second
    pass over the same folder on the world the first one left inserts
    nothing: store and disk are those the first pass left.  The cleanup jobs
    are not remembered: the second pass enqueues the same jobs again, behind
    those of the first. *)
Theorem X22_sync_second_pass_inserts_nothing :
  forall (env : Env) (w : World) (folderId : option Z) (segs : list string)
         (es : Disk.entries),
    Forall (fun s => clean_name s = true) (server_dir env) ->
    segs <> [] ->
    Forall (fun s => clean_name s = true) segs ->
    Str.has_char "[" (logical_path segs) = false ->
    (exists b, In b (Folders (store w)) /\ Folders.FullPath b = logical_path segs) ->
    Disk.lookup (disk w) (server_dir env ++ "uploads" :: segs) = Some (Disk.Dir true es) ->
    Disk.tidy [] es = true ->
    let w1 := discoverAndSyncFolderRecursive env w folderId (logical_path segs) in
    let w2 := discoverAndSyncFolderRecursive env w1 folderId (logical_path segs) in
    store w2 = store w1
    /\ disk w2 = disk w1
    /\ exists new,
         queue w1 = JobQueue.run job_behaviour (queue w) (map (@JobQueue.Enqueue job) new)
         /\ queue w2 = JobQueue.run job_behaviour (queue w1) (map (@JobQueue.Enqueue job) new).
Proof.
  intros env w folderId segs es Henv Hne Hsegs Hbr Hrow Hdisk Htidy w1 w2.
  destruct (SyncFacts.sync_outcome env w folderId segs es Henv Hne Hsegs Hdisk Htidy
              Hbr Hrow) as (Hd & (afo & Ea & _) & _ & _ & _ & Q & _).
  destruct (ResyncFacts.covers env w folderId segs es Henv Hne Hsegs Hdisk Htidy Hbr Hrow)
    as [CovF CovFi].
  fold w1 in Hd, Ea, Q, CovF, CovFi.
  assert (Hdisk1 : Disk.lookup (disk w1) (server_dir env ++ "uploads" :: segs)
                   = Some (Disk.Dir true es)) by (rewrite Hd; exact Hdisk).
  assert (Hrow1 : exists b, In b (Folders (store w1))
                            /\ Folders.FullPath b = logical_path segs).
  { destruct Hrow as (b & Hb & Eb). exists b. rewrite Ea.
    split; [apply in_or_app; left; exact Hb|exact Eb]. }
  subst w2. rewrite (SyncFacts.sync_unfold env w1 folderId segs es) by assumption.
  cbv zeta.
  set (pattern := logical_path segs +++ "%") in *.
  assert (Like : forall r x, In r (Folders (store w1)) -> Folders.FullPath r = x ->
                   In x (set_add (logical_path segs)
                           (fst (walkDir env (Path.abs_path (upload_root_segs env ++ segs))
                                         es ([], [])))) ->
                   In r (Db.foldersLike (store w1) pattern)).
  { intros r x Hr Ex Hx. unfold Db.foldersLike. apply filter_In. split; [exact Hr|].
    rewrite Ex. apply (ResyncFacts.seen_like env segs es Henv Hne Hsegs Htidy Hbr x Hx). }
  rewrite ResyncFacts.folders_all_known.
  2: { intros x Hx. apply SyncFacts.map_of_rows_has. left.
       apply (proj1 (SortFacts.sort_In depth _ _)) in Hx.
       destruct (CovF x Hx) as (r & Hr & Er). exists r. split; [|exact Er].
       apply (Like r x Hr Er Hx). }
  rewrite ResyncFacts.files_all_known.
  2: { intros y Hy. destruct (CovFi y Hy) as (f & fo & Hf & Ef & Hfo & Efid & Hlike).
       assert (Hfo' : In fo (Db.foldersLike (store w1) pattern)).
       { unfold Db.foldersLike. apply filter_In. split; assumption. }
       assert (Hid : In (Folders.Id fo) (map Folders.Id (Db.foldersLike (store w1) pattern)))
         by (apply in_map, Hfo').
       apply WalkFacts.set_has_In.
       destruct (map Folders.Id (Db.foldersLike (store w1) pattern)) as [|i ids] eqn:Ei;
         [contradiction|].
       apply in_map_iff. exists f. split; [exact Ef|].
       unfold Db.filesInFolders. apply filter_In. split; [exact Hf|].
       rewrite Efid. cbn [Db.in_ids]. apply SyncFacts.mem_Z_In. exact Hid. }
  match goal with
  | |- context [fold_left ?f (Db.foldersLike (store w1) pattern) (fold_left ?g ?rows ?w0)] =>
      destruct (SyncFacts.fold_cond_enqueue_parts
                  (fun rf : Files.row =>
                     set_has (Files.StoragePath rf)
                       (snd (walkDir env (Path.abs_path (upload_root_segs env ++ segs))
                                     es ([], []))))
                  (fun rf => JobCleanFile (Files.Id rf)) rows w0) as (P1 & P2 & P3);
      destruct (SyncFacts.fold_cond_enqueue_parts
                  (fun rf : Folders.row =>
                     set_has (Folders.FullPath rf)
                       (set_add (logical_path segs)
                          (fst (walkDir env (Path.abs_path (upload_root_segs env ++ segs))
                                        es ([], [])))))
                  (fun rf => JobCleanFolder (Folders.Id rf))
                  (Db.foldersLike (store w1) pattern)
                  (fold_left g rows w0)) as (Q1 & Q2 & Q3)
  end.
  cbv zeta in P1, P2, P3, Q1, Q2, Q3.
  rewrite Q1, Q2, Q3, P1, P2, P3. cbn [with_store store disk queue].
  split; [reflexivity|]. split; [reflexivity|].
  eexists. split; [exact Q|].
  rewrite !map_app, <- QueueFacts.run_app. reflexivity.
Qed.

Lemma X22_sync_second_pass_inserts_nothing_witness :
  let es :=
    Disk.Cons "photos"
      (Disk.Dir true
         (Disk.Cons "2023"
            (Disk.Dir true (Disk.Cons "img1.jpg" (Disk.File 2048) Disk.Nil))
            Disk.Nil))
      Disk.Nil in
  let w := Fixtures.world_in_job Fixtures.store_drafts Fixtures.disk_photos in
  let w1 := discoverAndSyncFolderRecursive Fixtures.env0 w (Some 1%Z) "/root" in
  let w2 := discoverAndSyncFolderRecursive Fixtures.env0 w1 (Some 1%Z) "/root" in
  Disk.lookup (disk w) (server_dir Fixtures.env0 ++ "uploads" :: ["root"])
  = Some (Disk.Dir true es)
  /\ store w2 = store w1
  /\ disk w2 = disk w1
  /\ exists new,
       queue w1 = JobQueue.run job_behaviour (queue w) (map (@JobQueue.Enqueue job) new)
       /\ queue w2 = JobQueue.run job_behaviour (queue w1) (map (@JobQueue.Enqueue job) new).
Proof.
  intros es w w1 w2.
  assert (H1 : Forall (fun s => clean_name s = true) (server_dir Fixtures.env0))
    by (repeat constructor).
  assert (H2 : ["root"] <> @nil string) by discriminate.
  assert (H3 : Forall (fun s => clean_name s = true) ["root"]) by (repeat constructor).
  assert (H4 : Str.has_char "[" (logical_path ["root"]) = false) by reflexivity.
  assert (H5 : exists b, In b (Folders (store w))
                         /\ Folders.FullPath b = logical_path ["root"]).
  { exists Fixtures.root_row. split; [left; reflexivity|reflexivity]. }
  assert (H6 : Disk.lookup (disk w) (server_dir Fixtures.env0 ++ "uploads" :: ["root"])
               = Some (Disk.Dir true es)) by reflexivity.
  assert (H7 : Disk.tidy [] es = true) by reflexivity.
  exact (conj H6 (X22_sync_second_pass_inserts_nothing Fixtures.env0 w (Some 1%Z)
                    ["root"] es H1 H2 H3 H4 H5 H6 H7)).
Defined.

(** ** The folder listing and its cleanup jobs *)

Module HealFacts.

Lemma ascii_compare_trans_lt a b c :
  Ascii.compare a b = Lt -> Ascii.compare b c = Lt -> Ascii.compare a c = Lt.
Proof.
  unfold Ascii.compare. rewrite !N.compare_lt_iff. apply N.lt_trans.
Qed.

Lemma compare_refl s : String.compare s s = Eq.
Proof.
  induction s as [|a s IH]; [reflexivity|]. simpl.
  unfold Ascii.compare. rewrite N.compare_refl. exact IH.
Qed.

(** [String.compare] is transitive on [Gt]-free pairs. *)
Lemma compare_not_gt_trans : forall s1 s2 s3,
  String.compare s1 s2 <> Gt -> String.compare s2 s3 <> Gt -> String.compare s1 s3 <> Gt.
Proof.
  induction s1 as [|a s1 IH]; intros s2 s3 H12 H23.
  - destruct s3; simpl; discriminate.
  - destruct s2 as [|b s2]; [simpl in H12; congruence|].
    destruct s3 as [|c s3]; [simpl in H23; congruence|].
    simpl in *.
    destruct (Ascii.compare a b) eqn:Eab; [| |congruence].
    + apply Ascii.compare_eq_iff in Eab. subst b.
      destruct (Ascii.compare a c) eqn:Eac; [|discriminate|congruence].
      apply (IH s2 s3); assumption.
    + destruct (Ascii.compare b c) eqn:Ebc; [| |congruence].
      * apply Ascii.compare_eq_iff in Ebc. subst c. rewrite Eab. discriminate.
      * rewrite (ascii_compare_trans_lt a b c Eab Ebc). discriminate.
Qed.

Lemma leb_trans s1 s2 s3 :
  String.leb s1 s2 = true -> String.leb s2 s3 = true -> String.leb s1 s3 = true.
Proof.
  unfold String.leb. intros H12 H23.
  pose proof (compare_not_gt_trans s1 s2 s3) as T.
  destruct (String.compare s1 s2); [| |discriminate];
    destruct (String.compare s2 s3); try discriminate;
    destruct (String.compare s1 s3); try reflexivity;
    exfalso; apply T; congruence.
Qed.

Section Order.
Context {A : Type} (le : A -> A -> bool).
Hypothesis le_total : forall a b, le a b = true \/ le b a = true.
Hypothesis le_trans : forall a b c, le a b = true -> le b c = true -> le a c = true.

Lemma insert_keeps_sorted x l : StronglySorted (fun a b => le a b = true) l ->
  StronglySorted (fun a b => le a b = true) (insert_sorted le x l).
Proof.
  induction l as [|y l IH]; intros S; simpl.
  - constructor; constructor.
  - inversion S as [|? ? Sl Fl]; subst.
    destruct (le x y) eqn:E.
    + constructor; [exact S|]. constructor; [exact E|].
      rewrite Forall_forall in *. intros z Hz. apply (le_trans x y z E (Fl z Hz)).
    + constructor; [apply IH, Sl|].
      rewrite Forall_forall in *. intros z Hz.
      apply TagStoreFacts.insert_sorted_In in Hz. destruct Hz as [->|Hz].
      * destruct (le_total x y) as [T|T]; [congruence|exact T].
      * apply Fl, Hz.
Qed.

Lemma sort_is_sorted l : StronglySorted (fun a b => le a b = true) (sort_stable le l).
Proof.
  induction l as [|x l IH]; simpl; [constructor|]. apply insert_keeps_sorted, IH.
Qed.

Lemma insert_first x l :
  (forall z, In z l -> le x z = true) -> insert_sorted le x l = x :: l.
Proof.
  destruct l as [|y l]; intros H; [reflexivity|].
  simpl. rewrite (H y (or_introl eq_refl)). reflexivity.
Qed.

Lemma filter_insert p x l :
  StronglySorted (fun a b => le a b = true) l ->
  filter p (insert_sorted le x l)
  = if p x then insert_sorted le x (filter p l) else filter p l.
Proof.
  induction l as [|y l IH]; intros S.
  - simpl. destruct (p x); reflexivity.
  - inversion S as [|? ? Sl Fl]; subst. cbn [insert_sorted].
    destruct (le x y) eqn:E.
    + cbn [filter]. destruct (p x) eqn:Ex; [|reflexivity].
      symmetry. apply insert_first. intros z Hz.
      assert (Hz' : In z (y :: l)).
      { destruct (p y); [|right; apply filter_In in Hz; apply Hz].
        destruct Hz as [->|Hz]; [left; reflexivity|right; apply filter_In in Hz; apply Hz]. }
      destruct Hz' as [<-|Hz']; [exact E|].
      rewrite Forall_forall in Fl. apply (le_trans x y z E (Fl z Hz')).
    + cbn [filter]. rewrite (IH Sl).
      destruct (p y) eqn:Ey, (p x) eqn:Ex; cbn [insert_sorted]; rewrite ?E; reflexivity.
Qed.

(** Filtering a sorted table and sorting the filtered table are the same. *)
Lemma filter_sort p l : filter p (sort_stable le l) = sort_stable le (filter p l).
Proof.
  induction l as [|x l IH]; [reflexivity|].
  cbn [sort_stable filter]. rewrite filter_insert by apply sort_is_sorted.
  rewrite IH. destruct (p x); reflexivity.
Qed.

End Order.

Lemma filter_map {A B : Type} (p : B -> bool) (g : A -> B) l :
  filter p (map g l) = map g (filter (fun a => p (g a)) l).
Proof.
  induction l as [|x l IH]; [reflexivity|]. simpl.
  destruct (p (g x)); simpl; rewrite IH; reflexivity.
Qed.

Lemma filter_and {A : Type} (p q : A -> bool) l :
  filter p (filter q l) = filter (fun x => q x && p x) l.
Proof.
  induction l as [|x l IH]; [reflexivity|]. simpl.
  destruct (q x); simpl; [destruct (p x); rewrite IH; reflexivity|exact IH].
Qed.

Lemma filter_same {A : Type} (p q : A -> bool) l :
  (forall x, In x l -> p x = q x) -> filter p l = filter q l.
Proof.
  induction l as [|x l IH]; intros H; [reflexivity|]. simpl.
  rewrite (H x (or_introl eq_refl)), IH; [reflexivity|].
  intros y Hy. apply H. right. exact Hy.
Qed.

Lemma filter_kept_none {A : Type} (p : A -> bool) l :
  filter (fun x => negb (p x)) (filter p l) = [].
Proof.
  induction l as [|x l IH]; [reflexivity|]. simpl.
  destruct (p x) eqn:E; simpl; [rewrite E; exact IH|exact IH].
Qed.

Lemma map_same {A B : Type} (f g : A -> B) l :
  (forall x, In x l -> f x = g x) -> map f l = map g l.
Proof.
  induction l as [|x l IH]; intros H; [reflexivity|]. simpl.
  rewrite (H x (or_introl eq_refl)), IH; [reflexivity|].
  intros y Hy. apply H. right. exact Hy.
Qed.

(** The folder cleanup jobs of a list of ids, run one after the other. *)
Lemma run_cleanups env : forall (ids : list Z) (w : World),
  let w' := fold_left (run_job env) (map JobCleanFolder ids) w in
  Folders (store w')
  = filter (fun r => negb (Db.mem_Z (Folders.Id r) ids)) (Folders (store w))
  /\ disk w' = disk w /\ queue w' = queue w.
Proof.
  induction ids as [|i ids IH]; intros w w'.
  - subst w'. simpl. split; [|split; reflexivity].
    symmetry. apply StoreFacts.filter_all. reflexivity.
  - subst w'. cbn [map fold_left].
    destruct (IH (run_job env w (JobCleanFolder i))) as (F & D & Q).
    cbv zeta in F. rewrite F, D, Q.
    split; [|split; reflexivity].
    cbn [run_job with_store store cleanFolder Db.deleteFolderRows snd Folders].
    rewrite filter_and. apply filter_same. intros r _.
    unfold Db.mem_Z. cbn [existsb]. rewrite negb_orb. reflexivity.
Qed.

End HealFacts.

(** X24.  The folder listing settles.  In a table with distinct folder ids,
    [GET /api/folders] hands the queue one cleanup job for each listed folder
    whose directory is missing; once these jobs have run, the folders left
    are those of the table without the missing ones, and the same request
    answers as it did the first time, enqueues nothing and changes
    nothing. *)
Theorem X24_folder_listing_settles :
  forall (env : Env) (w : World) (parentId : option Z),
    distinct (map Folders.Id (Folders (store w))) = true ->
    let stale :=
      filter (fun r => negb (Disk.access (cwd env) (disk w)
                               (fullPathToPhysical env (Folders.FullPath (folder r)))))
             (selectChildFolders (store w) parentId) in
    let cleanups := map (fun r => JobCleanFolder (Folders.Id (folder r))) stale in
    let w1 := fst (listFolders env w parentId) in
    let w2 := fold_left (run_job env) cleanups w1 in
    queue w1 = JobQueue.run job_behaviour (queue w) (map (@JobQueue.Enqueue job) cleanups)
    /\ (forall r, In r (Folders (store w2)) <->
                  In r (Folders (store w))
                  /\ ~ In (Folders.Id r) (map (fun s => Folders.Id (folder s)) stale))
    /\ listFolders env w2 parentId = (w2, snd (listFolders env w parentId)).
Proof.
  intros env w parentId Hd stale cleanups w1 w2.
  set (passes := fun r : FolderListing =>
                   Disk.access (cwd env) (disk w)
                     (fullPathToPhysical env (Folders.FullPath (folder r)))) in *.
  set (passesF := fun f : Folders.row =>
                    Disk.access (cwd env) (disk w)
                      (fullPathToPhysical env (Folders.FullPath f))).
  set (matches := fun f : Folders.row =>
                    match parentId with
                    | None => match Folders.ParentId f with None => true | Some _ => false end
                    | Some _ => Db.sql_eq (Folders.ParentId f) parentId
                    end).
  set (mk := fun (st : Store) (f : Folders.row) =>
               {| folder := f;
                  HasChildren :=
                    existsb (fun c => Db.sql_eq (Folders.ParentId c) (Some (Folders.Id f)))
                            (Folders st) |}).
  set (le := fun a b : FolderListing =>
               String.leb (Folders.Name (folder a)) (Folders.Name (folder b))).
  assert (Sel : forall st, selectChildFolders st parentId
                           = sort_stable le (map (mk st) (filter matches (Folders st))))
    by reflexivity.
  assert (L1 : listFolders env w parentId
               = (fold_left enqueue_job cleanups w,
                  Ok200 (filter passes (selectChildFolders (store w) parentId)))).
  { unfold listFolders. rewrite ListingFacts.probe_rows_spec. reflexivity. }
  assert (Tot : forall a b, le a b = true \/ le b a = true)
    by (intros a b; apply String.leb_total).
  assert (Tr : forall a b c, le a b = true -> le b c = true -> le a c = true)
    by (intros a b c; apply HealFacts.leb_trans).
  set (ids := map (fun s => Folders.Id (folder s)) stale).
  assert (Ec : cleanups = map JobCleanFolder ids).
  { subst cleanups ids. rewrite map_map. reflexivity. }
  destruct (HealFacts.run_cleanups env ids w1) as (F & D & Q).
  cbv zeta in F. rewrite <- Ec in F, D, Q. fold w2 in F, D, Q.
  assert (S1 : store w1 = store w /\ disk w1 = disk w).
  { subst w1. rewrite L1. cbn [fst]. rewrite ListingFacts.fold_enqueue_job.
    split; reflexivity. }
  destruct S1 as [S1 D1]. rewrite S1 in F. rewrite D1 in D.
  (* the ids of the missing folders are those of the rows that match and fail
     the probe *)
  assert (Stale : forall f, In f (Folders (store w)) ->
                    Db.mem_Z (Folders.Id f) ids = matches f && negb (passesF f)).
  { intros f Hf. apply eq_true_iff_eq. rewrite SyncFacts.mem_Z_In, andb_true_iff.
    subst ids stale. rewrite Sel. split.
    - intros H. apply in_map_iff in H. destruct H as (s & Es & Hs).
      apply filter_In in Hs. destruct Hs as [Hs Hp].
      apply TagStoreFacts.sort_stable_In in Hs. apply in_map_iff in Hs.
      destruct Hs as (g & Eg & Hg). apply filter_In in Hg. destruct Hg as [Hg Hm].
      subst s. cbn [folder mk] in Es, Hp.
      assert (E : g = f).
      { pose proof (SyncFacts.distinct_unique Folders.Id _ f Hd Hf) as U.
        assert (Hin : In g (filter (fun y => Z.eqb (Folders.Id y) (Folders.Id f))
                                   (Folders (store w)))).
        { apply filter_In. split; [exact Hg|]. apply Z.eqb_eq. exact Es. }
        rewrite U in Hin. destruct Hin as [<-|[]]. reflexivity. }
      subst g. split; [exact Hm|exact Hp].
    - intros [Hm Hp]. apply in_map_iff. exists (mk (store w) f). split; [reflexivity|].
      apply filter_In. split; [|exact Hp].
      apply TagStoreFacts.sort_stable_In. apply in_map. apply filter_In.
      split; assumption. }
  split.
  { subst w1. rewrite L1. cbn [fst]. rewrite ListingFacts.fold_enqueue_job. reflexivity. }
  split.
  { intros r. rewrite F, filter_In. split.
    - intros [Hr Hn]. split; [exact Hr|]. intros Hin.
      apply SyncFacts.mem_Z_In in Hin. rewrite Hin in Hn. discriminate.
    - intros [Hr Hn]. split; [exact Hr|]. apply negb_true_iff.
      apply not_true_iff_false. intros Hin. apply Hn, SyncFacts.mem_Z_In, Hin. }
  (* the rows the second request selects are the rows the first one answered *)
  assert (Rows : selectChildFolders (store w2) parentId
                 = filter passes (selectChildFolders (store w) parentId)).
  { rewrite !Sel. rewrite (HealFacts.filter_sort le Tot Tr).
    rewrite HealFacts.filter_map. rewrite F.
    assert (Efl : filter matches
                    (filter (fun r => negb (Db.mem_Z (Folders.Id r) ids)) (Folders (store w)))
                  = filter (fun a => passes (mk (store w) a))
                           (filter matches (Folders (store w)))).
    { rewrite SyncFacts.filter_comm, !HealFacts.filter_and.
      apply HealFacts.filter_same. intros f Hf. rewrite (Stale f Hf).
      subst passes passesF. cbn [folder mk].
      destruct (matches f), (Disk.access (cwd env) (disk w)
                               (fullPathToPhysical env (Folders.FullPath f)));
        reflexivity. }
    rewrite Efl. f_equal. apply HealFacts.map_same. intros k Hk.
    apply filter_In in Hk. destruct Hk as [Hk Hpass].
    apply filter_In in Hk. destruct Hk as [Hk Hmatch].
    unfold mk. f_equal. rewrite F.
    apply eq_true_iff_eq. rewrite !existsb_exists. split.
    - intros (c & Hc & E). apply filter_In in Hc. exists c. split; [apply Hc|exact E].
    - intros (c & Hc & E).
      destruct (Db.mem_Z (Folders.Id c) ids) eqn:Em.
      + (* a missing child of [k]: then [k] is its own parent *)
        rewrite (Stale c Hc) in Em. apply andb_true_iff in Em. destruct Em as [Mc _].
        exists k. split.
        * apply filter_In. split; [exact Hk|]. rewrite (Stale k Hk).
          assert (Hp : passesF k = true) by exact Hpass.
          rewrite Hp, andb_false_r. reflexivity.
        * subst matches. cbn beta in Mc, Hmatch.
          destruct parentId as [p|].
          -- destruct (Folders.ParentId c) as [pc|]; [|discriminate].
             cbn [Db.sql_eq] in E, Mc. apply Z.eqb_eq in E, Mc. subst pc p.
             exact Hmatch.
          -- destruct (Folders.ParentId c); discriminate.
      + exists c. split; [|exact E]. apply filter_In. split; [exact Hc|].
        rewrite Em. reflexivity. }
  unfold listFolders at 1. rewrite ListingFacts.probe_rows_spec. rewrite D, Rows.
  fold passes. rewrite StoreFacts.filter_idem.
  rewrite (HealFacts.filter_kept_none passes). cbn [map fold_left].
  rewrite L1. reflexivity.
Qed.

Lemma X24_folder_listing_settles_witness :
  let w := Fixtures.world_of Fixtures.store_drafts Fixtures.disk_empty_root in
  let w1 := fst (listFolders Fixtures.env0 w (Some 1%Z)) in
  let w2 := fold_left (run_job Fixtures.env0) [JobCleanFolder 2] w1 in
  distinct (map Folders.Id (Folders (store w))) = true
  /\ JobQueue.backlog (queue w1) = [JobCleanFolder 2]
  /\ Folders (store w2) = [Fixtures.root_row]
  /\ listFolders Fixtures.env0 w2 (Some 1%Z) = (w2, Ok200 []).
Proof.
  intros w w1 w2.
  assert (H : distinct (map Folders.Id (Folders (store w))) = true) by reflexivity.
  destruct (X24_folder_listing_settles Fixtures.env0 w (Some 1%Z) H) as (_ & _ & L).
  split; [exact H|]. split; [reflexivity|]. split; [reflexivity|]. exact L.
Defined.

(** ** Creating a folder, then listing *)

Module CreateFacts.

(** The row of a folder just created is in the table, under the parent it
    was given, and its directory is on the disk. *)
Lemma created env w w' name parentId row :
  createFolder env w name parentId = (w', Created201 row) ->
  In row (Folders (store w'))
  /\ Disk.access (cwd env) (disk w') (fullPathToPhysical env (Folders.FullPath row)) = true
  /\ match Folders.ParentId row with
     | Some pid => truthy_id parentId = Some pid
     | None => truthy_id parentId = None
     end.
Proof.
  intros H. unfold createFolder in H.
  destruct (Str.blank name); [discriminate|].
  destruct (truthy_id parentId) as [pid|] eqn:Et.
  - destruct (Db.folderById (store w) pid) as [|p ps] eqn:Ep; [discriminate|].
    destruct (ensureDiskFolder env (disk w) (Folders.FullPath p +++ "/" +++ name))
      as [d'|] eqn:Ed; [|discriminate].
    cbn [Db.insertFolder] in H. inversion H; subst w' row. clear H.
    cbn [store disk Folders Folders.ParentId Folders.FullPath].
    assert (Hp : In p (Folders (store w)) /\ Folders.Id p = pid).
    { apply TreeFacts.folderById_In. rewrite Ep. left. reflexivity. }
    destruct Hp as [_ Hpid].
    split; [apply in_or_app; right; left; reflexivity|].
    split; [|rewrite Hpid; reflexivity].
    destruct (MkdirFacts.mkdir_p_lookup _ _ _ Ed) as (r & es & L).
    unfold Disk.access, Disk.at_path. cbn [String.append] in L |- *.
    rewrite L. reflexivity.
  - destruct (ensureDiskFolder env (disk w) ("/root" +++ "/" +++ name))
      as [d'|] eqn:Ed; [|discriminate].
    cbn [Db.insertFolder] in H. inversion H; subst w' row. clear H.
    cbn [store disk Folders Folders.ParentId Folders.FullPath].
    split; [apply in_or_app; right; left; reflexivity|].
    split; [|reflexivity].
    destruct (MkdirFacts.mkdir_p_lookup _ _ _ Ed) as (r & es & L).
    unfold Disk.access, Disk.at_path. cbn [String.append] in L |- *.
    rewrite L. reflexivity.
Qed.

End CreateFacts.

(** X25.  A folder just created is listed.  After a [POST /api/folders] that
    answered 201, [GET /api/folders] for the parent recorded in the new row
    (no [parentId] for a row without parent) answers 200 with a list that
    holds the new folder, and every folder of the answer is a folder of the
    table whose directory is on the disk. *)
Theorem X25_created_folder_is_listed :
  forall (env : Env) (w w' : World) (name : string) (parentId : option Z)
         (row : Folders.row),
    createFolder env w name parentId = (w', Created201 row) ->
    exists body,
      snd (listFolders env w' (Folders.ParentId row)) = Ok200 body
      /\ (exists l, In l body /\ folder l = row)
      /\ forall l, In l body ->
           In (folder l) (Folders (store w'))
           /\ Disk.access (cwd env) (disk w')
                (fullPathToPhysical env (Folders.FullPath (folder l))) = true.
Proof.
  intros env w w' name parentId row H.
  destruct (CreateFacts.created env w w' name parentId row H) as (Hin & Hacc & _).
  unfold listFolders. rewrite ListingFacts.probe_rows_spec. cbn [snd].
  eexists. split; [reflexivity|]. split.
  - eexists {| folder := row; HasChildren := _ |}. split; [|reflexivity].
    apply filter_In. split; [|exact Hacc].
    unfold selectChildFolders. apply TagStoreFacts.sort_stable_In.
    apply in_map_iff. exists row. split; [reflexivity|].
    apply filter_In. split; [exact Hin|].
    destruct (Folders.ParentId row) as [pid|]; [|reflexivity].
    cbn [Db.sql_eq]. apply Z.eqb_refl.
  - intros l Hl. apply filter_In in Hl. destruct Hl as [Hl Ha]. split; [|exact Ha].
    unfold selectChildFolders in Hl. apply TagStoreFacts.sort_stable_In in Hl.
    apply in_map_iff in Hl. destruct Hl as (f & <- & Hf).
    apply filter_In in Hf. apply Hf.
Qed.

Lemma X25_created_folder_is_listed_witness :
  let w := Fixtures.world_of Fixtures.store_root Fixtures.disk_empty_root in
  let r := createFolder Fixtures.env0 w "drafts" (Some 1%Z) in
  let row := Fixtures.folder_row 100 "drafts" (Some 1%Z) "/root/drafts" in
  snd r = Created201 row
  /\ exists body,
       snd (listFolders Fixtures.env0 (fst r) (Some 1%Z)) = Ok200 body
       /\ exists l, In l body /\ folder l = row.
Proof.
  intros w r row.
  assert (H : createFolder Fixtures.env0 w "drafts" (Some 1%Z) = (fst r, Created201 row))
    by reflexivity.
  destruct (X25_created_folder_is_listed Fixtures.env0 w (fst r) "drafts" (Some 1%Z) row H)
    as (body & B & L & _).
  split; [reflexivity|]. exists body. split; [exact B|exact L].
Defined.
